(** * The Landscape client message store and its sequence reconciliation

    A shallow embedding of [landscape/broker/store.py] (class
    [MessageStore]) together with the sequence reconciler that the
    specification describes in its section 4.2.

    - Python strings are [String.string]; the handful of [str] methods the
      store uses ([endswith], [split], [in], [int], [str], [sorted(set(..))])
      are written out in module [Py].
    - The directory tree below [self._directory] is an association list of
      shard directories, each an association list of files; a file carries
      its inode number and its content.  Module [os] holds the calls of the
      Python [os] module the store makes.
    - Methods are state-passing functions in a small state-and-exception
      monad: a raised exception keeps the mutations made before it.
    - A generator consumed by a [for] loop is a higher-order loop: the
      directory listings happen when the loop reaches them, as they do in
      Python. *)

From Stdlib Require Import List String Ascii NArith ZArith Lia Bool Sorted.
From Stdlib Require Permutation OrderedTypeEx.
From Stdlib Require Import DecimalString DecimalN DecimalPos.
Import ListNotations.

Local Open Scope list_scope.

(* ================================================================== *)
(** ** The sequence reconciler (specification, section 4.2) *)

Module Reconciler.

Local Open Scope Z_scope.

(** Modelled from the spec: the function [reconcile] of section 4.2.  The
    repository keeps the reconciliation in [landscape.lib.message]
    ([got_next_expected]), which is not among the sources at hand; the
    definition follows the two cases of the specification word for word. *)
Definition reconcile (local_sequence local_pending_offset buffered_count
                      peer_next_expected : Z) : Z * Z :=
  let delta := peer_next_expected - local_sequence in
  if 0 <=? delta then
    (* normal advance *)
    (peer_next_expected, Z.min (local_pending_offset + delta) buffered_count)
  else
    (* regression / loss recovery *)
    (peer_next_expected, Z.max (local_pending_offset + delta) 0).

End Reconciler.

(* ================================================================== *)
(** ** Python string and list helpers *)

Module Py.

Local Open Scope string_scope.

(** [x.endswith(suffix)] *)
Fixpoint endswith (x suffix : string) : bool :=
  if String.eqb x suffix then true
  else match x with
       | EmptyString => false
       | String _ x' => endswith x' suffix
       end.

(** [x.split(sep)] for a one-character separator; never the empty list. *)
Fixpoint split (sep : ascii) (x : string) : list string :=
  match x with
  | EmptyString => [EmptyString]
  | String c x' =>
      if Ascii.eqb c sep then EmptyString :: split sep x'
      else match split sep x' with
           | [] => [String c EmptyString]
           | w :: ws => String c w :: ws
           end
  end.

(** [c in x] for a character [c] *)
Fixpoint contains (c : ascii) (x : string) : bool :=
  match x with
  | EmptyString => false
  | String c' x' => Ascii.eqb c' c || contains c x'
  end.

(** [int(x)] on a string: the value of a non-empty run of decimal digits,
    [None] standing for the [ValueError] Python raises on anything else the
    store could meet in a file name. *)
Definition int (x : string) : option N :=
  match x with
  | EmptyString => None
  | _ => option_map N.of_uint (NilEmpty.uint_of_string x)
  end.

(** [str(n)] on a non-negative integer *)
Definition str (n : N) : string := NilEmpty.string_of_uint (N.to_uint n).

(** Insertion of a character into a sorted duplicate-free string. *)
Fixpoint insert_char (c : ascii) (s : string) : string :=
  match s with
  | EmptyString => String c EmptyString
  | String c' s' =>
      if Ascii.eqb c c' then s
      else if (N_of_ascii c <? N_of_ascii c')%N then String c s
      else String c' (insert_char c s')
  end.

(** ["".join(sorted(set(flags)))] *)
Fixpoint sorted_set (flags : string) : string :=
  match flags with
  | EmptyString => EmptyString
  | String c s' => insert_char c (sorted_set s')
  end.

(** [set(flags) - set(c)] kept as a string of characters *)
Fixpoint discard (c : ascii) (flags : string) : string :=
  match flags with
  | EmptyString => EmptyString
  | String c' s' =>
      if Ascii.eqb c' c then discard c s' else String c' (discard c s')
  end.

(** [exclude & flags] is non-empty *)
Fixpoint intersects (exclude flags : string) : bool :=
  match exclude with
  | EmptyString => false
  | String c e' => contains c flags || intersects e' flags
  end.

(** [x in l] for a list of strings *)
Definition mem (x : string) (l : list string) : bool :=
  existsb (String.eqb x) l.

(** Insertion of a string into a sorted duplicate-free list of strings. *)
Fixpoint insert_str (x : string) (l : list string) : list string :=
  match l with
  | [] => [x]
  | y :: l' =>
      match String.compare x y with
      | Eq => l
      | Lt => x :: l
      | Gt => y :: insert_str x l'
      end
  end.

(** [sorted(set(types))] *)
Fixpoint sorted_set_str (types : list string) : list string :=
  match types with
  | [] => []
  | x :: l => insert_str x (sorted_set_str l)
  end.

(** A stable sort by a natural-number key: [l.sort(key=...)]. *)
Fixpoint insert_by {X : Type} (key : X -> N) (x : X) (l : list X) : list X :=
  match l with
  | [] => [x]
  | y :: l' =>
      if (key x <=? key y)%N then x :: l else y :: insert_by key x l'
  end.

Fixpoint sort_by {X : Type} (key : X -> N) (l : list X) : list X :=
  match l with
  | [] => []
  | x :: l' => insert_by key x (sort_by key l')
  end.

(** All keys of a list, or [None] as soon as one of them raises. *)
Fixpoint keys_of {X : Type} (key : X -> option N) (l : list X)
  : option (list (N * X)) :=
  match l with
  | [] => Some []
  | x :: l' =>
      match key x, keys_of key l' with
      | Some k, Some kl => Some ((k, x) :: kl)
      | _, _ => None
      end
  end.

End Py.

Module sys.

(** [sys.maxsize], the largest index of a container: [2 ** 63 - 1] on a
    64-bit build. *)
Definition maxsize : Z := 9223372036854775807.

End sys.

(* ================================================================== *)
(** ** Exceptions and the state-and-exception monad *)

Inductive exn : Type :=
| KeyError       (* a dictionary lookup failed *)
| InvalidError   (* a schema rejected the fields of a message *)
| ValueError     (* [int] or [islice] on a bad argument *)
| OSError.       (* a path does not exist, or exists when it must not *)

Definition result (A : Type) : Type := (exn + A)%type.

(** A computation over a state [S]: the state after it, and either the
    exception it raised or its value. *)
Definition M (S A : Type) : Type := S -> S * result A.

Definition ret {S A : Type} (a : A) : M S A := fun s => (s, inr a).

Definition raise {S A : Type} (e : exn) : M S A := fun s => (s, inl e).

Definition bind {S A B : Type} (c : M S A) (k : A -> M S B) : M S B :=
  fun s =>
    match c s with
    | (s', inr a) => k a s'
    | (s', inl e) => (s', inl e)
    end.

Declare Scope monad_scope.
Delimit Scope monad_scope with monad.
Notation "x <- c ;; k" := (bind c (fun x => k))
  (at level 61, c at next level, right associativity) : monad_scope.
Notation "c ;;; k" := (bind c (fun _ => k))
  (at level 61, right associativity) : monad_scope.

Local Open Scope monad_scope.

(** [for x in xs: body], with an accumulator for the local variables the
    body updates; the boolean a body returns is [true] when the loop is
    left early ([break], or [return] from inside the loop). *)
Fixpoint for_each {S X A : Type} (xs : list X)
         (body : X -> A -> M S (A * bool)) (acc : A) : M S (A * bool) :=
  match xs with
  | [] => ret (acc, false)
  | x :: xs' =>
      fun s =>
        match body x acc s with
        | (s', inr (acc', false)) => for_each xs' body acc' s'
        | (s', inr (acc', true)) => (s', inr (acc', true))
        | (s', inl e) => (s', inl e)
        end
  end.

(* ================================================================== *)
(** ** The directory tree and the [os] calls *)

Record file : Type := mkfile { st_ino : N; content : string }.

(** A directory lists its entries in the order [os.listdir] reports them. *)
Abbreviation directory := (list (string * file)) (only parsing).

(** The tree below [self._directory]: shard directories holding files, and
    the next inode number the file system hands out. *)
Record filesystem : Type :=
  mkfs { shards : list (string * directory); next_ino : N }.

(** [os.path.join(self._directory, dir, basename)] *)
Abbreviation path := (string * string)%type (only parsing).

Definition path_eqb (p q : path) : bool :=
  String.eqb (fst p) (fst q) && String.eqb (snd p) (snd q).

Fixpoint lookup {V : Type} (k : string) (l : list (string * V)) : option V :=
  match l with
  | [] => None
  | (k', v) :: l' => if String.eqb k' k then Some v else lookup k l'
  end.

Definition remove {V : Type} (k : string) (l : list (string * V))
  : list (string * V) :=
  filter (fun e => negb (String.eqb (fst e) k)) l.

Definition replace_val {V : Type} (k : string) (v : V) (l : list (string * V))
  : list (string * V) :=
  map (fun e => if String.eqb (fst e) k then (k, v) else e) l.

Definition rename_key {V : Type} (k k' : string) (l : list (string * V))
  : list (string * V) :=
  map (fun e => if String.eqb (fst e) k then (k', snd e) else e) l.

Module os.

Definition set_shards (fs : filesystem) (sh : list (string * directory))
  : filesystem :=
  mkfs sh (next_ino fs).

(** [os.listdir(self._message_dir(dir))]: the base directory for [dir = ""].
    The names come in the order the directory holds them, which the store
    cannot rely on: see [relisted]. *)
Definition listdir (dir : string) : M filesystem (list string) :=
  fun fs =>
    if String.eqb dir EmptyString then (fs, inr (map fst (shards fs)))
    else match lookup dir (shards fs) with
         | Some d => (fs, inr (map fst d))
         | None => (fs, inl OSError)
         end.

Definition find (p : path) (fs : filesystem) : option file :=
  match lookup (fst p) (shards fs) with
  | Some d => lookup (snd p) d
  | None => None
  end.

(** [os.stat(p).st_ino] *)
Definition stat_ino (p : path) : M filesystem N :=
  fun fs =>
    match find p fs with
    | Some f => (fs, inr (st_ino f))
    | None => (fs, inl OSError)
    end.

(** [open(p).read()] *)
Definition read (p : path) : M filesystem string :=
  fun fs =>
    match find p fs with
    | Some f => (fs, inr (content f))
    | None => (fs, inl OSError)
    end.

(** [os.unlink(p)] *)
Definition unlink (p : path) : M filesystem unit :=
  fun fs =>
    match lookup (fst p) (shards fs) with
    | Some d =>
        match lookup (snd p) d with
        | Some _ =>
            (set_shards fs (replace_val (fst p) (remove (snd p) d) (shards fs)),
             inr tt)
        | None => (fs, inl OSError)
        end
    | None => (fs, inl OSError)
    end.

(** [os.rmdir(self._message_dir(dir))] *)
Definition rmdir (dir : string) : M filesystem unit :=
  fun fs =>
    match lookup dir (shards fs) with
    | Some [] => (set_shards fs (remove dir (shards fs)), inr tt)
    | _ => (fs, inl OSError)
    end.

(** [os.makedirs(self._message_dir(dir))] *)
Definition makedirs (dir : string) : M filesystem unit :=
  fun fs =>
    match lookup dir (shards fs) with
    | Some _ => (fs, inl OSError)
    | None => (set_shards fs (shards fs ++ [(dir, [])]), inr tt)
    end.

(** [f = open(p, "w"); f.write(data); f.close()]: an existing file is
    truncated and keeps its inode, a new one gets the next inode. *)
Definition write (p : path) (data : string) : M filesystem unit :=
  fun fs =>
    match lookup (fst p) (shards fs) with
    | None => (fs, inl OSError)
    | Some d =>
        match lookup (snd p) d with
        | Some f =>
            (set_shards fs
               (replace_val (fst p)
                  (replace_val (snd p) (mkfile (st_ino f) data) d) (shards fs)),
             inr tt)
        | None =>
            (mkfs (replace_val (fst p)
                     (d ++ [(snd p, mkfile (next_ino fs) data)]) (shards fs))
                  (N.succ (next_ino fs)),
             inr tt)
        end
    end.

(** [os.rename(src, dst)]: an existing [dst] is replaced.  Within one
    directory the entry keeps its place in the listing; across directories
    it leaves the one and is appended to the other. *)
Definition rename (src dst : path) : M filesystem unit :=
  fun fs =>
    match lookup (fst src) (shards fs) with
    | None => (fs, inl OSError)
    | Some sdir =>
        match lookup (snd src) sdir with
        | None => (fs, inl OSError)
        | Some f =>
            if path_eqb src dst then (fs, inr tt)
            else if String.eqb (fst src) (fst dst) then
              (set_shards fs
                 (replace_val (fst src)
                    (rename_key (snd src) (snd dst) (remove (snd dst) sdir))
                    (shards fs)),
               inr tt)
            else
              match lookup (fst dst) (shards fs) with
              | None => (fs, inl OSError)
              | Some ddir =>
                  (set_shards fs
                     (replace_val (fst dst)
                        (remove (snd dst) ddir ++ [(snd dst, f)])
                        (replace_val (fst src) (remove (snd src) sdir)
                           (shards fs))),
                   inr tt)
              end
        end
    end.

End os.

(* ================================================================== *)
(** ** Messages, schemas and the persisted metadata *)

(** A message is a dictionary; the store reads two of its keys, [type]
    and [api].  A message always carries a [type] (the assertion at the
    head of [add]), the [api] tag may be absent. *)
Record Message : Type :=
  mkmsg { msg_type : string;
          msg_api : option string;
          msg_fields : list (string * string) }.

(** What the store imports: [landscape.lib.bpickle] and
    [landscape.SERVER_API].  [loads] answers [None] where the Python
    function raises [ValueError]. *)
Class Imports : Type :=
  { dumps : Message -> string;
    loads : string -> option Message;
    SERVER_API : string }.

(** A [landscape.schema.Message]: its [type], and [coerce], which answers
    [None] where the Python method raises [InvalidError]. *)
Record schema : Type :=
  mkschema { schema_type : string; coerce : Message -> option Message }.

(** The keys of [persist.root_at("message-store")]; [None] is an absent
    key, for which [get] answers its default. *)
Record persist : Type :=
  mkpersist { accepted_types_key : option (list string);
              sequence_key : option Z;
              server_sequence_key : option Z;
              server_uuid_key : option string;
              exchange_token_key : option string;
              pending_offset_key : option Z }.

Definition HELD : ascii := "h"%char.
Definition BROKEN : ascii := "b"%char.

Definition flag (c : ascii) : string := String c EmptyString.

Record MessageStore : Type :=
  mkstore { _directory_size : Z;
            _schemas : list (string * schema);
            _persist : persist;
            _directory : filesystem }.

(** Run a computation on the directory tree of the store. *)
Definition on_directory {A : Type} (c : M filesystem A) : M MessageStore A :=
  fun self =>
    let (fs, r) := c (_directory self) in
    (mkstore (_directory_size self) (_schemas self) (_persist self) fs, r).

Definition set_persist (self : MessageStore) (p : persist) : MessageStore :=
  mkstore (_directory_size self) (_schemas self) p (_directory self).

(* ================================================================== *)
(** ** The methods that work on the directory tree *)

Definition tmp_suffix : string := ".tmp"%string.

(** The key of the sort in [_get_sorted_filenames]:
    [int(x.split("_")[0])] *)
Definition sort_key (x : string) : option N :=
  Py.int (nth 0 (Py.split "_" x) EmptyString).

(** [_get_sorted_filenames(dir)] *)
Definition _get_sorted_filenames (dir : string) : M filesystem (list string) :=
  names <- os.listdir dir ;;
  let message_files :=
    filter (fun x => negb (Py.endswith x tmp_suffix)) names in
  match Py.keys_of sort_key message_files with
  | Some keyed => ret (map snd (Py.sort_by fst keyed))
  | None => raise ValueError
  end.

(** [_get_flags(path)] *)
Definition _get_flags (p : path) : string :=
  let basename := snd p in
  if Py.contains "_" basename then nth 1 (Py.split "_" basename) EmptyString
  else EmptyString.

(** [_get_content(filename)] *)
Definition _get_content (filename : path) : M filesystem string :=
  os.read filename.

(** [_set_flags(path, flags)] *)
Definition _set_flags (p : path) (flags : string) : M filesystem path :=
  let (dirname, basename) := p in
  let new_base := nth 0 (Py.split "_" basename) EmptyString in
  let new_base :=
    match flags with
    | EmptyString => new_base
    | _ => (new_base ++ "_" ++ Py.sorted_set flags)%string
    end in
  let new_path := (dirname, new_base) in
  os.rename p new_path ;;;
  ret new_path.

(** [_add_flags(path, flags)] *)
Definition _add_flags (p : path) (flags : string) : M filesystem unit :=
  _set_flags p (_get_flags p ++ flags)%string ;;;
  ret tt.

(** [_get_next_message_filename()] *)
Definition _get_next_message_filename (directory_size : Z)
  : M filesystem path :=
  message_dirs <- _get_sorted_filenames EmptyString ;;
  newest_dir <-
    match message_dirs with
    | _ :: _ => ret (last message_dirs EmptyString)
    | [] => os.makedirs "0" ;;; ret "0"%string
    end ;;
  message_filenames <- _get_sorted_filenames newest_dir ;;
  match message_filenames with
  | [] => ret (newest_dir, "0"%string)
  | _ :: _ =>
      if (Z.of_nat (List.length message_filenames) <? directory_size)%Z then
        match sort_key (last message_filenames EmptyString) with
        | Some n => ret (newest_dir, Py.str (n + 1))
        | None => raise ValueError
        end
      else
        match Py.int newest_dir with
        | Some n =>
            let newest_dir := Py.str (n + 1) in
            os.makedirs newest_dir ;;;
            ret (newest_dir, "0"%string)
        | None => raise ValueError
        end
  end.

(** The generator [_walk_messages(exclude)], as the loop that consumes it:
    [body] receives each path the generator yields.  The shard names are
    listed when the loop starts and the files of a shard when the loop
    reaches it. *)
Definition _walk_messages {A : Type} (exclude : string)
    (body : path -> A -> M filesystem (A * bool)) (acc : A)
  : M filesystem (A * bool) :=
  message_dirs <- _get_sorted_filenames EmptyString ;;
  for_each message_dirs
    (fun message_dir acc =>
       filenames <- _get_sorted_filenames message_dir ;;
       for_each filenames
         (fun filename acc =>
            let flags := _get_flags (EmptyString, filename) in
            if negb (Py.intersects exclude flags) then
              body (message_dir, filename) acc
            else ret (acc, false))
         acc)
    acc.

(** The generator [_walk_pending_messages()], likewise: the accumulator of
    the inner walk carries the index of [enumerate]. *)
Definition _walk_pending_messages {A : Type} (pending_offset : Z)
    (body : path -> A -> M filesystem (A * bool)) (acc : A)
  : M filesystem (A * bool) :=
  r <- _walk_messages (String HELD (flag BROKEN))
         (fun filename (ia : nat * A) =>
            let (i, acc) := ia in
            if (pending_offset <=? Z.of_nat i)%Z then
              r <- body filename acc ;;
              ret ((S i, fst r), snd r)
            else ret ((S i, acc), false))
         (0%nat, acc) ;;
  ret (snd (fst r), snd r).

(* ================================================================== *)
(** ** The class [MessageStore] *)

Section Store.

Context {imports : Imports}.

(** [commit] flushes the persisted metadata, which this model keeps in the
    store itself. *)
Definition commit : M MessageStore unit := ret tt.

Definition get_accepted_types (self : MessageStore) : list string :=
  match accepted_types_key (_persist self) with Some l => l | None => [] end.

Definition accepts (self : MessageStore) (type : string) : bool :=
  Py.mem type (get_accepted_types self).

Definition get_sequence (self : MessageStore) : Z :=
  match sequence_key (_persist self) with Some n => n | None => 0%Z end.

Definition set_sequence (number : Z) (self : MessageStore) : MessageStore :=
  let p := _persist self in
  set_persist self
    (mkpersist (accepted_types_key p) (Some number) (server_sequence_key p)
       (server_uuid_key p) (exchange_token_key p) (pending_offset_key p)).

Definition get_server_sequence (self : MessageStore) : Z :=
  match server_sequence_key (_persist self) with
  | Some n => n
  | None => 0%Z
  end.

Definition set_server_sequence (number : Z) (self : MessageStore)
  : MessageStore :=
  let p := _persist self in
  set_persist self
    (mkpersist (accepted_types_key p) (sequence_key p) (Some number)
       (server_uuid_key p) (exchange_token_key p) (pending_offset_key p)).

Definition get_server_uuid (self : MessageStore) : option string :=
  server_uuid_key (_persist self).

Definition set_server_uuid (uuid : string) (self : MessageStore)
  : MessageStore :=
  let p := _persist self in
  set_persist self
    (mkpersist (accepted_types_key p) (sequence_key p) (server_sequence_key p)
       (Some uuid) (exchange_token_key p) (pending_offset_key p)).

Definition get_exchange_token (self : MessageStore) : option string :=
  exchange_token_key (_persist self).

Definition set_exchange_token (token : string) (self : MessageStore)
  : MessageStore :=
  let p := _persist self in
  set_persist self
    (mkpersist (accepted_types_key p) (sequence_key p) (server_sequence_key p)
       (server_uuid_key p) (Some token) (pending_offset_key p)).

Definition get_pending_offset (self : MessageStore) : Z :=
  match pending_offset_key (_persist self) with
  | Some n => n
  | None => 0%Z
  end.

Definition set_pending_offset (val : Z) (self : MessageStore) : MessageStore :=
  let p := _persist self in
  set_persist self
    (mkpersist (accepted_types_key p) (sequence_key p) (server_sequence_key p)
       (server_uuid_key p) (exchange_token_key p) (Some val)).

Definition add_pending_offset (val : Z) (self : MessageStore) : MessageStore :=
  set_pending_offset (get_pending_offset self + val)%Z self.

(** [count_pending_messages()] *)
Definition count_pending_messages : M MessageStore nat :=
  fun self =>
    on_directory
      (r <- _walk_pending_messages (get_pending_offset self)
              (fun _ n => ret (S n, false)) 0%nat ;;
       ret (fst r))
      self.

(** The body of the loop of [get_pending_messages]. *)
Definition get_pending_body (max : option Z) (accepted_types : list string)
    (filename : path) (messages : list Message)
  : M filesystem (list Message * bool) :=
  if match max with
     | Some m => (m <=? Z.of_nat (List.length messages))%Z
     | None => false
     end
  then ret (messages, true)
  else
    data <- _get_content filename ;;
    match loads data with
    | None =>
        (* except ValueError: logged *)
        _add_flags filename (flag BROKEN) ;;;
        ret (messages, false)
    | Some message =>
        if negb (Py.mem (msg_type message) accepted_types) then
          _add_flags filename (flag HELD) ;;;
          ret (messages, false)
        else ret (messages ++ [message], false)
    end.

(** [get_pending_messages(max)] *)
Definition get_pending_messages (max : option Z)
  : M MessageStore (list Message) :=
  fun self =>
    let accepted_types := get_accepted_types self in
    on_directory
      (r <- _walk_pending_messages (get_pending_offset self)
              (get_pending_body max accepted_types) [] ;;
       ret (fst r))
      self.

(** The body of the loop of [delete_old_messages]. *)
Definition delete_old_body (fn : path) : M filesystem unit :=
  os.unlink fn ;;;
  let containing_dir := fst fn in
  names <- os.listdir containing_dir ;;
  match names with
  | [] => os.rmdir containing_dir
  | _ :: _ => ret tt
  end.

(** [for x in itertools.islice(gen, stop): body]: [islice] rejects a
    [stop] that is negative or above [sys.maxsize] before it takes any
    item, never starts the generator for [stop = 0], and does not ask it
    for an item beyond the [stop]-th. *)
Definition islice_loop (stop : Z)
    (gen : (path -> nat -> M filesystem (nat * bool)) -> nat ->
           M filesystem (nat * bool))
    (body : path -> M filesystem unit) : M filesystem unit :=
  if (stop <? 0)%Z || (sys.maxsize <? stop)%Z then raise ValueError
  else if (stop =? 0)%Z then ret tt
  else
    gen (fun x taken =>
           body x ;;; ret (S taken, (stop <=? Z.of_nat (S taken))%Z))
        0%nat ;;;
    ret tt.

(** [delete_old_messages()] *)
Definition delete_old_messages : M MessageStore unit :=
  fun self =>
    on_directory
      (islice_loop (get_pending_offset self)
         (_walk_messages (String HELD (flag BROKEN))) delete_old_body)
      self.

(** [delete_all_messages()] *)
Definition delete_all_messages : M MessageStore unit :=
  fun self =>
    on_directory
      (_walk_messages EmptyString
         (fun filename (_ : unit) => os.unlink filename ;;; ret (tt, false))
         tt ;;;
       ret tt)
      (set_pending_offset 0 self).

(** [add_schema(schema)]: [self._schemas[schema.type] = schema] *)
Definition add_schema (s : schema) (self : MessageStore) : MessageStore :=
  let schemas :=
    match lookup (schema_type s) (_schemas self) with
    | Some _ => replace_val (schema_type s) s (_schemas self)
    | None => _schemas self ++ [(schema_type s, s)]
    end in
  mkstore (_directory_size self) schemas (_persist self) (_directory self).

(** The body of the loop of [is_pending]; the accumulator is the counter
    [i] and the value the method returns. *)
Definition is_pending_body (message_id : N) (pending_offset : Z)
    (filename : path) (acc : nat * bool) : M filesystem ((nat * bool) * bool) :=
  let (i, _) := acc in
  let flags := _get_flags filename in
  found <-
    (if Py.contains HELD flags || (pending_offset <=? Z.of_nat i)%Z then
       ino <- os.stat_ino filename ;;
       ret (N.eqb ino message_id)
     else ret false) ;;
  if found then ret ((i, true), true)
  else if negb (Py.contains BROKEN flags) && negb (Py.contains HELD flags)
       then ret ((S i, false), false)
       else ret ((i, false), false).

(** [is_pending(message_id)] *)
Definition is_pending (message_id : N) : M MessageStore bool :=
  fun self =>
    on_directory
      (r <- _walk_messages (flag BROKEN)
              (is_pending_body message_id (get_pending_offset self))
              (0%nat, false) ;;
       ret (snd (fst r)))
      self.

(** [if "api" not in message: message["api"] = self.api] *)
Definition with_api (message : Message) : Message :=
  match msg_api message with
  | Some _ => message
  | None => mkmsg (msg_type message) (Some SERVER_API) (msg_fields message)
  end.

(** The head of [add]: the schema lookup, [coerce], and the default [api]. *)
Definition add_coerce (message : Message) : M MessageStore Message :=
  fun self =>
    match lookup (msg_type message) (_schemas self) with
    | None => (self, inl KeyError)
    | Some s =>
        match coerce s message with
        | None => (self, inl InvalidError)
        | Some message => (self, inr (with_api message))
        end
    end.

(** The middle of [add]: the file name, and the write to [filename.tmp]. *)
Definition add_write_tmp (message_data : string) : M MessageStore path :=
  fun self =>
    on_directory
      (filename <- _get_next_message_filename (_directory_size self) ;;
       os.write (fst filename, (snd filename ++ tmp_suffix)%string)
         message_data ;;;
       ret filename)
      self.

(** The tail of [add]: the rename, the HELD flag, and the identifier. *)
Definition add_publish (type : string) (filename : path) : M MessageStore N :=
  fun self =>
    on_directory
      (os.rename (fst filename, (snd filename ++ tmp_suffix)%string) filename ;;;
       filename <-
         (if negb (accepts self type) then _set_flags filename (flag HELD)
          else ret filename) ;;
       os.stat_ino filename)
      self.

(** [add(message)] *)
Definition add (message : Message) : M MessageStore N :=
  message <- add_coerce message ;;
  filename <- add_write_tmp (dumps message) ;;
  add_publish (msg_type message) filename.

(** The body of the loop of [_reprocess_holding]; the accumulator is
    [offset]. *)
Definition reprocess_body (directory_size pending_offset : Z)
    (accepted_types : list string) (old_filename : path) (offset : Z)
  : M filesystem (Z * bool) :=
  let flags := _get_flags old_filename in
  data <- _get_content old_filename ;;
  match loads data with
  | None =>
      (* except ValueError: logged *)
      if negb (Py.contains HELD flags) then ret ((offset + 1)%Z, false)
      else ret (offset, false)
  | Some message =>
      let accepted := Py.mem (msg_type message) accepted_types in
      if Py.contains HELD flags then
        if accepted then
          new_filename <- _get_next_message_filename directory_size ;;
          os.rename old_filename new_filename ;;;
          _set_flags new_filename (Py.discard HELD flags) ;;;
          ret (offset, false)
        else ret (offset, false)
      else
        (if negb accepted && (pending_offset <=? offset)%Z then
           _set_flags old_filename (flags ++ flag HELD)%string ;;; ret tt
         else ret tt) ;;;
        ret ((offset + 1)%Z, false)
  end.

(** [_reprocess_holding()] *)
Definition _reprocess_holding : M MessageStore unit :=
  fun self =>
    on_directory
      (_walk_messages EmptyString
         (reprocess_body (_directory_size self) (get_pending_offset self)
            (get_accepted_types self))
         0%Z ;;;
       ret tt)
      self.

(** [set_accepted_types(types)] *)
Definition set_accepted_types (types : list string) : M MessageStore unit :=
  fun self =>
    let p := _persist self in
    _reprocess_holding
      (set_persist self
         (mkpersist (Some (Py.sorted_set_str types)) (sequence_key p)
            (server_sequence_key p) (server_uuid_key p)
            (exchange_token_key p) (pending_offset_key p))).

End Store.

(* ================================================================== *)
(** ** Well-formed directory trees and the records they hold *)

(** A name the enumerations leave out. *)
Definition is_tmp (x : string) : bool := Py.endswith x tmp_suffix.

(** The sort key of a name, [0] where [sort_key] raises. *)
Definition key_of (x : string) : N :=
  match sort_key x with Some k => k | None => 0%N end.

(** The entries of a directory that an enumeration visits, in the order it
    visits them. *)
Definition sorted_entries {V : Type} (l : list (string * V))
  : list (string * V) :=
  Py.sort_by (fun e => key_of (fst e))
    (filter (fun e => negb (is_tmp (fst e))) l).

Definition records_of_shard (d : string * directory) : list (path * file) :=
  map (fun e => ((fst d, fst e), snd e)) (sorted_entries (snd d)).

(** Every record of the store with its path, in the order in which
    [_walk_messages()] yields them on a tree that is left alone. *)
Definition view (fs : filesystem) : list (path * file) :=
  flat_map records_of_shard (sorted_entries (shards fs)).

Fixpoint nodupb {X : Type} (eqb : X -> X -> bool) (l : list X) : bool :=
  match l with
  | [] => true
  | x :: l' => negb (existsb (eqb x) l') && nodupb eqb l'
  end.

(** The flag suffixes [_set_flags] writes. *)
Definition canonical_flags (f : string) : bool :=
  String.eqb f "b" || String.eqb f "h" || String.eqb f "bh".

(** The names the store gives to records: digits, or digits, an
    underscore and flags. *)
Definition record_name (x : string) : bool :=
  match Py.split "_" x with
  | [b] => match Py.int b with Some _ => true | None => false end
  | [b; f] =>
      match Py.int b with Some _ => canonical_flags f | None => false end
  | _ => false
  end.

(** The names the store gives to shards: digits. *)
Definition shard_name (x : string) : bool :=
  match Py.int x with Some _ => true | None => false end.

(** No name twice; every name temporary or as the store writes it; no two
    visited names with the same number. *)
Definition wf_names {V : Type} (valid : string -> bool)
    (l : list (string * V)) : bool :=
  nodupb String.eqb (map fst l)
  && forallb (fun e => is_tmp (fst e) || valid (fst e)) l
  && nodupb N.eqb (map (fun e => key_of (fst e)) (sorted_entries l)).

Definition wf_fs (fs : filesystem) : bool :=
  wf_names shard_name (shards fs)
  && forallb (fun d => is_tmp (fst d) || wf_names record_name (snd d))
       (shards fs).

Definition wf_store (self : MessageStore) : bool := wf_fs (_directory self).

(** A run of decimal digits, possibly empty. *)
Definition digits (s : string) : Prop := NilEmpty.uint_of_string s <> None.

(** A record without the HELD and BROKEN flags. *)
Definition unflagged (p : path) : bool :=
  negb (Py.intersects (String HELD (flag BROKEN)) (_get_flags p)).

(* ================================================================== *)
(** ** The store seen as a list of records

    What the methods do to [view], written on the list itself: these are
    the functions the proofs compare the methods with. *)

(** The paths a walk with [exclude] yields. *)
Definition yielded (exclude : string) (p : path) : bool :=
  negb (Py.intersects exclude (_get_flags p)).

(** The record at path [p], moved to [p']. *)
Definition rename_record (p p' : path) (r : path * file) : path * file :=
  if path_eqb (fst r) p then (p', snd r) else r.

(** The base name [_set_flags] renames to. *)
Definition set_flags_name (basename flags : string) : string :=
  let new_base := nth 0 (Py.split "_" basename) EmptyString in
  match flags with
  | EmptyString => new_base
  | _ => (new_base ++ "_" ++ Py.sorted_set flags)%string
  end.

(** The path [_add_flags] renames to. *)
Definition add_flags_path (p : path) (c : ascii) : path :=
  (fst p, set_flags_name (snd p) (_get_flags p ++ flag c)%string).

Definition unflagged_records (v : list (path * file)) : list (path * file) :=
  filter (fun r => unflagged (fst r)) v.

(** The records [_walk_pending_messages] yields. *)
Definition pending (pending_offset : Z) (v : list (path * file))
  : list (path * file) :=
  skipn (Z.to_nat pending_offset) (unflagged_records v).

(** The records [delete_old_messages] unlinks. *)
Definition old_records (pending_offset : Z) (v : list (path * file))
  : list (path * file) :=
  firstn (Z.to_nat pending_offset) (unflagged_records v).

Definition path_in (p : path) (l : list (path * file)) : bool :=
  existsb (fun r => path_eqb (fst r) p) l.

(** The records [delete_old_messages] leaves. *)
Definition without_old (pending_offset : Z) (v : list (path * file))
  : list (path * file) :=
  filter (fun r => negb (path_in (fst r) (old_records pending_offset v))) v.

(** The loop of [is_pending] on the records it walks. *)
Fixpoint is_pending_scan (message_id : N) (pending_offset : Z)
    (recs : list (path * file)) (i : nat) : bool :=
  match recs with
  | [] => false
  | r :: recs' =>
      let flags := _get_flags (fst r) in
      if (Py.contains HELD flags || (pending_offset <=? Z.of_nat i)%Z)
         && N.eqb (st_ino (snd r)) message_id
      then true
      else
        is_pending_scan message_id pending_offset recs'
          (if negb (Py.contains BROKEN flags) && negb (Py.contains HELD flags)
           then S i else i)
  end.

Section Records.

Context {imports : Imports}.

(** [len(messages) >= max] *)
Definition reached (max : option Z) (messages : list Message) : bool :=
  match max with
  | Some m => (m <=? Z.of_nat (List.length messages))%Z
  | None => false
  end.

(** The message a record delivers: it decodes and its type is accepted. *)
Definition deliverable (accepted_types : list string) (r : path * file)
  : option Message :=
  match loads (content (snd r)) with
  | Some message =>
      if Py.mem (msg_type message) accepted_types then Some message else None
  | None => None
  end.

(** The loop of [get_pending_messages] on the pending records [todo]: the
    messages it returns and the records it leaves. *)
Fixpoint scan_pending (max : option Z) (accepted_types : list string)
    (todo : list (path * file)) (messages : list Message)
    (v : list (path * file)) : list Message * list (path * file) :=
  match todo with
  | [] => (messages, v)
  | r :: todo' =>
      if reached max messages then (messages, v)
      else
        match loads (content (snd r)) with
        | None =>
            scan_pending max accepted_types todo' messages
              (map (rename_record (fst r) (add_flags_path (fst r) BROKEN)) v)
        | Some message =>
            if negb (Py.mem (msg_type message) accepted_types) then
              scan_pending max accepted_types todo' messages
                (map (rename_record (fst r) (add_flags_path (fst r) HELD)) v)
            else
              scan_pending max accepted_types todo' (messages ++ [message]) v
        end
  end.

(** [messages[:max]] for the bound of [get_pending_messages] *)
Definition up_to (max : option Z) (messages : list Message) : list Message :=
  match max with
  | Some m => firstn (Z.to_nat m) messages
  | None => messages
  end.

(** The messages the records of a list deliver, in their order. *)
Fixpoint deliveries (accepted_types : list string) (recs : list (path * file))
  : list Message :=
  match recs with
  | [] => []
  | r :: recs' =>
      match deliverable accepted_types r with
      | Some message => message :: deliveries accepted_types recs'
      | None => deliveries accepted_types recs'
      end
  end.

End Records.

(** A computation that leaves shard [d] of the tree as it is. *)
Definition leaves_shard (d : string) {A : Type} (c : M filesystem A) : Prop :=
  forall fs, lookup d (shards (fst (c fs))) = lookup d (shards fs).

(** The paths a walk has still to visit when it is in shard [d] with the
    names [rest] to go and the shards [L] after it. *)
Definition ahead (L : list string) (d : string) (rest : list string)
  : path -> bool :=
  fun p => Py.mem (fst p) L || (String.eqb (fst p) d && Py.mem (snd p) rest).

(** The paths still to visit once [p] has been. *)
Definition after_visit (a : path -> bool) (p : path) : path -> bool :=
  fun q => a q && negb (path_eqb q p).

(** The unflagged records a walk is past, [a] telling the paths still to
    visit. *)
Definition passed_unflagged (a : path -> bool) (v : list (path * file))
  : list (path * file) :=
  filter (fun r => unflagged (fst r) && negb (a (fst r))) v.

(** No record carries the BROKEN flag. *)
Definition none_broken (v : list (path * file)) : Prop :=
  forall r, In r v -> Py.contains BROKEN (_get_flags (fst r)) = false.

(** The invariant of the loop of [_reprocess_holding] in a store without
    BROKEN records: the unflagged records number [pending_offset] at least,
    and those the walk is past its running offset at least, up to
    [pending_offset]. *)
Definition reprocess_invariant (pending_offset : Z) (a : path -> bool)
    (offset : Z) (fs : filesystem) : Prop :=
  none_broken (view fs)
  /\ (pending_offset <=
      Z.of_nat (List.length (unflagged_records (view fs))))%Z
  /\ (Z.min offset pending_offset <=
      Z.of_nat (List.length (passed_unflagged a (view fs))))%Z.

(** The tree between the two halves of [add]: the temporary file of
    [filename] is written in the last shard of the enumeration, and
    [filename] is a plain name with a number above every record there. *)
Definition tmp_written (fs : filesystem) (filename : path) (f : file) : Prop :=
  exists before dir k,
    sorted_entries (shards fs) = before ++ [(fst filename, dir)]
    /\ lookup (snd filename ++ tmp_suffix)%string dir = Some f
    /\ Py.int (snd filename) = Some k
    /\ (forall e, In e (sorted_entries dir) -> (key_of (fst e) < k)%N).

Section Relations.

Context {imports : Imports}.

(** What [get_pending_messages] may do to a record [r], leaving [r']: the
    file stays, and the path stays or gains the flag of the record's
    class, which only pending records ([todo]) do. *)
Definition reclassified (accepted_types : list string)
    (todo : list (path * file)) (r r' : path * file) : Prop :=
  snd r' = snd r
  /\ (fst r' = fst r
      \/ exists t, In t todo /\ fst t = fst r
           /\ ((loads (content (snd t)) = None
                /\ fst r' = add_flags_path (fst r) BROKEN)
               \/ (exists message,
                      loads (content (snd t)) = Some message
                      /\ Py.mem (msg_type message) accepted_types = false
                      /\ fst r' = add_flags_path (fst r) HELD))).

(** The messages a sequence of [add] calls stores, as they are stored. *)
Fixpoint stored_messages (schemas : list (string * schema))
    (messages : list Message) : list Message :=
  match messages with
  | [] => []
  | message :: rest =>
      match lookup (msg_type message) schemas with
      | Some s =>
          match coerce s message with
          | Some coerced => with_api coerced :: stored_messages schemas rest
          | None => stored_messages schemas rest
          end
      | None => stored_messages schemas rest
      end
  end.

End Relations.

Section Again.

Context {imports : Imports}.

(** The pending records that the loop of [get_pending_messages] leaves
    without a flag: those it delivers, and those it does not reach. *)
Fixpoint still_pending (max : option Z) (accepted_types : list string)
    (todo : list (path * file)) (messages : list Message)
  : list (path * file) :=
  match todo with
  | [] => []
  | r :: todo' =>
      if reached max messages then todo
      else
        match deliverable accepted_types r with
        | Some message =>
            r :: still_pending max accepted_types todo' (messages ++ [message])
        | None => still_pending max accepted_types todo' messages
        end
  end.

End Again.

(** The files of a directory with their paths, the temporary files
    included. *)
Definition shard_entries (sh : string * directory) : list (path * file) :=
  map (fun e => ((fst sh, fst e), snd e)) (snd sh).

(** Every file of the tree with its path. *)
Definition entries (fs : filesystem) : list (path * file) :=
  flat_map shard_entries (shards fs).

Definition inode (e : path * file) : N := st_ino (snd e).

(** The tree as a file system keeps it: no name twice in a directory, no
    inode twice, and the inodes to come unused. *)
Definition fs_ok (fs : filesystem) : Prop :=
  NoDup (map fst (shards fs))
  /\ (forall d dir, In (d, dir) (shards fs) -> NoDup (map fst dir))
  /\ NoDup (map inode (entries fs))
  /\ forall e, In e (entries fs) -> (inode e < next_ino fs)%N.

(** A computation that keeps a property of the tree, whatever it
    returns. *)
Definition keeps (Q : filesystem -> Prop) {A : Type} (c : M filesystem A)
  : Prop :=
  forall fs, Q fs -> Q (fst (c fs)).

(** The records of shard [d]. *)
Definition shard_count (d : string) (v : list (path * file)) : nat :=
  List.length (filter (fun r => String.eqb (fst (fst r)) d) v).

(** No shard holds more than [directory_size] records. *)
Definition shards_bounded (self : MessageStore) : Prop :=
  forall d,
    (Z.of_nat (shard_count d (view (_directory self)))
     <= _directory_size self)%Z.

(** The calls a user of the store makes. *)
Inductive operation : Type :=
| Add (message : Message)
| GetPendingMessages (max : option Z)
| CountPendingMessages
| IsPending (message_id : N)
| DeleteOldMessages
| DeleteAllMessages
| SetAcceptedTypes (types : list string)
| AddSchema (s : schema)
| SetSequence (number : Z)
| SetServerSequence (number : Z)
| SetServerUuid (uuid : string)
| SetExchangeToken (token : string)
| SetPendingOffset (val : Z)
| AddPendingOffset (val : Z)
| Commit.

(** The store a call leaves, and the exception it raised if any. *)
Definition outcome {A : Type} (r : MessageStore * result A)
  : MessageStore * option exn :=
  (fst r, match snd r with inl e => Some e | inr _ => None end).

Section Operations.

Context {imports : Imports}.

Definition perform (op : operation) (self : MessageStore)
  : MessageStore * option exn :=
  match op with
  | Add message => outcome (add message self)
  | GetPendingMessages max => outcome (get_pending_messages max self)
  | CountPendingMessages => outcome (count_pending_messages self)
  | IsPending message_id => outcome (is_pending message_id self)
  | DeleteOldMessages => outcome (delete_old_messages self)
  | DeleteAllMessages => outcome (delete_all_messages self)
  | SetAcceptedTypes types => outcome (set_accepted_types types self)
  | AddSchema s => (add_schema s self, None)
  | SetSequence number => (set_sequence number self, None)
  | SetServerSequence number => (set_server_sequence number self, None)
  | SetServerUuid uuid => (set_server_uuid uuid self, None)
  | SetExchangeToken token => (set_exchange_token token self, None)
  | SetPendingOffset val => (set_pending_offset val self, None)
  | AddPendingOffset val => (add_pending_offset val self, None)
  | Commit => outcome (commit self)
  end.

(** A sequence of calls, whatever each raised. *)
Fixpoint perform_all (ops : list operation) (self : MessageStore)
  : MessageStore :=
  match ops with
  | [] => self
  | op :: ops' => perform_all ops' (fst (perform op self))
  end.

End Operations.

(** [MessageStore(persist, directory, directory_size)] on an empty
    directory, with the schemas added afterwards. *)
Definition new_store (directory_size : Z) (schemas : list (string * schema))
    (p : persist) (first_ino : N) : MessageStore :=
  mkstore directory_size schemas p (mkfs [] first_ino).

(** The exceptions of [add] that the specification calls SchemaError: the
    unknown type and the invalid fields. *)
Definition SchemaError (e : exn) : Prop := e = KeyError \/ e = InvalidError.

(** The number of unflagged records resident in the store. *)
Definition count_unflagged (self : MessageStore) : Z :=
  Z.of_nat (List.length (unflagged_records (view (_directory self)))).

(** The invariant of the pending offset. *)
Definition offset_invariant (self : MessageStore) : Prop :=
  (0 <= get_pending_offset self <= count_unflagged self)%Z.

(** The base name [_get_next_message_filename] picks in a shard with
    the entries [dir] that is not full: [0] in a shard without records, one
    above the number of the last record otherwise. *)
Definition chosen (directory_size : Z) (dir : directory) (n : string) : Prop :=
  match sorted_entries dir with
  | [] => n = "0"%string
  | e :: s =>
      (Z.of_nat (List.length (e :: s)) <? directory_size)%Z = true
      /\ exists k, sort_key (fst (last (e :: s) e)) = Some k
                   /\ n = Py.str (k + 1)
  end.

Section Crash.

Context {imports : Imports}.

(** [add(message)], interrupted between the write of the temporary file
    and the rename. *)
Definition add_until_crash (message : Message) : M MessageStore path :=
  message <- add_coerce message ;;
  add_write_tmp (dumps message).

End Crash.

(** The same tree listed in another order.  [os.listdir] reports the names
    of a directory in arbitrary order: the shards, and the files of each
    shard, may stand in any order, and the order may change from one call
    to the next. *)
Definition relisted (fs fs' : filesystem) : Prop :=
  next_ino fs' = next_ino fs
  /\ exists sh,
       Permutation.Permutation (shards fs) sh
       /\ Forall2 (fun a b => fst a = fst b
                              /\ Permutation.Permutation (snd a) (snd b))
            sh (shards fs').

Section Built.

Context {imports : Imports}.

(** The stores that a sequence of [add] calls leaves on an empty
    directory, [messages] being the arguments of the calls that returned or
    raised, in the order of the calls.  Between two calls the file system
    may list the directories in another order, and a further call may have
    been interrupted between the write of its temporary file and the
    rename. *)
Inductive built_by (directory_size : Z) (schemas : list (string * schema))
    (p : persist) (first_ino : N) : list Message -> MessageStore -> Prop :=
| built_new :
    built_by directory_size schemas p first_ino []
      (new_store directory_size schemas p first_ino)
| built_add messages self message :
    built_by directory_size schemas p first_ino messages self ->
    built_by directory_size schemas p first_ino (messages ++ [message])
      (fst (add message self))
| built_relisted messages self fs' :
    built_by directory_size schemas p first_ino messages self ->
    relisted (_directory self) fs' ->
    built_by directory_size schemas p first_ino messages
      (mkstore (_directory_size self) (_schemas self) (_persist self) fs')
| built_interrupted messages self message :
    built_by directory_size schemas p first_ino messages self ->
    built_by directory_size schemas p first_ino messages
      (fst (add_until_crash message self)).

End Built.

(* ================================================================== *)
(** ** A small store, for the examples *)

Module Example.

(** A toy [bpickle]: a record holds the type of its message, and the
    content [corrupt] does not decode. *)
Definition toy_imports : Imports :=
  {| dumps := msg_type;
     loads := fun data =>
       if String.eqb data "corrupt" then None
       else Some (mkmsg data (Some "3.2"%string) []);
     SERVER_API := "3.2" |}.

(** A schema that accepts every message of its type as it is. *)
Definition any_schema (type : string) : string * schema :=
  (type, mkschema type (fun message => Some message)).

(** A schema that rejects every message of its type. *)
Definition no_schema (type : string) : string * schema :=
  (type, mkschema type (fun _ => None)).

Definition metadata (accepted : list string) (offset : Z) : persist :=
  mkpersist (Some accepted) None None None None (Some offset).

Definition record (name data : string) (ino : N) : string * file :=
  (name, mkfile ino data).

(** Three deliverable records, the first of them sent already. *)
Definition three_records : MessageStore :=
  mkstore 1000 [any_schema "a"; any_schema "b"; no_schema "c"]
    (metadata ["a"; "b"; "c"]%string 1)
    (mkfs [("0"%string,
            [record "0" "a" 1; record "1" "b" 2; record "2" "c" 3])] 4).

(** One record, sent already. *)
Definition one_sent : MessageStore :=
  mkstore 1000 [any_schema "a"] (metadata ["a"%string] 1)
    (mkfs [("0"%string, [record "0" "a" 1])] 2).

(** One pending record whose content does not decode. *)
Definition one_corrupt : MessageStore :=
  mkstore 1000 [any_schema "a"] (metadata ["a"%string] 0)
    (mkfs [("0"%string, [record "0" "corrupt" 1])] 2).

(** A record flagged BROKEN, then one record sent already. *)
Definition broken_then_sent : MessageStore :=
  mkstore 1000 [any_schema "a"] (metadata ["a"%string] 1)
    (mkfs [("0"%string, [record "0_b" "corrupt" 1; record "1" "a" 2])] 3).

(** A held record of type [b], which the peer does not accept. *)
Definition one_held : MessageStore :=
  mkstore 2 [any_schema "a"; any_schema "b"] (metadata ["a"%string] 0)
    (mkfs [("0"%string, [record "0" "a" 1; record "1_h" "b" 2])] 3).

End Example.

(* ================================================================== *)
(** * Proofs *)

(* ================================================================== *)
(** * Part II: proofs *)

(** ** File names *)

Section Names.

Local Open Scope string_scope.

Lemma digits_cons c s :
  digits (String c s) ->
  digits s /\ c <> "_"%char /\ c <> "."%char.
Proof.
  unfold digits; simpl. intros H.
  destruct (NilEmpty.uint_of_string s) as [d|] eqn:E.
  - split; [discriminate|].
    split; intros ->; apply H; reflexivity.
  - exfalso. apply H.
    destruct c as [[] [] [] [] [] [] [] []]; reflexivity.
Qed.

Lemma int_digits s k : Py.int s = Some k -> digits s /\ s <> "".
Proof.
  unfold Py.int, digits. destruct s; [discriminate|].
  intros H. split; [|discriminate].
  intros E. rewrite E in H. discriminate.
Qed.

Lemma int_str n : Py.int (Py.str n) = Some n.
Proof.
  unfold Py.int, Py.str.
  rewrite NilEmpty.usu. simpl.
  rewrite DecimalN.Unsigned.of_to.
  destruct (NilEmpty.string_of_uint (N.to_uint n)) eqn:E; [|reflexivity].
  exfalso.
  assert (Hs : NilEmpty.uint_of_string (NilEmpty.string_of_uint (N.to_uint n))
               = Some Decimal.Nil) by (rewrite E; reflexivity).
  rewrite NilEmpty.usu in Hs. injection Hs as Hs.
  destruct n; simpl in Hs; [discriminate|].
  exact (DecimalPos.Unsigned.to_uint_nonnil _ Hs).
Qed.

Lemma is_tmp_digits_app b s : digits b -> is_tmp (b ++ s) = is_tmp s.
Proof.
  induction b as [|c b IH]; intros Hb; [reflexivity|].
  apply digits_cons in Hb. destruct Hb as (Hb & _ & Hdot).
  rewrite <- (IH Hb). unfold is_tmp, tmp_suffix. simpl.
  destruct (Ascii.eqb c ".") eqn:E; [|reflexivity].
  apply Ascii.eqb_eq in E. contradiction.
Qed.

Lemma contains_digits_app b s :
  digits b -> Py.contains "_" (b ++ s) = Py.contains "_" s.
Proof.
  induction b as [|c b IH]; intros Hb; [reflexivity|].
  apply digits_cons in Hb. destruct Hb as (Hb & Hus & _).
  simpl. rewrite (IH Hb).
  destruct (Ascii.eqb c "_") eqn:E; [|reflexivity].
  apply Ascii.eqb_eq in E. contradiction.
Qed.

Lemma split_nonempty sep x : Py.split sep x <> [].
Proof.
  destruct x as [|c x]; simpl; [discriminate|].
  destruct (Ascii.eqb c sep); [discriminate|].
  destruct (Py.split sep x); discriminate.
Qed.

Lemma split_digits_app b s :
  digits b ->
  Py.split "_" (b ++ s) =
  match Py.split "_" s with
  | w :: ws => (b ++ w) :: ws
  | [] => []
  end.
Proof.
  induction b as [|c b IH]; intros Hb.
  - simpl. destruct (Py.split "_" s); reflexivity.
  - apply digits_cons in Hb. destruct Hb as (Hb & Hus & _).
    simpl. destruct (Ascii.eqb c "_") eqn:E.
    + apply Ascii.eqb_eq in E. contradiction.
    + rewrite (IH Hb).
      pose proof (split_nonempty "_" s) as Hne.
      destruct (Py.split "_" s); [contradiction|reflexivity].
Qed.

Lemma split_one x b : Py.split "_" x = [b] -> x = b.
Proof.
  revert b. induction x as [|c x IH]; intros b; simpl.
  - intros H. injection H as <-. reflexivity.
  - destruct (Ascii.eqb c "_").
    + intros H. injection H as _ H. exfalso. exact (split_nonempty _ _ H).
    + destruct (Py.split "_" x) as [|w ws] eqn:E.
      * exfalso. exact (split_nonempty _ _ E).
      * intros H. injection H as <- ->. rewrite (IH w eq_refl). reflexivity.
Qed.

Lemma split_two x b f : Py.split "_" x = [b; f] -> x = b ++ "_" ++ f.
Proof.
  revert b. induction x as [|c x IH]; intros b; simpl.
  - discriminate.
  - destruct (Ascii.eqb c "_") eqn:Ec.
    + intros H. injection H as <- H. apply Ascii.eqb_eq in Ec. subst c.
      rewrite (split_one _ _ H). reflexivity.
    + destruct (Py.split "_" x) as [|w ws] eqn:E.
      * discriminate.
      * intros H. injection H as <- ->. rewrite (IH w eq_refl). reflexivity.
Qed.

(** What [record_name] accepts: a number, then nothing or an underscore and
    canonical flags. *)
Lemma record_name_inv x :
  record_name x = true ->
  exists b k, Py.int b = Some k /\
    (x = b \/ exists f, canonical_flags f = true /\ x = b ++ "_" ++ f).
Proof.
  unfold record_name.
  destruct (Py.split "_" x) as [|b [|f [|]]] eqn:E; try discriminate.
  - destruct (Py.int b) as [k|] eqn:Eb; [|discriminate]. intros _.
    exists b, k. split; [assumption|]. left. apply split_one. assumption.
  - destruct (Py.int b) as [k|] eqn:Eb; [|discriminate]. intros Hf.
    exists b, k. split; [assumption|]. right. exists f.
    split; [assumption|]. apply split_two. assumption.
Qed.

Lemma canonical_flags_inv f :
  canonical_flags f = true -> f = "b" \/ f = "h" \/ f = "bh".
Proof.
  unfold canonical_flags. intros H.
  apply orb_true_iff in H. destruct H as [H|H].
  - apply orb_true_iff in H. destruct H as [H|H];
      apply String.eqb_eq in H; auto.
  - apply String.eqb_eq in H; auto.
Qed.

(** The parts of a plain name. *)
Lemma plain_name_facts b k :
  Py.int b = Some k ->
  Py.split "_" b = [b] /\ is_tmp b = false /\ Py.contains "_" b = false.
Proof.
  intros Hb. apply int_digits in Hb. destruct Hb as [Hd _].
  pose proof (split_digits_app b "" Hd) as Hs.
  pose proof (is_tmp_digits_app b "" Hd) as Ht.
  pose proof (contains_digits_app b "" Hd) as Hc.
  assert (Hb : b ++ "" = b).
  { clear. induction b; simpl; [reflexivity|]. rewrite IHb. reflexivity. }
  simpl in Hs, Hc. rewrite Hb in Hs, Ht, Hc.
  change (is_tmp "") with false in Ht. auto.
Qed.

(** The parts of a flagged name. *)
Lemma flagged_name_facts b k f :
  Py.int b = Some k -> canonical_flags f = true ->
  Py.split "_" (b ++ "_" ++ f) = [b; f]
  /\ is_tmp (b ++ "_" ++ f) = false
  /\ Py.contains "_" (b ++ "_" ++ f) = true.
Proof.
  intros Hb Hf. apply int_digits in Hb. destruct Hb as [Hd _].
  rewrite (split_digits_app _ _ Hd), (is_tmp_digits_app _ _ Hd),
    (contains_digits_app _ _ Hd).
  assert (Hb : b ++ "" = b).
  { clear. induction b; simpl; [reflexivity|]. rewrite IHb. reflexivity. }
  apply canonical_flags_inv in Hf.
  destruct Hf as [->|[->| ->]]; simpl; rewrite Hb; auto.
Qed.

(** Every record name is visited, and has a key. *)
Lemma record_name_facts x :
  record_name x = true ->
  is_tmp x = false /\
  exists k, sort_key x = Some k /\
            Py.int (nth 0 (Py.split "_" x) "") = Some k.
Proof.
  intros H. apply record_name_inv in H.
  destruct H as (b & k & Hb & [->|(f & Hf & ->)]).
  - destruct (plain_name_facts _ _ Hb) as (Hs & Ht & _).
    split; [assumption|]. exists k. unfold sort_key. rewrite Hs. auto.
  - destruct (flagged_name_facts _ _ _ Hb Hf) as (Hs & Ht & _).
    split; [assumption|]. exists k. unfold sort_key. rewrite Hs. auto.
Qed.

Lemma shard_name_facts x :
  shard_name x = true ->
  is_tmp x = false /\ exists k, sort_key x = Some k /\ Py.int x = Some k.
Proof.
  unfold shard_name. destruct (Py.int x) as [k|] eqn:E; [|discriminate].
  intros _. destruct (plain_name_facts _ _ E) as (Hs & Ht & _).
  split; [assumption|]. exists k. unfold sort_key. rewrite Hs. auto.
Qed.

End Names.

(** ** The stable sort *)

Section SortFacts.

Context {X : Type} (key : X -> N).

Let le_key (a b : X) : Prop := (key a <= key b)%N.

Lemma insert_by_in x l y : In y (Py.insert_by key x l) <-> y = x \/ In y l.
Proof.
  induction l as [|z l IH]; simpl.
  - intuition.
  - destruct (key x <=? key z)%N; simpl; [intuition|].
    rewrite IH. intuition.
Qed.

Lemma sort_by_in l y : In y (Py.sort_by key l) <-> In y l.
Proof.
  induction l as [|x l IH]; simpl; [tauto|].
  rewrite insert_by_in, IH. intuition.
Qed.

Lemma insert_by_length x l :
  List.length (Py.insert_by key x l) = S (List.length l).
Proof.
  induction l as [|z l IH]; simpl; [reflexivity|].
  destruct (key x <=? key z)%N; simpl; [reflexivity|].
  rewrite IH. reflexivity.
Qed.

Lemma sort_by_length l : List.length (Py.sort_by key l) = List.length l.
Proof.
  induction l as [|x l IH]; simpl; [reflexivity|].
  rewrite insert_by_length, IH. reflexivity.
Qed.

Lemma insert_by_sorted x l :
  StronglySorted le_key l -> StronglySorted le_key (Py.insert_by key x l).
Proof.
  induction 1 as [|z l Hs IH Hz]; simpl.
  - constructor; constructor.
  - destruct (key x <=? key z)%N eqn:E.
    + apply N.leb_le in E. constructor.
      * constructor; assumption.
      * constructor; [exact E|].
        rewrite Forall_forall in *. intros y Hy.
        unfold le_key in *. specialize (Hz y Hy). lia.
    + apply N.leb_gt in E. constructor; [assumption|].
      rewrite Forall_forall in *. intros y Hy.
      apply insert_by_in in Hy. destruct Hy as [->|Hy].
      * unfold le_key. lia.
      * apply Hz. assumption.
Qed.

Lemma sort_by_sorted l : StronglySorted le_key (Py.sort_by key l).
Proof.
  induction l as [|x l IH]; simpl; [constructor|].
  apply insert_by_sorted. assumption.
Qed.

Lemma insert_by_front x l :
  (forall y, In y l -> (key x <= key y)%N) -> Py.insert_by key x l = x :: l.
Proof.
  destruct l as [|z l]; simpl; [reflexivity|]. intros H.
  destruct (key x <=? key z)%N eqn:E; [reflexivity|].
  apply N.leb_gt in E. specialize (H z (or_introl eq_refl)). lia.
Qed.

Lemma insert_by_back x l :
  (forall y, In y l -> (key y < key x)%N) ->
  Py.insert_by key x l = l ++ [x].
Proof.
  induction l as [|z l IH]; simpl; [reflexivity|]. intros H.
  destruct (key x <=? key z)%N eqn:E.
  - apply N.leb_le in E. specialize (H z (or_introl eq_refl)). lia.
  - rewrite IH; [reflexivity|]. intros y Hy. apply H. right. assumption.
Qed.

Lemma insert_by_filter (P : X -> bool) x l :
  StronglySorted le_key l ->
  filter P (Py.insert_by key x l) =
  if P x then Py.insert_by key x (filter P l) else filter P l.
Proof.
  induction 1 as [|z l Hs IH Hz]; simpl.
  - destruct (P x); reflexivity.
  - destruct (key x <=? key z)%N eqn:E; simpl.
    + destruct (P x) eqn:Ex; [|reflexivity].
      rewrite insert_by_front; [reflexivity|].
      apply N.leb_le in E. intros y Hy.
      assert (Hy' : In y (z :: l)).
      { destruct (P z); [destruct Hy as [->|Hy]|].
        - left; reflexivity.
        - right. apply filter_In in Hy. tauto.
        - right. apply filter_In in Hy. tauto. }
      destruct Hy' as [->|Hy']; [exact E|].
      rewrite Forall_forall in Hz. specialize (Hz y Hy').
      unfold le_key in Hz. lia.
    + rewrite IH. destruct (P z) eqn:Ez; simpl.
      * destruct (P x); [|reflexivity]. rewrite E. reflexivity.
      * reflexivity.
Qed.

(** Sorting and filtering commute. *)
Lemma sort_by_filter (P : X -> bool) l :
  Py.sort_by key (filter P l) = filter P (Py.sort_by key l).
Proof.
  induction l as [|x l IH]; simpl; [reflexivity|].
  rewrite insert_by_filter by apply sort_by_sorted.
  destruct (P x); simpl; rewrite IH; reflexivity.
Qed.

Lemma insert_by_app_last y s x :
  (key y <= key x)%N ->
  Py.insert_by key y (s ++ [x]) = Py.insert_by key y s ++ [x].
Proof.
  intros H. induction s as [|z s IH]; simpl.
  - apply N.leb_le in H. rewrite H. reflexivity.
  - destruct (key y <=? key z)%N; [reflexivity|].
    rewrite IH. reflexivity.
Qed.

(** An element appended with a maximal key is sorted last. *)
Lemma sort_by_app_last l x :
  (forall y, In y l -> (key y <= key x)%N) ->
  Py.sort_by key (l ++ [x]) = Py.sort_by key l ++ [x].
Proof.
  induction l as [|y l IH]; simpl; intros H; [reflexivity|].
  rewrite IH by (intros z Hz; apply H; right; assumption).
  apply insert_by_app_last. apply H. left. reflexivity.
Qed.

(** An element with a strictly largest key is sorted last wherever it is. *)
Lemma sort_by_middle l1 x l2 :
  (forall y, In y (l1 ++ l2) -> (key y < key x)%N) ->
  Py.sort_by key (l1 ++ x :: l2) = Py.sort_by key (l1 ++ l2) ++ [x].
Proof.
  induction l1 as [|y l1 IH]; simpl; intros H.
  - apply insert_by_back. intros y Hy. apply H.
    exact (proj1 (sort_by_in _ _) Hy).
  - rewrite IH by (intros z Hz; apply H; right; assumption).
    apply insert_by_app_last.
    specialize (H y (or_introl eq_refl)). lia.
Qed.

Lemma sorted_last_max l d y :
  StronglySorted le_key l -> In y l -> (key y <= key (last l d))%N.
Proof.
  intros Hs. revert y.
  induction Hs as [|z l Hs IH Hz]; intros y Hy; [destruct Hy|].
  destruct l as [|w l].
  - destruct Hy as [->|[]]. simpl. lia.
  - change (last (z :: w :: l) d) with (last (w :: l) d).
    destruct Hy as [->|Hy]; [|apply IH; assumption].
    rewrite Forall_forall in Hz.
    transitivity (key w).
    + apply Hz. left. reflexivity.
    + apply IH. left. reflexivity.
Qed.

End SortFacts.

(** Sorting commutes with a map that respects the keys. *)
Lemma sort_by_map {X Y : Type} (kx : X -> N) (ky : Y -> N) (g : X -> Y) l :
  (forall x, ky (g x) = kx x) ->
  Py.sort_by ky (map g l) = map g (Py.sort_by kx l).
Proof.
  intros H. induction l as [|x l IH]; simpl; [reflexivity|].
  rewrite IH. clear IH. generalize (Py.sort_by kx l). intros s.
  induction s as [|z s IHs]; simpl; [reflexivity|].
  rewrite !H. destruct (kx x <=? kx z)%N; simpl; [reflexivity|].
  rewrite IHs. reflexivity.
Qed.

Lemma sort_by_ext {X : Type} (k1 k2 : X -> N) l :
  (forall x, In x l -> k1 x = k2 x) -> Py.sort_by k1 l = Py.sort_by k2 l.
Proof.
  induction l as [|x l IH]; simpl; intros H; [reflexivity|].
  rewrite <- IH by (intros y Hy; apply H; right; assumption).
  assert (Hs : forall y, In y (Py.sort_by k1 l) -> k1 y = k2 y).
  { intros y Hy. apply H. right. exact (proj1 (sort_by_in _ _ _) Hy). }
  assert (Hx : k1 x = k2 x) by (apply H; left; reflexivity).
  revert Hs. generalize (Py.sort_by k1 l). intros s Hs.
  induction s as [|z s IHs]; simpl; [reflexivity|].
  rewrite <- Hx, <- (Hs z (or_introl eq_refl)).
  destruct (k1 x <=? k1 z)%N; [reflexivity|].
  rewrite IHs; [reflexivity|]. intros y Hy. apply Hs. right. assumption.
Qed.

(** ** Directories as association lists *)

Section Assoc.

Context {V : Type}.

Implicit Types (l : list (string * V)) (k : string) (v : V).

Lemma lookup_in k v l : lookup k l = Some v -> In (k, v) l.
Proof.
  induction l as [|[k' v'] l IH]; simpl; [discriminate|].
  destruct (String.eqb k' k) eqn:E.
  - apply String.eqb_eq in E. subst. intros H. injection H as ->. auto.
  - auto.
Qed.

Lemma lookup_none k l : lookup k l = None <-> ~ In k (map fst l).
Proof.
  induction l as [|[k' v'] l IH]; simpl; [tauto|].
  destruct (String.eqb k' k) eqn:E.
  - apply String.eqb_eq in E. subst. split; [discriminate|]. tauto.
  - apply String.eqb_neq in E. rewrite IH. tauto.
Qed.

Lemma in_lookup k v l :
  NoDup (map fst l) -> In (k, v) l -> lookup k l = Some v.
Proof.
  induction l as [|[k' v'] l IH]; simpl; [tauto|].
  intros Hnd [H|H].
  - injection H as -> ->. rewrite String.eqb_refl. reflexivity.
  - inversion Hnd as [|? ? Hk Hnd']; subst.
    destruct (String.eqb k' k) eqn:E.
    + apply String.eqb_eq in E. subst. exfalso. apply Hk.
      apply (in_map fst) in H. exact H.
    + apply IH; assumption.
Qed.

(** The entry for a key splits a duplicate-free directory in two. *)
Lemma lookup_split k v l :
  lookup k l = Some v ->
  exists l1 l2, l = l1 ++ (k, v) :: l2 /\ ~ In k (map fst l1).
Proof.
  induction l as [|[k' v'] l IH]; simpl; [discriminate|].
  destruct (String.eqb k' k) eqn:E.
  - apply String.eqb_eq in E. subst. intros H. injection H as ->.
    exists [], l. simpl. auto.
  - intros H. destruct (IH H) as (l1 & l2 & -> & Hn).
    exists ((k', v') :: l1), l2. split; [reflexivity|].
    simpl. apply String.eqb_neq in E. tauto.
Qed.

Lemma nodup_split_r k v l1 l2 :
  NoDup (map fst (l1 ++ (k, v) :: l2)) ->
  ~ In k (map fst l1) /\ ~ In k (map fst l2)
  /\ NoDup (map fst (l1 ++ l2)).
Proof.
  rewrite !map_app. simpl. intros H.
  pose proof (NoDup_remove_1 _ _ _ H) as H1.
  pose proof (NoDup_remove_2 _ _ _ H) as H2.
  rewrite in_app_iff in H2. tauto.
Qed.

Lemma remove_notin k l : ~ In k (map fst l) -> remove k l = l.
Proof.
  unfold remove. induction l as [|[k' v'] l IH]; simpl; [reflexivity|].
  intros H. destruct (String.eqb k' k) eqn:E; simpl.
  - apply String.eqb_eq in E. tauto.
  - rewrite IH; tauto.
Qed.

Lemma replace_val_notin k v l : ~ In k (map fst l) -> replace_val k v l = l.
Proof.
  unfold replace_val. induction l as [|[k' v'] l IH]; simpl; [reflexivity|].
  intros H. destruct (String.eqb k' k) eqn:E; simpl.
  - apply String.eqb_eq in E. tauto.
  - rewrite IH; tauto.
Qed.

Lemma rename_key_notin k k' l :
  ~ In k (map fst l) -> rename_key k k' l = l.
Proof.
  unfold rename_key. induction l as [|[k1 v1] l IH]; simpl; [reflexivity|].
  intros H. destruct (String.eqb k1 k) eqn:E; simpl.
  - apply String.eqb_eq in E. tauto.
  - rewrite IH; tauto.
Qed.

Lemma remove_app k l1 l2 : remove k (l1 ++ l2) = remove k l1 ++ remove k l2.
Proof. unfold remove. apply filter_app. Qed.

Lemma replace_val_app k v l1 l2 :
  replace_val k v (l1 ++ l2) = replace_val k v l1 ++ replace_val k v l2.
Proof. unfold replace_val. apply map_app. Qed.

Lemma rename_key_app k k' l1 l2 :
  rename_key k k' (l1 ++ l2) = rename_key k k' l1 ++ rename_key k k' l2.
Proof. unfold rename_key. apply map_app. Qed.

Lemma remove_split k v l1 l2 :
  ~ In k (map fst l1) -> ~ In k (map fst l2) ->
  remove k (l1 ++ (k, v) :: l2) = l1 ++ l2.
Proof.
  intros H1 H2. rewrite remove_app.
  change ((k, v) :: l2) with ([(k, v)] ++ l2). rewrite remove_app.
  rewrite (remove_notin k l1), (remove_notin k l2) by assumption.
  unfold remove. simpl. rewrite String.eqb_refl. reflexivity.
Qed.

Lemma replace_val_split k v v' l1 l2 :
  ~ In k (map fst l1) -> ~ In k (map fst l2) ->
  replace_val k v' (l1 ++ (k, v) :: l2) = l1 ++ (k, v') :: l2.
Proof.
  intros H1 H2. rewrite replace_val_app.
  change ((k, v) :: l2) with ([(k, v)] ++ l2). rewrite replace_val_app.
  rewrite (replace_val_notin k v' l1), (replace_val_notin k v' l2) by assumption.
  unfold replace_val. simpl. rewrite String.eqb_refl. reflexivity.
Qed.

Lemma rename_key_split k k' v l1 l2 :
  ~ In k (map fst l1) -> ~ In k (map fst l2) ->
  rename_key k k' (l1 ++ (k, v) :: l2) = l1 ++ (k', v) :: l2.
Proof.
  intros H1 H2. rewrite rename_key_app.
  change ((k, v) :: l2) with ([(k, v)] ++ l2). rewrite rename_key_app.
  rewrite (rename_key_notin k k' l1), (rename_key_notin k k' l2) by assumption.
  unfold rename_key. simpl. rewrite String.eqb_refl. reflexivity.
Qed.

Lemma lookup_app_notin k l1 l2 :
  ~ In k (map fst l1) -> lookup k (l1 ++ l2) = lookup k l2.
Proof.
  induction l1 as [|[k1 v1] l1 IH]; simpl; [reflexivity|].
  intros H. destruct (String.eqb k1 k) eqn:E.
  - apply String.eqb_eq in E. tauto.
  - apply IH. tauto.
Qed.

Lemma lookup_app_in k v l1 l2 :
  lookup k l1 = Some v -> lookup k (l1 ++ l2) = Some v.
Proof.
  induction l1 as [|[k1 v1] l1 IH]; simpl; [discriminate|].
  destruct (String.eqb k1 k); auto.
Qed.

Lemma lookup_middle k v l1 l2 :
  ~ In k (map fst l1) -> lookup k (l1 ++ (k, v) :: l2) = Some v.
Proof.
  intros H. rewrite lookup_app_notin by assumption.
  simpl. rewrite String.eqb_refl. reflexivity.
Qed.

Lemma lookup_middle_other k k' v l1 l2 :
  k' <> k -> lookup k' (l1 ++ (k, v) :: l2) = lookup k' (l1 ++ l2).
Proof.
  intros H. induction l1 as [|[k1 v1] l1 IH]; simpl.
  - destruct (String.eqb k k') eqn:E; [|reflexivity].
    apply String.eqb_eq in E. congruence.
  - rewrite IH. reflexivity.
Qed.

(** *** The visited entries *)

Lemma sorted_entries_in e l :
  In e (sorted_entries l) <-> In e l /\ is_tmp (fst e) = false.
Proof.
  unfold sorted_entries. rewrite sort_by_in, filter_In.
  rewrite negb_true_iff. tauto.
Qed.

Lemma sorted_entries_names l :
  map fst (sorted_entries l) =
  Py.sort_by key_of (filter (fun x => negb (is_tmp x)) (map fst l)).
Proof.
  unfold sorted_entries.
  rewrite <- (sort_by_map (fun e => key_of (fst e)) key_of fst)
    by reflexivity.
  f_equal. clear. induction l as [|e l IH]; simpl; [reflexivity|].
  destruct (is_tmp (fst e)); simpl; rewrite IH; reflexivity.
Qed.

Lemma filter_comm {X : Type} (P Q : X -> bool) (l : list X) :
  filter P (filter Q l) = filter Q (filter P l).
Proof.
  induction l as [|x l IH]; simpl; [reflexivity|].
  destruct (P x) eqn:EP, (Q x) eqn:EQ; simpl;
    rewrite ?EP, ?EQ, IH; reflexivity.
Qed.

Lemma sorted_entries_remove k l :
  sorted_entries (remove k l) = remove k (sorted_entries l).
Proof.
  unfold sorted_entries, remove.
  rewrite <- sort_by_filter. f_equal. apply filter_comm.
Qed.

Lemma filter_map_comm {X : Type} (P : X -> bool) (g : X -> X) (l : list X) :
  (forall x, P (g x) = P x) -> filter P (map g l) = map g (filter P l).
Proof.
  intros H. induction l as [|x l IH]; simpl; [reflexivity|].
  rewrite H. destruct (P x); simpl; rewrite IH; reflexivity.
Qed.

Lemma sorted_entries_replace_val k v l :
  sorted_entries (replace_val k v l) = replace_val k v (sorted_entries l).
Proof.
  unfold sorted_entries, replace_val.
  rewrite filter_map_comm.
  - apply sort_by_map. intros e.
    destruct (String.eqb (fst e) k) eqn:E; [|reflexivity].
    apply String.eqb_eq in E. simpl. rewrite E. reflexivity.
  - intros e. destruct (String.eqb (fst e) k) eqn:E; [|reflexivity].
    apply String.eqb_eq in E. simpl. rewrite E. reflexivity.
Qed.

(** A renaming that keeps the number and stays visible keeps the place. *)
Lemma sorted_entries_rename_key k k' l :
  key_of k' = key_of k -> is_tmp k' = is_tmp k ->
  sorted_entries (rename_key k k' l) = rename_key k k' (sorted_entries l).
Proof.
  intros Hk Ht. unfold sorted_entries, rename_key.
  rewrite filter_map_comm.
  - apply sort_by_map. intros e.
    destruct (String.eqb (fst e) k) eqn:E; [|reflexivity].
    apply String.eqb_eq in E. simpl. rewrite Hk, E. reflexivity.
  - intros e. destruct (String.eqb (fst e) k) eqn:E; [|reflexivity].
    apply String.eqb_eq in E. simpl. rewrite Ht, E. reflexivity.
Qed.

Lemma sorted_entries_app_tmp k v l :
  is_tmp k = true -> sorted_entries (l ++ [(k, v)]) = sorted_entries l.
Proof.
  intros H. unfold sorted_entries. rewrite filter_app. simpl. rewrite H.
  simpl. rewrite app_nil_r. reflexivity.
Qed.

(** A visible entry appended with a maximal number is visited last. *)
Lemma sorted_entries_app_last k v l :
  is_tmp k = false ->
  (forall e, In e (sorted_entries l) -> (key_of (fst e) <= key_of k)%N) ->
  sorted_entries (l ++ [(k, v)]) = sorted_entries l ++ [(k, v)].
Proof.
  intros Ht H. unfold sorted_entries. rewrite filter_app. simpl. rewrite Ht.
  simpl. apply sort_by_app_last. intros e He. apply H.
  unfold sorted_entries. apply sort_by_in. exact He.
Qed.

(** A temporary entry renamed to a visible name with the largest number is
    visited last. *)
Lemma sorted_entries_publish t k v l1 l2 :
  is_tmp t = true -> is_tmp k = false ->
  (forall e, In e (sorted_entries (l1 ++ l2)) ->
             (key_of (fst e) < key_of k)%N) ->
  sorted_entries (l1 ++ (k, v) :: l2) =
  sorted_entries (l1 ++ (t, v) :: l2) ++ [(k, v)].
Proof.
  intros Ht Hk H. unfold sorted_entries. rewrite !filter_app. simpl.
  rewrite Ht, Hk. simpl. apply sort_by_middle. intros e He. apply H.
  unfold sorted_entries. apply sort_by_in. rewrite filter_app. exact He.
Qed.

Lemma sorted_entries_tmp_middle t v l1 l2 :
  is_tmp t = true ->
  sorted_entries (l1 ++ (t, v) :: l2) = sorted_entries (l1 ++ l2).
Proof.
  intros Ht. unfold sorted_entries. rewrite !filter_app. simpl.
  rewrite Ht. reflexivity.
Qed.

(** *** Well-formed name lists *)

Lemma nodupb_string (l : list string) :
  nodupb String.eqb l = true <-> NoDup l.
Proof.
  induction l as [|x l IH]; simpl.
  - split; [constructor|reflexivity].
  - rewrite andb_true_iff, negb_true_iff, IH. split.
    + intros [H1 H2]. constructor; [|assumption]. intros Hin.
      assert (Hex : existsb (String.eqb x) l = true).
      { apply existsb_exists. exists x. split; [assumption|].
        apply String.eqb_refl. }
      congruence.
    + intros H. inversion H as [|? ? Hx Hl]; subst. split; [|assumption].
      destruct (existsb (String.eqb x) l) eqn:E; [|reflexivity].
      apply existsb_exists in E. destruct E as (y & Hy & Exy).
      apply String.eqb_eq in Exy. subst. contradiction.
Qed.

Lemma nodupb_N (l : list N) : nodupb N.eqb l = true <-> NoDup l.
Proof.
  induction l as [|x l IH]; simpl.
  - split; [constructor|reflexivity].
  - rewrite andb_true_iff, negb_true_iff, IH. split.
    + intros [H1 H2]. constructor; [|assumption]. intros Hin.
      assert (Hex : existsb (N.eqb x) l = true).
      { apply existsb_exists. exists x. split; [assumption|].
        apply N.eqb_refl. }
      congruence.
    + intros H. inversion H as [|? ? Hx Hl]; subst. split; [|assumption].
      destruct (existsb (N.eqb x) l) eqn:E; [|reflexivity].
      apply existsb_exists in E. destruct E as (y & Hy & Exy).
      apply N.eqb_eq in Exy. subst. contradiction.
Qed.

Lemma wf_names_spec (valid : string -> bool) l :
  wf_names valid l = true <->
  NoDup (map fst l)
  /\ (forall e, In e l -> is_tmp (fst e) = true \/ valid (fst e) = true)
  /\ NoDup (map (fun e => key_of (fst e)) (sorted_entries l)).
Proof.
  unfold wf_names.
  rewrite !andb_true_iff, nodupb_string, nodupb_N, forallb_forall.
  split.
  - intros ((H1 & H2) & H3). split; [assumption|]. split; [|assumption].
    intros e He. apply orb_true_iff. apply H2. assumption.
  - intros (H1 & H2 & H3). split; [split|]; try assumption.
    intros e He. apply orb_true_iff. apply H2. assumption.
Qed.

End Assoc.

(** ** Listings of a well-formed tree *)

Lemma keys_of_total (l : list string) :
  (forall x, In x l -> sort_key x <> None) ->
  Py.keys_of sort_key l = Some (map (fun x => (key_of x, x)) l).
Proof.
  induction l as [|x l IH]; simpl; intros H; [reflexivity|].
  rewrite IH by (intros y Hy; apply H; right; assumption).
  unfold key_of. destruct (sort_key x) eqn:E; [reflexivity|].
  exfalso. apply (H x); auto.
Qed.

Lemma sorted_names_keyed (l : list string) :
  map snd (Py.sort_by fst (map (fun x => (key_of x, x)) l)) =
  Py.sort_by key_of l.
Proof.
  rewrite (sort_by_map key_of fst (fun x => (key_of x, x))) by reflexivity.
  rewrite map_map. simpl. apply map_id.
Qed.

Lemma valid_record_key x : record_name x = true -> sort_key x <> None.
Proof.
  intros H. apply record_name_facts in H. destruct H as (_ & k & H & _).
  congruence.
Qed.

Lemma valid_shard_key x : shard_name x = true -> sort_key x <> None.
Proof.
  intros H. apply shard_name_facts in H. destruct H as (_ & k & H & _).
  congruence.
Qed.

Lemma valid_record_visible x : record_name x = true -> is_tmp x = false.
Proof. intros H. apply record_name_facts in H. tauto. Qed.

Lemma valid_shard_visible x : shard_name x = true -> is_tmp x = false.
Proof. intros H. apply shard_name_facts in H. tauto. Qed.

Section Listing.

Context {V : Type} (valid : string -> bool).

Hypothesis valid_key : forall x, valid x = true -> sort_key x <> None.

Lemma listing_sorted (l : list (string * V)) :
  wf_names valid l = true ->
  Py.keys_of sort_key (filter (fun x => negb (is_tmp x)) (map fst l)) =
  Some (map (fun x => (key_of x, x))
          (filter (fun x => negb (is_tmp x)) (map fst l))).
Proof.
  intros H. apply wf_names_spec in H. destruct H as (_ & H & _).
  apply keys_of_total. intros x Hx. apply filter_In in Hx.
  destruct Hx as [Hx Ht]. apply in_map_iff in Hx.
  destruct Hx as (e & <- & He). apply negb_true_iff in Ht.
  destruct (H e He) as [H'|H']; [congruence|]. apply valid_key. assumption.
Qed.

End Listing.

Lemma wf_fs_spec fs :
  wf_fs fs = true <->
  wf_names shard_name (shards fs) = true
  /\ forall d dir, In (d, dir) (shards fs) ->
                   is_tmp d = true \/ wf_names record_name dir = true.
Proof.
  unfold wf_fs. rewrite andb_true_iff, forallb_forall. split.
  - intros [H1 H2]. split; [assumption|]. intros d dir Hin.
    apply orb_true_iff. apply (H2 (d, dir)). assumption.
  - intros [H1 H2]. split; [assumption|]. intros [d dir] Hin.
    apply orb_true_iff. apply H2. assumption.
Qed.

Lemma wf_fs_shard fs d dir :
  wf_fs fs = true -> lookup d (shards fs) = Some dir -> is_tmp d = false ->
  wf_names record_name dir = true /\ shard_name d = true.
Proof.
  intros Hwf Hl Ht. apply wf_fs_spec in Hwf. destruct Hwf as [H1 H2].
  apply lookup_in in Hl. split.
  - destruct (H2 d dir Hl); [congruence|assumption].
  - apply wf_names_spec in H1. destruct H1 as (_ & H1 & _).
    destruct (H1 (d, dir) Hl); [simpl in *; congruence|assumption].
Qed.

Lemma shard_name_nonempty d : shard_name d = true -> d <> EmptyString.
Proof. intros H ->. discriminate. Qed.

(** [_get_sorted_filenames()] on the base directory *)
Lemma listing_root fs :
  wf_fs fs = true ->
  _get_sorted_filenames EmptyString fs =
  (fs, inr (map fst (sorted_entries (shards fs)))).
Proof.
  intros Hwf. apply wf_fs_spec in Hwf. destruct Hwf as [H1 _].
  unfold _get_sorted_filenames, bind.
  change (os.listdir "" fs) with (fs, inr (A := exn) (map fst (shards fs))).
  cbv iota beta.
  change (fun x => negb (Py.endswith x tmp_suffix))
    with (fun x => negb (is_tmp x)).
  rewrite (listing_sorted shard_name valid_shard_key _ H1).
  unfold ret. rewrite sorted_names_keyed, sorted_entries_names. reflexivity.
Qed.

(** [_get_sorted_filenames(d)] on a shard *)
Lemma listing_shard fs d dir :
  wf_fs fs = true -> lookup d (shards fs) = Some dir -> is_tmp d = false ->
  _get_sorted_filenames d fs = (fs, inr (map fst (sorted_entries dir))).
Proof.
  intros Hwf Hl Ht. destruct (wf_fs_shard _ _ _ Hwf Hl Ht) as [Hd Hn].
  unfold _get_sorted_filenames, bind, os.listdir.
  destruct (String.eqb d "") eqn:E.
  - apply String.eqb_eq in E. apply shard_name_nonempty in Hn. contradiction.
  - rewrite Hl.
    change (fun x => negb (Py.endswith x tmp_suffix))
      with (fun x => negb (is_tmp x)).
    rewrite (listing_sorted record_name valid_record_key _ Hd).
    unfold ret. rewrite sorted_names_keyed, sorted_entries_names.
    reflexivity.
Qed.

(** ** Loops *)

Section Loops.

Context {S X A : Type}.

Implicit Types (body : X -> A -> M S (A * bool)).

Lemma for_each_app l1 l2 body acc s :
  for_each (l1 ++ l2) body acc s =
  match for_each l1 body acc s with
  | (s', inr (acc', false)) => for_each l2 body acc' s'
  | other => other
  end.
Proof.
  revert acc s. induction l1 as [|x l1 IH]; intros acc s; simpl.
  - reflexivity.
  - destruct (body x acc s) as [s' [e|[acc' [|]]]]; try reflexivity.
    apply IH.
Qed.

Lemma for_each_ext l body1 body2 acc s :
  (forall x acc s, In x l -> body1 x acc s = body2 x acc s) ->
  for_each l body1 acc s = for_each l body2 acc s.
Proof.
  revert acc s. induction l as [|x l IH]; intros acc s H; simpl.
  - reflexivity.
  - rewrite H by (left; reflexivity).
    destruct (body2 x acc s) as [s' [e|[acc' [|]]]]; try reflexivity.
    apply IH. intros; apply H. right. assumption.
Qed.

Lemma for_each_filter (P : X -> bool) l body acc s :
  for_each l (fun x acc => if P x then body x acc else ret (acc, false)) acc s
  = for_each (filter P l) body acc s.
Proof.
  revert acc s. induction l as [|x l IH]; intros acc s; simpl.
  - reflexivity.
  - destruct (P x); simpl.
    + destruct (body x acc s) as [s' [e|[acc' [|]]]]; try reflexivity.
      apply IH.
    + apply IH.
Qed.

(** A property of the state that every step keeps holds after the loop. *)
Lemma for_each_keeps (P : S -> Prop) l body acc s :
  (forall x acc s, In x l -> P s -> P (fst (body x acc s))) ->
  P s -> P (fst (for_each l body acc s)).
Proof.
  revert acc s. induction l as [|x l IH]; intros acc s H Hs; simpl.
  - assumption.
  - specialize (H x acc s (or_introl eq_refl) Hs) as Hx.
    destruct (body x acc s) as [s' [e|[acc' [|]]]]; simpl in *;
      try assumption.
    apply IH; [|assumption]. intros; apply H; [right|]; assumption.
Qed.

End Loops.

Lemma for_each_map {S X Y A : Type} (g : X -> Y) l
    (body : Y -> A -> M S (A * bool)) acc s :
  for_each (map g l) body acc s = for_each l (fun x => body (g x)) acc s.
Proof.
  revert acc s. induction l as [|x l IH]; intros acc s; simpl.
  - reflexivity.
  - destruct (body (g x) acc s) as [s' [e|[acc' [|]]]]; try reflexivity.
    apply IH.
Qed.

(** ** The records of a well-formed tree *)

Lemma NoDup_map_filter {X Y : Type} (g : X -> Y) (P : X -> bool) l :
  NoDup (map g l) -> NoDup (map g (filter P l)).
Proof.
  induction l as [|x l IH]; simpl; intros H; [constructor|].
  inversion H as [|? ? Hx Hl]; subst.
  destruct (P x); simpl; [|auto].
  constructor; [|auto]. intros Hin. apply Hx.
  apply in_map_iff in Hin. destruct Hin as (y & Hy & Hin).
  apply filter_In in Hin. apply in_map_iff. exists y. tauto.
Qed.

Lemma NoDup_map_insert_by {X Y : Type} (key : X -> N) (g : X -> Y) x s :
  ~ In (g x) (map g s) -> NoDup (map g s) ->
  NoDup (map g (Py.insert_by key x s)).
Proof.
  induction s as [|z s IH]; simpl; intros Hx Hs.
  - constructor; [tauto|constructor].
  - destruct (key x <=? key z)%N; simpl.
    + constructor; [exact Hx|exact Hs].
    + inversion Hs as [|? ? Hz Hs']; subst. constructor.
      * intros Hin. apply in_map_iff in Hin. destruct Hin as (y & Hy & Hin).
        apply insert_by_in in Hin. destruct Hin as [->|Hin].
        -- apply Hx. left. symmetry. assumption.
        -- apply Hz. apply in_map_iff. exists y. tauto.
      * apply IH; [tauto|assumption].
Qed.

Lemma NoDup_map_sort_by {X Y : Type} (key : X -> N) (g : X -> Y) l :
  NoDup (map g l) -> NoDup (map g (Py.sort_by key l)).
Proof.
  induction l as [|x l IH]; simpl; intros H; [constructor|].
  inversion H as [|? ? Hx Hl]; subst.
  apply NoDup_map_insert_by; [|auto].
  intros Hin. apply Hx. apply in_map_iff in Hin.
  destruct Hin as (y & Hy & Hin). apply sort_by_in in Hin.
  apply in_map_iff. exists y. tauto.
Qed.

Lemma sorted_entries_nodup {V : Type} (l : list (string * V)) :
  NoDup (map fst l) -> NoDup (map fst (sorted_entries l)).
Proof.
  intros H. unfold sorted_entries.
  apply NoDup_map_sort_by, NoDup_map_filter. assumption.
Qed.

Lemma sorted_entries_lookup {V : Type} (l : list (string * V)) k :
  NoDup (map fst l) -> is_tmp k = false ->
  lookup k (sorted_entries l) = lookup k l.
Proof.
  intros Hnd Ht. destruct (lookup k l) as [v|] eqn:E.
  - apply in_lookup; [apply sorted_entries_nodup; assumption|].
    apply sorted_entries_in. split; [apply lookup_in; assumption|exact Ht].
  - apply lookup_none. apply lookup_none in E. intros Hin. apply E.
    apply in_map_iff in Hin. destruct Hin as (e & <- & He).
    apply sorted_entries_in in He. apply in_map. tauto.
Qed.

Lemma NoDup_flat_map {X Y Z : Type} (g : X -> Z) (h : Y -> Z)
    (f : X -> list Y) l :
  NoDup (map g l) ->
  (forall x, In x l -> NoDup (f x)) ->
  (forall x y, In y (f x) -> h y = g x) ->
  NoDup (flat_map f l).
Proof.
  induction l as [|x l IH]; simpl; intros Hg Hf Hh; [constructor|].
  inversion Hg as [|? ? Hx Hl]; subst.
  apply NoDup_app.
  - apply Hf. left. reflexivity.
  - apply IH; auto.
  - intros y Hy Hin. apply in_flat_map in Hin.
    destruct Hin as (x' & Hx' & Hy'). apply Hx.
    rewrite <- (Hh _ _ Hy), (Hh _ _ Hy'). apply in_map. assumption.
Qed.

Lemma wf_fs_nodup fs : wf_fs fs = true -> NoDup (map fst (shards fs)).
Proof.
  intros H. apply wf_fs_spec in H. destruct H as [H _].
  apply wf_names_spec in H. tauto.
Qed.

Lemma view_in fs d n f :
  wf_fs fs = true ->
  (In ((d, n), f) (view fs) <->
   exists dir, lookup d (shards fs) = Some dir /\ is_tmp d = false
               /\ lookup n dir = Some f /\ is_tmp n = false).
Proof.
  intros Hwf. pose proof (wf_fs_nodup _ Hwf) as Hnd.
  unfold view. rewrite in_flat_map. split.
  - intros ([d' dir] & Hd & Hr). apply sorted_entries_in in Hd.
    destruct Hd as [Hd Ht]. simpl in Ht.
    unfold records_of_shard in Hr. apply in_map_iff in Hr.
    destruct Hr as ([n' f'] & Heq & Hn). simpl in Heq.
    injection Heq as -> -> ->. apply sorted_entries_in in Hn.
    destruct Hn as [Hn Ht']. simpl in Ht'.
    exists dir. pose proof (in_lookup _ _ _ Hnd Hd) as Hl.
    destruct (wf_fs_shard _ _ _ Hwf Hl Ht) as [Hwd _].
    apply wf_names_spec in Hwd. destruct Hwd as (Hnd' & _).
    repeat split; try assumption. apply in_lookup; assumption.
  - intros (dir & Hl & Ht & Hn & Ht'). exists (d, dir). split.
    + apply sorted_entries_in. split; [apply lookup_in; assumption|exact Ht].
    + unfold records_of_shard. apply in_map_iff. exists (n, f).
      split; [reflexivity|]. apply sorted_entries_in.
      split; [apply lookup_in; assumption|exact Ht'].
Qed.

Lemma view_find fs p f :
  wf_fs fs = true -> In (p, f) (view fs) -> os.find p fs = Some f.
Proof.
  destruct p as [d n]. intros Hwf Hin. apply view_in in Hin; [|assumption].
  destruct Hin as (dir & Hl & _ & Hn & _). unfold os.find. simpl.
  rewrite Hl. assumption.
Qed.

(** No path occurs twice among the records. *)
Lemma view_nodup fs : wf_fs fs = true -> NoDup (map fst (view fs)).
Proof.
  intros Hwf. unfold view. rewrite flat_map_concat_map, concat_map, map_map.
  rewrite <- flat_map_concat_map.
  apply (NoDup_flat_map fst fst).
  - apply sorted_entries_nodup, wf_fs_nodup. assumption.
  - intros [d dir] Hd. apply sorted_entries_in in Hd. destruct Hd as [Hd Ht].
    pose proof (in_lookup _ _ _ (wf_fs_nodup _ Hwf) Hd) as Hl.
    destruct (wf_fs_shard _ _ _ Hwf Hl Ht) as [Hwd _].
    apply wf_names_spec in Hwd. destruct Hwd as (Hnd' & _).
    unfold records_of_shard. rewrite map_map. simpl.
    apply sorted_entries_nodup in Hnd'.
    revert Hnd'. generalize (sorted_entries dir). intros s Hs.
    induction s as [|e s IH]; simpl; [constructor|].
    inversion Hs as [|? ? He Hs']; subst. constructor; [|auto].
    intros Hin. apply He. apply in_map_iff in Hin.
    destruct Hin as (e' & Heq & Hin). injection Heq as Heq.
    rewrite <- Heq. apply in_map. assumption.
  - intros [d dir] p Hp. unfold records_of_shard in Hp. rewrite map_map in Hp.
    apply in_map_iff in Hp. destruct Hp as (e & <- & _). reflexivity.
Qed.

(** The records of one shard stand together in the view, and a change to
    that shard changes nothing around them. *)
Lemma view_shard_split fs d dir :
  wf_fs fs = true -> lookup d (shards fs) = Some dir -> is_tmp d = false ->
  exists before after,
    (forall r, In r (before ++ after) -> fst (fst r) <> d)
    /\ forall dir',
        view (os.set_shards fs (replace_val d dir' (shards fs))) =
        before ++ records_of_shard (d, dir') ++ after.
Proof.
  intros Hwf Hl Ht. pose proof (wf_fs_nodup _ Hwf) as Hnd.
  pose proof (sorted_entries_nodup _ Hnd) as Hnd'.
  assert (Hl' : lookup d (sorted_entries (shards fs)) = Some dir).
  { rewrite sorted_entries_lookup; assumption. }
  destruct (lookup_split _ _ _ Hl') as (s1 & s2 & Hs & Hn1).
  rewrite Hs in Hnd'. apply nodup_split_r in Hnd'.
  destruct Hnd' as (_ & Hn2 & _).
  exists (flat_map records_of_shard s1), (flat_map records_of_shard s2).
  split.
  - intros r Hr. apply in_app_iff in Hr.
    assert (Hgen : forall s, In r (flat_map records_of_shard s) ->
                             In (fst (fst r)) (map fst s)).
    { intros s Hin. apply in_flat_map in Hin. destruct Hin as (e & He & Hin).
      unfold records_of_shard in Hin. apply in_map_iff in Hin.
      destruct Hin as (e' & <- & _). simpl. apply in_map. assumption. }
    intros Heq. destruct Hr as [Hr|Hr]; apply Hgen in Hr; rewrite Heq in Hr;
      contradiction.
  - intros dir'. unfold view, os.set_shards. simpl.
    rewrite sorted_entries_replace_val, Hs.
    rewrite replace_val_split by assumption.
    rewrite flat_map_app. simpl. reflexivity.
Qed.

Lemma replace_val_same {V : Type} (l : list (string * V)) k v :
  NoDup (map fst l) -> lookup k l = Some v -> replace_val k v l = l.
Proof.
  intros Hnd Hl. destruct (lookup_split _ _ _ Hl) as (l1 & l2 & -> & Hn1).
  apply nodup_split_r in Hnd. destruct Hnd as (_ & Hn2 & _).
  apply replace_val_split; assumption.
Qed.

Lemma view_shard_split_self fs d dir :
  wf_fs fs = true -> lookup d (shards fs) = Some dir -> is_tmp d = false ->
  exists before after,
    (forall r, In r (before ++ after) -> fst (fst r) <> d)
    /\ view fs = before ++ records_of_shard (d, dir) ++ after
    /\ forall dir',
        view (os.set_shards fs (replace_val d dir' (shards fs))) =
        before ++ records_of_shard (d, dir') ++ after.
Proof.
  intros Hwf Hl Ht.
  destruct (view_shard_split _ _ _ Hwf Hl Ht) as (b & a & H1 & H2).
  exists b, a. split; [assumption|]. split; [|assumption].
  rewrite <- (H2 dir).
  rewrite replace_val_same by (try apply wf_fs_nodup; assumption).
  destruct fs; reflexivity.
Qed.

(** ** Changes that keep a directory well formed *)

Lemma sorted_keys_names {V : Type} (l : list (string * V)) :
  map (fun e => key_of (fst e)) (sorted_entries l) =
  map key_of (Py.sort_by key_of (filter (fun x => negb (is_tmp x)) (map fst l))).
Proof. rewrite <- sorted_entries_names, map_map. reflexivity. Qed.

Lemma NoDup_middle {X : Type} (x : X) m1 m2 :
  NoDup (m1 ++ m2) -> ~ In x (m1 ++ m2) -> NoDup (m1 ++ x :: m2).
Proof.
  induction m1 as [|y m1 IH]; simpl; intros Hnd Hx.
  - constructor; assumption.
  - inversion Hnd as [|? ? Hy Hm]; subst. constructor.
    + rewrite in_app_iff in *. simpl. intros [H|[H|H]]; subst; tauto.
    + apply IH; [assumption|tauto].
Qed.

Section WfNames.

Context {V : Type} (valid : string -> bool).

Implicit Types (l : list (string * V)) (k : string) (v : V).

Lemma map_fst_replace_val k v l : map fst (replace_val k v l) = map fst l.
Proof.
  unfold replace_val. rewrite map_map. apply map_ext_in. intros e _.
  destruct (String.eqb (fst e) k) eqn:E; [|reflexivity].
  apply String.eqb_eq in E. simpl. auto.
Qed.


(** Well-formedness looks at the names only. *)
Lemma wf_names_names {W : Type} l (l' : list (string * W)) :
  map fst l = map fst l' -> wf_names valid l = wf_names valid l'.
Proof.
  intros H.
  assert (Hall : forall (U : Type) (m : list (string * U)),
             forallb (fun e => is_tmp (fst e) || valid (fst e)) m =
             forallb (fun x => is_tmp x || valid x) (map fst m)).
  { intros U m. induction m as [|e m IH]; simpl; [reflexivity|].
    rewrite IH. reflexivity. }
  unfold wf_names. rewrite !sorted_keys_names, !Hall, H. reflexivity.
Qed.

Lemma wf_names_replace_val k v l :
  wf_names valid (replace_val k v l) = wf_names valid l.
Proof. apply wf_names_names, map_fst_replace_val. Qed.

Lemma wf_names_remove k l :
  wf_names valid l = true -> wf_names valid (remove k l) = true.
Proof.
  rewrite !wf_names_spec. intros (H1 & H2 & H3). repeat split.
  - unfold remove. apply NoDup_map_filter. assumption.
  - intros e He. apply H2. unfold remove in He. apply filter_In in He. tauto.
  - rewrite sorted_entries_remove. unfold remove.
    apply NoDup_map_filter. assumption.
Qed.

Lemma NoDup_map_inj {X Y : Type} (g : X -> Y) (l : list X) x y :
  NoDup (map g l) -> In x l -> In y l -> g x = g y -> x = y.
Proof.
  induction l as [|z l IH]; simpl; intros Hnd Hx Hy Heq; [tauto|].
  inversion Hnd as [|? ? Hz Hl]; subst.
  destruct Hx as [->|Hx], Hy as [->|Hy]; auto.
  - exfalso. apply Hz. rewrite Heq. apply in_map. assumption.
  - exfalso. apply Hz. rewrite <- Heq. apply in_map. assumption.
Qed.

(** In a well-formed directory a visible name is known by its number. *)
Lemma wf_names_same_key k k' v v' l :
  wf_names valid l = true ->
  lookup k l = Some v -> lookup k' l = Some v' ->
  is_tmp k = false -> is_tmp k' = false -> key_of k' = key_of k ->
  k' = k.
Proof.
  rewrite wf_names_spec. intros (H1 & H2 & H3) Hk Hk' Ht Ht' Heq.
  assert (Hin : In (k, v) (sorted_entries l)).
  { apply sorted_entries_in. split; [apply lookup_in; assumption|exact Ht]. }
  assert (Hin' : In (k', v') (sorted_entries l)).
  { apply sorted_entries_in. split; [apply lookup_in; assumption|exact Ht']. }
  pose proof (NoDup_map_inj _ _ _ _ H3 Hin' Hin Heq) as E.
  congruence.
Qed.

Lemma map_key_rename_key k k' l :
  key_of k' = key_of k ->
  map (fun e => key_of (fst e)) (rename_key k k' l) =
  map (fun e => key_of (fst e)) l.
Proof.
  intros H. unfold rename_key. rewrite map_map. apply map_ext. intros e.
  destruct (String.eqb (fst e) k) eqn:E; [|reflexivity].
  apply String.eqb_eq in E. simpl. rewrite H, E. reflexivity.
Qed.

(** A visible record renamed to a valid name of the same number. *)
Lemma wf_names_rename_key k k' v l :
  wf_names valid l = true -> lookup k l = Some v ->
  is_tmp k = false -> is_tmp k' = false -> key_of k' = key_of k ->
  valid k' = true ->
  wf_names valid (rename_key k k' l) = true
  /\ (k' <> k -> lookup k' l = None).
Proof.
  intros Hwf Hl Ht Ht' Hkey Hv.
  assert (Hfresh : k' <> k -> lookup k' l = None).
  { intros Hne. destruct (lookup k' l) as [v'|] eqn:E; [|reflexivity].
    exfalso. apply Hne.
    exact (wf_names_same_key _ _ _ _ _ Hwf Hl E Ht Ht' Hkey). }
  split; [|assumption].
  destruct (String.eqb k' k) eqn:Ek.
  - apply String.eqb_eq in Ek. subst k'.
    replace (rename_key k k l) with l; [assumption|].
    unfold rename_key. rewrite <- (map_id l) at 1. apply map_ext.
    intros e. destruct (String.eqb (fst e) k) eqn:E; [|reflexivity].
    apply String.eqb_eq in E. destruct e; simpl in *. congruence.
  - apply String.eqb_neq in Ek. specialize (Hfresh Ek).
    apply lookup_none in Hfresh.
    pose proof Hwf as Hwf'. apply wf_names_spec in Hwf'.
    destruct Hwf' as (H1 & H2 & H3).
    destruct (lookup_split _ _ _ Hl) as (l1 & l2 & -> & Hn1).
    pose proof (nodup_split_r _ _ _ _ H1) as (_ & Hn2 & Hnd).
    apply wf_names_spec. repeat split.
    + rewrite rename_key_split by assumption.
      rewrite map_app. simpl. apply NoDup_middle.
      * rewrite <- map_app. assumption.
      * intros Hin. apply Hfresh. rewrite map_app. simpl.
        apply in_app_iff in Hin. apply in_app_iff. simpl. tauto.
    + intros e He. rewrite rename_key_split in He by assumption.
      apply in_app_iff in He. destruct He as [He|[<-|He]].
      * apply H2. apply in_app_iff. tauto.
      * right. exact Hv.
      * apply H2. apply in_app_iff. simpl. tauto.
    + rewrite sorted_entries_rename_key by congruence.
      rewrite map_key_rename_key by assumption. assumption.
Qed.

End WfNames.

(** ** The [os] calls on a well-formed tree *)

Lemma path_eqb_eq p q : path_eqb p q = true <-> p = q.
Proof.
  destruct p as [d n], q as [d' n']. unfold path_eqb. simpl.
  rewrite andb_true_iff, !String.eqb_eq. split.
  - intros [-> ->]. reflexivity.
  - intros H. injection H as -> ->. auto.
Qed.

Lemma path_eqb_refl p : path_eqb p p = true.
Proof. apply path_eqb_eq. reflexivity. Qed.

Lemma path_eqb_neq p q : path_eqb p q = false <-> p <> q.
Proof.
  rewrite <- path_eqb_eq. destruct (path_eqb p q); split; congruence.
Qed.

Lemma filter_all {X : Type} (P : X -> bool) l :
  (forall x, In x l -> P x = true) -> filter P l = l.
Proof.
  induction l as [|x l IH]; simpl; intros H; [reflexivity|].
  rewrite H by (left; reflexivity). rewrite IH; [reflexivity|].
  intros; apply H; right; assumption.
Qed.

Lemma map_all {X : Type} (g : X -> X) l :
  (forall x, In x l -> g x = x) -> map g l = l.
Proof.
  induction l as [|x l IH]; simpl; intros H; [reflexivity|].
  rewrite H by (left; reflexivity). rewrite IH; [reflexivity|].
  intros; apply H; right; assumption.
Qed.

Lemma wf_fs_replace_shard fs d dir' :
  wf_fs fs = true -> wf_names record_name dir' = true ->
  wf_fs (os.set_shards fs (replace_val d dir' (shards fs))) = true.
Proof.
  intros Hwf Hd. apply wf_fs_spec in Hwf. destruct Hwf as [H1 H2].
  apply wf_fs_spec. simpl. split.
  - rewrite wf_names_replace_val. assumption.
  - intros d0 dir0 Hin. unfold replace_val in Hin. apply in_map_iff in Hin.
    destruct Hin as ([d1 dir1] & Heq & Hin). simpl in Heq.
    destruct (String.eqb d1 d).
    + injection Heq as <- <-. right. assumption.
    + injection Heq as <- <-. apply H2. assumption.
Qed.

Lemma records_of_shard_remove d n dir :
  records_of_shard (d, remove n dir) =
  filter (fun r => negb (path_eqb (fst r) (d, n))) (records_of_shard (d, dir)).
Proof.
  unfold records_of_shard. simpl. rewrite sorted_entries_remove.
  unfold remove. generalize (sorted_entries dir). intros s.
  induction s as [|e s IH]; simpl; [reflexivity|].
  unfold path_eqb at 1. simpl. rewrite String.eqb_refl. simpl.
  destruct (String.eqb (fst e) n); simpl; rewrite IH; reflexivity.
Qed.

Lemma records_of_shard_rename d n n' dir :
  key_of n' = key_of n -> is_tmp n' = is_tmp n ->
  records_of_shard (d, rename_key n n' dir) =
  map (rename_record (d, n) (d, n')) (records_of_shard (d, dir)).
Proof.
  intros Hk Ht. unfold records_of_shard. simpl.
  rewrite sorted_entries_rename_key by assumption.
  unfold rename_key. rewrite !map_map. apply map_ext. intros e.
  unfold rename_record, path_eqb. simpl. rewrite String.eqb_refl. simpl.
  destruct (String.eqb (fst e) n); reflexivity.
Qed.

Lemma set_shards_same fs : os.set_shards fs (shards fs) = fs.
Proof. destruct fs; reflexivity. Qed.

(** [os.unlink] of a record *)
Lemma unlink_record fs p f :
  wf_fs fs = true -> In (p, f) (view fs) ->
  exists fs',
    os.unlink p fs = (fs', inr tt)
    /\ wf_fs fs' = true
    /\ view fs' = filter (fun r => negb (path_eqb (fst r) p)) (view fs)
    /\ next_ino fs' = next_ino fs
    /\ exists dir, lookup (fst p) (shards fs) = Some dir
                   /\ shards fs' =
                      replace_val (fst p) (remove (snd p) dir) (shards fs).
Proof.
  destruct p as [d n]. intros Hwf Hin.
  apply view_in in Hin; [|assumption].
  destruct Hin as (dir & Hl & Ht & Hn & Ht').
  destruct (wf_fs_shard _ _ _ Hwf Hl Ht) as [Hwd _].
  unfold os.unlink. simpl. rewrite Hl, Hn.
  eexists. split; [reflexivity|]. split.
  { apply wf_fs_replace_shard; [assumption|].
    apply wf_names_remove. assumption. }
  split; [|split; [reflexivity|exists dir; auto]].
  destruct (view_shard_split_self _ _ _ Hwf Hl Ht) as (b & a & Hba & Hv & Hv').
  rewrite Hv', Hv, !filter_app, records_of_shard_remove.
  rewrite (filter_all _ b), (filter_all _ a); [reflexivity| |].
  - intros r Hr. apply negb_true_iff, path_eqb_neq. intros E.
    apply (Hba r); [apply in_or_app; auto|].
    destruct r as [[? ?] ?]; simpl in *; congruence.
  - intros r Hr. apply negb_true_iff, path_eqb_neq. intros E.
    apply (Hba r); [apply in_or_app; auto|].
    destruct r as [[? ?] ?]; simpl in *; congruence.
Qed.

(** [os.rename] of a record to a name with the same number, in its shard *)
Lemma rename_record_in_place fs d n n' f :
  wf_fs fs = true -> In ((d, n), f) (view fs) ->
  record_name n' = true -> key_of n' = key_of n ->
  exists fs',
    os.rename (d, n) (d, n') fs = (fs', inr tt)
    /\ wf_fs fs' = true
    /\ view fs' = map (rename_record (d, n) (d, n')) (view fs)
    /\ next_ino fs' = next_ino fs
    /\ map fst (shards fs') = map fst (shards fs).
Proof.
  intros Hwf Hin Hv Hk.
  apply view_in in Hin; [|assumption].
  destruct Hin as (dir & Hl & Ht & Hn & Ht').
  destruct (wf_fs_shard _ _ _ Hwf Hl Ht) as [Hwd _].
  pose proof (valid_record_visible _ Hv) as Htn'.
  destruct (wf_names_rename_key record_name n n' f dir Hwd Hn Ht' Htn' Hk Hv)
    as [Hwd' Hfresh].
  unfold os.rename. simpl. rewrite Hl, Hn.
  destruct (path_eqb (d, n) (d, n')) eqn:Ep.
  - apply path_eqb_eq in Ep. injection Ep as <-.
    exists fs. repeat split; try assumption.
    symmetry. apply map_all. intros r _. unfold rename_record.
    destruct (path_eqb (fst r) (d, n)) eqn:E; [|reflexivity].
    apply path_eqb_eq in E. destruct r; simpl in *. congruence.
  - rewrite String.eqb_refl.
    assert (Hne : n' <> n).
    { intros ->. rewrite path_eqb_refl in Ep. discriminate. }
    rewrite remove_notin by (apply lookup_none, Hfresh; assumption).
    eexists. split; [reflexivity|]. split.
    { apply wf_fs_replace_shard; assumption. }
    split; [|split; [reflexivity|simpl; apply map_fst_replace_val]].
    destruct (view_shard_split_self _ _ _ Hwf Hl Ht)
      as (b & a & Hba & Hview & Hview').
    rewrite Hview', Hview, !map_app.
    rewrite records_of_shard_rename by congruence.
    rewrite (map_all _ b), (map_all _ a); [reflexivity| |].
    + intros r Hr. unfold rename_record.
      destruct (path_eqb (fst r) (d, n)) eqn:E; [|reflexivity].
      apply path_eqb_eq in E. exfalso.
      apply (Hba r); [apply in_or_app; auto|].
    destruct r as [[? ?] ?]; simpl in *; congruence.
    + intros r Hr. unfold rename_record.
      destruct (path_eqb (fst r) (d, n)) eqn:E; [|reflexivity].
      apply path_eqb_eq in E. exfalso.
      apply (Hba r); [apply in_or_app; auto|].
    destruct r as [[? ?] ?]; simpl in *; congruence.
Qed.

Lemma read_record fs p f :
  wf_fs fs = true -> In (p, f) (view fs) ->
  _get_content p fs = (fs, inr (content f)).
Proof.
  intros Hwf Hin. unfold _get_content, os.read.
  rewrite (view_find _ _ _ Hwf Hin). reflexivity.
Qed.

Lemma stat_record fs p f :
  wf_fs fs = true -> In (p, f) (view fs) ->
  os.stat_ino p fs = (fs, inr (st_ino f)).
Proof.
  intros Hwf Hin. unfold os.stat_ino.
  rewrite (view_find _ _ _ Hwf Hin). reflexivity.
Qed.

(** ** The walk over a tree whose other shards the loop body leaves alone *)

Lemma listing_shard_dir fs d dir :
  lookup d (shards fs) = Some dir -> d <> EmptyString ->
  wf_names record_name dir = true ->
  _get_sorted_filenames d fs = (fs, inr (map fst (sorted_entries dir))).
Proof.
  intros Hl Hn Hd. unfold _get_sorted_filenames, bind, os.listdir.
  destruct (String.eqb d "") eqn:E.
  - apply String.eqb_eq in E. contradiction.
  - rewrite Hl.
    change (fun x => negb (Py.endswith x tmp_suffix))
      with (fun x => negb (is_tmp x)).
    rewrite (listing_sorted record_name valid_record_key _ Hd).
    unfold ret. rewrite sorted_names_keyed, sorted_entries_names.
    reflexivity.
Qed.

Section Walk.

Context {A : Type} (exclude : string)
        (body : path -> A -> M filesystem (A * bool)).

(** The body touches the shard of its path only. *)
Hypothesis body_local :
  forall p acc fs d,
    d <> fst p ->
    lookup d (shards (fst (body p acc fs))) = lookup d (shards fs).

Lemma walk_shards (L : list (string * directory)) acc fs :
  NoDup (map fst L) ->
  (forall d dir, In (d, dir) L ->
     wf_names record_name dir = true /\ d <> EmptyString
     /\ lookup d (shards fs) = Some dir) ->
  for_each (map fst L)
    (fun message_dir acc =>
       bind (_get_sorted_filenames message_dir)
         (fun filenames =>
            for_each filenames
              (fun filename acc =>
                 if negb (Py.intersects exclude
                            (_get_flags (EmptyString, filename)))
                 then body (message_dir, filename) acc
                 else ret (acc, false))
              acc))
    acc fs =
  for_each (filter (yielded exclude)
              (map fst (flat_map records_of_shard L)))
    body acc fs.
Proof.
  revert acc fs. induction L as [|[d dir] L IH]; intros acc fs Hnd HL.
  - reflexivity.
  - simpl map at 1. simpl flat_map. rewrite map_app, filter_app.
    rewrite for_each_app.
    destruct (HL d dir (or_introl eq_refl)) as (Hwd & Hne & Hl).
    cbn [for_each]. unfold bind at 1.
    rewrite (listing_shard_dir _ _ _ Hl Hne Hwd).
    assert (Hinner :
      for_each (map fst (sorted_entries dir))
        (fun filename acc0 =>
           if negb (Py.intersects exclude (_get_flags (EmptyString, filename)))
           then body (d, filename) acc0 else ret (acc0, false)) acc fs =
      for_each (filter (yielded exclude)
                  (map fst (records_of_shard (d, dir)))) body acc fs).
    { unfold records_of_shard. simpl. rewrite !map_map. simpl.
      generalize (sorted_entries dir). intros s. clear.
      revert acc fs. induction s as [|e s IHs]; intros acc fs; simpl.
      - reflexivity.
      - unfold yielded at 1. unfold _get_flags at 1 3. simpl.
        destruct (negb _); simpl.
        + destruct (body (d, fst e) acc fs) as [s' [x|[acc' [|]]]];
            try reflexivity. apply IHs.
        + apply IHs. }
    rewrite Hinner.
    assert (Hkeep : forall d' dir', In (d', dir') L ->
      lookup d' (shards (fst (for_each
         (filter (yielded exclude) (map fst (records_of_shard (d, dir))))
         body acc fs))) = Some dir').
    { intros d' dir' Hin.
      apply (for_each_keeps (fun s => lookup d' (shards s) = Some dir')).
      - intros p acc0 s Hp Hs. rewrite body_local; [assumption|].
        apply filter_In in Hp. destruct Hp as [Hp _].
        unfold records_of_shard in Hp. rewrite map_map in Hp.
        apply in_map_iff in Hp. destruct Hp as (e & <- & _). simpl.
        intros ->. inversion Hnd as [|? ? Hd _]; subst. apply Hd.
        apply (in_map fst) in Hin. exact Hin.
      - apply HL. right. assumption. }
    destruct (for_each (filter (yielded exclude)
                (map fst (records_of_shard (d, dir)))) body acc fs)
      as [fs1 [x|[acc1 [|]]]]; try reflexivity.
    simpl in Hkeep. apply IH.
    + inversion Hnd; assumption.
    + intros d' dir' Hin. destruct (HL d' dir' (or_intror Hin)) as (H1 & H2 & _).
      auto.
Qed.

(** On a well-formed tree the walk visits the records of the view. *)
Lemma walk_static acc fs :
  wf_fs fs = true ->
  _walk_messages exclude body acc fs =
  for_each (filter (yielded exclude) (map fst (view fs))) body acc fs.
Proof.
  intros Hwf. unfold _walk_messages, bind at 1.
  rewrite (listing_root _ Hwf). unfold view.
  apply walk_shards.
  - apply sorted_entries_nodup, wf_fs_nodup. assumption.
  - intros d dir Hin. apply sorted_entries_in in Hin. destruct Hin as [Hin Ht].
    pose proof (in_lookup _ _ _ (wf_fs_nodup _ Hwf) Hin) as Hl.
    destruct (wf_fs_shard _ _ _ Hwf Hl Ht) as [Hwd Hs].
    repeat split; try assumption. apply shard_name_nonempty. assumption.
Qed.

End Walk.

(** ** Computations that stay within one shard *)

Lemma lookup_replace_val_other {V : Type} k k' (v : V) l :
  k' <> k -> lookup k' (replace_val k v l) = lookup k' l.
Proof.
  intros H. unfold replace_val. induction l as [|[k1 v1] l IH]; simpl.
  - reflexivity.
  - destruct (String.eqb k1 k) eqn:E; simpl.
    + apply String.eqb_eq in E. subst.
      destruct (String.eqb k k') eqn:E'.
      * apply String.eqb_eq in E'. congruence.
      * assumption.
    + rewrite IH. reflexivity.
Qed.

Lemma lookup_remove_other {V : Type} k k' (l : list (string * V)) :
  k' <> k -> lookup k' (remove k l) = lookup k' l.
Proof.
  intros H. unfold remove. induction l as [|[k1 v1] l IH]; simpl.
  - reflexivity.
  - destruct (String.eqb k1 k) eqn:E; simpl.
    + apply String.eqb_eq in E. subst.
      destruct (String.eqb k k') eqn:E'.
      * apply String.eqb_eq in E'. congruence.
      * assumption.
    + rewrite IH. reflexivity.
Qed.

Lemma lookup_app_new {V : Type} k k' (v : V) l :
  k' <> k -> lookup k' (l ++ [(k, v)]) = lookup k' l.
Proof.
  intros H. induction l as [|[k1 v1] l IH]; simpl.
  - destruct (String.eqb k k') eqn:E; [|reflexivity].
    apply String.eqb_eq in E. congruence.
  - rewrite IH. reflexivity.
Qed.

Section Leaves.

Context (d : string).

Lemma leaves_ret {A : Type} (a : A) : leaves_shard d (ret a).
Proof. intros fs. reflexivity. Qed.

Lemma leaves_raise {A : Type} e : leaves_shard d (raise (A := A) e).
Proof. intros fs. reflexivity. Qed.

Lemma leaves_bind {A B : Type} (c : M filesystem A) (k : A -> M filesystem B) :
  leaves_shard d c -> (forall a, leaves_shard d (k a)) ->
  leaves_shard d (bind c k).
Proof.
  intros Hc Hk fs. unfold bind. specialize (Hc fs).
  destruct (c fs) as [fs1 [e|a]]; simpl in *; [assumption|].
  rewrite Hk. assumption.
Qed.

Lemma leaves_listdir dir : leaves_shard d (os.listdir dir).
Proof.
  intros fs. unfold os.listdir.
  destruct (String.eqb dir ""); [reflexivity|].
  destruct (lookup dir (shards fs)); reflexivity.
Qed.

Lemma leaves_read p : leaves_shard d (os.read p).
Proof. intros fs. unfold os.read. destruct (os.find p fs); reflexivity. Qed.

Lemma leaves_stat p : leaves_shard d (os.stat_ino p).
Proof.
  intros fs. unfold os.stat_ino. destruct (os.find p fs); reflexivity.
Qed.

Lemma leaves_unlink p : d <> fst p -> leaves_shard d (os.unlink p).
Proof.
  intros H fs. unfold os.unlink.
  destruct (lookup (fst p) (shards fs)) as [dir|]; [|reflexivity].
  destruct (lookup (snd p) dir); [|reflexivity].
  simpl. apply lookup_replace_val_other. assumption.
Qed.

Lemma leaves_rmdir dir : d <> dir -> leaves_shard d (os.rmdir dir).
Proof.
  intros H fs. unfold os.rmdir.
  destruct (lookup dir (shards fs)) as [[|]|]; try reflexivity.
  simpl. apply lookup_remove_other. assumption.
Qed.

Lemma leaves_makedirs dir : d <> dir -> leaves_shard d (os.makedirs dir).
Proof.
  intros H fs. unfold os.makedirs.
  destruct (lookup dir (shards fs)); [reflexivity|].
  simpl. apply lookup_app_new. assumption.
Qed.

Lemma leaves_write p data : d <> fst p -> leaves_shard d (os.write p data).
Proof.
  intros H fs. unfold os.write.
  destruct (lookup (fst p) (shards fs)) as [dir|]; [|reflexivity].
  destruct (lookup (snd p) dir); simpl;
    apply lookup_replace_val_other; assumption.
Qed.

Lemma leaves_rename p q :
  d <> fst p -> d <> fst q -> leaves_shard d (os.rename p q).
Proof.
  intros Hp Hq fs. unfold os.rename.
  destruct (lookup (fst p) (shards fs)) as [dir|]; [|reflexivity].
  destruct (lookup (snd p) dir); [|reflexivity].
  destruct (path_eqb p q); [reflexivity|].
  destruct (String.eqb (fst p) (fst q)).
  - simpl. apply lookup_replace_val_other. assumption.
  - destruct (lookup (fst q) (shards fs)); [|reflexivity].
    simpl. rewrite !lookup_replace_val_other by assumption. reflexivity.
Qed.

Lemma leaves_set_flags p flags : d <> fst p -> leaves_shard d (_set_flags p flags).
Proof.
  intros H. destruct p as [dn bn]. unfold _set_flags.
  apply leaves_bind; [|intros; apply leaves_ret].
  apply leaves_rename; assumption.
Qed.

Lemma leaves_add_flags p flags :
  d <> fst p -> leaves_shard d (_add_flags p flags).
Proof.
  intros H. unfold _add_flags.
  apply leaves_bind; [|intros; apply leaves_ret].
  apply leaves_set_flags. assumption.
Qed.

End Leaves.

(** ** The walk over the pending records *)

Lemma yielded_unflagged p : yielded (String HELD (flag BROKEN)) p = unflagged p.
Proof. reflexivity. Qed.

Lemma filter_map_fst {X Y : Type} (P : X -> bool) (l : list (X * Y)) :
  filter P (map fst l) = map fst (filter (fun r => P (fst r)) l).
Proof.
  induction l as [|r l IH]; simpl; [reflexivity|].
  destruct (P (fst r)); simpl; rewrite IH; reflexivity.
Qed.

Section WalkPending.

Context {A : Type} (pending_offset : Z)
        (body : path -> A -> M filesystem (A * bool)).

Hypothesis body_local :
  forall p acc d, d <> fst p -> leaves_shard d (body p acc).

Lemma enumerate_from (U : list path) (i : nat) acc fs :
  bind (for_each U
          (fun filename (ia : nat * A) =>
             let (i, acc) := ia in
             if (pending_offset <=? Z.of_nat i)%Z then
               bind (body filename acc)
                 (fun r => ret ((S i, fst r), snd r))
             else ret ((S i, acc), false))
          (i, acc))
       (fun r => ret (snd (fst r), snd r)) fs =
  for_each (skipn (Z.to_nat pending_offset - i) U) body acc fs.
Proof.
  revert i acc fs. induction U as [|x U IH]; intros i acc fs.
  - rewrite skipn_nil. reflexivity.
  - destruct (pending_offset <=? Z.of_nat i)%Z eqn:E.
    + pose proof (proj1 (Z.leb_le _ _) E) as E'.
      replace (Z.to_nat pending_offset - i)%nat with 0%nat by lia.
      simpl skipn. specialize (IH (S i)).
      replace (Z.to_nat pending_offset - S i)%nat with 0%nat in IH by lia.
      simpl skipn in IH. unfold bind in *. simpl. rewrite E.
      destruct (body x acc fs) as [fs1 [e|[acc1 [|]]]]; simpl;
        try reflexivity.
      apply IH.
    + pose proof (proj1 (Z.leb_gt _ _) E) as E'.
      destruct (Z.to_nat pending_offset - i)%nat as [|k] eqn:Ek; [lia|].
      simpl skipn. specialize (IH (S i)).
      replace (Z.to_nat pending_offset - S i)%nat with k in IH by lia.
      unfold bind in *. simpl. rewrite E. simpl.
      apply IH.
Qed.

Lemma walk_pending_static acc fs :
  wf_fs fs = true ->
  _walk_pending_messages pending_offset body acc fs =
  for_each (map fst (pending pending_offset (view fs))) body acc fs.
Proof.
  intros Hwf. unfold _walk_pending_messages.
  assert (Hw : forall s,
    _walk_messages (String HELD (flag BROKEN))
      (fun filename (ia : nat * A) =>
         let (i, acc) := ia in
         if (pending_offset <=? Z.of_nat i)%Z then
           bind (body filename acc) (fun r => ret ((S i, fst r), snd r))
         else ret ((S i, acc), false)) (0%nat, acc) fs = s ->
    s = for_each (filter (yielded (String HELD (flag BROKEN)))
                    (map fst (view fs)))
          (fun filename (ia : nat * A) =>
             let (i, acc) := ia in
             if (pending_offset <=? Z.of_nat i)%Z then
               bind (body filename acc) (fun r => ret ((S i, fst r), snd r))
             else ret ((S i, acc), false)) (0%nat, acc) fs).
  { intros s <-. apply walk_static; [|assumption].
    intros p [i a] fs0 d Hd.
    destruct (pending_offset <=? Z.of_nat i)%Z; [|reflexivity].
    apply leaves_bind; [apply body_local; assumption|].
    intros; apply leaves_ret. }
  unfold bind at 1. rewrite (Hw _ eq_refl).
  pose proof (enumerate_from
    (filter (yielded (String HELD (flag BROKEN))) (map fst (view fs)))
    0 acc fs) as He.
  unfold bind at 1 in He. rewrite He.
  rewrite Nat.sub_0_r. unfold pending, unflagged_records.
  rewrite filter_map_fst, skipn_map. reflexivity.
Qed.

End WalkPending.

(** ** Flags in record names *)

Section FlagNames.

Local Open Scope string_scope.

Lemma key_of_parts x b k :
  Py.split "_" x = b :: nil \/ (exists f, Py.split "_" x = [b; f]) ->
  Py.int b = Some k -> key_of x = k.
Proof.
  intros H Hb. unfold key_of, sort_key.
  destruct H as [->|[f ->]]; simpl; rewrite Hb; reflexivity.
Qed.

(** The name [_set_flags] writes is a record name with the same number and
    the flags asked for. *)
Lemma set_flags_name_facts n F d :
  record_name n = true ->
  F = "" \/ canonical_flags (Py.sorted_set F) = true ->
  record_name (set_flags_name n F) = true
  /\ key_of (set_flags_name n F) = key_of n
  /\ _get_flags (d, set_flags_name n F) =
     match F with "" => "" | _ => Py.sorted_set F end.
Proof.
  intros Hn HF. apply record_name_inv in Hn.
  destruct Hn as (b & k & Hb & Hn).
  assert (Hhd : nth 0 (Py.split "_" n) "" = b /\ key_of n = k).
  { destruct Hn as [->|(f & Hf & ->)].
    - destruct (plain_name_facts _ _ Hb) as (Hs & _). rewrite Hs.
      split; [reflexivity|]. apply (key_of_parts _ b); auto.
    - destruct (flagged_name_facts _ _ _ Hb Hf) as (Hs & _). rewrite Hs.
      split; [reflexivity|]. apply (key_of_parts _ b); eauto. }
  destruct Hhd as [Hhd Hkey]. rewrite Hkey.
  assert (Hplain : record_name b = true /\ key_of b = k
                   /\ _get_flags (d, b) = "").
  { destruct (plain_name_facts _ _ Hb) as (Hs & _ & Hc).
    split; [|split].
    - unfold record_name. rewrite Hs, Hb. reflexivity.
    - apply (key_of_parts _ b); auto.
    - unfold _get_flags. cbn [snd]. rewrite Hc. reflexivity. }
  destruct F as [|c F'].
  { replace (set_flags_name n "") with b
      by (unfold set_flags_name; rewrite Hhd; reflexivity).
    exact Hplain. }
  destruct HF as [HF|HF]; [discriminate|].
  replace (set_flags_name n (String c F'))
    with (b ++ "_" ++ Py.sorted_set (String c F'))
    by (unfold set_flags_name; rewrite Hhd; reflexivity).
  destruct (flagged_name_facts _ _ _ Hb HF) as (Hs & _ & Hc).
  split; [|split].
  - unfold record_name. rewrite Hs, Hb. exact HF.
  - apply (key_of_parts _ b); eauto.
  - unfold _get_flags. cbn [snd]. rewrite Hc, Hs. reflexivity.
Qed.

(** The flags of a record name. *)
Lemma record_name_flags n d :
  record_name n = true ->
  _get_flags (d, n) = "" \/ _get_flags (d, n) = "b"
  \/ _get_flags (d, n) = "h" \/ _get_flags (d, n) = "bh".
Proof.
  intros Hn. apply record_name_inv in Hn.
  destruct Hn as (b & k & Hb & [->|(f & Hf & ->)]).
  - destruct (plain_name_facts _ _ Hb) as (_ & _ & Hc).
    left. unfold _get_flags. cbn [snd]. rewrite Hc. reflexivity.
  - destruct (flagged_name_facts _ _ _ Hb Hf) as (Hs & _ & Hc).
    right. unfold _get_flags. cbn [snd]. rewrite Hc, Hs. cbn [nth].
    apply canonical_flags_inv. assumption.
Qed.

Lemma unflagged_record_flags n d :
  record_name n = true -> unflagged (d, n) = true -> _get_flags (d, n) = "".
Proof.
  intros Hn Hu. unfold unflagged in Hu.
  destruct (record_name_flags n d Hn) as [H|[H|[H|H]]]; rewrite H in *;
    [reflexivity|discriminate..].
Qed.

(** Adding one flag to an unflagged record name. *)
Lemma add_flags_path_facts d n c :
  record_name n = true -> unflagged (d, n) = true ->
  c = HELD \/ c = BROKEN ->
  record_name (snd (add_flags_path (d, n) c)) = true
  /\ key_of (snd (add_flags_path (d, n) c)) = key_of n
  /\ _get_flags (add_flags_path (d, n) c) = flag c
  /\ unflagged (add_flags_path (d, n) c) = false.
Proof.
  intros Hn Hu Hc. unfold add_flags_path. simpl fst. simpl snd.
  rewrite (unflagged_record_flags _ _ Hn Hu). simpl append.
  assert (Hs : Py.sorted_set (flag c) = flag c) by reflexivity.
  assert (Hcan : canonical_flags (Py.sorted_set (flag c)) = true).
  { destruct Hc as [->| ->]; reflexivity. }
  destruct (set_flags_name_facts n (flag c) d Hn (or_intror Hcan))
    as (H1 & H2 & H3).
  repeat split; try assumption.
  unfold unflagged. rewrite H3.
  destruct Hc as [->| ->]; reflexivity.
Qed.

End FlagNames.

Lemma view_record_name fs d n f :
  wf_fs fs = true -> In ((d, n), f) (view fs) -> record_name n = true.
Proof.
  intros Hwf Hin. apply view_in in Hin; [|assumption].
  destruct Hin as (dir & Hl & Ht & Hn & Ht').
  destruct (wf_fs_shard _ _ _ Hwf Hl Ht) as [Hwd _].
  apply wf_names_spec in Hwd. destruct Hwd as (_ & Hv & _).
  apply lookup_in in Hn. destruct (Hv _ Hn) as [H|H]; simpl in H;
    [congruence|assumption].
Qed.

(** [_set_flags] on a record, with canonical flags *)
Lemma set_flags_record fs d n f F :
  wf_fs fs = true -> In ((d, n), f) (view fs) ->
  F = EmptyString \/ canonical_flags (Py.sorted_set F) = true ->
  exists fs',
    _set_flags (d, n) F fs = (fs', inr (d, set_flags_name n F))
    /\ wf_fs fs' = true
    /\ view fs' =
       map (rename_record (d, n) (d, set_flags_name n F)) (view fs)
    /\ next_ino fs' = next_ino fs
    /\ map fst (shards fs') = map fst (shards fs).
Proof.
  intros Hwf Hin HF.
  pose proof (view_record_name _ _ _ _ Hwf Hin) as Hn.
  destruct (set_flags_name_facts n F d Hn HF) as (H1 & H2 & _).
  destruct (rename_record_in_place fs d n _ f Hwf Hin H1 H2)
    as (fs' & Hr & Hwf' & Hv & Hi & Hsh).
  exists fs'. repeat split; try assumption.
  unfold _set_flags, bind.
  change (os.rename (d, n) (d, set_flags_name n F) fs) with
    (os.rename (d, n) (d, set_flags_name n F) fs) in Hr.
  unfold set_flags_name in *. destruct F; simpl in *; rewrite Hr; reflexivity.
Qed.

(** [_add_flags] on an unflagged record *)
Lemma add_flags_record fs p f c :
  wf_fs fs = true -> In (p, f) (view fs) -> unflagged p = true ->
  c = HELD \/ c = BROKEN ->
  exists fs',
    _add_flags p (flag c) fs = (fs', inr tt)
    /\ wf_fs fs' = true
    /\ view fs' = map (rename_record p (add_flags_path p c)) (view fs)
    /\ next_ino fs' = next_ino fs.
Proof.
  destruct p as [d n]. intros Hwf Hin Hu Hc.
  pose proof (view_record_name _ _ _ _ Hwf Hin) as Hn.
  assert (HF : (_get_flags (d, n) ++ flag c)%string = EmptyString \/
               canonical_flags
                 (Py.sorted_set (_get_flags (d, n) ++ flag c)%string) = true).
  { right. rewrite (unflagged_record_flags _ _ Hn Hu).
    destruct Hc as [->| ->]; reflexivity. }
  destruct (set_flags_record fs d n f _ Hwf Hin HF)
    as (fs' & Hr & Hwf' & Hv & Hi & _).
  exists fs'. repeat split; try assumption.
  unfold _add_flags, bind. rewrite Hr. reflexivity.
Qed.

(** ** [get_pending_messages] and [count_pending_messages] *)

Lemma rename_record_other p p' r : fst r <> p -> rename_record p p' r = r.
Proof.
  intros H. unfold rename_record.
  destruct (path_eqb (fst r) p) eqn:E; [|reflexivity].
  apply path_eqb_eq in E. contradiction.
Qed.

Lemma in_map_rename_other p p' r v :
  In r v -> fst r <> p -> In r (map (rename_record p p') v).
Proof.
  intros Hin Hne. apply in_map_iff. exists r.
  split; [apply rename_record_other; assumption|assumption].
Qed.

Lemma NoDup_skipn {X : Type} n (l : list X) : NoDup l -> NoDup (skipn n l).
Proof.
  revert l. induction n as [|n IH]; intros l H; [assumption|].
  destruct l as [|x l]; [constructor|]. simpl. apply IH.
  inversion H; assumption.
Qed.

Lemma NoDup_firstn {X : Type} n (l : list X) : NoDup l -> NoDup (firstn n l).
Proof.
  revert l. induction n as [|n IH]; intros l H; [constructor|].
  destruct l as [|x l]; [constructor|]. simpl.
  inversion H as [|? ? Hx Hl]; subst. constructor; [|auto].
  intros Hin. apply Hx. apply (In_nth _ _ x) in Hin.
  destruct Hin as (i & Hi & <-). rewrite length_firstn in Hi.
  rewrite nth_firstn.
  destruct (Nat.ltb_spec i n); [|lia]. apply nth_In. lia.
Qed.

Lemma in_skipn {X : Type} n (l : list X) x : In x (skipn n l) -> In x l.
Proof.
  intros H. rewrite <- (firstn_skipn n l). apply in_or_app. auto.
Qed.

Lemma in_firstn {X : Type} n (l : list X) x : In x (firstn n l) -> In x l.
Proof.
  intros H. rewrite <- (firstn_skipn n l). apply in_or_app. auto.
Qed.

Lemma unflagged_records_in r v :
  In r (unflagged_records v) <-> In r v /\ unflagged (fst r) = true.
Proof. unfold unflagged_records. apply filter_In. Qed.

Lemma pending_in offset r v :
  In r (pending offset v) -> In r v /\ unflagged (fst r) = true.
Proof.
  intros H. apply in_skipn in H. apply unflagged_records_in. assumption.
Qed.

Lemma pending_nodup offset fs :
  wf_fs fs = true -> NoDup (map fst (pending offset (view fs))).
Proof.
  intros Hwf. unfold pending. rewrite <- skipn_map. apply NoDup_skipn.
  unfold unflagged_records. apply NoDup_map_filter, view_nodup. assumption.
Qed.

Section Pending.

Context {imports : Imports}.

Lemma get_pending_body_local max accepted p acc d :
  d <> fst p -> leaves_shard d (get_pending_body max accepted p acc).
Proof.
  intros H. unfold get_pending_body.
  destruct (match max with Some m => _ | None => false end);
    [apply leaves_ret|].
  apply leaves_bind; [apply leaves_read|]. intros data.
  destruct (loads data) as [message|].
  - destruct (negb _); [|apply leaves_ret].
    apply leaves_bind; [apply leaves_add_flags; assumption|].
    intros; apply leaves_ret.
  - apply leaves_bind; [apply leaves_add_flags; assumption|].
    intros; apply leaves_ret.
Qed.

(** The loop of [get_pending_messages] does to the tree what
    [scan_pending] does to its records. *)
Lemma get_pending_loop max accepted todo messages fs :
  wf_fs fs = true ->
  (forall r, In r todo -> In r (view fs) /\ unflagged (fst r) = true) ->
  NoDup (map fst todo) ->
  exists fs' stop,
    for_each (map fst todo) (get_pending_body max accepted) messages fs =
    (fs', inr (fst (scan_pending max accepted todo messages (view fs)), stop))
    /\ wf_fs fs' = true
    /\ view fs' = snd (scan_pending max accepted todo messages (view fs))
    /\ next_ino fs' = next_ino fs.
Proof.
  revert messages fs.
  induction todo as [|[p f] todo IH]; intros messages fs Hwf Hin Hnd.
  - exists fs, false. simpl. auto.
  - destruct (Hin (p, f) (or_introl eq_refl)) as [Hpv Hpu].
    simpl in Hpu. inversion Hnd as [|? ? Hp Hnd']; subst.
    assert (Hrest : forall fs1 p',
              view fs1 = map (rename_record p p') (view fs) ->
              forall r, In r todo ->
                        In r (view fs1) /\ unflagged (fst r) = true).
    { intros fs1 p' Hv r Hr.
      destruct (Hin r (or_intror Hr)) as [Hrv Hru]. split; [|assumption].
      rewrite Hv. apply in_map_rename_other; [assumption|].
      intros E. apply Hp. rewrite <- E. apply in_map. assumption. }
    simpl map. cbn [for_each scan_pending]. unfold get_pending_body at 1.
    change (match max with
            | Some m => (m <=? Z.of_nat (List.length messages))%Z
            | None => false
            end) with (reached max messages).
    destruct (reached max messages).
    + exists fs, true. unfold ret. auto.
    + unfold bind at 1. rewrite (read_record _ _ _ Hwf Hpv). simpl snd.
      destruct (loads (content f)) as [message|] eqn:El.
      * destruct (negb (Py.mem (msg_type message) accepted)) eqn:Ea.
        -- destruct (add_flags_record fs p f HELD Hwf Hpv Hpu
                       (or_introl eq_refl)) as (fs1 & Hf & Hwf1 & Hv1 & Hi1).
           unfold bind. rewrite Hf. unfold ret.
           destruct (IH messages fs1 Hwf1 (Hrest _ _ Hv1) Hnd')
             as (fs' & stop & Hl & Hwf' & Hv' & Hi').
           exists fs', stop. rewrite Hl, Hv', Hv1. repeat split; congruence.
        -- unfold ret.
           assert (Hsame : forall r, In r todo ->
                     In r (view fs) /\ unflagged (fst r) = true).
           { intros r Hr. apply Hin. right. assumption. }
           destruct (IH (messages ++ [message]) fs Hwf Hsame Hnd')
             as (fs' & stop & Hl & Hwf' & Hv' & Hi').
           exists fs', stop. rewrite Hl, Hv'. repeat split; congruence.
      * destruct (add_flags_record fs p f BROKEN Hwf Hpv Hpu
                    (or_intror eq_refl)) as (fs1 & Hf & Hwf1 & Hv1 & Hi1).
        unfold bind. rewrite Hf. unfold ret.
        destruct (IH messages fs1 Hwf1 (Hrest _ _ Hv1) Hnd')
          as (fs' & stop & Hl & Hwf' & Hv' & Hi').
        exists fs', stop. rewrite Hl, Hv', Hv1. repeat split; congruence.
Qed.

(** [get_pending_messages(max)] on a well-formed store *)
Lemma get_pending_messages_spec max self :
  wf_store self = true ->
  let scan :=
    scan_pending max (get_accepted_types self)
      (pending (get_pending_offset self) (view (_directory self))) []
      (view (_directory self)) in
  exists self',
    get_pending_messages max self = (self', inr (fst scan))
    /\ wf_store self' = true
    /\ view (_directory self') = snd scan
    /\ next_ino (_directory self') = next_ino (_directory self)
    /\ _persist self' = _persist self
    /\ _schemas self' = _schemas self
    /\ _directory_size self' = _directory_size self.
Proof.
  intros Hwf scan. unfold wf_store in Hwf.
  unfold get_pending_messages, on_directory, bind.
  rewrite walk_pending_static;
    [|intros; apply get_pending_body_local; assumption|assumption].
  destruct (get_pending_loop max (get_accepted_types self)
              (pending (get_pending_offset self) (view (_directory self)))
              [] (_directory self) Hwf)
    as (fs' & stop & Hl & Hwf' & Hv' & Hi').
  - intros r Hr. apply pending_in in Hr. assumption.
  - apply pending_nodup. assumption.
  - rewrite Hl. unfold ret. eexists. split; [reflexivity|].
    unfold wf_store. cbn [_directory _persist _schemas _directory_size].
    subst scan. repeat split; assumption.
Qed.

(** [count_pending_messages()] on a well-formed store *)
Lemma count_pending_messages_spec self :
  wf_store self = true ->
  count_pending_messages self =
  (self,
   inr (List.length
          (pending (get_pending_offset self) (view (_directory self))))).
Proof.
  intros Hwf. unfold wf_store in Hwf.
  unfold count_pending_messages, on_directory, bind.
  rewrite walk_pending_static;
    [|intros; intros fs0; reflexivity|assumption].
  assert (Hc : forall (l : list path) n (fs : filesystem),
            for_each l (fun _ n => ret (S n, false)) n fs =
            (fs, inr ((List.length l + n)%nat, false))).
  { induction l as [|x l IH]; intros n fs; simpl; [reflexivity|].
    unfold ret at 1. rewrite IH. do 3 f_equal. lia. }
  rewrite Hc. unfold ret. rewrite length_map, Nat.add_0_r.
  destruct self; reflexivity.
Qed.

End Pending.

(** ** [delete_old_messages], [delete_all_messages] and [is_pending] *)

Lemma lookup_replace_val_same {V : Type} k (v v' : V) l :
  lookup k l = Some v -> lookup k (replace_val k v' l) = Some v'.
Proof.
  unfold replace_val. induction l as [|[k1 v1] l IH]; simpl; [discriminate|].
  destruct (String.eqb k1 k) eqn:E; simpl.
  - intros _. rewrite String.eqb_refl. reflexivity.
  - rewrite E. assumption.
Qed.

Lemma flat_map_nil_middle {X Y : Type} (f : X -> list Y) l1 x l2 :
  f x = [] -> flat_map f (l1 ++ x :: l2) = flat_map f (l1 ++ l2).
Proof.
  intros H. rewrite !flat_map_app. simpl. rewrite H. reflexivity.
Qed.

Lemma path_eqb_sym p q : path_eqb p q = path_eqb q p.
Proof.
  unfold path_eqb. rewrite (String.eqb_sym (fst p)), (String.eqb_sym (snd p)).
  reflexivity.
Qed.

(** Removing an empty shard changes no record. *)
Lemma rmdir_empty fs d :
  wf_fs fs = true -> lookup d (shards fs) = Some [] ->
  wf_fs (os.set_shards fs (remove d (shards fs))) = true
  /\ view (os.set_shards fs (remove d (shards fs))) = view fs.
Proof.
  intros Hwf Hl. split.
  - pose proof Hwf as Hwf'. apply wf_fs_spec in Hwf'.
    destruct Hwf' as [H1 H2]. apply wf_fs_spec. simpl. split.
    + apply wf_names_remove. assumption.
    + intros d0 dir0 Hin. apply H2. unfold remove in Hin.
      apply filter_In in Hin. tauto.
  - unfold view. simpl. rewrite sorted_entries_remove.
    pose proof (sorted_entries_nodup _ (wf_fs_nodup _ Hwf)) as Hnd.
    destruct (lookup d (sorted_entries (shards fs))) as [dir|] eqn:E.
    + assert (Hdir : dir = []).
      { apply lookup_in, sorted_entries_in in E. destruct E as [E _].
        apply (in_lookup _ _ _ (wf_fs_nodup _ Hwf)) in E. congruence. }
      subst dir. destruct (lookup_split _ _ _ E) as (s1 & s2 & Hs & Hn1).
      rewrite Hs in *. apply nodup_split_r in Hnd.
      destruct Hnd as (_ & Hn2 & _).
      rewrite remove_split by assumption.
      rewrite flat_map_nil_middle; reflexivity.
    + rewrite remove_notin; [reflexivity|]. apply lookup_none. assumption.
Qed.

(** The body of the loop of [delete_old_messages] on a record *)
Lemma delete_old_body_record fs p f :
  wf_fs fs = true -> In (p, f) (view fs) ->
  exists fs',
    delete_old_body p fs = (fs', inr tt)
    /\ wf_fs fs' = true
    /\ view fs' = filter (fun r => negb (path_eqb (fst r) p)) (view fs)
    /\ next_ino fs' = next_ino fs.
Proof.
  intros Hwf Hin.
  destruct (unlink_record _ _ _ Hwf Hin)
    as (fs1 & Hu & Hwf1 & Hv1 & Hi1 & dir & Hl & Hs).
  destruct p as [d n]. simpl in Hl, Hs.
  apply view_in in Hin; [|assumption].
  destruct Hin as (dir0 & Hl0 & Ht & _).
  destruct (wf_fs_shard _ _ _ Hwf Hl0 Ht) as [_ Hsn].
  apply shard_name_nonempty in Hsn.
  assert (Hl1 : lookup d (shards fs1) = Some (remove n dir)).
  { rewrite Hs. apply (lookup_replace_val_same _ dir). assumption. }
  unfold delete_old_body. cbv zeta. cbn [fst]. unfold bind. rewrite Hu.
  unfold os.listdir.
  destruct (String.eqb d "") eqn:E;
    [apply String.eqb_eq in E; contradiction|].
  rewrite Hl1.
  destruct (map fst (remove n dir)) as [|x xs] eqn:Em.
  - apply map_eq_nil in Em. rewrite Em in Hl1.
    destruct (rmdir_empty _ _ Hwf1 Hl1) as [Hwf2 Hv2].
    unfold os.rmdir. rewrite Hl1. eexists. split; [reflexivity|].
    repeat split; try assumption. congruence.
  - exists fs1. unfold ret. auto.
Qed.

Lemma delete_old_body_local p d :
  d <> fst p -> leaves_shard d (delete_old_body p).
Proof.
  intros H. unfold delete_old_body.
  apply leaves_bind; [apply leaves_unlink; assumption|]. intros _.
  apply leaves_bind; [apply leaves_listdir|]. intros names.
  destruct names; [apply leaves_rmdir; assumption|apply leaves_ret].
Qed.

Lemma filter_filter {X : Type} (P Q : X -> bool) l :
  filter P (filter Q l) = filter (fun x => Q x && P x) l.
Proof.
  induction l as [|x l IH]; simpl; [reflexivity|].
  destruct (Q x); simpl; [|assumption].
  destruct (P x); rewrite IH; reflexivity.
Qed.

Lemma in_view_after_unlink fs fs1 p r :
  view fs1 = filter (fun r => negb (path_eqb (fst r) p)) (view fs) ->
  In r (view fs) -> fst r <> p -> In r (view fs1).
Proof.
  intros Hv Hr Hne. rewrite Hv. apply filter_In. split; [assumption|].
  apply negb_true_iff, path_eqb_neq. assumption.
Qed.

(** The loop of [delete_old_messages] under [islice]: it unlinks the first
    [stop - taken] records it is given. *)
Lemma delete_old_loop (stop : Z) todo taken fs :
  wf_fs fs = true ->
  (forall r, In r todo -> In r (view fs)) ->
  NoDup (map fst todo) ->
  (Z.of_nat taken < stop)%Z ->
  exists fs' acc,
    for_each (map fst todo)
      (fun x taken =>
         bind (delete_old_body x)
           (fun _ => ret (S taken, (stop <=? Z.of_nat (S taken))%Z)))
      taken fs = (fs', inr acc)
    /\ wf_fs fs' = true
    /\ view fs' =
       filter (fun r => negb (path_in (fst r)
                                (firstn (Z.to_nat stop - taken) todo)))
         (view fs)
    /\ next_ino fs' = next_ino fs.
Proof.
  revert taken fs.
  induction todo as [|[p f] todo IH]; intros taken fs Hwf Hin Hnd Hlt.
  - exists fs, (taken, false). rewrite firstn_nil. simpl.
    repeat split; try assumption. symmetry. apply filter_all. auto.
  - inversion Hnd as [|? ? Hp Hnd']; subst.
    destruct (delete_old_body_record _ _ _ Hwf (Hin _ (or_introl eq_refl)))
      as (fs1 & Hb & Hwf1 & Hv1 & Hi1).
    simpl map. cbn [for_each]. unfold bind at 1. rewrite Hb. unfold ret at 1.
    destruct (Z.to_nat stop - taken)%nat as [|k] eqn:Ek; [lia|].
    cbn [firstn].
    destruct (stop <=? Z.of_nat (S taken))%Z eqn:Es.
    + apply Z.leb_le in Es. assert (k = 0)%nat by lia. subst k.
      exists fs1, (S taken, true). simpl firstn.
      repeat split; try assumption. rewrite Hv1.
      apply filter_ext. intros r. unfold path_in. simpl.
      rewrite orb_false_r, path_eqb_sym. reflexivity.
    + apply Z.leb_gt in Es.
      destruct (IH (S taken) fs1 Hwf1) as (fs' & acc & Hl & Hwf' & Hv' & Hi').
      * intros r Hr. apply (in_view_after_unlink fs _ p).
        -- assumption.
        -- apply Hin. right. assumption.
        -- intros E. apply Hp. rewrite <- E. apply in_map. assumption.
      * assumption.
      * assumption.
      * exists fs', acc. rewrite Hl. repeat split; try assumption;
          [|congruence].
        rewrite Hv', Hv1, filter_filter.
        replace (Z.to_nat stop - S taken)%nat with k by lia.
        apply filter_ext. intros r. unfold path_in. simpl.
        rewrite negb_orb, (path_eqb_sym p). reflexivity.
Qed.

Lemma unflagged_nodup fs :
  wf_fs fs = true -> NoDup (map fst (unflagged_records (view fs))).
Proof.
  intros Hwf. unfold unflagged_records.
  apply NoDup_map_filter, view_nodup. assumption.
Qed.

(** [delete_old_messages()] on a well-formed store *)
Lemma delete_old_messages_spec self :
  wf_store self = true ->
  (0 <= get_pending_offset self <= sys.maxsize)%Z ->
  exists self',
    delete_old_messages self = (self', inr tt)
    /\ wf_store self' = true
    /\ view (_directory self') =
       without_old (get_pending_offset self) (view (_directory self))
    /\ next_ino (_directory self') = next_ino (_directory self)
    /\ _persist self' = _persist self
    /\ _schemas self' = _schemas self
    /\ _directory_size self' = _directory_size self.
Proof.
  intros Hwf Hp. unfold wf_store in Hwf.
  unfold delete_old_messages, on_directory, islice_loop.
  destruct (get_pending_offset self <? 0)%Z eqn:E1;
    [apply Z.ltb_lt in E1; lia|].
  destruct (sys.maxsize <? get_pending_offset self)%Z eqn:E0;
    [apply Z.ltb_lt in E0; lia|].
  cbn [orb].
  destruct (get_pending_offset self =? 0)%Z eqn:E2.
  - apply Z.eqb_eq in E2. exists self. unfold ret.
    split; [destruct self; reflexivity|].
    repeat split; try assumption.
    unfold without_old, old_records. rewrite E2. simpl.
    symmetry. apply filter_all. auto.
  - apply Z.eqb_neq in E2. unfold bind at 1.
    rewrite walk_static; [|
      intros p acc fs0 d Hd;
      apply (leaves_bind d); [apply delete_old_body_local; assumption|];
      intros; apply leaves_ret | assumption].
    change (filter (yielded (String HELD (flag BROKEN)))
              (map fst (view (_directory self))))
      with (filter unflagged (map fst (view (_directory self)))).
    rewrite filter_map_fst.
    destruct (delete_old_loop (get_pending_offset self)
                (unflagged_records (view (_directory self)))
                0 (_directory self) Hwf)
      as (fs' & acc & Hl & Hwf' & Hv' & Hi').
    + intros r Hr. apply unflagged_records_in in Hr. tauto.
    + apply unflagged_nodup. assumption.
    + simpl. lia.
    + unfold unflagged_records in Hl. rewrite Hl. unfold ret.
      eexists. split; [reflexivity|].
      unfold wf_store. cbn [_directory _persist _schemas _directory_size].
      repeat split; try assumption.
      rewrite Hv', Nat.sub_0_r. reflexivity.
Qed.

(** [delete_old_messages()] with a pending offset that [islice] rejects *)
Lemma delete_old_messages_raises self :
  (get_pending_offset self < 0)%Z
  \/ (sys.maxsize < get_pending_offset self)%Z ->
  delete_old_messages self = (self, inl ValueError).
Proof.
  intros H. unfold delete_old_messages, on_directory, islice_loop.
  assert (E : (get_pending_offset self <? 0)%Z
              || (sys.maxsize <? get_pending_offset self)%Z = true).
  { apply orb_true_iff. rewrite !Z.ltb_lt. exact H. }
  rewrite E. unfold raise. destruct self; reflexivity.
Qed.

(** The loop of [delete_all_messages] unlinks every record it is given. *)
Lemma delete_all_loop todo fs :
  wf_fs fs = true ->
  (forall r, In r todo -> In r (view fs)) ->
  NoDup (map fst todo) ->
  exists fs',
    for_each (map fst todo)
      (fun filename (_ : unit) =>
         bind (os.unlink filename) (fun _ => ret (tt, false)))
      tt fs = (fs', inr (tt, false))
    /\ wf_fs fs' = true
    /\ view fs' = filter (fun r => negb (path_in (fst r) todo)) (view fs)
    /\ next_ino fs' = next_ino fs.
Proof.
  revert fs. induction todo as [|[p f] todo IH]; intros fs Hwf Hin Hnd.
  - exists fs. simpl. repeat split; try assumption.
    symmetry. apply filter_all. auto.
  - inversion Hnd as [|? ? Hp Hnd']; subst.
    destruct (unlink_record _ _ _ Hwf (Hin _ (or_introl eq_refl)))
      as (fs1 & Hu & Hwf1 & Hv1 & Hi1 & _).
    simpl map. cbn [for_each]. unfold bind at 1. rewrite Hu. unfold ret at 1.
    destruct (IH fs1 Hwf1) as (fs' & Hl & Hwf' & Hv' & Hi').
    + intros r Hr. apply (in_view_after_unlink fs _ p).
      * assumption.
      * apply Hin. right. assumption.
      * intros E. apply Hp. rewrite <- E. apply in_map. assumption.
    + assumption.
    + exists fs'. rewrite Hl. repeat split; try assumption; [|congruence].
      rewrite Hv', Hv1, filter_filter.
      apply filter_ext. intros r. unfold path_in. simpl.
      rewrite negb_orb, (path_eqb_sym p). reflexivity.
Qed.

Lemma filter_none {X : Type} (P : X -> bool) l :
  (forall x, In x l -> P x = false) -> filter P l = [].
Proof.
  induction l as [|x l IH]; simpl; intros H; [reflexivity|].
  rewrite H by (left; reflexivity). apply IH.
  intros; apply H; right; assumption.
Qed.

Lemma yielded_all p : yielded EmptyString p = true.
Proof. reflexivity. Qed.

Lemma path_in_self (v : list (path * file)) r :
  In r v -> path_in (fst r) v = true.
Proof.
  intros H. unfold path_in. apply existsb_exists. exists r.
  split; [assumption|apply path_eqb_refl].
Qed.

Section DeleteAll.

Context {imports : Imports}.

(** [delete_all_messages()] on a well-formed store *)
Lemma delete_all_messages_spec self :
  wf_store self = true ->
  exists self',
    delete_all_messages self = (self', inr tt)
    /\ wf_store self' = true
    /\ view (_directory self') = []
    /\ next_ino (_directory self') = next_ino (_directory self)
    /\ _persist self' = _persist (set_pending_offset 0 self)
    /\ _schemas self' = _schemas self
    /\ _directory_size self' = _directory_size self.
Proof.
  intros Hwf. unfold wf_store in Hwf.
  unfold delete_all_messages, on_directory.
  cbn [_directory set_pending_offset set_persist].
  unfold bind at 1.
  rewrite walk_static; [|
    intros p acc fs0 d Hd;
    apply (leaves_bind d); [apply leaves_unlink; assumption|];
    intros; apply leaves_ret | assumption].
  rewrite (filter_all (yielded EmptyString))
    by (intros; apply yielded_all).
  destruct (delete_all_loop (view (_directory self)) (_directory self) Hwf)
    as (fs' & Hl & Hwf' & Hv' & Hi').
  - auto.
  - apply view_nodup. assumption.
  - rewrite Hl. unfold ret. eexists. split; [reflexivity|].
    unfold wf_store. cbn [_directory _persist _schemas _directory_size].
    repeat split; try assumption.
    rewrite Hv'. apply filter_none. intros r Hr.
    rewrite path_in_self by assumption. reflexivity.
Qed.

End DeleteAll.

(** ** [is_pending] *)

Lemma is_pending_body_local message_id offset p acc d :
  leaves_shard d (is_pending_body message_id offset p acc).
Proof.
  unfold is_pending_body. destruct acc as [i b].
  apply leaves_bind.
  - destruct (_ || _); [|apply leaves_ret].
    apply leaves_bind; [apply leaves_stat|]. intros; apply leaves_ret.
  - intros found. destruct found; [apply leaves_ret|].
    destruct (_ && _); apply leaves_ret.
Qed.

Lemma is_pending_loop message_id offset recs i fs :
  wf_fs fs = true ->
  (forall r, In r recs -> In r (view fs)) ->
  exists i' stop,
    for_each (map fst recs) (is_pending_body message_id offset) (i, false) fs
    = (fs, inr ((i', is_pending_scan message_id offset recs i), stop)).
Proof.
  intros Hwf. revert i.
  induction recs as [|[p f] recs IH]; intros i Hin.
  - exists i, false. reflexivity.
  - simpl map. cbn [for_each is_pending_scan fst snd].
    unfold is_pending_body at 1. unfold bind at 1.
    pose proof (stat_record _ _ _ Hwf (Hin _ (or_introl eq_refl))) as Hs.
    destruct (Py.contains HELD (_get_flags p) || (offset <=? Z.of_nat i)%Z)
      eqn:Eg; cbn [andb].
    + unfold bind at 1. rewrite Hs. unfold ret at 1.
      destruct (N.eqb (st_ino f) message_id) eqn:Ei.
      * exists i, true. reflexivity.
      * destruct (negb (Py.contains BROKEN (_get_flags p))
                  && negb (Py.contains HELD (_get_flags p))); unfold ret at 1;
          apply IH; intros r Hr; apply Hin; right; assumption.
    + unfold ret at 1.
      destruct (negb (Py.contains BROKEN (_get_flags p))
                && negb (Py.contains HELD (_get_flags p))); unfold ret at 1;
        apply IH; intros r Hr; apply Hin; right; assumption.
Qed.

Section IsPending.

Context {imports : Imports}.

(** [is_pending(message_id)] on a well-formed store *)
Lemma is_pending_spec message_id self :
  wf_store self = true ->
  is_pending message_id self =
  (self,
   inr (is_pending_scan message_id (get_pending_offset self)
          (filter (fun r => yielded (flag BROKEN) (fst r))
             (view (_directory self))) 0)).
Proof.
  intros Hwf. unfold wf_store in Hwf.
  unfold is_pending, on_directory, bind.
  rewrite walk_static;
    [|intros; apply is_pending_body_local|assumption].
  rewrite filter_map_fst.
  destruct (is_pending_loop message_id (get_pending_offset self)
              (filter (fun r => yielded (flag BROKEN) (fst r))
                 (view (_directory self))) 0 (_directory self) Hwf)
    as (i' & stop & Hl).
  - intros r Hr. apply filter_In in Hr. tauto.
  - rewrite Hl. unfold ret. destruct self; reflexivity.
Qed.

End IsPending.

(** ** New entries *)

Section NewEntries.

Context {V : Type} (valid : string -> bool).

Implicit Types (l : list (string * V)) (k : string) (v : V).

Lemma wf_names_app_tmp k v l :
  wf_names valid l = true -> lookup k l = None -> is_tmp k = true ->
  wf_names valid (l ++ [(k, v)]) = true.
Proof.
  rewrite !wf_names_spec. intros (H1 & H2 & H3) Hl Ht. repeat split.
  - rewrite map_app. simpl. rewrite <- (app_nil_r (map fst l)) in H1.
    apply NoDup_middle; [assumption|]. rewrite app_nil_r.
    apply lookup_none. assumption.
  - intros e He. apply in_app_iff in He. destruct He as [He|[<-|[]]]; auto.
  - rewrite sorted_entries_app_tmp by assumption. assumption.
Qed.

Lemma wf_names_app_last k v l :
  wf_names valid l = true -> lookup k l = None ->
  is_tmp k = false -> valid k = true ->
  (forall e, In e (sorted_entries l) -> (key_of (fst e) < key_of k)%N) ->
  wf_names valid (l ++ [(k, v)]) = true.
Proof.
  rewrite !wf_names_spec. intros (H1 & H2 & H3) Hl Ht Hv Hk. repeat split.
  - rewrite map_app. simpl. rewrite <- (app_nil_r (map fst l)) in H1.
    apply NoDup_middle; [assumption|]. rewrite app_nil_r.
    apply lookup_none. assumption.
  - intros e He. apply in_app_iff in He. destruct He as [He|[<-|[]]]; auto.
  - rewrite sorted_entries_app_last.
    + rewrite map_app. simpl.
      rewrite <- (app_nil_r (map _ (sorted_entries l))) in H3.
      apply NoDup_middle; [assumption|]. rewrite app_nil_r.
      intros Hin. apply in_map_iff in Hin. destruct Hin as (e & He & Hin).
      specialize (Hk e Hin). lia.
    + assumption.
    + intros e He. specialize (Hk e He). lia.
Qed.

(** A temporary entry renamed to a valid name with the largest number. *)
Lemma wf_names_publish t k v l1 l2 :
  wf_names valid (l1 ++ (t, v) :: l2) = true ->
  is_tmp t = true -> is_tmp k = false -> valid k = true ->
  lookup k (l1 ++ (t, v) :: l2) = None ->
  (forall e, In e (sorted_entries (l1 ++ (t, v) :: l2)) ->
             (key_of (fst e) < key_of k)%N) ->
  wf_names valid (l1 ++ (k, v) :: l2) = true.
Proof.
  rewrite !wf_names_spec. intros (H1 & H2 & H3) Ht Htk Hv Hl Hk.
  rewrite sorted_entries_tmp_middle in H3, Hk by assumption.
  apply lookup_none in Hl. rewrite map_app in Hl. simpl in Hl.
  repeat split.
  - rewrite map_app in *. simpl in *. apply NoDup_remove_1 in H1.
    apply NoDup_middle; [assumption|]. rewrite in_app_iff in *. simpl in Hl.
    tauto.
  - intros e He. apply in_app_iff in He. destruct He as [He|[<-|He]].
    + apply H2. apply in_or_app. auto.
    + auto.
    + apply H2. apply in_or_app. simpl. auto.
  - rewrite (sorted_entries_publish t) by assumption.
    rewrite sorted_entries_tmp_middle by assumption.
    rewrite map_app. simpl.
    rewrite <- (app_nil_r (map _ (sorted_entries (l1 ++ l2)))) in H3.
    apply NoDup_middle; [assumption|]. rewrite app_nil_r.
    intros Hin. apply in_map_iff in Hin. destruct Hin as (e & He & Hin).
    specialize (Hk e Hin). lia.
Qed.

End NewEntries.

Lemma endswith_refl x : Py.endswith x x = true.
Proof. destruct x; cbn [Py.endswith]; rewrite String.eqb_refl; reflexivity. Qed.

Lemma endswith_app x s : Py.endswith (x ++ s) s = true.
Proof.
  induction x as [|c x IH].
  - apply endswith_refl.
  - change (String c x ++ s)%string with (String c (x ++ s)).
    cbn [Py.endswith]. rewrite IH.
    destruct (String.eqb _ _); reflexivity.
Qed.

Lemma is_tmp_suffix n : is_tmp (n ++ tmp_suffix) = true.
Proof. apply endswith_app. Qed.

Lemma lookup_sorted_entries_in {V : Type} (l : list (string * V)) k v :
  NoDup (map fst l) -> In (k, v) (sorted_entries l) -> lookup k l = Some v.
Proof.
  intros Hnd Hin. apply sorted_entries_in in Hin. apply in_lookup; tauto.
Qed.

(** A visible name that is larger than every visible name is new. *)
Lemma fresh_by_key {V : Type} (l : list (string * V)) k :
  is_tmp k = false ->
  (forall e, In e (sorted_entries l) -> (key_of (fst e) < key_of k)%N) ->
  lookup k l = None.
Proof.
  intros Ht Hk. destruct (lookup k l) as [v|] eqn:E; [|reflexivity].
  exfalso. apply lookup_in in E.
  assert (Hin : In (k, v) (sorted_entries l)).
  { apply sorted_entries_in. auto. }
  specialize (Hk _ Hin). simpl in Hk. lia.
Qed.

Lemma sorted_entries_sorted {V : Type} (l : list (string * V)) :
  StronglySorted (fun a b => (key_of (fst a) <= key_of (fst b))%N)
    (sorted_entries l).
Proof.
  unfold sorted_entries.
  apply (sort_by_sorted (fun e : string * V => key_of (fst e))).
Qed.

(** In a well-formed directory the last visited entry has the strictly
    largest number. *)
Lemma last_entry_largest {V : Type} (valid : string -> bool)
    (l : list (string * V)) s e :
  wf_names valid l = true -> sorted_entries l = s ++ [e] ->
  forall e', In e' (sorted_entries l) ->
             (key_of (fst e') <= key_of (fst e))%N.
Proof.
  intros Hwf Hs e' He'.
  pose proof (sorted_last_max (fun e : string * V => key_of (fst e))
                (sorted_entries l) e e' (sorted_entries_sorted l) He') as H.
  rewrite Hs, last_last in H. exact H.
Qed.

Lemma key_of_plain n k : Py.int n = Some k -> key_of n = k.
Proof.
  intros H. destruct (plain_name_facts _ _ H) as (Hs & _).
  apply (key_of_parts _ n); auto.
Qed.

Lemma plain_record_name n k : Py.int n = Some k -> record_name n = true.
Proof.
  intros H. destruct (plain_name_facts _ _ H) as (Hs & _).
  unfold record_name. rewrite Hs, H. reflexivity.
Qed.

Lemma plain_shard_name n k : Py.int n = Some k -> shard_name n = true.
Proof. intros H. unfold shard_name. rewrite H. reflexivity. Qed.

Lemma plain_visible n k : Py.int n = Some k -> is_tmp n = false.
Proof. intros H. destruct (plain_name_facts _ _ H) as (_ & Ht & _). auto. Qed.

Lemma plain_flags n k d : Py.int n = Some k -> _get_flags (d, n) = EmptyString.
Proof.
  intros H. destruct (plain_name_facts _ _ H) as (_ & _ & Hc).
  unfold _get_flags. cbn [snd]. rewrite Hc. reflexivity.
Qed.

(** [os.makedirs] of a new shard with the largest number *)
Lemma makedirs_last fs d k :
  wf_fs fs = true -> Py.int d = Some k ->
  (forall e, In e (sorted_entries (shards fs)) -> (key_of (fst e) < k)%N) ->
  exists fs',
    os.makedirs d fs = (fs', inr tt)
    /\ shards fs' = shards fs ++ [(d, [])]
    /\ next_ino fs' = next_ino fs
    /\ wf_fs fs' = true
    /\ view fs' = view fs
    /\ sorted_entries (shards fs') = sorted_entries (shards fs) ++ [(d, [])]
    /\ (forall p, os.find p fs' = os.find p fs).
Proof.
  intros Hwf Hd Hk.
  pose proof (plain_visible _ _ Hd) as Ht.
  pose proof (key_of_plain _ _ Hd) as Hkey.
  assert (Hk' : forall e, In e (sorted_entries (shards fs)) ->
                          (key_of (fst e) < key_of d)%N).
  { intros e He. rewrite Hkey. auto. }
  pose proof (fresh_by_key _ _ Ht Hk') as Hfresh.
  assert (Hse : sorted_entries (shards fs ++ [(d, [])]) =
                sorted_entries (shards fs) ++ [(d, [])]).
  { apply sorted_entries_app_last; [assumption|].
    intros e He. specialize (Hk' e He). lia. }
  unfold os.makedirs. rewrite Hfresh. eexists. split; [reflexivity|].
  simpl. repeat split; try assumption.
  - pose proof Hwf as Hwf'. apply wf_fs_spec in Hwf'.
    destruct Hwf' as [H1 H2]. apply wf_fs_spec. simpl. split.
    + apply wf_names_app_last; try assumption.
      apply (plain_shard_name _ _ Hd).
    + intros d0 dir0 Hin. apply in_app_iff in Hin.
      destruct Hin as [Hin|[Heq|[]]]; [apply H2; assumption|].
      injection Heq as <- <-. right. reflexivity.
  - unfold view. simpl. rewrite Hse, flat_map_app. simpl.
    rewrite app_nil_r. reflexivity.
  - intros p. unfold os.find. simpl.
    destruct (String.eqb (fst p) d) eqn:E.
    + apply String.eqb_eq in E. rewrite E, Hfresh.
      rewrite lookup_app_notin by (apply lookup_none; assumption).
      simpl. rewrite String.eqb_refl. reflexivity.
    + apply String.eqb_neq in E. rewrite lookup_app_new by assumption.
      reflexivity.
Qed.

(** ** [_get_next_message_filename] *)

Lemma last_map_fst {X Y : Type} (s : list (X * Y)) e (d : X) :
  last (map fst (s ++ [e])) d = fst e.
Proof. rewrite map_app. simpl. apply last_last. Qed.

Lemma visible_shard_lookup fs s d dir :
  wf_fs fs = true -> sorted_entries (shards fs) = s ++ [(d, dir)] ->
  lookup d (shards fs) = Some dir /\ is_tmp d = false.
Proof.
  intros Hwf Hs.
  assert (Hin : In (d, dir) (sorted_entries (shards fs))).
  { rewrite Hs. apply in_or_app. simpl. auto. }
  split.
  - apply lookup_sorted_entries_in; [apply wf_fs_nodup|]; assumption.
  - apply sorted_entries_in in Hin. tauto.
Qed.

(** The name [_get_next_message_filename] returns is plain, lies in the
    last shard of the enumeration, and has a number above every record
    of that shard; the call creates at most that shard. *)
Lemma next_message_filename_spec size fs :
  wf_fs fs = true ->
  exists fs' d n before dir k,
    _get_next_message_filename size fs = (fs', inr (d, n))
    /\ wf_fs fs' = true
    /\ view fs' = view fs
    /\ next_ino fs' = next_ino fs
    /\ sorted_entries (shards fs') = before ++ [(d, dir)]
    /\ Py.int n = Some k
    /\ (forall e, In e (sorted_entries dir) -> (key_of (fst e) < k)%N)
    /\ (shards fs' = shards fs \/ shards fs' = shards fs ++ [(d, [])])
    /\ (forall p, os.find p fs' = os.find p fs)
    /\ chosen size dir n.
Proof.
  intros Hwf. unfold _get_next_message_filename. unfold bind at 1.
  rewrite (listing_root _ Hwf).
  destruct (sorted_entries (shards fs)) as [|e0 s0] eqn:Ese.
  - (* no shard yet *)
    cbn [map]. unfold bind at 1 2.
    destruct (makedirs_last fs "0" 0 Hwf eq_refl)
      as (fs1 & Hm & Hsh & Hi & Hwf1 & Hv1 & Hse1 & Hfind).
    { rewrite Ese. intros e []. }
    rewrite Hm. unfold ret at 1. unfold bind at 1.
    rewrite Ese in Hse1. simpl in Hse1.
    destruct (visible_shard_lookup fs1 [] "0" [] Hwf1 Hse1) as [Hl Ht].
    rewrite (listing_shard _ _ _ Hwf1 Hl Ht). cbn [sorted_entries map].
    change (map fst (sorted_entries (@nil (string * file)))) with (@nil string).
    exists fs1, "0"%string, "0"%string, [], [], 0%N. unfold ret.
    repeat split; try assumption.
    + intros e [].
    + right. assumption.
  - (* the newest shard *)
    destruct (exists_last (l := e0 :: s0)) as (s & [dN dirN] & Hs);
      [discriminate|].
    rewrite Hs in *. clear e0 s0 Hs.
    destruct (visible_shard_lookup fs s dN dirN Hwf Ese) as [Hl Ht].
    destruct (wf_fs_shard _ _ _ Hwf Hl Ht) as [Hwd Hsn].
    assert (Hdirs : exists x xs, map fst (s ++ [(dN, dirN)]) = x :: xs).
    { destruct s; simpl; eauto. }
    destruct Hdirs as (x & xs & Hdirs).
    assert (Hnew : last (x :: xs) EmptyString = dN).
    { rewrite <- Hdirs. apply (last_map_fst s (dN, dirN)). }
    rewrite Hdirs. unfold bind at 1. unfold ret at 1. rewrite Hnew.
    unfold bind at 1. rewrite (listing_shard _ _ _ Hwf Hl Ht).
    destruct (sorted_entries dirN) as [|f0 t0] eqn:Ed.
    + (* the newest shard holds no record *)
      cbn [map]. exists fs, dN, "0"%string, s, dirN, 0%N. unfold ret.
      repeat split; try assumption; auto.
      * rewrite Ed. intros e [].
      * unfold chosen. rewrite Ed. reflexivity.
    + destruct (exists_last (l := f0 :: t0)) as (t & [nL fL] & Ht0);
        [discriminate|].
      rewrite Ht0 in *. clear f0 t0 Ht0.
      assert (Hfiles : exists y ys, map fst (t ++ [(nL, fL)]) = y :: ys).
      { destruct t; simpl; eauto. }
      destruct Hfiles as (y & ys & Hfiles).
      assert (HnL : last (y :: ys) EmptyString = nL).
      { rewrite <- Hfiles. apply (last_map_fst t (nL, fL)). }
      rewrite Hfiles.
      assert (Hlen : List.length (y :: ys) =
                     List.length (t ++ [(nL, fL)])).
      { rewrite <- Hfiles. apply length_map. }
      destruct (Z.of_nat (List.length (y :: ys)) <? size)%Z eqn:Eroom.
      * (* room in the newest shard *)
        rewrite HnL.
        assert (HinL : In (nL, fL) (sorted_entries dirN)).
        { rewrite Ed. apply in_or_app. simpl. auto. }
        pose proof HinL as HinL'. apply sorted_entries_in in HinL'.
        destruct HinL' as [HinL' HtL]. simpl in HtL.
        pose proof Hwd as Hwd'. apply wf_names_spec in Hwd'.
        destruct Hwd' as (_ & Hval & _).
        destruct (Hval _ HinL') as [Hx|Hx]; simpl in Hx; [congruence|].
        apply record_name_facts in Hx. destruct Hx as (_ & k & Hk & _).
        rewrite Hk.
        exists fs, dN, (Py.str (k + 1)), s, dirN, (k + 1)%N. unfold ret.
        repeat split; try assumption; auto.
        -- apply int_str.
        -- rewrite Ed. intros e He. rewrite <- Ed in He.
           pose proof (last_entry_largest record_name dirN t (nL, fL)
                         Hwd Ed e He) as Hle.
           simpl in Hle. unfold key_of in Hle at 2. rewrite Hk in Hle. lia.
        -- unfold chosen. rewrite Ed.
           destruct (t ++ [(nL, fL)]) as [|e0 s0] eqn:Et;
             [destruct t; discriminate|].
           rewrite <- Hlen. split; [exact Eroom|].
           exists k. rewrite <- Et, last_last. auto.
      * (* the newest shard is full *)
        apply shard_name_facts in Hsn. destruct Hsn as (_ & n & Hkn & Hn).
        rewrite Hn. unfold bind at 1.
        destruct (makedirs_last fs (Py.str (n + 1)) (n + 1) Hwf (int_str _))
          as (fs1 & Hm & Hsh & Hi & Hwf1 & Hv1 & Hse1 & Hfind).
        { intros e He.
          pose proof (last_entry_largest shard_name (shards fs) s (dN, dirN))
            as Hle.
          apply wf_fs_spec in Hwf. destruct Hwf as [Hwf _].
          specialize (Hle Hwf Ese e He). simpl in Hle.
          unfold key_of in Hle at 2. rewrite Hkn in Hle. lia. }
        rewrite Hm.
        exists fs1, (Py.str (n + 1)), "0"%string, (s ++ [(dN, dirN)]), [],
          0%N.
        unfold ret. repeat split; try assumption; auto.
        -- rewrite Hse1, Ese. reflexivity.
        -- intros e [].
Qed.

(** ** The two halves of [add] *)

Lemma wf_fs_shards fs fs' : shards fs = shards fs' -> wf_fs fs = wf_fs fs'.
Proof. intros H. unfold wf_fs. rewrite H. reflexivity. Qed.

Lemma view_shards fs fs' : shards fs = shards fs' -> view fs = view fs'.
Proof. intros H. unfold view. rewrite H. reflexivity. Qed.

Lemma records_of_shard_entries d dir dir' :
  sorted_entries dir' = sorted_entries dir ->
  records_of_shard (d, dir') = records_of_shard (d, dir).
Proof. intros H. unfold records_of_shard. simpl. rewrite H. reflexivity. Qed.

(** A change to the last shard of the enumeration. *)
Lemma replace_last_shard fs before d dir dir' :
  wf_fs fs = true -> sorted_entries (shards fs) = before ++ [(d, dir)] ->
  sorted_entries (replace_val d dir' (shards fs)) = before ++ [(d, dir')]
  /\ view fs = flat_map records_of_shard before ++ records_of_shard (d, dir)
  /\ view (os.set_shards fs (replace_val d dir' (shards fs))) =
     flat_map records_of_shard before ++ records_of_shard (d, dir').
Proof.
  intros Hwf Hs.
  pose proof (sorted_entries_nodup _ (wf_fs_nodup _ Hwf)) as Hnd.
  rewrite Hs in Hnd. apply nodup_split_r in Hnd. destruct Hnd as (Hn1 & _).
  assert (Hse : sorted_entries (replace_val d dir' (shards fs)) =
                before ++ [(d, dir')]).
  { rewrite sorted_entries_replace_val, Hs.
    apply replace_val_split; [assumption|]. simpl. tauto. }
  split; [assumption|]. unfold view. simpl. rewrite Hse, Hs, !flat_map_app.
  simpl. rewrite !app_nil_r. auto.
Qed.

(** A file outside the entries that changed in a shard is found as before. *)
Lemma find_in_changed_shard fs d (dir dir' : directory) p :
  lookup d (shards fs) = Some dir ->
  (fst p = d -> lookup (snd p) dir' = lookup (snd p) dir) ->
  os.find p (os.set_shards fs (replace_val d dir' (shards fs))) =
  os.find p fs.
Proof.
  intros Hl Hsame. unfold os.find. simpl.
  destruct (String.eqb (fst p) d) eqn:E.
  - apply String.eqb_eq in E. rewrite E.
    rewrite (lookup_replace_val_same _ dir) by assumption.
    rewrite Hl. apply Hsame. assumption.
  - apply String.eqb_neq in E.
    rewrite lookup_replace_val_other by assumption. reflexivity.
Qed.

Lemma tmp_name_differs n k : Py.int n = Some k -> (n ++ tmp_suffix)%string <> n.
Proof.
  intros H E. pose proof (plain_visible _ _ H) as Ht.
  rewrite <- E, is_tmp_suffix in Ht. discriminate.
Qed.

(** [os.write] of the temporary file of a free name in the last shard *)
Lemma write_tmp_spec fs before d dir n k data :
  wf_fs fs = true -> sorted_entries (shards fs) = before ++ [(d, dir)] ->
  Py.int n = Some k ->
  (forall e, In e (sorted_entries dir) -> (key_of (fst e) < k)%N) ->
  exists fs' f,
    os.write (d, (n ++ tmp_suffix)%string) data fs = (fs', inr tt)
    /\ wf_fs fs' = true
    /\ view fs' = view fs
    /\ content f = data
    /\ tmp_written fs' (d, n) f
    /\ (forall p, is_tmp (snd p) = false -> os.find p fs' = os.find p fs)
    /\ exists dir',
         sorted_entries (shards fs') = before ++ [(d, dir')]
         /\ sorted_entries dir' = sorted_entries dir.
Proof.
  intros Hwf Hs Hn Hk.
  destruct (visible_shard_lookup _ _ _ _ Hwf Hs) as [Hl Ht].
  destruct (wf_fs_shard _ _ _ Hwf Hl Ht) as [Hwd _].
  pose proof (is_tmp_suffix n) as Htmp.
  unfold os.write. cbn [fst snd]. rewrite Hl.
  destruct (lookup (n ++ tmp_suffix)%string dir) as [f0|] eqn:E.
  - (* a stale temporary file is overwritten *)
    set (f := mkfile (st_ino f0) data).
    set (dir' := replace_val (n ++ tmp_suffix)%string f dir).
    assert (Hse : sorted_entries dir' = sorted_entries dir).
    { unfold dir'. rewrite sorted_entries_replace_val.
      apply replace_val_notin. intros Hin. apply in_map_iff in Hin.
      destruct Hin as (e & He & Hin). apply sorted_entries_in in Hin.
      rewrite He in Hin. destruct Hin as [_ Hin]. congruence. }
    destruct (replace_last_shard fs before d dir dir' Hwf Hs)
      as (Hse' & Hv & Hv').
    exists (os.set_shards fs (replace_val d dir' (shards fs))), f.
    split; [reflexivity|].
    split; [|split; [|split; [reflexivity|split; [|split]]]].
    + apply wf_fs_replace_shard; [assumption|].
      unfold dir'. rewrite wf_names_replace_val. assumption.
    + rewrite Hv', Hv. f_equal. apply records_of_shard_entries. assumption.
    + exists before, dir', k. cbn [fst snd]. repeat split; try assumption.
      * unfold dir'. apply (lookup_replace_val_same _ f0). assumption.
      * rewrite Hse. assumption.
    + intros p Hp. apply (find_in_changed_shard fs d dir dir' p Hl).
      intros _. unfold dir'. apply lookup_replace_val_other.
      intros Ep. rewrite Ep, Htmp in Hp. discriminate.
    + exists dir'. auto.
  - (* a new temporary file *)
    set (f := mkfile (next_ino fs) data).
    set (dir' := dir ++ [((n ++ tmp_suffix)%string, f)]).
    assert (Hse : sorted_entries dir' = sorted_entries dir).
    { unfold dir'. apply sorted_entries_app_tmp. assumption. }
    destruct (replace_last_shard fs before d dir dir' Hwf Hs)
      as (Hse' & Hv & Hv').
    eexists. exists f. split; [reflexivity|].
    split; [|split; [|split; [reflexivity|split; [|split]]]].
    + rewrite (wf_fs_shards _
                 (os.set_shards fs (replace_val d dir' (shards fs))))
        by reflexivity.
      apply wf_fs_replace_shard; [assumption|].
      unfold dir'. apply wf_names_app_tmp; assumption.
    + rewrite (view_shards _
                 (os.set_shards fs (replace_val d dir' (shards fs))))
        by reflexivity.
      rewrite Hv', Hv. f_equal. apply records_of_shard_entries. assumption.
    + exists before, dir', k. cbn [fst snd shards]. repeat split;
        try assumption.
      * unfold dir'. rewrite lookup_app_notin.
        -- simpl. rewrite String.eqb_refl. reflexivity.
        -- apply lookup_none. assumption.
      * rewrite Hse. assumption.
    + intros p Hp.
      change (os.find p (os.set_shards fs (replace_val d dir' (shards fs)))
              = os.find p fs).
      apply (find_in_changed_shard fs d dir dir' p Hl).
      intros _. unfold dir'. apply lookup_app_new.
      intros Ep. rewrite Ep, Htmp in Hp. discriminate.
    + exists dir'. auto.
Qed.

(** [os.rename] of the temporary file to its name: one more record, the
    last of the enumeration. *)
Lemma publish_spec fs d n f :
  wf_fs fs = true -> tmp_written fs (d, n) f ->
  exists fs',
    os.rename (d, (n ++ tmp_suffix)%string) (d, n) fs = (fs', inr tt)
    /\ wf_fs fs' = true
    /\ view fs' = view fs ++ [((d, n), f)]
    /\ next_ino fs' = next_ino fs
    /\ (forall r, In r (view fs) -> fst r <> (d, n)).
Proof.
  intros Hwf (before & dir & k & Hs & Hl & Hn & Hk). cbn [fst snd] in *.
  destruct (visible_shard_lookup _ _ _ _ Hwf Hs) as [Hld Ht].
  destruct (wf_fs_shard _ _ _ Hwf Hld Ht) as [Hwd _].
  pose proof (is_tmp_suffix n) as Htmp.
  pose proof (plain_visible _ _ Hn) as Hvis.
  pose proof (key_of_plain _ _ Hn) as Hkey.
  assert (Hk' : forall e, In e (sorted_entries dir) ->
                          (key_of (fst e) < key_of n)%N).
  { intros e He. rewrite Hkey. auto. }
  pose proof (fresh_by_key _ _ Hvis Hk') as Hfresh.
  unfold os.rename. cbn [fst snd]. rewrite Hld, Hl.
  destruct (path_eqb (d, (n ++ tmp_suffix)%string) (d, n)) eqn:Ep.
  { apply path_eqb_eq in Ep. injection Ep as Ep.
    exfalso. exact (tmp_name_differs _ _ Hn Ep). }
  rewrite String.eqb_refl.
  rewrite remove_notin by (apply lookup_none; assumption).
  destruct (lookup_split _ _ _ Hl) as (l1 & l2 & Hdir & Hn1).
  pose proof Hwd as Hwd'. apply wf_names_spec in Hwd'.
  destruct Hwd' as (Hnd & _). rewrite Hdir in Hnd.
  apply nodup_split_r in Hnd. destruct Hnd as (_ & Hn2 & _).
  assert (Hdir3 : rename_key (n ++ tmp_suffix)%string n dir =
                  l1 ++ (n, f) :: l2).
  { rewrite Hdir. apply rename_key_split; assumption. }
  rewrite Hdir3.
  assert (Hse3 : sorted_entries (l1 ++ (n, f) :: l2) =
                 sorted_entries dir ++ [(n, f)]).
  { rewrite Hdir. apply sorted_entries_publish; try assumption.
    intros e He. apply Hk'. rewrite Hdir.
    rewrite sorted_entries_tmp_middle by assumption. assumption. }
  destruct (replace_last_shard fs before d dir (l1 ++ (n, f) :: l2) Hwf Hs)
    as (Hse' & Hv & Hv').
  eexists. split; [reflexivity|]. split; [|split; [|split; [reflexivity|]]].
  - apply wf_fs_replace_shard; [assumption|].
    apply (wf_names_publish record_name (n ++ tmp_suffix)%string);
      try assumption.
    + rewrite <- Hdir. assumption.
    + apply (plain_record_name _ _ Hn).
    + rewrite <- Hdir. assumption.
    + rewrite <- Hdir. assumption.
  - assert (Hrec : records_of_shard (d, l1 ++ (n, f) :: l2) =
                   records_of_shard (d, dir) ++ [((d, n), f)]).
    { unfold records_of_shard. cbn [fst snd]. rewrite Hse3, map_app.
      reflexivity. }
    rewrite Hv', Hv, Hrec, app_assoc. reflexivity.
  - intros r Hr E. destruct r as [[d' n'] f']. simpl in E.
    injection E as -> ->. apply view_in in Hr; [|assumption].
    destruct Hr as (dir' & Hl' & _ & Hn' & _). congruence.
Qed.

(** ** [add] *)

Section Add.

Context {imports : Imports}.

(** The write of the temporary file: no record changes. *)
Lemma add_write_tmp_spec message_data self :
  wf_store self = true ->
  exists self' filename f,
    add_write_tmp message_data self = (self', inr filename)
    /\ wf_store self' = true
    /\ view (_directory self') = view (_directory self)
    /\ content f = message_data
    /\ tmp_written (_directory self') filename f
    /\ _persist self' = _persist self
    /\ _schemas self' = _schemas self
    /\ _directory_size self' = _directory_size self.
Proof.
  intros Hwf. unfold wf_store in Hwf.
  destruct (next_message_filename_spec (_directory_size self) _ Hwf)
    as (fs1 & d & n & before & dir & k
        & Hn & Hwf1 & Hv1 & Hi1 & Hs1 & Hk & Hlt & _).
  destruct (write_tmp_spec fs1 before d dir n k message_data Hwf1 Hs1 Hk Hlt)
    as (fs2 & f & Hw & Hwf2 & Hv2 & Hc & Htw & _).
  unfold add_write_tmp, on_directory, bind. rewrite Hn. cbn [fst snd].
  rewrite Hw. unfold ret. eexists. exists (d, n), f.
  split; [reflexivity|]. unfold wf_store.
  cbn [_directory _persist _schemas _directory_size].
  repeat split; try assumption. congruence.
Qed.

(** The rename of the temporary file: one more record, the last. *)
Lemma add_publish_spec type filename f self :
  wf_store self = true -> tmp_written (_directory self) filename f ->
  exists self',
    add_publish type filename self = (self', inr (st_ino f))
    /\ wf_store self' = true
    /\ view (_directory self') =
       view (_directory self) ++
       [(if accepts self type then filename
         else add_flags_path filename HELD, f)]
    /\ unflagged (if accepts self type then filename
                  else add_flags_path filename HELD) = accepts self type
    /\ _persist self' = _persist self
    /\ _schemas self' = _schemas self
    /\ _directory_size self' = _directory_size self.
Proof.
  intros Hwf Htw. unfold wf_store in Hwf. destruct filename as [d n].
  destruct (publish_spec _ _ _ _ Hwf Htw)
    as (fs1 & Hr & Hwf1 & Hv1 & Hi1 & Hnew).
  destruct Htw as (_ & _ & k & _ & _ & Hk & _). cbn [snd] in Hk.
  assert (Hin1 : In ((d, n), f) (view fs1)).
  { rewrite Hv1. apply in_or_app. simpl. auto. }
  pose proof (plain_flags n k d Hk) as Hflags.
  unfold add_publish, on_directory, bind. cbn [fst snd]. rewrite Hr.
  destruct (accepts self type) eqn:Ea; cbn [negb].
  - unfold ret at 1. rewrite (stat_record _ _ _ Hwf1 Hin1).
    eexists. split; [reflexivity|]. unfold wf_store.
    cbn [_directory _persist _schemas _directory_size].
    repeat split; try assumption.
    unfold unflagged. rewrite Hflags. reflexivity.
  - destruct (set_flags_record fs1 d n f (flag HELD) Hwf1 Hin1
                (or_intror eq_refl)) as (fs2 & Hs & Hwf2 & Hv2 & Hi2 & _).
    rewrite Hs.
    assert (Hp : (d, set_flags_name n (flag HELD)) =
                 add_flags_path (d, n) HELD).
    { unfold add_flags_path. rewrite Hflags. reflexivity. }
    rewrite Hp in *.
    assert (Hv2' : view fs2 =
                   view (_directory self) ++ [(add_flags_path (d, n) HELD, f)]).
    { rewrite Hv2, Hv1, map_app. f_equal.
      - apply map_all. intros r Hr'. apply rename_record_other.
        apply Hnew. assumption.
      - simpl. unfold rename_record. cbn [fst snd].
        rewrite path_eqb_refl. reflexivity. }
    assert (Hin2 : In (add_flags_path (d, n) HELD, f) (view fs2)).
    { rewrite Hv2'. apply in_or_app. simpl. auto. }
    rewrite (stat_record _ _ _ Hwf2 Hin2).
    eexists. split; [reflexivity|]. unfold wf_store.
    cbn [_directory _persist _schemas _directory_size].
    repeat split; try assumption.
    apply (add_flags_path_facts d n HELD); auto.
    + apply (plain_record_name _ _ Hk).
    + unfold unflagged. rewrite Hflags. reflexivity.
Qed.

(** [add(message)] on a well-formed store: it raises before it touches
    the store, or appends one record. *)
Lemma add_spec message self :
  wf_store self = true ->
  match lookup (msg_type message) (_schemas self) with
  | None => add message self = (self, inl KeyError)
  | Some s =>
      match coerce s message with
      | None => add message self = (self, inl InvalidError)
      | Some coerced =>
          exists self' p f,
            add message self = (self', inr (st_ino f))
            /\ content f = dumps (with_api coerced)
            /\ wf_store self' = true
            /\ view (_directory self') = view (_directory self) ++ [(p, f)]
            /\ unflagged p = accepts self (msg_type (with_api coerced))
            /\ _persist self' = _persist self
            /\ _schemas self' = _schemas self
            /\ _directory_size self' = _directory_size self
      end
  end.
Proof.
  intros Hwf. unfold add, bind, add_coerce.
  destruct (lookup (msg_type message) (_schemas self)) as [s|];
    [|reflexivity].
  destruct (coerce s message) as [coerced|]; [|reflexivity].
  destruct (add_write_tmp_spec (dumps (with_api coerced)) self Hwf)
    as (self1 & filename & f & Hw & Hwf1 & Hv1 & Hc & Htw & Hp1 & Hs1 & Hd1).
  rewrite Hw.
  destruct (add_publish_spec (msg_type (with_api coerced)) filename f self1
              Hwf1 Htw)
    as (self2 & Hpub & Hwf2 & Hv2 & Hu & Hp2 & Hs2 & Hd2).
  assert (Hacc : accepts self1 (msg_type (with_api coerced)) =
                 accepts self (msg_type (with_api coerced))).
  { unfold accepts, get_accepted_types. rewrite Hp1. reflexivity. }
  rewrite Hacc in Hv2, Hu.
  exists self2,
    (if accepts self (msg_type (with_api coerced)) then filename
     else add_flags_path filename HELD), f.
  split; [exact Hpub|].
  repeat split; try assumption; congruence.
Qed.

End Add.

(** ** Lists of records *)

Lemma path_in_false (p : path) (l : list (path * file)) :
  ~ In p (map fst l) -> path_in p l = false.
Proof.
  intros H. unfold path_in. destruct (existsb _ l) eqn:E; [|reflexivity].
  apply existsb_exists in E. destruct E as (r & Hr & E).
  apply path_eqb_eq in E. exfalso. apply H. rewrite <- E.
  apply in_map. assumption.
Qed.

Lemma path_in_true (p : path) (l : list (path * file)) :
  path_in p l = true -> In p (map fst l).
Proof.
  unfold path_in. intros E. apply existsb_exists in E.
  destruct E as (r & Hr & E). apply path_eqb_eq in E. rewrite <- E.
  apply in_map. assumption.
Qed.

Section Selection.

Context (P : path * file -> bool).

(** The first [k] selected records of a list are the records of the list
    with their paths. *)
Lemma filter_path_in_firstn k (v : list (path * file)) :
  NoDup (map fst v) ->
  filter (fun r => path_in (fst r) (firstn k (filter P v))) v =
  firstn k (filter P v).
Proof.
  revert k. induction v as [|r v IH]; intros k Hnd.
  - simpl. rewrite firstn_nil. reflexivity.
  - inversion Hnd as [|? ? Hr Hv]; subst.
    assert (Hout : forall l, (forall x, In x l -> In x v) ->
                             path_in (fst r) l = false).
    { intros l Hl. apply path_in_false. intros Hin.
      apply in_map_iff in Hin. destruct Hin as (x & Hx & Hin).
      apply Hr. rewrite <- Hx. apply in_map. auto. }
    cbn [filter]. destruct (P r) eqn:EP.
    + destruct k as [|k]; cbn [firstn].
      * unfold path_in. simpl. apply filter_none. reflexivity.
      * unfold path_in at 1. cbn [existsb fst]. rewrite path_eqb_refl.
        cbn [orb]. f_equal.
        transitivity
          (filter (fun x => path_in (fst x) (firstn k (filter P v))) v);
          [|apply IH; assumption].
        apply filter_ext_in. intros x Hx. unfold path_in. cbn [existsb fst].
        destruct (path_eqb (fst r) (fst x)) eqn:E; [|reflexivity].
        apply path_eqb_eq in E. exfalso. apply Hr. rewrite E.
        apply in_map. assumption.
    + rewrite Hout.
      * apply IH. assumption.
      * intros x Hx. apply in_firstn in Hx. apply filter_In in Hx. tauto.
Qed.

(** Without the first [k] selected records, the selected records are the
    others. *)
Lemma filter_without_firstn k (v : list (path * file)) :
  NoDup (map fst v) ->
  filter P (filter (fun r => negb (path_in (fst r) (firstn k (filter P v)))) v)
  = skipn k (filter P v).
Proof.
  revert k. induction v as [|r v IH]; intros k Hnd.
  - simpl. rewrite skipn_nil. reflexivity.
  - inversion Hnd as [|? ? Hr Hv]; subst.
    assert (Hout : forall l, (forall x, In x l -> In x v) ->
                             path_in (fst r) l = false).
    { intros l Hl. apply path_in_false. intros Hin.
      apply in_map_iff in Hin. destruct Hin as (x & Hx & Hin).
      apply Hr. rewrite <- Hx. apply in_map. auto. }
    cbn [filter]. destruct (P r) eqn:EP.
    + destruct k as [|k]; cbn [firstn skipn].
      * rewrite (filter_all (fun x => negb (path_in (fst x) [])))
          by reflexivity.
        unfold path_in. simpl. rewrite EP. reflexivity.
      * unfold path_in at 1. cbn [existsb fst]. rewrite path_eqb_refl.
        cbn [orb negb]. rewrite <- (IH k Hv). f_equal.
        apply filter_ext_in. intros x Hx. unfold path_in. cbn [existsb fst].
        destruct (path_eqb (fst r) (fst x)) eqn:E; [|reflexivity].
        apply path_eqb_eq in E. exfalso. apply Hr. rewrite E.
        apply in_map. assumption.
    + rewrite Hout.
      * cbn [negb filter]. rewrite EP. apply IH. assumption.
      * intros x Hx. apply in_firstn in Hx. apply filter_In in Hx. tauto.
Qed.

End Selection.

(** After [delete_old_messages] the unflagged records are those that were
    pending. *)
Lemma unflagged_without_old offset v :
  NoDup (map fst v) ->
  unflagged_records (without_old offset v) = pending offset v.
Proof.
  intros Hnd. unfold unflagged_records, without_old, old_records, pending.
  apply (filter_without_firstn (fun r => unflagged (fst r))). assumption.
Qed.

Lemma without_old_in offset v r :
  In r (without_old offset v) <->
  In r v /\ path_in (fst r) (old_records offset v) = false.
Proof.
  unfold without_old. rewrite filter_In, negb_true_iff. tauto.
Qed.

Lemma old_records_in offset v r :
  In r (old_records offset v) -> In r v /\ unflagged (fst r) = true.
Proof.
  intros H. apply in_firstn in H. apply unflagged_records_in. assumption.
Qed.

Lemma pending_split offset v :
  unflagged_records v = old_records offset v ++ pending offset v.
Proof. unfold old_records, pending. symmetry. apply firstn_skipn. Qed.

Lemma NoDup_app_disjoint {X : Type} (l1 l2 : list X) x :
  NoDup (l1 ++ l2) -> In x l1 -> In x l2 -> False.
Proof.
  induction l1 as [|y l1 IH]; simpl; intros Hnd H1 H2; [tauto|].
  inversion Hnd as [|? ? Hy Hl]; subst. destruct H1 as [->|H1].
  - apply Hy. apply in_or_app. auto.
  - apply IH; assumption.
Qed.

(** A flagged or pending record is not among the old records. *)
Lemma not_old offset v r :
  NoDup (map fst v) -> In r v ->
  unflagged (fst r) = false \/ In r (pending offset v) ->
  path_in (fst r) (old_records offset v) = false.
Proof.
  intros Hnd Hr H. apply path_in_false. intros Hin.
  apply in_map_iff in Hin. destruct Hin as (x & Hx & Hin).
  assert (Hxr : x = r).
  { apply (NoDup_map_inj fst v); try assumption.
    apply old_records_in in Hin. tauto. }
  subst x. destruct H as [H|H].
  - apply old_records_in in Hin. destruct Hin. congruence.
  - assert (Hu : NoDup (unflagged_records v)).
    { unfold unflagged_records. apply NoDup_filter.
      apply (NoDup_map_inv fst). assumption. }
    rewrite (pending_split offset) in Hu.
    exact (NoDup_app_disjoint _ _ _ Hu Hin H).
Qed.

(** ** The loop of [get_pending_messages] on records *)

Lemma Forall2_map_l {X Y Z : Type} (R : Y -> Z -> Prop) (g : X -> Y) l l' :
  Forall2 R (map g l) l' -> Forall2 (fun x z => R (g x) z) l l'.
Proof.
  revert l'. induction l as [|x l IH]; intros l' H; inversion H; subst;
    constructor; auto.
Qed.

Lemma Forall2_same {X : Type} (R : X -> X -> Prop) l :
  (forall x, R x x) -> Forall2 R l l.
Proof. intros H. induction l; constructor; auto. Qed.

Section Scan.

Context {imports : Imports}.

Variables (max : option Z) (accepted : list string).

Lemma reached_app messages more :
  reached max (messages ++ more) = false -> reached max messages = false.
Proof.
  unfold reached. destruct max as [m|]; [|reflexivity].
  rewrite length_app, !Z.leb_gt. lia.
Qed.

(** The messages returned: the deliveries of the pending records, up to
    the bound. *)
Lemma scan_messages todo messages v :
  fst (scan_pending max accepted todo messages v) =
  messages ++
  match max with
  | Some m =>
      firstn (Z.to_nat m - List.length messages) (deliveries accepted todo)
  | None => deliveries accepted todo
  end.
Proof.
  revert messages v. induction todo as [|t todo IH]; intros messages v.
  - simpl. destruct max; rewrite ?firstn_nil, app_nil_r; reflexivity.
  - cbn [scan_pending deliveries]. unfold deliverable. unfold reached.
    destruct max as [m|] eqn:Emax.
    + destruct (m <=? Z.of_nat (List.length messages))%Z eqn:E.
      * apply Z.leb_le in E.
        replace (Z.to_nat m - List.length messages)%nat with 0%nat by lia.
        simpl. rewrite app_nil_r. reflexivity.
      * apply Z.leb_gt in E.
        destruct (loads (content (snd t))) as [message|]; [|apply IH].
        destruct (Py.mem (msg_type message) accepted); cbn [negb];
          [|apply IH].
        rewrite IH, length_app. cbn [List.length].
        destruct (Z.to_nat m - List.length messages)%nat as [|k] eqn:Ek;
          [lia|].
        replace (Z.to_nat m - (List.length messages + 1))%nat with k by lia.
        cbn [firstn]. rewrite <- app_assoc. reflexivity.
    + destruct (loads (content (snd t))) as [message|]; [|apply IH].
      destruct (Py.mem (msg_type message) accepted); cbn [negb]; [|apply IH].
      rewrite IH, <- app_assoc. reflexivity.
Qed.

Lemma reclassified_same todo r : reclassified accepted todo r r.
Proof. unfold reclassified. auto. Qed.

Lemma reclassified_more t todo r r' :
  reclassified accepted todo r r' -> reclassified accepted (t :: todo) r r'.
Proof.
  unfold reclassified. intros (H1 & [H2|(t' & Ht & H2)]); split; auto.
  right. exists t'. split; [right; assumption|assumption].
Qed.

(** One record flagged, then the rest of the loop. *)
Lemma reclassified_step t todo c r r' :
  unflagged (fst t) = true -> record_name (snd (fst t)) = true ->
  (forall t', In t' todo -> unflagged (fst t') = true) ->
  c = HELD \/ c = BROKEN ->
  (loads (content (snd t)) = None /\ c = BROKEN
   \/ exists message, loads (content (snd t)) = Some message
        /\ Py.mem (msg_type message) accepted = false /\ c = HELD) ->
  reclassified accepted todo
    (rename_record (fst t) (add_flags_path (fst t) c) r) r' ->
  reclassified accepted (t :: todo) r r'.
Proof.
  intros Hu Hn Htodo Hc Hclass H. unfold rename_record in H.
  destruct (path_eqb (fst r) (fst t)) eqn:E.
  - apply path_eqb_eq in E. destruct H as (H1 & H2). cbn [fst snd] in *.
    split; [assumption|]. right. exists t. split; [left; reflexivity|].
    split; [congruence|].
    assert (Hflag : unflagged (add_flags_path (fst t) c) = false).
    { destruct t as [[d n] f]. cbn [fst snd] in *.
      apply (add_flags_path_facts d n c); assumption. }
    destruct H2 as [H2|(t' & Ht' & Hp & _)].
    + rewrite E. destruct Hclass as [[Hl ->]|(message & Hl & Hm & ->)].
      * left. auto.
      * right. exists message. auto.
    + specialize (Htodo t' Ht'). congruence.
  - apply reclassified_more. assumption.
Qed.

(** Every record keeps its file and its place; a path changes only by
    the flag of a reclassified pending record. *)
Lemma scan_records todo messages v :
  (forall t, In t todo ->
             unflagged (fst t) = true /\ record_name (snd (fst t)) = true) ->
  Forall2 (reclassified accepted todo) v
    (snd (scan_pending max accepted todo messages v)).
Proof.
  revert messages v. induction todo as [|t todo IH]; intros messages v Htodo.
  - simpl. apply Forall2_same. intros; apply reclassified_same.
  - assert (Htodo' : forall t', In t' todo ->
              unflagged (fst t') = true /\ record_name (snd (fst t')) = true).
    { intros t' Ht'. apply Htodo. right. assumption. }
    destruct (Htodo t (or_introl eq_refl)) as [Hu Hn].
    cbn [scan_pending]. destruct (reached max messages).
    { simpl. apply Forall2_same. intros; apply reclassified_same. }
    destruct (loads (content (snd t))) as [message|] eqn:El.
    + destruct (Py.mem (msg_type message) accepted) eqn:Em; cbn [negb].
      * eapply Forall2_impl; [|apply IH; assumption].
        intros; apply reclassified_more; assumption.
      * specialize (IH messages
          (map (rename_record (fst t) (add_flags_path (fst t) HELD)) v)
          Htodo').
        apply Forall2_map_l in IH. eapply Forall2_impl; [|exact IH].
        intros r r' H. apply (reclassified_step t todo HELD); auto.
        -- intros t' Ht'. apply Htodo'. assumption.
        -- right. exists message. auto.
    + specialize (IH messages
        (map (rename_record (fst t) (add_flags_path (fst t) BROKEN)) v)
        Htodo').
      apply Forall2_map_l in IH. eapply Forall2_impl; [|exact IH].
      intros r r' H. apply (reclassified_step t todo BROKEN); auto.
      intros t' Ht'. apply Htodo'. assumption.
Qed.

(** A flagged record is not touched by the loop. *)
Lemma scan_keeps_flagged todo messages v x :
  (forall t, In t todo -> unflagged (fst t) = true) ->
  unflagged (fst x) = false -> In x v ->
  In x (snd (scan_pending max accepted todo messages v)).
Proof.
  revert messages v. induction todo as [|t todo IH]; intros messages v Ht Hx Hin.
  - assumption.
  - assert (Hne : fst x <> fst t).
    { intros E. rewrite E in Hx. rewrite (Ht t) in Hx by (left; reflexivity).
      discriminate. }
    assert (Ht' : forall t', In t' todo -> unflagged (fst t') = true).
    { intros; apply Ht; right; assumption. }
    cbn [scan_pending]. destruct (reached max messages); [assumption|].
    destruct (loads (content (snd t))) as [message|].
    + destruct (negb _); apply IH; try assumption.
      apply in_map_rename_other; assumption.
    + apply IH; try assumption. apply in_map_rename_other; assumption.
Qed.

(** A pending record that fails to decode, met before the bound is
    reached, is flagged BROKEN and keeps its file. *)
Lemma scan_flags_broken l1 t l2 messages v :
  (forall t', In t' (l1 ++ t :: l2) ->
              unflagged (fst t') = true /\ record_name (snd (fst t')) = true) ->
  NoDup (map fst (l1 ++ t :: l2)) ->
  reached max (messages ++ deliveries accepted l1) = false ->
  loads (content (snd t)) = None ->
  In t v ->
  In (add_flags_path (fst t) BROKEN, snd t)
     (snd (scan_pending max accepted (l1 ++ t :: l2) messages v)).
Proof.
  revert messages v.
  induction l1 as [|t0 l1 IH]; intros messages v Htodo Hnd Hr Hl Hin.
  - simpl app in *. rewrite app_nil_r in Hr. cbn [scan_pending].
    rewrite Hr, Hl.
    destruct (Htodo t (or_introl eq_refl)) as [Hu Hn].
    apply scan_keeps_flagged.
    + intros t' Ht'. apply Htodo. right. assumption.
    + destruct t as [[d n] f]. cbn [fst snd] in *.
      apply (add_flags_path_facts d n BROKEN); auto.
    + apply in_map_iff. exists t. split; [|assumption].
      unfold rename_record. rewrite path_eqb_refl. reflexivity.
  - simpl app in *. inversion Hnd as [|? ? Ht0 Hnd']; subst.
    assert (Htodo' : forall t', In t' (l1 ++ t :: l2) ->
              unflagged (fst t') = true /\ record_name (snd (fst t')) = true).
    { intros; apply Htodo; right; assumption. }
    assert (Hne : fst t <> fst t0).
    { intros E. apply Ht0. rewrite <- E. rewrite map_app. apply in_or_app.
      right. left. reflexivity. }
    cbn [scan_pending]. rewrite (reached_app _ _ Hr).
    cbn [deliveries] in Hr. unfold deliverable in Hr.
    destruct (loads (content (snd t0))) as [message|].
    + destruct (Py.mem (msg_type message) accepted); cbn [negb].
      * apply IH; try assumption. rewrite <- app_assoc. exact Hr.
      * apply IH; try assumption. apply in_map_rename_other; assumption.
    + apply IH; try assumption. apply in_map_rename_other; assumption.
Qed.

End Scan.

(** Records related one to one: as many selected after as before. *)
Lemma Forall2_count {X : Type} (R : X -> X -> Prop) (Q Q' : X -> bool) l l' :
  Forall2 R l l' ->
  (forall x x', R x x' -> Q x = true -> Q' x' = true) ->
  (List.length (filter Q l) <= List.length (filter Q' l'))%nat.
Proof.
  intros H HR. induction H as [|x x' l l' Hx Hl IH]; simpl; [lia|].
  destruct (Q x) eqn:E.
  - rewrite (HR _ _ Hx E). simpl. lia.
  - destruct (Q' x'); simpl; lia.
Qed.

(** ** Moving a record to the newest shard *)

Section Largest.

Context {V : Type} (valid : string -> bool).

Implicit Types (l : list (string * V)) (k : string) (v : V).

Lemma sorted_entries_largest k v l1 l2 :
  is_tmp k = false ->
  (forall e, In e (sorted_entries (l1 ++ l2)) ->
             (key_of (fst e) < key_of k)%N) ->
  sorted_entries (l1 ++ (k, v) :: l2) = sorted_entries (l1 ++ l2) ++ [(k, v)].
Proof.
  intros Ht Hk.
  rewrite (sorted_entries_publish (k ++ tmp_suffix)%string k v l1 l2);
    try assumption; [|apply is_tmp_suffix].
  rewrite sorted_entries_tmp_middle by apply is_tmp_suffix. reflexivity.
Qed.

Lemma wf_names_largest k v l1 l2 :
  wf_names valid (l1 ++ l2) = true ->
  is_tmp k = false -> valid k = true ->
  (forall e, In e (sorted_entries (l1 ++ l2)) ->
             (key_of (fst e) < key_of k)%N) ->
  wf_names valid (l1 ++ (k, v) :: l2) = true.
Proof.
  rewrite !wf_names_spec. intros (H1 & H2 & H3) Ht Hv Hk.
  pose proof (fresh_by_key _ _ Ht Hk) as Hl. apply lookup_none in Hl.
  repeat split.
  - rewrite map_app in *. simpl. apply NoDup_middle; assumption.
  - intros e He. apply in_app_iff in He. destruct He as [He|[<-|He]].
    + apply H2. apply in_or_app. auto.
    + auto.
    + apply H2. apply in_or_app. auto.
  - rewrite sorted_entries_largest by assumption.
    rewrite map_app. simpl.
    rewrite <- (app_nil_r (map _ (sorted_entries (l1 ++ l2)))) in H3.
    apply NoDup_middle; [assumption|]. rewrite app_nil_r.
    intros Hin. apply in_map_iff in Hin. destruct Hin as (e & He & Hin).
    specialize (Hk e Hin). lia.
Qed.

End Largest.

Lemma filter_records_other d before p :
  (forall r, In r before -> fst (fst r) <> d) -> fst p = d ->
  filter (fun r : path * file => negb (path_eqb (fst r) p)) before = before.
Proof.
  intros H Hp. apply filter_all. intros r Hr.
  apply negb_true_iff, path_eqb_neq. intros E. apply (H r Hr).
  rewrite E. assumption.
Qed.

Lemma records_before_last fs before d dir :
  wf_fs fs = true -> sorted_entries (shards fs) = before ++ [(d, dir)] ->
  forall r, In r (flat_map records_of_shard before) -> fst (fst r) <> d.
Proof.
  intros Hwf Hs r Hr E.
  pose proof (sorted_entries_nodup _ (wf_fs_nodup _ Hwf)) as Hnd.
  rewrite Hs in Hnd. apply nodup_split_r in Hnd. destruct Hnd as (Hn1 & _).
  apply in_flat_map in Hr. destruct Hr as ([d' dir'] & Hin & Hr).
  unfold records_of_shard in Hr. cbn [fst snd] in Hr.
  apply in_map_iff in Hr. destruct Hr as (e & <- & _). cbn [fst] in E.
  apply Hn1. apply in_map_iff. exists (d', dir'). subst. auto.
Qed.

Lemma records_of_shard_app_last d dir n f :
  is_tmp n = false ->
  (forall e, In e (sorted_entries dir) -> (key_of (fst e) < key_of n)%N) ->
  records_of_shard (d, dir ++ [(n, f)]) =
  records_of_shard (d, dir) ++ [((d, n), f)].
Proof.
  intros Ht Hk. unfold records_of_shard. cbn [fst snd].
  rewrite sorted_entries_app_last, map_app; [reflexivity|assumption|].
  intros e He. specialize (Hk e He). lia.
Qed.

(** [os.rename] of a record to a free name of the newest shard, with a
    number above that shard's: the record becomes the last one of the
    enumeration. *)
Lemma move_record fs p f before d dir n k :
  wf_fs fs = true -> In (p, f) (view fs) ->
  sorted_entries (shards fs) = before ++ [(d, dir)] ->
  Py.int n = Some k ->
  (forall e, In e (sorted_entries dir) -> (key_of (fst e) < k)%N) ->
  exists fs',
    os.rename p (d, n) fs = (fs', inr tt)
    /\ wf_fs fs' = true
    /\ view fs' =
       filter (fun r => negb (path_eqb (fst r) p)) (view fs) ++ [((d, n), f)]
    /\ next_ino fs' = next_ino fs
    /\ map fst (shards fs') = map fst (shards fs).
Proof.
  destruct p as [dp np]. intros Hwf Hin Hs Hn Hk.
  pose proof Hin as Hin0.
  apply view_in in Hin; [|assumption].
  destruct Hin as (sdir & Hls & Hts & Hns & Htn).
  destruct (visible_shard_lookup _ _ _ _ Hwf Hs) as [Hld Htd].
  destruct (wf_fs_shard _ _ _ Hwf Hld Htd) as [Hwd _].
  pose proof (plain_visible _ _ Hn) as Hvis.
  pose proof (key_of_plain _ _ Hn) as Hkey.
  assert (Hk' : forall e, In e (sorted_entries dir) ->
                          (key_of (fst e) < key_of n)%N).
  { intros e He. rewrite Hkey. auto. }
  pose proof (fresh_by_key _ _ Hvis Hk') as Hfresh.
  unfold os.rename. cbn [fst snd]. rewrite Hls, Hns.
  destruct (path_eqb (dp, np) (d, n)) eqn:Ep.
  { apply path_eqb_eq in Ep. injection Ep as -> ->. congruence. }
  destruct (String.eqb dp d) eqn:Ed.
  - apply String.eqb_eq in Ed. subst dp.
    assert (sdir = dir) by congruence. subst sdir.
    rewrite remove_notin by (apply lookup_none; assumption).
    destruct (lookup_split _ _ _ Hns) as (l1 & l2 & Hdir & Hn1).
    pose proof Hwd as Hwd'. apply wf_names_spec in Hwd'.
    destruct Hwd' as (Hnd & _). rewrite Hdir in Hnd.
    apply nodup_split_r in Hnd. destruct Hnd as (_ & Hn2 & _).
    assert (Hrm : remove np dir = l1 ++ l2).
    { rewrite Hdir. apply remove_split; assumption. }
    assert (Hdir3 : rename_key np n dir = l1 ++ (n, f) :: l2).
    { rewrite Hdir. apply rename_key_split; assumption. }
    rewrite Hdir3.
    assert (Hk2 : forall e, In e (sorted_entries (l1 ++ l2)) ->
                            (key_of (fst e) < key_of n)%N).
    { intros e He. apply Hk'. rewrite <- Hrm, sorted_entries_remove in He.
      unfold remove in He. apply filter_In in He. tauto. }
    destruct (replace_last_shard fs before d dir (l1 ++ (n, f) :: l2) Hwf Hs)
      as (Hse' & Hv & Hv').
    eexists. split; [reflexivity|].
    split; [|split; [|split; [reflexivity|simpl; apply map_fst_replace_val]]].
    + apply wf_fs_replace_shard; [assumption|].
      apply wf_names_largest; try assumption.
      * rewrite <- Hrm. apply wf_names_remove. assumption.
      * apply (plain_record_name _ _ Hn).
    + assert (Hrec : records_of_shard (d, l1 ++ (n, f) :: l2) =
                     records_of_shard (d, remove np dir) ++ [((d, n), f)]).
      { unfold records_of_shard. cbn [fst snd].
        rewrite sorted_entries_largest by assumption.
        rewrite map_app, Hrm. reflexivity. }
      rewrite Hv', Hv, Hrec, filter_app, records_of_shard_remove.
      rewrite (filter_records_other d (flat_map records_of_shard before)) by
        (try reflexivity; apply (records_before_last fs before d dir);
         assumption).
      rewrite app_assoc. reflexivity.
  - apply String.eqb_neq in Ed. rewrite Hld.
    rewrite remove_notin by (apply lookup_none; assumption).
    destruct (unlink_record fs (dp, np) f Hwf Hin0)
      as (fs1 & _ & Hwf1 & Hv1 & Hi1 & dir1 & Hl1 & Hsh1).
    cbn [fst snd] in Hl1, Hsh1.
    assert (dir1 = sdir) by congruence. subst dir1.
    assert (Hs1 : sorted_entries (shards fs1) =
                  replace_val dp (remove np sdir) before ++ [(d, dir)]).
    { rewrite Hsh1, sorted_entries_replace_val, Hs, replace_val_app.
      simpl. destruct (String.eqb d dp) eqn:E; [|reflexivity].
      apply String.eqb_eq in E. congruence. }
    destruct (replace_last_shard fs1 _ d dir (dir ++ [(n, f)]) Hwf1 Hs1)
      as (Hse' & Hv & Hv').
    assert (Hfs : os.set_shards fs
                    (replace_val d (dir ++ [(n, f)])
                       (replace_val dp (remove np sdir) (shards fs))) =
                  os.set_shards fs1
                    (replace_val d (dir ++ [(n, f)]) (shards fs1))).
    { unfold os.set_shards. rewrite Hsh1, Hi1. reflexivity. }
    rewrite Hfs.
    eexists. split; [reflexivity|].
    split; [|split; [|split]].
    + apply wf_fs_replace_shard; [assumption|].
      apply wf_names_app_last; try assumption.
      apply (plain_record_name _ _ Hn).
    + rewrite Hv', records_of_shard_app_last by assumption.
      rewrite app_assoc, <- Hv, Hv1. reflexivity.
    + simpl. assumption.
    + simpl. rewrite Hsh1, !map_fst_replace_val. reflexivity.
Qed.

(** ** One record of [_reprocess_holding] *)

Section Reprocess.

Context {imports : Imports}.

(** What the body of the loop of [_reprocess_holding] does with a record:
    a record that does not decode is left as it is; a HELD record of an
    accepted type becomes the last record, without the flag; a record that
    is not HELD, of a type that is not accepted, is flagged HELD when the
    running offset has reached the pending offset. *)
Lemma reprocess_body_record size po acc fs p f offset :
  wf_fs fs = true -> In (p, f) (view fs) ->
  exists fs' offset',
    reprocess_body size po acc p offset fs = (fs', inr (offset', false))
    /\ wf_fs fs' = true
    /\ (forall d, In d (map fst (shards fs)) -> In d (map fst (shards fs')))
    /\ match loads (content f) with
       | None =>
           fs' = fs
           /\ offset' = (if Py.contains HELD (_get_flags p) then offset
                         else offset + 1)%Z
       | Some m =>
           if Py.contains HELD (_get_flags p) then
             offset' = offset
             /\ if Py.mem (msg_type m) acc then
                  exists q,
                    view fs' =
                    filter (fun r => negb (path_eqb (fst r) p)) (view fs)
                    ++ [(q, f)]
                    /\ _get_flags q = Py.discard HELD (_get_flags p)
                else fs' = fs
           else
             offset' = (offset + 1)%Z
             /\ if negb (Py.mem (msg_type m) acc) && (po <=? offset)%Z then
                  view fs' =
                  map (rename_record p (add_flags_path p HELD)) (view fs)
                else fs' = fs
       end.
Proof.
  destruct p as [d0 n0]. intros Hwf Hin.
  pose proof (view_record_name _ _ _ _ Hwf Hin) as Hrn.
  pose proof (record_name_flags n0 d0 Hrn) as Hflags.
  unfold reprocess_body. unfold bind at 1.
  rewrite (read_record _ _ _ Hwf Hin).
  destruct (loads (content f)) as [m|].
  2:{ destruct (Py.contains HELD (_get_flags (d0, n0))); cbn [negb];
        unfold ret; eexists; eexists; repeat split; auto. }
  destruct (Py.contains HELD (_get_flags (d0, n0))) eqn:Eh.
  - destruct (Py.mem (msg_type m) acc) eqn:Ea.
    2:{ unfold ret; eexists; eexists; repeat split; auto. }
    destruct (next_message_filename_spec size fs Hwf)
      as (fs1 & d & n & before & dir & k & Hr1 & Hwf1 & Hv1 & _ & Hs1 & Hn
          & Hk & Hsh1 & _).
    unfold bind at 1. rewrite Hr1.
    assert (Hin1 : In ((d0, n0), f) (view fs1)) by (rewrite Hv1; assumption).
    destruct (move_record fs1 (d0, n0) f before d dir n k Hwf1 Hin1 Hs1 Hn Hk)
      as (fs2 & Hr2 & Hwf2 & Hv2 & _ & Hsh2).
    unfold bind at 1. rewrite Hr2.
    assert (Hin2 : In ((d, n), f) (view fs2)).
    { rewrite Hv2. apply in_or_app. right. left. reflexivity. }
    assert (HF : Py.discard HELD (_get_flags (d0, n0)) = EmptyString \/
                 canonical_flags
                   (Py.sorted_set (Py.discard HELD (_get_flags (d0, n0))))
                 = true).
    { destruct Hflags as [E|[E|[E|E]]]; rewrite E in *;
        try discriminate; [left|right]; reflexivity. }
    destruct (set_flags_record fs2 d n f _ Hwf2 Hin2 HF)
      as (fs3 & Hr3 & Hwf3 & Hv3 & _ & Hsh3).
    unfold bind at 1. rewrite Hr3. unfold ret.
    pose proof (view_record_name _ _ _ _ Hwf2 Hin2) as Hrn2.
    destruct (set_flags_name_facts n _ d Hrn2 HF) as (_ & _ & Hq).
    exists fs3, offset. split; [reflexivity|]. split; [assumption|]. split.
    { intros x Hx. rewrite Hsh3, Hsh2.
      destruct Hsh1 as [->| ->]; [assumption|].
      rewrite map_app. apply in_or_app. auto. }
    split; [reflexivity|].
    exists (d, set_flags_name n (Py.discard HELD (_get_flags (d0, n0)))).
    split.
    + pose proof (view_nodup _ Hwf2) as Hnd. rewrite Hv2, map_app in Hnd.
      apply NoDup_remove_2 in Hnd. rewrite app_nil_r in Hnd. cbn [fst] in Hnd.
      rewrite Hv3, Hv2, map_app, <- Hv1. f_equal.
      * apply map_all. intros r Hr. unfold rename_record.
        destruct (path_eqb (fst r) (d, n)) eqn:E; [|reflexivity].
        apply path_eqb_eq in E. exfalso. apply Hnd. rewrite <- E.
        apply in_map. assumption.
      * simpl. unfold rename_record. cbn [fst snd].
        rewrite path_eqb_refl. reflexivity.
    + rewrite Hq.
      destruct Hflags as [E|[E|[E|E]]]; rewrite E in *;
        try discriminate; reflexivity.
  - cbn [negb].
    destruct (negb (Py.mem (msg_type m) acc) && (po <=? offset)%Z) eqn:Ec.
    2:{ unfold bind, ret; eexists; eexists; repeat split; auto. }
    assert (HF : (_get_flags (d0, n0) ++ flag HELD)%string = EmptyString \/
                 canonical_flags
                   (Py.sorted_set (_get_flags (d0, n0) ++ flag HELD)%string)
                 = true).
    { right. destruct Hflags as [E|[E|[E|E]]]; rewrite E in *;
        try discriminate; reflexivity. }
    destruct (set_flags_record fs d0 n0 f _ Hwf Hin HF)
      as (fs1 & Hr1 & Hwf1 & Hv1 & _ & Hsh1).
    unfold bind. rewrite Hr1. unfold ret.
    exists fs1, (offset + 1)%Z. split; [reflexivity|].
    split; [assumption|]. split; [intros x Hx; rewrite Hsh1; assumption|].
    split; [reflexivity|]. exact Hv1.
Qed.

End Reprocess.

(** ** The walk with a loop body that moves records between shards *)

Lemma mem_In x l : Py.mem x l = true <-> In x l.
Proof.
  unfold Py.mem. rewrite existsb_exists. split.
  - intros (y & Hy & E). apply String.eqb_eq in E. subst. assumption.
  - intros H. exists x. split; [assumption|apply String.eqb_refl].
Qed.

Lemma mem_not_In x l : ~ In x l -> Py.mem x l = false.
Proof.
  intros H. destruct (Py.mem x l) eqn:E; [|reflexivity].
  apply mem_In in E. contradiction.
Qed.

Lemma ahead_visit L d n rest q :
  ~ In d L -> ~ In n rest ->
  after_visit (ahead L d (n :: rest)) (d, n) q = ahead L d rest q.
Proof.
  intros Hd Hn. unfold after_visit, ahead, path_eqb. destruct q as [s x].
  cbn [fst snd Py.mem existsb].
  destruct (String.eqb s d) eqn:Es.
  - apply String.eqb_eq in Es. subst s.
    rewrite (mem_not_In d L Hd). cbn [orb andb].
    destruct (String.eqb x n) eqn:Ex.
    + apply String.eqb_eq in Ex. subst x.
      fold (Py.mem n rest). rewrite (mem_not_In n rest Hn). reflexivity.
    + cbn [orb negb]. apply andb_true_r.
  - cbn [andb negb]. rewrite !orb_false_r. apply andb_true_r.
Qed.

Lemma ahead_done L d d' q : ahead L d [] q = ahead L d' [] q.
Proof. unfold ahead. cbn [Py.mem existsb]. rewrite !andb_false_r. reflexivity. Qed.

Section WalkInvariant.

Context {A : Type} (body : path -> A -> M filesystem (A * bool))
        (Inv : (path -> bool) -> A -> filesystem -> Prop).

(** The body returns on every record, keeps the tree well formed, the
    other records where they are and the shards there are. *)
Hypothesis body_total :
  forall acc fs p f,
    wf_fs fs = true -> In (p, f) (view fs) ->
    exists fs' acc',
      body p acc fs = (fs', inr (acc', false))
      /\ wf_fs fs' = true
      /\ (forall r, In r (view fs) -> fst r <> p -> In r (view fs'))
      /\ (forall d, In d (map fst (shards fs)) -> In d (map fst (shards fs'))).

(** The invariant looks at the paths still to visit among the records. *)
Hypothesis Inv_ext :
  forall a a' acc fs,
    (forall r, In r (view fs) -> a (fst r) = a' (fst r)) ->
    Inv a acc fs -> Inv a' acc fs.

Hypothesis Inv_step :
  forall a acc fs p f fs' acc',
    wf_fs fs = true -> Inv a acc fs -> a p = true -> In (p, f) (view fs) ->
    body p acc fs = (fs', inr (acc', false)) ->
    Inv (after_visit a p) acc' fs'.

Lemma walk_shard_inv L d rest acc fs :
  wf_fs fs = true -> ~ In d L -> NoDup rest ->
  (forall n, In n rest -> exists f, In ((d, n), f) (view fs)) ->
  (forall d', In d' L -> In d' (map fst (shards fs))) ->
  Inv (ahead L d rest) acc fs ->
  exists fs' acc',
    for_each rest
      (fun filename acc =>
         if negb (Py.intersects EmptyString
                    (_get_flags (EmptyString, filename)))
         then body (d, filename) acc
         else ret (acc, false))
      acc fs = (fs', inr (acc', false))
    /\ wf_fs fs' = true
    /\ (forall d', In d' L -> In d' (map fst (shards fs')))
    /\ Inv (ahead L d []) acc' fs'.
Proof.
  intros Hwf Hd. revert acc fs Hwf.
  induction rest as [|n rest IH]; intros acc fs Hwf Hnd Hrest HL HI.
  - exists fs, acc. repeat split; assumption.
  - inversion Hnd as [|? ? Hn Hnd']; subst.
    destruct (Hrest n (or_introl eq_refl)) as (f & Hin).
    destruct (body_total acc fs (d, n) f Hwf Hin)
      as (fs1 & acc1 & Hb & Hwf1 & Hframe & Hsh).
    cbn [for_each Py.intersects negb]. rewrite Hb.
    apply IH; try assumption.
    + intros n' Hn'. destruct (Hrest n' (or_intror Hn')) as (f' & Hin').
      exists f'. apply Hframe; [assumption|]. cbn [fst].
      intros E. injection E as ->. contradiction.
    + intros d' Hd'. apply Hsh, HL. assumption.
    + apply (Inv_ext (after_visit (ahead L d (n :: rest)) (d, n))).
      * intros r _. apply ahead_visit; assumption.
      * apply (Inv_step _ acc fs (d, n) f); try assumption.
        unfold ahead. cbn [fst snd Py.mem existsb].
        rewrite !String.eqb_refl. apply orb_true_r.
Qed.

Lemma walk_shards_inv L acc fs :
  wf_fs fs = true -> NoDup L ->
  (forall d, In d L -> In d (map fst (shards fs)) /\ is_tmp d = false) ->
  Inv (ahead L EmptyString []) acc fs ->
  exists fs' acc',
    for_each L
      (fun message_dir acc =>
         bind (_get_sorted_filenames message_dir)
           (fun filenames =>
              for_each filenames
                (fun filename acc =>
                   if negb (Py.intersects EmptyString
                              (_get_flags (EmptyString, filename)))
                   then body (message_dir, filename) acc
                   else ret (acc, false))
                acc))
      acc fs = (fs', inr (acc', false))
    /\ wf_fs fs' = true
    /\ Inv (fun _ => false) acc' fs'.
Proof.
  revert acc fs. induction L as [|d L IH]; intros acc fs Hwf Hnd HL HI.
  - exists fs, acc. repeat split; try assumption.
    apply (Inv_ext (ahead [] EmptyString [])); [|assumption].
    intros r _. unfold ahead. cbn [Py.mem existsb].
    rewrite andb_false_r. reflexivity.
  - inversion Hnd as [|? ? Hd Hnd']; subst.
    destruct (HL d (or_introl eq_refl)) as [Hdin Hdt].
    destruct (lookup d (shards fs)) as [dir|] eqn:Hl;
      [|apply lookup_none in Hl; contradiction].
    destruct (wf_fs_shard _ _ _ Hwf Hl Hdt) as [Hwd _].
    pose proof Hwd as Hwd'. apply wf_names_spec in Hwd'.
    destruct Hwd' as (Hndd & _).
    assert (Hview : forall n, In n (map fst (sorted_entries dir)) <->
                              exists f, In ((d, n), f) (view fs)).
    { intros n. split.
      - intros Hn. apply in_map_iff in Hn. destruct Hn as ([n' f] & <- & Hn).
        exists f. apply view_in; [assumption|]. exists dir.
        apply sorted_entries_in in Hn. destruct Hn as [Hn Ht].
        repeat split; try assumption. apply in_lookup; assumption.
      - intros (f & Hin). apply view_in in Hin; [|assumption].
        destruct Hin as (dir' & Hl' & _ & Hn & Ht).
        assert (dir' = dir) by congruence. subst dir'.
        apply in_map_iff. exists (n, f). split; [reflexivity|].
        apply sorted_entries_in. split; [apply lookup_in|]; assumption. }
    cbn [for_each]. unfold bind at 1.
    rewrite (listing_shard _ _ _ Hwf Hl Hdt).
    destruct (walk_shard_inv L d (map fst (sorted_entries dir)) acc fs)
      as (fs1 & acc1 & Hr & Hwf1 & HL1 & HI1); try assumption.
    + apply sorted_entries_nodup. assumption.
    + intros n Hn. apply Hview. assumption.
    + intros d' Hd'. apply HL. right. assumption.
    + apply (Inv_ext (ahead (d :: L) EmptyString [])); [|assumption].
      intros [[s n] f] Hr. unfold ahead. cbn [fst snd Py.mem existsb].
      rewrite andb_false_r, orb_false_r. fold (Py.mem s L).
      fold (Py.mem n (map fst (sorted_entries dir))).
      destruct (String.eqb s d) eqn:Es; cbn [orb andb].
      * apply String.eqb_eq in Es. subst s. symmetry.
        assert (Hn : In n (map fst (sorted_entries dir))).
        { apply Hview. exists f. assumption. }
        apply mem_In in Hn. rewrite Hn. apply orb_true_r.
      * rewrite orb_false_r. reflexivity.
    + rewrite Hr. apply IH; try assumption.
      * intros d' Hd'. split; [apply HL1; assumption|].
        apply HL. right. assumption.
      * apply (Inv_ext (ahead L d [])); [|assumption].
        intros r _. apply ahead_done.
Qed.

(** The walk over every record, with an invariant. *)
Lemma walk_inv acc fs :
  wf_fs fs = true -> Inv (fun _ => true) acc fs ->
  exists fs' acc',
    _walk_messages EmptyString body acc fs = (fs', inr (acc', false))
    /\ wf_fs fs' = true
    /\ Inv (fun _ => false) acc' fs'.
Proof.
  intros Hwf HI. unfold _walk_messages, bind at 1.
  rewrite (listing_root _ Hwf).
  apply walk_shards_inv; try assumption.
  - apply sorted_entries_nodup, wf_fs_nodup. assumption.
  - intros d Hd. apply in_map_iff in Hd. destruct Hd as ([d' dir] & <- & Hd).
    apply sorted_entries_in in Hd. destruct Hd as [Hd Ht].
    split; [|assumption]. apply in_map_iff. exists (d', dir). auto.
  - apply (Inv_ext (fun _ => true)); [|assumption].
    intros [[s n] f] Hr. unfold ahead. cbn [fst snd Py.mem existsb].
    rewrite andb_false_r, orb_false_r. symmetry. apply mem_In.
    apply view_in in Hr; [|assumption].
    destruct Hr as (dir & Hl & Ht & _).
    apply in_map_iff. exists (s, dir). split; [reflexivity|].
    apply sorted_entries_in. split; [apply lookup_in|]; assumption.
Qed.

End WalkInvariant.

(** ** [_reprocess_holding] *)

Lemma view_same_path fs p f g :
  wf_fs fs = true -> In (p, f) (view fs) -> In (p, g) (view fs) -> f = g.
Proof.
  intros Hwf Hf Hg.
  pose proof (view_find _ _ _ Hwf Hf). pose proof (view_find _ _ _ Hwf Hg).
  congruence.
Qed.

Lemma rename_record_other_path p p' r :
  fst r <> p -> rename_record p p' r = r.
Proof.
  intros H. unfold rename_record.
  destruct (path_eqb (fst r) p) eqn:E; [|reflexivity].
  apply path_eqb_eq in E. contradiction.
Qed.

Section ReprocessHolding.

Context {imports : Imports}.

Lemma reprocess_body_total size po acc offset fs p f :
  wf_fs fs = true -> In (p, f) (view fs) ->
  exists fs' offset',
    reprocess_body size po acc p offset fs = (fs', inr (offset', false))
    /\ wf_fs fs' = true
    /\ (forall r, In r (view fs) -> fst r <> p -> In r (view fs'))
    /\ (forall d, In d (map fst (shards fs)) -> In d (map fst (shards fs'))).
Proof.
  intros Hwf Hin.
  destruct (reprocess_body_record size po acc fs p f offset Hwf Hin)
    as (fs' & offset' & Hb & Hwf' & Hsh & Hcase).
  exists fs', offset'. repeat split; try assumption.
  intros r Hr Hne.
  destruct (loads (content f)) as [m|]; [|destruct Hcase as [-> _]; assumption].
  destruct (Py.contains HELD (_get_flags p)); destruct Hcase as [_ Hcase].
  - destruct (Py.mem (msg_type m) acc); [|subst; assumption].
    destruct Hcase as (q & -> & _). apply in_or_app. left.
    apply filter_In. split; [assumption|].
    apply negb_true_iff, path_eqb_neq. assumption.
  - destruct (negb (Py.mem (msg_type m) acc) && (po <=? offset)%Z);
      [|subst; assumption].
    rewrite Hcase. apply in_map_iff. exists r. split; [|assumption].
    apply rename_record_other_path. assumption.
Qed.

(** The loop of [_reprocess_holding] returns, and an invariant of its body
    that holds with every record still to visit holds in the end with
    none. *)
Lemma reprocess_holding_inv
    (Inv : (path -> bool) -> Z -> filesystem -> Prop) self :
  wf_store self = true ->
  (forall a a' offset fs,
      (forall r, In r (view fs) -> a (fst r) = a' (fst r)) ->
      Inv a offset fs -> Inv a' offset fs) ->
  (forall a offset fs p f fs' offset',
      wf_fs fs = true -> Inv a offset fs -> a p = true ->
      In (p, f) (view fs) ->
      reprocess_body (_directory_size self) (get_pending_offset self)
        (get_accepted_types self) p offset fs = (fs', inr (offset', false)) ->
      Inv (after_visit a p) offset' fs') ->
  Inv (fun _ => true) 0%Z (_directory self) ->
  exists fs' offset,
    _reprocess_holding self =
    (mkstore (_directory_size self) (_schemas self) (_persist self) fs',
     inr tt)
    /\ wf_fs fs' = true
    /\ Inv (fun _ => false) offset fs'.
Proof.
  intros Hwf Hext Hstep H0.
  destruct (walk_inv
              (reprocess_body (_directory_size self) (get_pending_offset self)
                 (get_accepted_types self)) Inv) with
    (acc := 0%Z) (fs := _directory self)
    as (fs' & offset & Hw & Hwf' & HI); try assumption.
  - intros acc fs p f. apply reprocess_body_total.
  - exists fs', offset. split; [|split; assumption].
    unfold _reprocess_holding, on_directory, bind. rewrite Hw. reflexivity.
Qed.

(** [_reprocess_holding] leaves the records that do not decode as they
    are. *)
Lemma reprocess_holding_undecodable self :
  wf_store self = true ->
  exists fs',
    _reprocess_holding self =
    (mkstore (_directory_size self) (_schemas self) (_persist self) fs',
     inr tt)
    /\ wf_fs fs' = true
    /\ forall p f, In (p, f) (view (_directory self)) ->
                   loads (content f) = None -> In (p, f) (view fs').
Proof.
  intros Hwf.
  destruct (reprocess_holding_inv
              (fun _ _ fs =>
                 forall p f, In (p, f) (view (_directory self)) ->
                             loads (content f) = None -> In (p, f) (view fs))
              self Hwf) as (fs' & offset & Hr & Hwf' & HI).
  - intros a a' offset fs _ H. exact H.
  - intros a offset fs p f fs' offset' Hwfs HI _ Hin Hb p0 f0 Hin0 Hl0.
    specialize (HI p0 f0 Hin0 Hl0).
    destruct (reprocess_body_record (_directory_size self)
                (get_pending_offset self) (get_accepted_types self)
                fs p f offset Hwfs Hin)
      as (fs1 & offset1 & Hb1 & _ & _ & Hcase).
    destruct (reprocess_body_total (_directory_size self)
                (get_pending_offset self) (get_accepted_types self)
                offset fs p f Hwfs Hin)
      as (fs2 & offset2 & Hb2 & _ & Hframe & _).
    rewrite Hb in Hb1, Hb2. injection Hb1 as <- <-. injection Hb2 as <- <-.
    destruct (path_eqb p0 p) eqn:E.
    + apply path_eqb_eq in E. subst p0.
      assert (f0 = f) by (apply (view_same_path fs p); assumption). subst f0.
      rewrite Hl0 in Hcase. destruct Hcase as [-> _]. assumption.
    + apply path_eqb_neq in E. apply Hframe; assumption.
  - auto.
  - exists fs'. auto.
Qed.

End ReprocessHolding.

(** ** The pending offset across [_reprocess_holding] *)

Section Counting.

Context {X : Type}.

Implicit Types (Q R : X -> bool) (l : list X).

Lemma count_le_map Q Q' (g : X -> X) l :
  (forall x, In x l -> Q x = true -> Q' (g x) = true) ->
  (List.length (filter Q l) <= List.length (filter Q' (map g l)))%nat.
Proof.
  induction l as [|x l IH]; intros H; simpl; [lia|].
  assert (IH' := IH (fun y Hy => H y (or_intror Hy))).
  pose proof (H x (or_introl eq_refl)) as Hx.
  destruct (Q x); [rewrite Hx by reflexivity|destruct (Q' (g x))]; simpl; lia.
Qed.

Lemma count_le Q Q' l :
  (forall x, In x l -> Q x = true -> Q' x = true) ->
  (List.length (filter Q l) <= List.length (filter Q' l))%nat.
Proof.
  intros H. rewrite <- (map_id l) at 2. apply count_le_map. assumption.
Qed.

Lemma count_le_filter Q Q' R l :
  (forall x, In x l -> Q x = true -> R x = true /\ Q' x = true) ->
  (List.length (filter Q l) <= List.length (filter Q' (filter R l)))%nat.
Proof.
  induction l as [|x l IH]; intros H; simpl; [lia|].
  assert (IH' := IH (fun y Hy => H y (or_intror Hy))).
  pose proof (H x (or_introl eq_refl)) as Hx.
  destruct (Q x).
  - destruct (Hx eq_refl) as [-> Hq]. simpl. rewrite Hq. simpl. lia.
  - destruct (R x); simpl; [destruct (Q' x); simpl|]; lia.
Qed.

Lemma count_lt Q Q' l x :
  In x l -> Q x = false -> Q' x = true ->
  (forall y, In y l -> Q y = true -> Q' y = true) ->
  (List.length (filter Q l) < List.length (filter Q' l))%nat.
Proof.
  induction l as [|y l IH]; intros Hin Hq Hq' H; [contradiction|].
  simpl. destruct Hin as [->|Hin].
  - rewrite Hq, Hq'. simpl.
    pose proof (count_le Q Q' l (fun z Hz => H z (or_intror Hz))). lia.
  - specialize (IH Hin Hq Hq' (fun z Hz => H z (or_intror Hz))).
    pose proof (H y (or_introl eq_refl)) as Hy.
    destruct (Q y); [rewrite Hy by reflexivity|destruct (Q' y)]; simpl; lia.
Qed.

End Counting.

Lemma passed_le_unflagged a v :
  (List.length (passed_unflagged a v) <= List.length (unflagged_records v))%nat.
Proof.
  apply count_le. intros x _ H. apply andb_true_iff in H. tauto.
Qed.

Lemma no_broken_flags n d :
  record_name n = true -> Py.contains BROKEN (_get_flags (d, n)) = false ->
  _get_flags (d, n) = EmptyString \/ _get_flags (d, n) = flag HELD.
Proof.
  intros Hn Hb. destruct (record_name_flags n d Hn) as [E|[E|[E|E]]];
    rewrite E in *; try discriminate; auto.
Qed.

Lemma reprocess_invariant_ext po a a' offset fs :
  (forall r, In r (view fs) -> a (fst r) = a' (fst r)) ->
  reprocess_invariant po a offset fs -> reprocess_invariant po a' offset fs.
Proof.
  intros H (H1 & H2 & H3). repeat split; try assumption.
  unfold passed_unflagged in *.
  rewrite <- (filter_ext_in _ _ (view fs)
                (fun r Hr => f_equal (fun b => unflagged (fst r) && negb b)
                               (H r Hr))).
  assumption.
Qed.

(** A record the walk is past was not the one it is at. *)
Lemma passed_before a (p : path) (x : path * file) :
  a p = true -> unflagged (fst x) && negb (a (fst x)) = true ->
  fst x <> p
  /\ unflagged (fst x) && negb (after_visit a p (fst x)) = true.
Proof.
  intros Ha H. apply andb_true_iff in H. destruct H as [Hu Hx].
  apply negb_true_iff in Hx. split.
  - intros E. congruence.
  - unfold after_visit. rewrite Hu, Hx. reflexivity.
Qed.

Lemma passed_now a (p : path) :
  a p = true -> unflagged p = true ->
  unflagged p && negb (a p) = false
  /\ unflagged p && negb (after_visit a p p) = true.
Proof.
  intros Ha Hu. unfold after_visit.
  rewrite Ha, Hu, path_eqb_refl. split; reflexivity.
Qed.

Section Invariant.

Context {imports : Imports}.

Lemma reprocess_invariant_step size po acc a offset fs p f fs' offset' :
  wf_fs fs = true -> reprocess_invariant po a offset fs -> a p = true ->
  In (p, f) (view fs) ->
  reprocess_body size po acc p offset fs = (fs', inr (offset', false)) ->
  reprocess_invariant po (after_visit a p) offset' fs'.
Proof.
  intros Hwf (Hnb & HU & HK) Ha Hin Hb.
  destruct (reprocess_body_record size po acc fs p f offset Hwf Hin)
    as (fs1 & offset1 & Hb1 & _ & _ & Hcase).
  rewrite Hb in Hb1. injection Hb1 as <- <-.
  destruct p as [d n].
  pose proof (view_record_name _ _ _ _ Hwf Hin) as Hn.
  pose proof (Hnb _ Hin) as Hb0. cbn [fst] in Hb0.
  assert (Hkeep : (List.length (passed_unflagged a (view fs)) <=
                   List.length (passed_unflagged (after_visit a (d, n))
                                  (view fs)))%nat).
  { apply count_le. intros x _ Hx. apply (passed_before a (d, n)); assumption. }
  assert (Hnext : unflagged (d, n) = true ->
                  (List.length (passed_unflagged a (view fs)) <
                   List.length (passed_unflagged (after_visit a (d, n))
                                  (view fs)))%nat).
  { intros Hu. destruct (passed_now a (d, n) Ha Hu) as [H1 H2].
    apply (count_lt _ _ _ ((d, n), f)); try assumption.
    intros x _ Hx. apply (passed_before a (d, n)); assumption. }
  destruct (no_broken_flags n d Hn Hb0) as [E|E]; rewrite E in Hcase;
    cbn [Py.contains flag HELD Ascii.eqb Bool.eqb orb] in Hcase.
  - (* an unflagged record *)
    assert (Hu : unflagged (d, n) = true).
    { unfold unflagged. rewrite E. reflexivity. }
    specialize (Hnext Hu).
    assert (Hsame : fs' = fs /\ offset' = (offset + 1)%Z ->
                    reprocess_invariant po (after_visit a (d, n)) offset' fs').
    { intros [-> ->]. repeat split; try assumption. lia. }
    destruct (loads (content f)) as [m|]; [|auto].
    destruct Hcase as [-> Hcase].
    destruct (negb (Py.mem (msg_type m) acc) && (po <=? offset)%Z) eqn:Ec;
      [|auto].
    apply andb_true_iff in Ec. destruct Ec as [_ Ec]. apply Z.leb_le in Ec.
    destruct (add_flags_path_facts d n HELD Hn Hu (or_introl eq_refl))
      as (_ & _ & Hfl & _).
    assert (HK' : (List.length (passed_unflagged a (view fs)) <=
                   List.length (passed_unflagged (after_visit a (d, n))
                                  (view fs')))%nat).
    { rewrite Hcase. apply count_le_map. intros x _ Hx.
      destruct (passed_before a (d, n) x Ha Hx) as [Hne Hx'].
      rewrite rename_record_other_path by assumption. assumption. }
    pose proof (passed_le_unflagged (after_visit a (d, n)) (view fs')).
    repeat split; try lia.
    intros r Hr. rewrite Hcase in Hr. apply in_map_iff in Hr.
    destruct Hr as (x & <- & Hx). unfold rename_record.
    destruct (path_eqb (fst x) (d, n)); cbn [fst].
    + rewrite Hfl. reflexivity.
    + apply Hnb. assumption.
  - (* a HELD record *)
    assert (Hh : unflagged (d, n) = false).
    { unfold unflagged. rewrite E. reflexivity. }
    assert (Hsame : fs' = fs /\ offset' = offset ->
                    reprocess_invariant po (after_visit a (d, n)) offset' fs').
    { intros [-> ->]. repeat split; try assumption. lia. }
    destruct (loads (content f)) as [m|]; [|auto].
    destruct Hcase as [-> Hcase].
    destruct (Py.mem (msg_type m) acc); [|auto].
    destruct Hcase as (q & Hv & Hq).
    cbn [Py.discard flag HELD Ascii.eqb Bool.eqb] in Hq.
    assert (Hother : forall x, In x (view fs) -> unflagged (fst x) = true ->
                               negb (path_eqb (fst x) (d, n)) = true).
    { intros x _ Hx. apply negb_true_iff, path_eqb_neq. intros Ex.
      rewrite Ex in Hx. congruence. }
    repeat split.
    + intros r Hr. rewrite Hv in Hr. apply in_app_iff in Hr.
      destruct Hr as [Hr|[<-|[]]].
      * apply filter_In in Hr. apply Hnb. tauto.
      * cbn [fst]. rewrite Hq. reflexivity.
    + assert (H : (List.length (unflagged_records (view fs)) <=
                   List.length (unflagged_records (view fs')))%nat).
      { rewrite Hv. unfold unflagged_records.
        rewrite filter_app, length_app.
        pose proof (count_le_filter (fun r : path * file => unflagged (fst r))
                      (fun r => unflagged (fst r))
                      (fun r => negb (path_eqb (fst r) (d, n))) (view fs))
          as Hc.
        assert (Hc' := Hc (fun x Hx Hux => conj (Hother x Hx Hux) Hux)).
        lia. }
      lia.
    + assert (H : (List.length (passed_unflagged a (view fs)) <=
                   List.length (passed_unflagged (after_visit a (d, n))
                                  (view fs')))%nat).
      { rewrite Hv. unfold passed_unflagged.
        rewrite filter_app, length_app.
        pose proof (count_le_filter
                      (fun r : path * file =>
                         unflagged (fst r) && negb (a (fst r)))
                      (fun r => unflagged (fst r)
                                && negb (after_visit a (d, n) (fst r)))
                      (fun r => negb (path_eqb (fst r) (d, n))) (view fs))
          as Hc.
        assert (Hc' : (List.length
                         (filter (fun r : path * file =>
                                    unflagged (fst r) && negb (a (fst r)))
                            (view fs)) <=
                       List.length
                         (filter (fun r : path * file =>
                                    unflagged (fst r)
                                    && negb (after_visit a (d, n) (fst r)))
                            (filter (fun r =>
                                       negb (path_eqb (fst r) (d, n)))
                               (view fs))))%nat).
        { apply Hc. intros x Hx Hpx.
          destruct (passed_before a (d, n) x Ha Hpx) as [Hne Hx'].
          split; [|assumption].
          apply negb_true_iff, path_eqb_neq. assumption. }
        lia. }
      lia.
Qed.

(** [_reprocess_holding] in a store without BROKEN records keeps the
    unflagged records at [pending_offset] at least. *)
Lemma reprocess_holding_offset self :
  wf_store self = true -> offset_invariant self ->
  none_broken (view (_directory self)) ->
  exists fs',
    _reprocess_holding self =
    (mkstore (_directory_size self) (_schemas self) (_persist self) fs',
     inr tt)
    /\ wf_fs fs' = true
    /\ none_broken (view fs')
    /\ (get_pending_offset self <=
        Z.of_nat (List.length (unflagged_records (view fs'))))%Z.
Proof.
  intros Hwf [H0 HU] Hnb.
  destruct (reprocess_holding_inv
              (reprocess_invariant (get_pending_offset self)) self Hwf)
    as (fs' & offset & Hr & Hwf' & Hnb' & HU' & _).
  - apply reprocess_invariant_ext.
  - intros a offset fs p f fs' offset'.
    apply reprocess_invariant_step.
  - repeat split; try assumption. cbn. lia.
  - exists fs'. auto.
Qed.

End Invariant.

(* ================================================================== *)
(** * The claims *)

(** ** The reconciler *)

(** C1: for a non-negative local sequence, a non-negative peer position
    and a pending offset between 0 and the buffered count, [reconcile]
    returns the peer position as the new sequence; with
    [delta = peer_next_expected - local_sequence], the new pending offset
    is [min (local_pending_offset + delta) buffered_count] when
    [delta >= 0], and [max (local_pending_offset + delta) 0] when
    [delta < 0]. *)
Theorem reconcile_cases
    (local_sequence local_pending_offset buffered_count peer_next_expected : Z) :
  (0 <= local_sequence)%Z ->
  (0 <= peer_next_expected)%Z ->
  (0 <= local_pending_offset <= buffered_count)%Z ->
  let delta := (peer_next_expected - local_sequence)%Z in
  let result :=
    Reconciler.reconcile local_sequence local_pending_offset buffered_count
      peer_next_expected in
  fst result = peer_next_expected
  /\ ((0 <= delta)%Z ->
      snd result = Z.min (local_pending_offset + delta) buffered_count)
  /\ ((delta < 0)%Z ->
      snd result = Z.max (local_pending_offset + delta) 0).
Proof.
  intros _ _ _ delta result. subst result. unfold Reconciler.reconcile.
  fold delta. destruct (0 <=? delta)%Z eqn:E.
  - apply Z.leb_le in E. simpl. repeat split; auto. lia.
  - apply Z.leb_gt in E. simpl. repeat split; auto. lia.
Qed.

Lemma reconcile_cases_witness :
  (0 <= 9)%Z /\ (0 <= 6)%Z /\ (0 <= 5 <= 7)%Z
  /\ fst (Reconciler.reconcile 9 5 7 6) = 6%Z
  /\ ((0 <= 6 - 9)%Z -> snd (Reconciler.reconcile 9 5 7 6) = Z.min (5 + (6 - 9)) 7)
  /\ ((6 - 9 < 0)%Z -> snd (Reconciler.reconcile 9 5 7 6) = Z.max (5 + (6 - 9)) 0).
Proof.
  split; [lia|]. split; [lia|]. split; [lia|].
  apply (reconcile_cases 9 5 7 6); lia.
Defined.

(** ** [add] and its errors *)

(** C8: on a well-formed store [add message] raises exactly when the type
    of the message has no schema or the schema rejects its fields; what it
    raises is then a SchemaError and the store is left as it was, record
    files, [sequence], [pending_offset] and [accepted_types] included; when
    it returns, exactly one record file has appeared, the last of the
    enumeration, with the returned identifier, and [sequence],
    [pending_offset] and [accepted_types] are unchanged. *)
Theorem add_schema_error {imports : Imports} (message : Message)
    (self : MessageStore) :
  wf_store self = true ->
  ((exists e, snd (add message self) = inl e) <->
   (lookup (msg_type message) (_schemas self) = None
    \/ exists s, lookup (msg_type message) (_schemas self) = Some s
                 /\ coerce s message = None))
  /\ (forall e, snd (add message self) = inl e ->
                SchemaError e /\ fst (add message self) = self)
  /\ (forall message_id, snd (add message self) = inr message_id ->
        exists p f,
          view (_directory (fst (add message self))) =
          view (_directory self) ++ [(p, f)]
          /\ st_ino f = message_id
          /\ get_sequence (fst (add message self)) = get_sequence self
          /\ get_pending_offset (fst (add message self)) =
             get_pending_offset self
          /\ get_accepted_types (fst (add message self)) =
             get_accepted_types self).
Proof.
  intros Hwf. pose proof (add_spec message self Hwf) as H.
  destruct (lookup (msg_type message) (_schemas self)) as [s|] eqn:El.
  - destruct (coerce s message) as [coerced|] eqn:Ec.
    + destruct H as (self' & p & f & Ha & _ & _ & Hv & _ & Hp & _).
      rewrite Ha. cbn [fst snd]. split; [|split].
      * split.
        -- intros (e & He). discriminate.
        -- intros [Hn|(s' & Hs' & Hc')]; [discriminate|].
           injection Hs' as <-. congruence.
      * intros e He. discriminate.
      * intros message_id Hid. injection Hid as <-. exists p, f.
        unfold get_sequence, get_pending_offset, get_accepted_types.
        rewrite Hp. auto.
    + rewrite H. cbn [fst snd]. split; [|split].
      * split; [|eauto]. intros _. right. exists s. auto.
      * intros e He. injection He as <-. unfold SchemaError. auto.
      * intros message_id Hid. discriminate.
  - rewrite H. cbn [fst snd]. split; [|split].
    + split; [|eauto]. intros _. left. reflexivity.
    + intros e He. injection He as <-. unfold SchemaError. auto.
    + intros message_id Hid. discriminate.
Qed.

Lemma add_schema_error_witness :
  wf_store Example.three_records = true
  /\ SchemaError InvalidError
  /\ fst (add (imports := Example.toy_imports) (mkmsg "c" None [])
            Example.three_records) = Example.three_records.
Proof.
  split; [reflexivity|].
  apply (proj1 (proj2 (add_schema_error (imports := Example.toy_imports)
                         (mkmsg "c" None []) Example.three_records
                         eq_refl))).
  reflexivity.
Defined.

(** ** [delete_all_messages] *)

(** C10: on a well-formed store [delete_all_messages] removes every
    record, HELD and BROKEN ones included, and sets [pending_offset] to 0;
    [sequence], [server_sequence], [server_uuid], the exchange token and
    [accepted_types] are unchanged; afterwards [get_pending_messages]
    returns the empty list and [count_pending_messages] returns 0. *)
Theorem delete_all_messages_purges {imports : Imports} (self : MessageStore)
    (max : option Z) :
  wf_store self = true ->
  exists self',
    delete_all_messages self = (self', inr tt)
    /\ view (_directory self') = []
    /\ get_pending_offset self' = 0%Z
    /\ get_sequence self' = get_sequence self
    /\ get_server_sequence self' = get_server_sequence self
    /\ get_server_uuid self' = get_server_uuid self
    /\ get_exchange_token self' = get_exchange_token self
    /\ get_accepted_types self' = get_accepted_types self
    /\ snd (get_pending_messages max self') = inr []
    /\ snd (count_pending_messages self') = inr 0%nat.
Proof.
  intros Hwf.
  destruct (delete_all_messages_spec self Hwf)
    as (self' & Hd & Hwf' & Hv & _ & Hp & _).
  exists self'. split; [assumption|]. split; [assumption|].
  unfold get_pending_offset, get_sequence, get_server_sequence,
    get_server_uuid, get_exchange_token, get_accepted_types.
  rewrite Hp. cbn [set_pending_offset set_persist _persist
                     pending_offset_key sequence_key server_sequence_key
                     server_uuid_key exchange_token_key accepted_types_key].
  repeat (split; [reflexivity|]).
  destruct (get_pending_messages_spec max self' Hwf')
    as (self2 & Hg & _).
  rewrite Hg, count_pending_messages_spec, Hv by assumption.
  cbn [snd]. unfold pending, unflagged_records. cbn [filter].
  rewrite skipn_nil. split; reflexivity.
Qed.

Lemma delete_all_messages_purges_witness :
  wf_store Example.one_held = true
  /\ exists self',
       delete_all_messages Example.one_held = (self', inr tt)
       /\ view (_directory self') = [].
Proof.
  split; [reflexivity|].
  destruct (delete_all_messages_purges (imports := Example.toy_imports)
              Example.one_held None eq_refl) as (self' & H1 & H2 & _).
  exists self'. split; assumption.
Defined.

(** ** [delete_old_messages] *)

Lemma without_old_none offset v :
  old_records offset v = [] -> without_old offset v = v.
Proof.
  intros H. unfold without_old. rewrite H. apply filter_all. reflexivity.
Qed.

Lemma old_records_zero v : old_records 0 v = [].
Proof. reflexivity. Qed.

Lemma skipn_all_length {X : Type} n (l : list X) :
  (List.length l <= n)%nat -> skipn n l = [].
Proof. apply skipn_all2. Qed.

(** What an unbounded [get_pending_messages] returns. *)
Lemma get_pending_unbounded {imports : Imports} self :
  wf_store self = true ->
  snd (get_pending_messages None self) =
  inr (deliveries (get_accepted_types self)
         (pending (get_pending_offset self) (view (_directory self)))).
Proof.
  intros Hwf. destruct (get_pending_messages_spec None self Hwf)
    as (self' & Hg & _).
  rewrite Hg. cbn [snd]. rewrite scan_messages. reflexivity.
Qed.

(** C5, as stated, fails: with three unflagged records and a pending
    offset of 1, the second call removes one more record. *)
Lemma delete_old_messages_twice_counterexample :
  view (_directory
          (fst (delete_old_messages
                  (fst (delete_old_messages Example.three_records))))) <>
  view (_directory (fst (delete_old_messages Example.three_records))).
Proof. vm_compute. discriminate. Qed.

(** C5, amended: [delete_old_messages] leaves the metadata as it is, the
    pending offset included, so that a second call removes the next
    [pending_offset] unflagged records; two calls in succession leave the
    same record files as one when the pending offset is 0, when no more
    than [pending_offset] unflagged records were resident, or when
    [islice] rejects the pending offset, negative or above [sys.maxsize]:
    then each call raises [ValueError] and leaves the store as it is. *)
Theorem delete_old_messages_twice (self : MessageStore) :
  wf_store self = true ->
  let offset := get_pending_offset self in
  let once := fst (delete_old_messages self) in
  let twice := fst (delete_old_messages once) in
  ((0 <= offset <= sys.maxsize)%Z ->
   delete_old_messages self = (once, inr tt)
   /\ delete_old_messages once = (twice, inr tt)
   /\ view (_directory twice) = without_old offset (view (_directory once)))
  /\ ((offset < 0)%Z \/ (sys.maxsize < offset)%Z ->
      delete_old_messages self = (self, inl ValueError)
      /\ delete_old_messages once = (self, inl ValueError))
  /\ _persist once = _persist self
  /\ _persist twice = _persist self
  /\ (offset = 0%Z \/ (count_unflagged self <= offset)%Z
      \/ (offset < 0)%Z \/ (sys.maxsize < offset)%Z ->
      view (_directory twice) = view (_directory once)).
Proof.
  intros Hwf offset once twice.
  assert (Hout : (offset < 0)%Z \/ (sys.maxsize < offset)%Z ->
                 once = self /\ twice = self).
  { intros H. unfold twice, once.
    rewrite (delete_old_messages_raises self H). cbn [fst].
    rewrite (delete_old_messages_raises self H). auto. }
  assert (Hin : (0 <= offset <= sys.maxsize)%Z ->
                delete_old_messages self = (once, inr tt)
                /\ delete_old_messages once = (twice, inr tt)
                /\ _persist once = _persist self
                /\ _persist twice = _persist self
                /\ view (_directory once) =
                   without_old offset (view (_directory self))
                /\ view (_directory twice) =
                   without_old offset (view (_directory once))).
  { intros Hp.
    destruct (delete_old_messages_spec self Hwf Hp)
      as (once' & H1 & Hwf1 & Hv1 & _ & Hp1 & _).
    assert (E1 : once = once') by (unfold once; rewrite H1; reflexivity).
    assert (Ho : get_pending_offset once' = offset).
    { unfold offset, get_pending_offset. rewrite Hp1. reflexivity. }
    assert (Hp' : (0 <= get_pending_offset once' <= sys.maxsize)%Z)
      by (rewrite Ho; exact Hp).
    destruct (delete_old_messages_spec once' Hwf1 Hp')
      as (twice' & H2 & Hwf2 & Hv2 & _ & Hp2 & _).
    assert (E2 : twice = twice').
    { unfold twice. rewrite E1, H2. reflexivity. }
    rewrite Ho in Hv2. rewrite E1, E2.
    repeat split; try assumption; congruence. }
  split; [intros Hp; destruct (Hin Hp) as (H1 & H2 & _ & _ & _ & H3); auto|].
  split.
  { intros H. destruct (Hout H) as [E1 _]. rewrite E1.
    split; apply delete_old_messages_raises; exact H. }
  assert (Hcases : (0 <= offset <= sys.maxsize)%Z
                   \/ ((offset < 0)%Z \/ (sys.maxsize < offset)%Z)) by lia.
  split; [|split].
  - destruct Hcases as [Hp|H].
    + apply (Hin Hp).
    + destruct (Hout H) as [-> _]. reflexivity.
  - destruct Hcases as [Hp|H].
    + apply (Hin Hp).
    + destruct (Hout H) as [_ ->]. reflexivity.
  - intros Hcase. destruct Hcases as [Hp|H].
    + destruct (Hin Hp) as (_ & _ & _ & _ & Hv1 & Hv2).
      rewrite Hv2. apply without_old_none.
      destruct Hcase as [Hz|[Hle|Hb]]; [| |lia].
      * rewrite Hz. apply old_records_zero.
      * unfold old_records. rewrite Hv1.
        rewrite unflagged_without_old by (apply view_nodup; exact Hwf).
        unfold pending. rewrite skipn_all_length; [apply firstn_nil|].
        unfold count_unflagged in Hle. fold offset. lia.
    + destruct (Hout H) as [-> ->]. reflexivity.
Qed.

Lemma delete_old_messages_twice_witness :
  wf_store Example.one_sent = true
  /\ _persist (fst (delete_old_messages
                      (fst (delete_old_messages Example.one_sent))))
     = _persist Example.one_sent.
Proof.
  split; [reflexivity|].
  exact (proj1 (proj2 (proj2 (proj2
           (delete_old_messages_twice Example.one_sent eq_refl))))).
Defined.

(** C2, as stated, fails in its last part: with three deliverable records
    and a pending offset of 1, [get_pending_messages] after
    [delete_old_messages] does not return the second record, which was at
    the pending offset. *)
Lemma delete_old_messages_frame_counterexample :
  exists returned,
    snd (get_pending_messages (imports := Example.toy_imports) None
           (fst (delete_old_messages Example.three_records))) = inr returned
    /\ In (mkmsg "b" (Some "3.2"%string) [])
          (deliveries (imports := Example.toy_imports)
             (get_accepted_types Example.three_records)
             (pending (get_pending_offset Example.three_records)
                (view (_directory Example.three_records))))
    /\ ~ In (mkmsg "b" (Some "3.2"%string) []) returned.
Proof.
  eexists. split; [vm_compute; reflexivity|]. split.
  - vm_compute. auto.
  - intros [H|[]]. discriminate.
Qed.

(** C2, amended: with a pending offset that [islice] accepts, from 0 to
    [sys.maxsize], [delete_old_messages] removes exactly the first
    [pending_offset] unflagged records: a record it removes is unflagged
    and before the pending offset, a HELD or BROKEN record stays, a record
    at or after the pending offset stays, and the metadata, the pending
    offset included, is unchanged.  An unbounded [get_pending_messages]
    afterwards returns no removed record; it returns the deliveries of
    every record that was at or after the pending offset once the pending
    offset is set to 0, and skips the first [pending_offset] of them when
    the pending offset is left as it is.  With any other pending offset
    the call raises [ValueError] and removes nothing. *)
Theorem delete_old_messages_frame {imports : Imports} (self : MessageStore) :
  wf_store self = true ->
  let offset := get_pending_offset self in
  let v := view (_directory self) in
  ((offset < 0)%Z \/ (sys.maxsize < offset)%Z ->
   delete_old_messages self = (self, inl ValueError))
  /\ ((0 <= offset <= sys.maxsize)%Z ->
      exists self',
        delete_old_messages self = (self', inr tt)
        /\ view (_directory self') = without_old offset v
        /\ (forall r, In r v -> ~ In r (view (_directory self')) ->
                      unflagged (fst r) = true
                      /\ In r (old_records offset v))
        /\ (forall r, In r (old_records offset v) ->
                      ~ In r (view (_directory self')))
        /\ (forall r, In r v -> unflagged (fst r) = false ->
                      In r (view (_directory self')))
        /\ (forall r, In r (pending offset v) ->
                      In r (view (_directory self')))
        /\ _persist self' = _persist self
        /\ snd (get_pending_messages None self') =
           inr (deliveries (get_accepted_types self)
                  (skipn (Z.to_nat offset) (pending offset v)))
        /\ snd (get_pending_messages None (set_pending_offset 0 self')) =
           inr (deliveries (get_accepted_types self) (pending offset v))).
Proof.
  intros Hwf offset v.
  split; [apply delete_old_messages_raises|]. intros Hp.
  assert (Hp0 : (0 <= offset)%Z) by lia.
  destruct (delete_old_messages_spec self Hwf Hp)
    as (self' & Hd & Hwf' & Hv & _ & Hpers & _).
  fold offset v in Hv.
  pose proof (view_nodup _ Hwf) as Hnd. fold v in Hnd.
  exists self'. split; [assumption|]. split; [assumption|].
  split; [|split; [|split; [|split; [|split; [assumption|split]]]]].
  - intros r Hr Hnot.
    destruct (path_in (fst r) (old_records offset v)) eqn:E.
    + apply path_in_true in E. apply in_map_iff in E.
      destruct E as (x & Hx & Hin).
      assert (x = r).
      { apply (NoDup_map_inj fst v); try assumption.
        apply old_records_in in Hin. tauto. }
      subst x. split; [|assumption]. apply old_records_in in Hin. tauto.
    + exfalso. apply Hnot. rewrite Hv. apply without_old_in. auto.
  - intros r Hr Hin. rewrite Hv in Hin. apply without_old_in in Hin.
    destruct Hin as [_ Hin]. rewrite path_in_self in Hin by assumption.
    discriminate.
  - intros r Hr Hu. rewrite Hv. apply without_old_in. split; [assumption|].
    apply not_old; auto.
  - intros r Hr. rewrite Hv. apply without_old_in.
    pose proof (pending_in _ _ _ Hr) as [Hin _]. split; [assumption|].
    apply not_old; auto.
  - rewrite get_pending_unbounded by assumption.
    unfold get_accepted_types, get_pending_offset. rewrite Hpers.
    fold (get_pending_offset self). fold offset. rewrite Hv.
    unfold pending at 1. rewrite unflagged_without_old by assumption.
    reflexivity.
  - rewrite get_pending_unbounded by exact Hwf'.
    unfold get_accepted_types, get_pending_offset.
    cbn [set_pending_offset set_persist _persist _directory
           accepted_types_key pending_offset_key].
    rewrite Hpers, Hv. unfold pending at 1. cbn [Z.to_nat skipn].
    rewrite unflagged_without_old by assumption. reflexivity.
Qed.

Lemma delete_old_messages_frame_witness :
  wf_store Example.three_records = true
  /\ exists self',
       delete_old_messages Example.three_records = (self', inr tt)
       /\ view (_directory self') =
          without_old (get_pending_offset Example.three_records)
            (view (_directory Example.three_records)).
Proof.
  split; [reflexivity|].
  destruct (proj2 (delete_old_messages_frame (imports := Example.toy_imports)
                     Example.three_records eq_refl))
    as (self' & H1 & H2 & _).
  - split; [discriminate|]. unfold sys.maxsize. cbn. discriminate.
  - exists self'. auto.
Defined.

(** ** [get_pending_messages] after a sequence of [add] calls *)

Lemma Forall2_firstn {X Y : Type} (R : X -> Y -> Prop) n l l' :
  Forall2 R l l' -> Forall2 R (firstn n l) (firstn n l').
Proof.
  intros H. revert n. induction H; intros [|n]; simpl; constructor; auto.
Qed.

Lemma StronglySorted_firstn {X : Type} (R : X -> X -> Prop) n l :
  StronglySorted R l -> StronglySorted R (firstn n l).
Proof.
  intros H. revert n. induction H as [|x l Hs IH Hx]; intros [|n]; simpl;
    try constructor; auto.
  rewrite Forall_forall in *. intros y Hy. apply Hx.
  exact (in_firstn _ _ _ Hy).
Qed.

Section Ordinals.

Context {imports : Imports} (accepted : list string)
        (P : path * file -> bool).

(** The deliveries of the selected records from the [k]-th on come from
    records at strictly increasing positions of the list. *)
Lemma deliveries_ordinals (v : list (path * file)) (b k : nat) :
  exists ordinals,
    StronglySorted lt ordinals
    /\ Forall (fun i => (b <= i)%nat) ordinals
    /\ Forall2
         (fun i message =>
            exists r, nth_error v (i - b) = Some r
                      /\ P r = true
                      /\ deliverable accepted r = Some message
                      /\ In r (skipn k (filter P v)))
         ordinals (deliveries accepted (skipn k (filter P v))).
Proof.
  revert b k. induction v as [|r v IH]; intros b k.
  - exists []. simpl. rewrite skipn_nil. simpl.
    repeat split; constructor.
  - assert (Hshift : forall k' (rest : list (path * file)),
              (forall x, In x (skipn k' (filter P v)) -> In x rest) ->
              forall ordinals,
              Forall (fun i => (S b <= i)%nat) ordinals ->
              Forall2
                (fun i message =>
                   exists r0, nth_error v (i - S b) = Some r0
                              /\ P r0 = true
                              /\ deliverable accepted r0 = Some message
                              /\ In r0 (skipn k' (filter P v)))
                ordinals (deliveries accepted (skipn k' (filter P v))) ->
              Forall (fun i => (b <= i)%nat) ordinals
              /\ Forall2
                   (fun i message =>
                      exists r0, nth_error (r :: v) (i - b) = Some r0
                                 /\ P r0 = true
                                 /\ deliverable accepted r0 = Some message
                                 /\ In r0 rest)
                   ordinals (deliveries accepted (skipn k' (filter P v)))).
    { intros k' rest Hrest ordinals Hge.
      generalize (deliveries accepted (skipn k' (filter P v))).
      intros ds H2. split.
      - eapply Forall_impl; [|exact Hge]. simpl. intros; lia.
      - induction H2 as [|i m ords ds' Hi H2 IH2]; constructor.
        + destruct Hi as (r0 & Hn & HP & Hd & Hin).
          inversion Hge as [|? ? Hib _]; subst.
          exists r0. repeat split; auto.
          replace (i - b)%nat with (S (i - S b)) by lia. exact Hn.
        + apply IH2. inversion Hge; assumption. }
    cbn [filter]. destruct (P r) eqn:EP.
    + destruct k as [|k].
      * destruct (IH (S b) 0%nat) as (ords & Hs & Hge & H2).
        cbn [skipn] in *.
        destruct (Hshift 0%nat (r :: filter P v)
                    (fun x Hx => or_intror Hx) ords Hge H2) as [Hge' H2'].
        cbn [deliveries].
        destruct (deliverable accepted r) as [message|] eqn:Ed.
        -- exists (b :: ords). repeat split.
           ++ constructor; [assumption|].
              eapply Forall_impl; [|exact Hge]. simpl. intros; lia.
           ++ constructor; [lia|assumption].
           ++ constructor; [|assumption].
              exists r. rewrite Nat.sub_diag. simpl. auto.
        -- exists ords. auto.
      * destruct (IH (S b) k) as (ords & Hs & Hge & H2).
        cbn [skipn].
        destruct (Hshift k (skipn k (filter P v)) (fun x Hx => Hx)
                    ords Hge H2) as [Hge' H2'].
        exists ords. auto.
    + destruct (IH (S b) k) as (ords & Hs & Hge & H2).
      destruct (Hshift k (skipn k (filter P v)) (fun x Hx => Hx)
                  ords Hge H2) as [Hge' H2'].
      exists ords. auto.
Qed.

End Ordinals.

(** ** Temporary files and the crash inside [add] *)



(** On a tree whose last shard is not full, the next name is the chosen
    one and nothing is created. *)
Lemma next_message_filename_again size fs before d dir n :
  wf_fs fs = true ->
  sorted_entries (shards fs) = before ++ [(d, dir)] ->
  chosen size dir n ->
  _get_next_message_filename size fs = (fs, inr (d, n)).
Proof.
  intros Hwf Hs Hch.
  destruct (visible_shard_lookup _ _ _ _ Hwf Hs) as [Hl Ht].
  unfold _get_next_message_filename. unfold bind at 1.
  rewrite (listing_root _ Hwf), Hs.
  assert (Hdirs : exists x xs, map fst (before ++ [(d, dir)]) = x :: xs).
  { destruct before; simpl; eauto. }
  destruct Hdirs as (x & xs & Hdirs).
  assert (Hnew : last (x :: xs) EmptyString = d).
  { rewrite <- Hdirs. apply (last_map_fst before (d, dir)). }
  rewrite Hdirs. unfold bind at 1. unfold ret at 1. rewrite Hnew.
  unfold bind at 1. rewrite (listing_shard _ _ _ Hwf Hl Ht).
  unfold chosen in Hch.
  destruct (sorted_entries dir) as [|e s] eqn:Ed.
  - subst n. reflexivity.
  - destruct Hch as (Hroom & k & Hk & ->).
    cbn [map].
    change (List.length (fst e :: map fst s))
      with (List.length (map fst (e :: s))).
    rewrite length_map, Hroom.
    assert (Hlast : last (fst e :: map fst s) EmptyString =
                    fst (last (e :: s) e)).
    { change (fst e :: map fst s) with (map fst (e :: s)).
      destruct (exists_last (l := e :: s)) as (s' & e' & Hs');
        [discriminate|].
      rewrite Hs', last_last. apply last_map_fst. }
    rewrite Hlast, Hk. reflexivity.
Qed.

Section CrashFacts.

Context {imports : Imports}.

(** The store after the interrupted [add]. *)
Lemma add_until_crash_spec message self :
  wf_store self = true ->
  let crashed := fst (add_until_crash message self) in
  wf_store crashed = true
  /\ view (_directory crashed) = view (_directory self)
  /\ _persist crashed = _persist self
  /\ _schemas crashed = _schemas self
  /\ _directory_size crashed = _directory_size self
  /\ (forall p, is_tmp (snd p) = false ->
                os.find p (_directory crashed) = os.find p (_directory self))
  /\ snd (_get_next_message_filename (_directory_size crashed)
            (_directory crashed)) =
     snd (_get_next_message_filename (_directory_size self)
            (_directory self)).
Proof.
  intros Hwf. unfold add_until_crash, bind, add_coerce.
  destruct (lookup (msg_type message) (_schemas self)) as [s|];
    [|cbn [fst]; auto 10].
  destruct (coerce s message) as [coerced|]; [|cbn [fst]; auto 10].
  unfold wf_store in Hwf.
  destruct (next_message_filename_spec (_directory_size self) _ Hwf)
    as (fs1 & d & n & before & dir & k
        & Hn & Hwf1 & Hv1 & Hi1 & Hs1 & Hk & Hlt & _ & Hfind1 & Hch).
  destruct (write_tmp_spec fs1 before d dir n k
              (dumps (with_api coerced)) Hwf1 Hs1 Hk Hlt)
    as (fs2 & f & Hw & Hwf2 & Hv2 & Hc & Htw & Hfind2 & dir' & Hs2 & Hse2).
  unfold add_write_tmp, on_directory, bind. rewrite Hn. cbn [fst snd].
  rewrite Hw. unfold ret. cbn [fst].
  unfold wf_store. cbn [_directory _persist _schemas _directory_size].
  repeat split; try assumption; try congruence.
  - intros p Hp. rewrite Hfind2 by assumption. apply Hfind1.
  - cbn [snd].
    rewrite (next_message_filename_again _ fs2 before d dir' n Hwf2 Hs2);
      [reflexivity|].
    unfold chosen in *. rewrite Hse2. exact Hch.
Qed.

(** Two well-formed stores with the same records and the same metadata
    answer alike. *)
Lemma same_records_same_answers a b :
  wf_store a = true -> wf_store b = true ->
  view (_directory a) = view (_directory b) -> _persist a = _persist b ->
  (forall max,
      snd (get_pending_messages max a) = snd (get_pending_messages max b)
      /\ view (_directory (fst (get_pending_messages max a))) =
         view (_directory (fst (get_pending_messages max b))))
  /\ snd (count_pending_messages a) = snd (count_pending_messages b)
  /\ (forall message_id,
         snd (is_pending message_id a) = snd (is_pending message_id b))
  /\ (snd (delete_old_messages a) = snd (delete_old_messages b)
      /\ view (_directory (fst (delete_old_messages a))) =
         view (_directory (fst (delete_old_messages b))))
  /\ (snd (delete_all_messages a) = snd (delete_all_messages b)
      /\ view (_directory (fst (delete_all_messages a))) =
         view (_directory (fst (delete_all_messages b)))).
Proof.
  intros Ha Hb Hv Hp.
  assert (Ho : get_pending_offset a = get_pending_offset b).
  { unfold get_pending_offset. rewrite Hp. reflexivity. }
  assert (Hacc : get_accepted_types a = get_accepted_types b).
  { unfold get_accepted_types. rewrite Hp. reflexivity. }
  split; [|split; [|split; [|split]]].
  - intros max.
    destruct (get_pending_messages_spec max a Ha) as (a' & Hga & _ & Hva & _).
    destruct (get_pending_messages_spec max b Hb) as (b' & Hgb & _ & Hvb & _).
    rewrite Hga, Hgb. cbn [fst snd]. rewrite Hva, Hvb, Hv, Ho, Hacc. auto.
  - rewrite !count_pending_messages_spec by assumption.
    cbn [snd]. rewrite Hv, Ho. reflexivity.
  - intros message_id. rewrite !is_pending_spec by assumption.
    cbn [snd]. rewrite Hv, Ho. reflexivity.
  - assert (Hcases : (0 <= get_pending_offset a <= sys.maxsize)%Z
                     \/ ((get_pending_offset a < 0)%Z
                         \/ (sys.maxsize < get_pending_offset a)%Z)) by lia.
    destruct Hcases as [Hpos|Hout].
    + destruct (delete_old_messages_spec a Ha Hpos)
        as (a' & Hda & _ & Hva & _).
      assert (Hpos' : (0 <= get_pending_offset b <= sys.maxsize)%Z)
        by (rewrite <- Ho; exact Hpos).
      destruct (delete_old_messages_spec b Hb Hpos')
        as (b' & Hdb & _ & Hvb & _).
      rewrite Hda, Hdb. cbn [fst snd]. rewrite Hva, Hvb, Hv, Ho. auto.
    + rewrite (delete_old_messages_raises a Hout).
      rewrite Ho in Hout. rewrite (delete_old_messages_raises b Hout). auto.
  - destruct (delete_all_messages_spec a Ha) as (a' & Hda & _ & Hva & _).
    destruct (delete_all_messages_spec b Hb) as (b' & Hdb & _ & Hvb & _).
    rewrite Hda, Hdb. cbn [fst snd]. rewrite Hva, Hvb. auto.
Qed.

End CrashFacts.



(** ** Records that do not decode *)

Lemma deliveries_in {imports : Imports} accepted recs message :
  In message (deliveries accepted recs) ->
  exists r, In r recs /\ loads (content (snd r)) = Some message.
Proof.
  induction recs as [|r recs IH]; simpl; [tauto|].
  unfold deliverable at 1.
  destruct (loads (content (snd r))) as [m|] eqn:E.
  - destruct (Py.mem (msg_type m) accepted).
    + intros [<-|H]; [exists r; auto|].
      destruct (IH H) as (r' & H1 & H2). exists r'. auto.
    + intros H. destruct (IH H) as (r' & H1 & H2). exists r'. auto.
  - intros H. destruct (IH H) as (r' & H1 & H2). exists r'. auto.
Qed.

Lemma up_to_in {imports : Imports} max messages message :
  In message (up_to max messages) -> In message messages.
Proof.
  destruct max as [m|]; simpl; [|tauto]. apply in_firstn.
Qed.

(** The store with one record that does not decode: [_reprocess_holding]
    returns and the record has the name it had, without the BROKEN flag. *)
Lemma reprocess_holding_broken_counterexample :
  exists r,
    view (_directory Example.one_corrupt) = [r]
    /\ loads (Imports := Example.toy_imports) (content (snd r)) = None
    /\ _reprocess_holding (imports := Example.toy_imports)
         Example.one_corrupt = (Example.one_corrupt, inr tt)
    /\ Py.contains BROKEN (_get_flags (fst r)) = false.
Proof. eexists. vm_compute. repeat split. Qed.

(** C7, amended: a record whose content does not decode makes neither
    [get_pending_messages] nor [is_pending] raise.  [get_pending_messages]
    returns the decoded messages of pending records only, keeps every file,
    and renames each pending record that does not decode and that it
    reaches before the bound to the same name with the BROKEN flag.
    [_reprocess_holding] returns as well, and leaves every record that does
    not decode where it is, under the name it has: it does not flag it, and
    its running offset goes up by one on such a record exactly when the
    record is not HELD. *)
Theorem decode_failures_contained {imports : Imports}
    (self : MessageStore) (max : option Z) (message_id : N) :
  wf_store self = true ->
  let records := view (_directory self) in
  let accepted := get_accepted_types self in
  let todo := pending (get_pending_offset self) records in
  (exists self' returned,
      get_pending_messages max self = (self', inr returned)
      /\ returned = up_to max (deliveries accepted todo)
      /\ (forall message, In message returned ->
            exists r, In r todo /\ loads (content (snd r)) = Some message)
      /\ Forall2 (reclassified accepted todo) records
           (view (_directory self'))
      /\ forall l1 t l2,
           todo = l1 ++ t :: l2 ->
           reached max (deliveries accepted l1) = false ->
           loads (content (snd t)) = None ->
           In (add_flags_path (fst t) BROKEN, snd t)
              (view (_directory self'))
           /\ _get_flags (add_flags_path (fst t) BROKEN) = flag BROKEN)
  /\ (exists answer, is_pending message_id self = (self, inr answer))
  /\ (exists self',
        _reprocess_holding self = (self', inr tt)
        /\ wf_store self' = true
        /\ _persist self' = _persist self
        /\ forall p f,
             In (p, f) records -> loads (content f) = None ->
             In (p, f) (view (_directory self'))
             /\ forall offset,
                  reprocess_body (_directory_size self)
                    (get_pending_offset self) accepted p offset
                    (_directory self) =
                  (_directory self,
                   inr (if Py.contains HELD (_get_flags p) then offset
                        else (offset + 1)%Z, false))).
Proof.
  intros Hwf records accepted todo.
  assert (Htodo : forall t, In t todo ->
            unflagged (fst t) = true /\ record_name (snd (fst t)) = true).
  { intros [[d n] f] Ht. apply pending_in in Ht. destruct Ht as [Hin Hu].
    split; [assumption|]. apply (view_record_name _ _ _ _ Hwf Hin). }
  split; [|split].
  - destruct (get_pending_messages_spec max self Hwf)
      as (self' & Hg & _ & Hv & _).
    rewrite scan_messages in Hg. cbn [app List.length] in Hg.
    fold records accepted todo in Hg, Hv.
    replace (match max with
             | Some m =>
                 firstn (Z.to_nat m - 0) (deliveries accepted todo)
             | None => deliveries accepted todo
             end) with (up_to max (deliveries accepted todo)) in Hg
      by (destruct max; cbn [up_to]; rewrite ?Nat.sub_0_r; reflexivity).
    exists self', (up_to max (deliveries accepted todo)).
    split; [exact Hg|]. split; [reflexivity|]. split; [|split].
    + intros message Hm. apply up_to_in in Hm.
      apply (deliveries_in accepted). assumption.
    + rewrite Hv. apply scan_records. assumption.
    + intros l1 t l2 Hsplit Hreach Hl.
      assert (Ht : In t todo).
      { rewrite Hsplit. apply in_or_app. right. left. reflexivity. }
      split.
      * rewrite Hv, Hsplit. apply scan_flags_broken; try assumption.
        -- rewrite <- Hsplit. assumption.
        -- rewrite <- Hsplit. apply pending_nodup. assumption.
        -- apply pending_in in Ht. tauto.
      * destruct (Htodo t Ht) as [Hu Hn]. destruct t as [[d n] f].
        apply (add_flags_path_facts d n BROKEN Hn Hu). auto.
  - rewrite (is_pending_spec message_id self Hwf). eexists. reflexivity.
  - destruct (reprocess_holding_undecodable self Hwf)
      as (fs' & Hr & Hwf' & Hkeep).
    eexists. split; [exact Hr|]. split; [exact Hwf'|].
    split; [reflexivity|].
    intros p f Hin Hl. split; [apply Hkeep; assumption|].
    intros offset.
    destruct (reprocess_body_record (_directory_size self)
                (get_pending_offset self) accepted (_directory self) p f
                offset Hwf Hin) as (fs1 & offset1 & Hb & _ & _ & Hcase).
    rewrite Hl in Hcase. destruct Hcase as [-> ->]. exact Hb.
Qed.

Lemma decode_failures_contained_witness :
  wf_store Example.one_corrupt = true
  /\ exists answer,
       is_pending 1%N Example.one_corrupt =
       (Example.one_corrupt, inr answer).
Proof.
  split; [reflexivity|].
  exact (proj1 (proj2 (decode_failures_contained
                         (imports := Example.toy_imports)
                         Example.one_corrupt None 1%N eq_refl))).
Defined.

(** ** The invariant of the pending offset *)

Lemma old_records_length offset v :
  (0 <= offset <= Z.of_nat (List.length (unflagged_records v)))%Z ->
  List.length (old_records offset v) = Z.to_nat offset.
Proof. intros H. unfold old_records. rewrite length_firstn. lia. Qed.

Lemma pending_length offset v :
  List.length (pending offset v) =
  (List.length (unflagged_records v) - Z.to_nat offset)%nat.
Proof. unfold pending. apply length_skipn. Qed.

Section OffsetInvariant.

Context {imports : Imports}.

Lemma add_offset_invariant message self :
  wf_store self = true -> offset_invariant self ->
  offset_invariant (fst (add message self)).
Proof.
  intros Hwf [H0 HU]. pose proof (add_spec message self Hwf) as H.
  destruct (lookup (msg_type message) (_schemas self)) as [s|];
    [|rewrite H; split; assumption].
  destruct (coerce s message) as [coerced|];
    [|rewrite H; split; assumption].
  destruct H as (self' & p & f & -> & _ & _ & Hv & _ & Hp & _).
  cbn [fst]. unfold offset_invariant, count_unflagged, get_pending_offset in *.
  rewrite Hp, Hv. unfold unflagged_records in *.
  rewrite filter_app, length_app. lia.
Qed.

Lemma get_pending_offset_invariant max self :
  wf_store self = true -> offset_invariant self ->
  offset_invariant (fst (get_pending_messages max self)).
Proof.
  intros Hwf [H0 HU].
  destruct (get_pending_messages_spec max self Hwf)
    as (self' & -> & _ & Hv & _ & Hp & _).
  cbn [fst]. unfold offset_invariant, count_unflagged in *.
  assert (Ho : get_pending_offset self' = get_pending_offset self).
  { unfold get_pending_offset. rewrite Hp. reflexivity. }
  rewrite Ho. split; [assumption|].
  set (v := view (_directory self)) in *.
  set (po := get_pending_offset self) in *.
  assert (Hnd : NoDup (map fst v)) by (apply view_nodup; exact Hwf).
  assert (Htodo : forall t, In t (pending po v) ->
            unflagged (fst t) = true /\ record_name (snd (fst t)) = true).
  { intros [[d n] f] Ht. apply pending_in in Ht. destruct Ht as [Hin Hu].
    split; [assumption|]. apply (view_record_name _ _ _ _ Hwf Hin). }
  pose proof (scan_records max (get_accepted_types self) (pending po v) [] v
                Htodo) as HF.
  rewrite <- Hv in HF.
  pose proof (Forall2_count _
                (fun r => path_in (fst r) (old_records po v))
                (fun r => unflagged (fst r)) _ _ HF) as Hc.
  assert (Hlen : List.length
                   (filter (fun r => path_in (fst r) (old_records po v)) v)
                 = Z.to_nat po).
  { rewrite <- (old_records_length po v) by (split; assumption).
    f_equal. unfold old_records, unflagged_records.
    apply filter_path_in_firstn. assumption. }
  rewrite Hlen in Hc.
  unfold unflagged_records at 1.
  enough (Z.to_nat po <=
          List.length (filter (fun r => unflagged (fst r))
                         (view (_directory self'))))%nat by lia.
  apply Hc. intros x x' (Hs & Hx) Hq.
  apply path_in_true in Hq. apply in_map_iff in Hq.
  destruct Hq as (r & Er & Hr).
  destruct Hx as [Hx|(t & Ht & Et & _)].
  - rewrite Hx, <- Er. apply old_records_in in Hr. tauto.
  - exfalso. pose proof (pending_in _ _ _ Ht) as [Htv _].
    pose proof (not_old po v t Hnd Htv (or_intror Ht)) as Hno.
    assert (Hyes : path_in (fst t) (old_records po v) = true).
    { unfold path_in. apply existsb_exists. exists r.
      split; [assumption|]. apply path_eqb_eq. congruence. }
    congruence.
Qed.

Lemma delete_all_offset_invariant self :
  wf_store self = true -> offset_invariant (fst (delete_all_messages self)).
Proof.
  intros Hwf.
  destruct (delete_all_messages_spec self Hwf)
    as (self' & -> & _ & Hv & _ & Hp & _).
  cbn [fst]. unfold offset_invariant, count_unflagged, get_pending_offset.
  rewrite Hp, Hv. cbn. lia.
Qed.

Lemma delete_old_offset self :
  wf_store self = true -> offset_invariant self ->
  get_pending_offset (fst (delete_old_messages self)) =
  get_pending_offset self
  /\ ((get_pending_offset self <= sys.maxsize)%Z ->
      count_unflagged (fst (delete_old_messages self)) =
      (count_unflagged self - get_pending_offset self)%Z)
  /\ ((sys.maxsize < get_pending_offset self)%Z ->
      delete_old_messages self = (self, inl ValueError)).
Proof.
  intros Hwf [H0 HU].
  split; [|split].
  - destruct (Z.leb_spec (get_pending_offset self) sys.maxsize) as [Hm|Hm].
    + destruct (delete_old_messages_spec self Hwf (conj H0 Hm))
        as (self' & -> & _ & _ & _ & Hp & _).
      cbn [fst]. unfold get_pending_offset. rewrite Hp. reflexivity.
    + rewrite delete_old_messages_raises by (right; exact Hm). reflexivity.
  - intros Hm.
    destruct (delete_old_messages_spec self Hwf (conj H0 Hm))
      as (self' & -> & _ & Hv & _ & Hp & _).
    cbn [fst]. unfold count_unflagged in *.
    rewrite Hv, unflagged_without_old by (apply view_nodup; exact Hwf).
    rewrite pending_length. lia.
  - intros Hm. apply delete_old_messages_raises. right. exact Hm.
Qed.

Lemma set_accepted_types_offset_invariant types self :
  wf_store self = true -> offset_invariant self ->
  none_broken (view (_directory self)) ->
  offset_invariant (fst (set_accepted_types types self)).
Proof.
  intros Hwf Hinv Hnb. unfold set_accepted_types.
  match goal with
  | |- context [_reprocess_holding ?s] => set (self2 := s)
  end.
  destruct (reprocess_holding_offset self2 Hwf Hinv Hnb)
    as (fs' & -> & _ & _ & HU).
  destruct Hinv as [H0 _]. split; [exact H0|exact HU].
Qed.

End OffsetInvariant.

(** With one record, sent already, [delete_old_messages] leaves no record
    and the pending offset at 1; with a BROKEN record before a sent one,
    [set_accepted_types] counts the BROKEN record in its running offset and
    flags the sent record HELD, leaving no unflagged record and the pending
    offset at 1. *)
Lemma offset_invariant_counterexample :
  (wf_store Example.one_sent = true
   /\ offset_invariant Example.one_sent
   /\ ~ offset_invariant (fst (delete_old_messages Example.one_sent)))
  /\ (wf_store Example.broken_then_sent = true
      /\ offset_invariant Example.broken_then_sent
      /\ ~ offset_invariant
             (fst (set_accepted_types (imports := Example.toy_imports) []
                     Example.broken_then_sent))).
Proof.
  split; (split; [reflexivity|]); unfold offset_invariant.
  - assert (E : get_pending_offset
                  (fst (delete_old_messages Example.one_sent)) = 1%Z
                /\ count_unflagged
                     (fst (delete_old_messages Example.one_sent)) = 0%Z)
      by (vm_compute; auto).
    destruct E as [-> ->].
    change (get_pending_offset Example.one_sent) with 1%Z.
    change (count_unflagged Example.one_sent) with 1%Z. lia.
  - assert (E : get_pending_offset
                  (fst (set_accepted_types (imports := Example.toy_imports)
                          [] Example.broken_then_sent)) = 1%Z
                /\ count_unflagged
                     (fst (set_accepted_types
                             (imports := Example.toy_imports)
                             [] Example.broken_then_sent)) = 0%Z)
      by (vm_compute; auto).
    destruct E as [-> ->].
    change (get_pending_offset Example.broken_then_sent) with 1%Z.
    change (count_unflagged Example.broken_then_sent) with 1%Z. lia.
Qed.

(** C4, amended: on a well-formed store where
    [0 <= pending_offset <= number of unflagged records], [add],
    [get_pending_messages], [count_pending_messages], [is_pending] and
    [delete_all_messages] leave a store where it holds again, and so does
    [set_accepted_types], with its [_reprocess_holding], when no record
    carries the BROKEN flag.  [delete_old_messages] leaves the pending
    offset as it is and, the pending offset being one [islice] accepts,
    [pending_offset] unflagged records fewer: the invariant holds after it
    exactly when twice the pending offset is at most the number of
    unflagged records there were.  Above [sys.maxsize] the call raises
    [ValueError] and the store is as it was. *)
Theorem offset_invariant_operations {imports : Imports}
    (self : MessageStore) (message : Message) (max : option Z)
    (message_id : N) (types : list string) :
  wf_store self = true -> offset_invariant self ->
  offset_invariant (fst (add message self))
  /\ offset_invariant (fst (get_pending_messages max self))
  /\ offset_invariant (fst (count_pending_messages self))
  /\ offset_invariant (fst (is_pending message_id self))
  /\ offset_invariant (fst (delete_all_messages self))
  /\ (none_broken (view (_directory self)) ->
      offset_invariant (fst (set_accepted_types types self)))
  /\ get_pending_offset (fst (delete_old_messages self)) =
     get_pending_offset self
  /\ ((get_pending_offset self <= sys.maxsize)%Z ->
      count_unflagged (fst (delete_old_messages self)) =
      (count_unflagged self - get_pending_offset self)%Z
      /\ (offset_invariant (fst (delete_old_messages self)) <->
          (2 * get_pending_offset self <= count_unflagged self)%Z))
  /\ ((sys.maxsize < get_pending_offset self)%Z ->
      delete_old_messages self = (self, inl ValueError)).
Proof.
  intros Hwf Hinv.
  split; [apply add_offset_invariant; assumption|].
  split; [apply get_pending_offset_invariant; assumption|].
  split; [rewrite count_pending_messages_spec by assumption; exact Hinv|].
  split; [rewrite is_pending_spec by assumption; exact Hinv|].
  split; [apply delete_all_offset_invariant; assumption|].
  split; [apply set_accepted_types_offset_invariant; assumption|].
  destruct (delete_old_offset self Hwf Hinv) as (Ho & Hc & Hr).
  split; [exact Ho|]. split; [|exact Hr].
  intros Hm. specialize (Hc Hm). split; [exact Hc|].
  unfold offset_invariant in *. rewrite Ho, Hc. lia.
Qed.

Lemma offset_invariant_operations_witness :
  wf_store Example.three_records = true
  /\ offset_invariant Example.three_records
  /\ offset_invariant
       (fst (get_pending_messages (imports := Example.toy_imports) None
               Example.three_records)).
Proof.
  assert (H : offset_invariant Example.three_records).
  { unfold offset_invariant.
    change (get_pending_offset Example.three_records) with 1%Z.
    change (count_unflagged Example.three_records) with 3%Z. lia. }
  split; [reflexivity|]. split; [exact H|].
  exact (proj1 (proj2 (offset_invariant_operations
                         (imports := Example.toy_imports)
                         Example.three_records (mkmsg "a" None []) None 1%N
                         [] eq_refl H))).
Defined.

(** ** The accepted types *)

Lemma compare_lt_trans x y z :
  String.compare x y = Lt -> String.compare y z = Lt ->
  String.compare x z = Lt.
Proof.
  intros H1 H2. apply OrderedTypeEx.String_as_OT.cmp_lt.
  apply OrderedTypeEx.String_as_OT.cmp_lt in H1, H2.
  exact (OrderedTypeEx.String_as_OT.lt_trans _ _ _ H1 H2).
Qed.

Lemma compare_gt_lt x y :
  String.compare x y = Gt -> String.compare y x = Lt.
Proof.
  intros H. rewrite String.compare_antisym, H. reflexivity.
Qed.

Lemma compare_neq x y : String.compare x y <> Eq -> String.eqb x y = false.
Proof.
  intros H. apply String.eqb_neq. intros ->. apply H.
  apply OrderedTypeEx.String_as_OT.cmp_eq. reflexivity.
Qed.

Lemma mem_insert_str t x l :
  Py.mem t (Py.insert_str x l) = String.eqb t x || Py.mem t l.
Proof.
  unfold Py.mem. induction l as [|y l IH]; [reflexivity|].
  cbn [Py.insert_str]. destruct (String.compare x y) eqn:E.
  - apply String.compare_eq_iff in E. subst y. cbn [existsb].
    destruct (String.eqb t x); reflexivity.
  - reflexivity.
  - cbn [existsb]. rewrite IH.
    destruct (String.eqb t x), (String.eqb t y); reflexivity.
Qed.

Lemma mem_sorted_set_str t l : Py.mem t (Py.sorted_set_str l) = Py.mem t l.
Proof.
  induction l as [|x l IH]; [reflexivity|].
  cbn [Py.sorted_set_str]. rewrite mem_insert_str, IH. reflexivity.
Qed.

Lemma insert_str_sorted x l :
  StronglySorted (fun a b => String.compare a b = Lt) l ->
  StronglySorted (fun a b => String.compare a b = Lt) (Py.insert_str x l).
Proof.
  induction l as [|y l IH]; intros Hs; cbn [Py.insert_str].
  - repeat constructor.
  - inversion Hs as [|? ? Hl Hy]; subst.
    destruct (String.compare x y) eqn:E; [assumption| |].
    + constructor; [assumption|]. constructor; [assumption|].
      eapply Forall_impl; [|exact Hy]. intros z Hz.
      exact (compare_lt_trans _ _ _ E Hz).
    + constructor; [apply IH; assumption|].
      apply Forall_forall. intros z Hz.
      assert (Hm : Py.mem z (Py.insert_str x l) = true) by (apply mem_In, Hz).
      rewrite mem_insert_str in Hm. apply orb_true_iff in Hm.
      destruct Hm as [Hm|Hm].
      * apply String.eqb_eq in Hm. subst z. apply compare_gt_lt. assumption.
      * apply mem_In in Hm. rewrite Forall_forall in Hy. auto.
Qed.

Lemma sorted_set_str_sorted l :
  StronglySorted (fun a b => String.compare a b = Lt) (Py.sorted_set_str l).
Proof.
  induction l as [|x l IH]; [constructor|]. apply insert_str_sorted, IH.
Qed.

Lemma on_directory_persist {A : Type} (c : M filesystem A) self :
  _persist (fst (on_directory c self)) = _persist self
  /\ _schemas (fst (on_directory c self)) = _schemas self
  /\ _directory_size (fst (on_directory c self)) = _directory_size self.
Proof.
  unfold on_directory. destruct (c (_directory self)). auto.
Qed.

(** [set_accepted_types] stores [sorted(set(types))]: afterwards [accepts]
    answers membership in [types], whatever the order and the repetitions
    of [types] and whatever the walk over the records did, and
    [get_accepted_types] is strictly increasing.  The other metadata keep
    their values. *)
Theorem set_accepted_types_accepts {imports : Imports}
    (types : list string) (self : MessageStore) :
  let self' := fst (set_accepted_types types self) in
  get_accepted_types self' = Py.sorted_set_str types
  /\ (forall type, accepts self' type = true <-> In type types)
  /\ StronglySorted (fun a b => String.compare a b = Lt)
       (get_accepted_types self')
  /\ get_sequence self' = get_sequence self
  /\ get_server_sequence self' = get_server_sequence self
  /\ get_server_uuid self' = get_server_uuid self
  /\ get_exchange_token self' = get_exchange_token self
  /\ get_pending_offset self' = get_pending_offset self.
Proof.
  intros self'.
  assert (Hp : _persist self' =
               mkpersist (Some (Py.sorted_set_str types))
                 (sequence_key (_persist self))
                 (server_sequence_key (_persist self))
                 (server_uuid_key (_persist self))
                 (exchange_token_key (_persist self))
                 (pending_offset_key (_persist self))).
  { unfold self', set_accepted_types, _reprocess_holding.
    match goal with
    | |- context [on_directory ?c ?s] =>
        rewrite (proj1 (on_directory_persist c s))
    end.
    reflexivity. }
  assert (Hg : get_accepted_types self' = Py.sorted_set_str types).
  { unfold get_accepted_types. rewrite Hp. reflexivity. }
  split; [exact Hg|]. split; [|split].
  - intros type. unfold accepts. rewrite Hg, mem_sorted_set_str.
    apply mem_In.
  - rewrite Hg. apply sorted_set_str_sorted.
  - unfold get_sequence, get_server_sequence, get_server_uuid,
      get_exchange_token, get_pending_offset.
    rewrite Hp. cbn. auto.
Qed.

(** ** Schemas and metadata *)

(** [add_schema] registers the schema under its type, in place of the one
    that was registered for that type if any, and leaves the schemas of
    the other types, the metadata and the files alone.  [add] then goes by
    the new schema: a message of that type that it rejects raises
    [InvalidError] and leaves the store as it is, and on a well-formed
    store one that it coerces is stored as it coerced it. *)
Theorem add_schema_overrides {imports : Imports}
    (s : schema) (self : MessageStore) (message : Message) :
  let self' := add_schema s self in
  lookup (schema_type s) (_schemas self') = Some s
  /\ (forall type, type <> schema_type s ->
        lookup type (_schemas self') = lookup type (_schemas self))
  /\ _directory self' = _directory self
  /\ _persist self' = _persist self
  /\ (msg_type message = schema_type s -> coerce s message = None ->
      add message self' = (self', inl InvalidError))
  /\ (msg_type message = schema_type s -> wf_store self = true ->
      forall coerced, coerce s message = Some coerced ->
      exists self'' f,
        add message self' = (self'', inr (st_ino f))
        /\ content f = dumps (with_api coerced)
        /\ In f (map snd (view (_directory self'')))).
Proof.
  intros self'.
  assert (Hl : lookup (schema_type s) (_schemas self') = Some s).
  { unfold self', add_schema. cbn [_schemas].
    destruct (lookup (schema_type s) (_schemas self)) as [s0|] eqn:E.
    - apply (lookup_replace_val_same _ s0). assumption.
    - rewrite lookup_app_notin by (apply lookup_none; assumption).
      simpl. rewrite String.eqb_refl. reflexivity. }
  split; [exact Hl|]. split; [|split; [reflexivity|split; [reflexivity|]]].
  - intros type Hne. unfold self', add_schema. cbn [_schemas].
    destruct (lookup (schema_type s) (_schemas self)).
    + apply lookup_replace_val_other. assumption.
    + apply lookup_app_new. assumption.
  - split.
    + intros Ht Hc. unfold add, bind, add_coerce. rewrite Ht, Hl, Hc.
      reflexivity.
    + intros Ht Hwf coerced Hc.
      assert (Hwf' : wf_store self' = true) by exact Hwf.
      pose proof (add_spec message self' Hwf') as H.
      rewrite Ht, Hl, Hc in H.
      destruct H as (self'' & p & f & Ha & Hcont & _ & Hv & _).
      exists self'', f. split; [exact Ha|]. split; [exact Hcont|].
      rewrite Hv, map_app. apply in_or_app. right. left. reflexivity.
Qed.

(** ** Flags *)

Lemma insert_char_nonempty c s : Py.insert_char c s <> EmptyString.
Proof.
  destruct s as [|c' s]; cbn [Py.insert_char]; [discriminate|].
  destruct (Ascii.eqb c c'); [discriminate|].
  destruct (N_of_ascii c <? N_of_ascii c')%N; discriminate.
Qed.

(** The flags the store writes, in any order and number. *)
Lemma store_flags_canonical F :
  (forall c, Py.contains c F = true -> c = HELD \/ c = BROKEN) ->
  F = EmptyString \/ canonical_flags (Py.sorted_set F) = true.
Proof.
  induction F as [|c F IH]; intros H; [left; reflexivity|]. right.
  assert (Hc : c = HELD \/ c = BROKEN).
  { apply H. cbn [Py.contains]. rewrite Ascii.eqb_refl. reflexivity. }
  assert (HF : forall c', Py.contains c' F = true ->
                          c' = HELD \/ c' = BROKEN).
  { intros c' Hc'. apply H. cbn [Py.contains]. rewrite Hc'.
    apply orb_true_r. }
  cbn [Py.sorted_set]. destruct (IH HF) as [->|Hcan].
  - destruct Hc as [->| ->]; reflexivity.
  - apply canonical_flags_inv in Hcan.
    destruct Hcan as [->|[->| ->]]; destruct Hc as [->| ->]; reflexivity.
Qed.

Lemma flags_of_record_name n d :
  record_name n = true ->
  (n = nth 0 (Py.split "_" n) EmptyString /\ _get_flags (d, n) = EmptyString)
  \/ (n = (nth 0 (Py.split "_" n) EmptyString ++ "_" ++ _get_flags (d, n))%string
      /\ canonical_flags (_get_flags (d, n)) = true).
Proof.
  intros Hn. apply record_name_inv in Hn.
  destruct Hn as (b & k & Hb & [->|(f & Hf & ->)]).
  - destruct (plain_name_facts _ _ Hb) as (Hs & _ & Hc). left.
    unfold _get_flags. cbn [snd]. rewrite Hs, Hc. auto.
  - destruct (flagged_name_facts _ _ _ Hb Hf) as (Hs & _ & Hc). right.
    unfold _get_flags. cbn [snd]. rewrite Hs, Hc. auto.
Qed.

(** Flags that are those of the name already give the same name. *)
Lemma set_flags_name_same n d F :
  record_name n = true ->
  Py.sorted_set F = _get_flags (d, n) ->
  set_flags_name n F = n.
Proof.
  intros Hn HF. unfold set_flags_name.
  destruct (flags_of_record_name n d Hn) as [[H1 H2]|[H1 H2]].
  - destruct F as [|c F]; [symmetry; exact H1|].
    rewrite H2 in HF. cbn [Py.sorted_set] in HF.
    exfalso. exact (insert_char_nonempty _ _ HF).
  - destruct F as [|c F].
    + cbn [Py.sorted_set] in HF. rewrite <- HF in H2. discriminate.
    + rewrite HF. symmetry. exact H1.
Qed.

(** [_set_flags] with the flags the record has renames it to itself. *)
Lemma set_flags_same (fs : filesystem) (d n : string) (f : file)
    (flags : string) :
  wf_fs fs = true -> In ((d, n), f) (view fs) ->
  Py.sorted_set flags = _get_flags (d, n) ->
  _set_flags (d, n) flags fs = (fs, inr (d, n)).
Proof.
  intros Hwf Hin Hsame.
  pose proof (view_record_name _ _ _ _ Hwf Hin) as Hn.
  pose proof (set_flags_name_same n d flags Hn Hsame) as Hnm.
  unfold set_flags_name in Hnm. unfold _set_flags.
  apply view_in in Hin; [|assumption].
  destruct Hin as (dir & Hl & _ & Hl' & _).
  destruct flags as [|c fl]; cbn zeta; rewrite Hnm;
    unfold bind, os.rename; cbn [fst snd];
    rewrite Hl, Hl', path_eqb_refl; reflexivity.
Qed.

(** [_set_flags] on a record with flags among HELD and BROKEN, in any order
    and number: the record gets the flags, sorted and once each, which
    [_get_flags] reads back from the path returned; it keeps its file, its
    number and its place in the enumeration, and the other records are not
    touched.  With the flags the record has, nothing changes. *)
Theorem set_flags_round_trip (fs : filesystem) (d n : string) (f : file)
    (flags : string) :
  wf_fs fs = true -> In ((d, n), f) (view fs) ->
  (forall c, Py.contains c flags = true -> c = HELD \/ c = BROKEN) ->
  exists fs' p',
    _set_flags (d, n) flags fs = (fs', inr p')
    /\ _get_flags p' = Py.sorted_set flags
    /\ fst p' = d
    /\ key_of (snd p') = key_of n
    /\ os.find p' fs' = Some f
    /\ view fs' = map (rename_record (d, n) p') (view fs)
    /\ wf_fs fs' = true
    /\ (Py.sorted_set flags = _get_flags (d, n) -> fs' = fs /\ p' = (d, n)).
Proof.
  intros Hwf Hin Hflags.
  pose proof (store_flags_canonical flags Hflags) as HF.
  pose proof (view_record_name _ _ _ _ Hwf Hin) as Hn.
  destruct (set_flags_record fs d n f flags Hwf Hin HF)
    as (fs' & Hr & Hwf' & Hv & _).
  destruct (set_flags_name_facts n flags d Hn HF) as (_ & Hk & Hg).
  exists fs', (d, set_flags_name n flags).
  split; [exact Hr|]. split; [|split; [reflexivity|split; [exact Hk|]]].
  { rewrite Hg. destruct flags; reflexivity. }
  split; [|split; [exact Hv|split; [exact Hwf'|]]].
  - apply (view_find _ _ _ Hwf'). rewrite Hv.
    apply in_map_iff. exists ((d, n), f). split; [|assumption].
    unfold rename_record. cbn [fst snd]. rewrite path_eqb_refl. reflexivity.
  - intros Hsame.
    rewrite (set_flags_same fs d n f flags Hwf Hin Hsame) in Hr.
    injection Hr as <- <-. split; reflexivity.
Qed.

Lemma set_flags_round_trip_witness :
  exists fs' p',
    _set_flags ("0", "1")%string "hbh"
      (_directory Example.three_records) = (fs', inr p')
    /\ _get_flags p' = "bh"%string.
Proof.
  destruct (set_flags_round_trip (_directory Example.three_records)
              "0" "1" (mkfile 2 "b") "hbh" eq_refl)
    as (fs' & p' & H1 & H2 & _).
  - simpl. auto.
  - intros c Hc. cbn [Py.contains] in Hc.
    destruct (Ascii.eqb "h" c) eqn:E1.
    + apply Ascii.eqb_eq in E1. left. symmetry. exact E1.
    + destruct (Ascii.eqb "b" c) eqn:E2; [|discriminate].
      apply Ascii.eqb_eq in E2. right. symmetry. exact E2.
  - exists fs', p'. split; [exact H1|exact H2].
Defined.

(** [_add_flags] with HELD or BROKEN on a record: the record has the flag
    afterwards and the flags it had, and no other; it keeps its file.  A
    record that has the flag already is left as it is. *)
Theorem add_flags_adds (fs : filesystem) (p : path) (f : file) (c : ascii) :
  wf_fs fs = true -> In (p, f) (view fs) -> c = HELD \/ c = BROKEN ->
  exists fs' p',
    _add_flags p (flag c) fs = (fs', inr tt)
    /\ In (p', f) (view fs')
    /\ (forall c', Py.contains c' (_get_flags p') =
                   Py.contains c' (_get_flags p) || Ascii.eqb c c')
    /\ List.length (view fs') = List.length (view fs)
    /\ wf_fs fs' = true
    /\ (Py.contains c (_get_flags p) = true -> fs' = fs /\ p' = p).
Proof.
  destruct p as [d n]. intros Hwf Hin Hc.
  pose proof (view_record_name _ _ _ _ Hwf Hin) as Hn.
  pose proof (record_name_flags n d Hn) as Hfl.
  assert (Hflags : forall c', Py.contains c' (_get_flags (d, n) ++ flag c)
                              = true -> c' = HELD \/ c' = BROKEN).
  { intros c' Hc'.
    destruct Hfl as [E|[E|[E|E]]]; rewrite E in Hc';
      destruct Hc as [->| ->]; cbn [append flag Py.contains] in Hc';
      repeat (apply orb_true_iff in Hc'; destruct Hc' as [Hc'|Hc']);
      try discriminate; apply Ascii.eqb_eq in Hc'; subst c'; auto. }
  pose proof (store_flags_canonical _ Hflags) as HF.
  destruct (set_flags_record fs d n f _ Hwf Hin HF)
    as (fs' & Hr & Hwf' & Hv & _).
  destruct (set_flags_name_facts n (_get_flags (d, n) ++ flag c) d Hn HF)
    as (_ & _ & Hg0).
  set (p' := (d, set_flags_name n (_get_flags (d, n) ++ flag c))) in *.
  assert (Hg : _get_flags p' =
               Py.sorted_set (_get_flags (d, n) ++ flag c)).
  { rewrite Hg0. destruct (_get_flags (d, n) ++ flag c)%string; reflexivity. }
  assert (Hsame : Py.sorted_set (_get_flags (d, n) ++ flag c) =
                  _get_flags (d, n) -> fs' = fs /\ p' = (d, n)).
  { intros Hs.
    rewrite (set_flags_same fs d n f _ Hwf Hin Hs) in Hr.
    injection Hr as <- Hp. split; [reflexivity|].
    unfold p'. rewrite <- Hp. reflexivity. }
  exists fs', p'. split; [unfold _add_flags, bind; rewrite Hr; reflexivity|].
  split; [|split; [|split; [|split; [exact Hwf'|]]]].
  - rewrite Hv. apply in_map_iff. exists ((d, n), f). split; [|assumption].
    unfold rename_record. cbn [fst snd]. rewrite path_eqb_refl. reflexivity.
  - intros c'. rewrite Hg.
    destruct Hfl as [E|[E|[E|E]]]; rewrite E;
      destruct Hc as [->| ->];
      match goal with
      | |- context [Py.sorted_set ?s] =>
          let v := eval vm_compute in (Py.sorted_set s) in
          change (Py.sorted_set s) with v
      end;
      unfold HELD, BROKEN; cbn [Py.contains];
      destruct (Ascii.eqb "b" c'), (Ascii.eqb "h" c'); reflexivity.
  - rewrite Hv. apply length_map.
  - intros Hhas. apply Hsame.
    destruct Hfl as [E|[E|[E|E]]]; rewrite E in *;
      destruct Hc as [->| ->]; try discriminate; reflexivity.
Qed.

Lemma add_flags_adds_witness :
  exists fs' p',
    _add_flags ("0", "1")%string (flag HELD)
      (_directory Example.three_records) = (fs', inr tt)
    /\ Py.contains HELD (_get_flags p') = true.
Proof.
  destruct (add_flags_adds (_directory Example.three_records)
              ("0", "1")%string (mkfile 2 "b") HELD eq_refl)
    as (fs' & p' & H1 & _ & H2 & _).
  - simpl. auto.
  - left. reflexivity.
  - exists fs', p'. split; [exact H1|]. rewrite H2. apply orb_true_r.
Defined.

(** ** The listing of a directory *)

Lemma insert_by_permutation {X : Type} (key : X -> N) x l :
  Permutation.Permutation (Py.insert_by key x l) (x :: l).
Proof.
  induction l as [|y l IH]; cbn [Py.insert_by]; [apply Permutation.Permutation_refl|].
  destruct (key x <=? key y)%N; [apply Permutation.Permutation_refl|].
  eapply Permutation.perm_trans; [apply Permutation.perm_skip, IH|].
  apply Permutation.perm_swap.
Qed.

Lemma sort_by_permutation {X : Type} (key : X -> N) l :
  Permutation.Permutation (Py.sort_by key l) l.
Proof.
  induction l as [|x l IH]; cbn [Py.sort_by]; [constructor|].
  eapply Permutation.perm_trans; [apply insert_by_permutation|].
  apply Permutation.perm_skip, IH.
Qed.

Lemma keys_of_none (l : list string) x :
  In x l -> sort_key x = None -> Py.keys_of sort_key l = None.
Proof.
  induction l as [|y l IH]; intros Hin Hx; [contradiction|].
  cbn [Py.keys_of]. destruct Hin as [->|Hin].
  - rewrite Hx. reflexivity.
  - rewrite (IH Hin Hx). destruct (sort_key y); reflexivity.
Qed.

(** [_get_sorted_filenames] leaves the tree as it is.  Where [os.listdir]
    raises it raises the same.  Where every listed name that does not end
    in [.tmp] has a number, a run of decimal digits, before its first
    underscore, it returns these names, each as often as it is listed, by
    increasing number.  Where one of them has nothing before its first
    underscore, [int] is called on the empty string and the call raises
    [ValueError]. *)
Theorem get_sorted_filenames_listing (dir : string) (fs : filesystem) :
  match os.listdir dir fs with
  | (_, inl e) => _get_sorted_filenames dir fs = (fs, inl e)
  | (_, inr entries) =>
      let message_files := filter (fun x => negb (is_tmp x)) entries in
      (forallb (fun x => match sort_key x with
                         | Some _ => true
                         | None => false
                         end) message_files = true ->
       exists names,
         _get_sorted_filenames dir fs = (fs, inr names)
         /\ Permutation.Permutation names message_files
         /\ StronglySorted (fun a b => (key_of a <= key_of b)%N) names)
      /\ (existsb (fun x => String.eqb (nth 0 (Py.split "_" x) EmptyString)
                              EmptyString) message_files = true ->
          _get_sorted_filenames dir fs = (fs, inl ValueError))
  end.
Proof.
  unfold _get_sorted_filenames, bind.
  assert (Hfs : fst (os.listdir dir fs) = fs).
  { unfold os.listdir. destruct (String.eqb dir ""); [reflexivity|].
    destruct (lookup dir (shards fs)); reflexivity. }
  destruct (os.listdir dir fs) as [fs0 [e|entries]]; cbn [fst] in Hfs;
    subst fs0; [reflexivity|].
  change (fun x => negb (Py.endswith x tmp_suffix))
    with (fun x => negb (is_tmp x)).
  cbv zeta.
  set (message_files := filter (fun x => negb (is_tmp x)) entries).
  split.
  - intros Ek. rewrite forallb_forall in Ek.
    rewrite keys_of_total.
    + exists (Py.sort_by key_of message_files).
      unfold ret. rewrite sorted_names_keyed.
      split; [reflexivity|]. split; [apply sort_by_permutation|].
      apply (sort_by_sorted key_of).
    + intros x Hx E. specialize (Ek x Hx). rewrite E in Ek. discriminate.
  - intros Ex. apply existsb_exists in Ex. destruct Ex as (x & Hx & He).
    apply String.eqb_eq in He.
    assert (Hs : sort_key x = None).
    { unfold sort_key. rewrite He. reflexivity. }
    rewrite (keys_of_none _ x Hx Hs). reflexivity.
Qed.

(** ** The next file name *)

Lemma filter_shard_other d (l : list (path * file)) :
  (forall r, In r l -> fst (fst r) <> d) ->
  filter (fun r => String.eqb (fst (fst r)) d) l = [].
Proof.
  intros H. apply filter_none. intros r Hr. apply String.eqb_neq. auto.
Qed.

Lemma filter_shard_self d dir :
  filter (fun r : path * file => String.eqb (fst (fst r)) d)
    (records_of_shard (d, dir)) = records_of_shard (d, dir).
Proof.
  apply filter_all. intros r Hr. unfold records_of_shard in Hr.
  apply in_map_iff in Hr. destruct Hr as (e & <- & _).
  cbn [fst]. apply String.eqb_refl.
Qed.

(** On a well-formed tree [_get_next_message_filename] returns, touching
    no file: a name without a file, in a shard that exists when it returns,
    the one with the largest number; every record of that shard has a
    smaller number than the name, and there are fewer than [directory_size]
    of them.  Without any shard it makes shard [0] and answers [0/0]. *)
Theorem next_message_filename_fresh (directory_size : Z) (fs : filesystem) :
  wf_fs fs = true ->
  exists fs' p,
    _get_next_message_filename directory_size fs = (fs', inr p)
    /\ wf_fs fs' = true
    /\ view fs' = view fs
    /\ (forall q, os.find q fs' = os.find q fs)
    /\ lookup (fst p) (shards fs') <> None
    /\ os.find p fs' = None
    /\ (forall r, In r (view fs') ->
          (key_of (fst (fst r)) <= key_of (fst p))%N)
    /\ (forall r, In r (view fs') -> fst (fst r) = fst p ->
          (key_of (snd (fst r)) < key_of (snd p))%N)
    /\ ((1 <= directory_size)%Z ->
        (Z.of_nat
           (List.length
              (filter (fun r => String.eqb (fst (fst r)) (fst p)) (view fs')))
         < directory_size)%Z)
    /\ (shards fs = [] ->
        p = ("0", "0")%string /\ shards fs' = [("0"%string, [])]).
Proof.
  intros Hwf.
  destruct (next_message_filename_spec directory_size fs Hwf)
    as (fs' & d & n & before & dir & k & Hr & Hwf' & Hv & _ & Hs & Hn & Hk
        & Hsh & Hfind & Hch).
  destruct (visible_shard_lookup _ _ _ _ Hwf' Hs) as [Hl Ht].
  pose proof (plain_visible _ _ Hn) as Hvis.
  pose proof (key_of_plain _ _ Hn) as Hkey.
  assert (Hk' : forall e, In e (sorted_entries dir) ->
                          (key_of (fst e) < key_of n)%N).
  { intros e He. rewrite Hkey. auto. }
  exists fs', (d, n). cbn [fst snd].
  split; [exact Hr|]. split; [exact Hwf'|]. split; [exact Hv|].
  split; [exact Hfind|]. split; [congruence|]. split.
  { unfold os.find. cbn [fst snd]. rewrite Hl.
    apply fresh_by_key; assumption. }
  split; [|split; [|split]].
  - intros [[d' n'] f] Hin. cbn [fst].
    apply view_in in Hin; [|assumption].
    destruct Hin as (dir' & Hl' & Ht' & _).
    pose proof (proj1 (wf_fs_spec fs') Hwf') as [Hws _].
    apply (last_entry_largest shard_name (shards fs') before (d, dir) Hws Hs
             (d', dir')).
    apply sorted_entries_in. split; [apply lookup_in|]; assumption.
  - intros [[d' n'] f] Hin Hd. cbn [fst snd] in *. subst d'.
    apply view_in in Hin; [|assumption].
    destruct Hin as (dir' & Hl' & _ & Hn' & Ht').
    assert (dir' = dir) by congruence. subst dir'.
    apply (Hk' (n', f)). apply sorted_entries_in.
    split; [apply lookup_in|]; assumption.
  - intros Hsize.
    destruct (replace_last_shard fs' before d dir dir Hwf' Hs)
      as (_ & Hview & _).
    rewrite Hview, filter_app, filter_shard_self.
    rewrite filter_shard_other
      by (apply (records_before_last fs' before d dir); assumption).
    cbn [app]. unfold records_of_shard. rewrite length_map. cbn [snd].
    unfold chosen in Hch. destruct (sorted_entries dir) as [|e s].
    + cbn. lia.
    + destruct Hch as [Hlt _]. apply Z.ltb_lt in Hlt. exact Hlt.
  - intros Hempty. destruct fs as [sh i]. cbn [shards] in Hempty. subst sh.
    vm_compute in Hr. injection Hr as <- <- <-. split; reflexivity.
Qed.

Lemma next_message_filename_fresh_witness :
  exists fs' p,
    _get_next_message_filename 1000 (_directory Example.three_records) =
    (fs', inr p)
    /\ os.find p fs' = None.
Proof.
  destruct (next_message_filename_fresh 1000
              (_directory Example.three_records) eq_refl)
    as (fs' & p & H1 & _ & _ & _ & _ & H2 & _).
  exists fs', p. split; [exact H1|exact H2].
Defined.

(** ** [is_pending] *)

Lemma unflagged_spec p :
  unflagged p =
  negb (Py.contains BROKEN (_get_flags p))
  && negb (Py.contains HELD (_get_flags p)).
Proof.
  unfold unflagged. cbn [Py.intersects flag].
  destruct (Py.contains HELD (_get_flags p)),
    (Py.contains BROKEN (_get_flags p)); reflexivity.
Qed.

Lemma yielded_broken p :
  yielded (flag BROKEN) p = negb (Py.contains BROKEN (_get_flags p)).
Proof.
  unfold yielded. cbn [Py.intersects flag]. rewrite orb_false_r. reflexivity.
Qed.

(** The loop of [is_pending] answers [True] exactly when a record without
    the BROKEN flag has the identifier and is HELD or has [pending_offset]
    unflagged records before it at least. *)
Lemma is_pending_scan_iff message_id po (v : list (path * file)) i :
  is_pending_scan message_id po
    (filter (fun r => yielded (flag BROKEN) (fst r)) v) i = true <->
  exists before r after,
    v = before ++ r :: after
    /\ Py.contains BROKEN (_get_flags (fst r)) = false
    /\ st_ino (snd r) = message_id
    /\ (Py.contains HELD (_get_flags (fst r)) = true
        \/ (po <= Z.of_nat (i + List.length (unflagged_records before)))%Z).
Proof.
  revert i. induction v as [|x v IH]; intros i.
  - cbn. split; [discriminate|].
    intros (before & r & after & H & _). destruct before; discriminate.
  - cbn [filter]. rewrite yielded_broken.
    destruct (Py.contains BROKEN (_get_flags (fst x))) eqn:Eb; cbn [negb].
    + rewrite IH. split.
      * intros (before & r & after & -> & H1 & H2 & H3).
        exists (x :: before), r, after. split; [reflexivity|].
        split; [assumption|]. split; [assumption|].
        unfold unflagged_records. cbn [filter].
        rewrite unflagged_spec, Eb. cbn [negb andb]. exact H3.
      * intros (before & r & after & H & H1 & H2 & H3).
        destruct before as [|y before]; cbn [app] in H;
          injection H as <- ->; [congruence|].
        exists before, r, after. split; [reflexivity|].
        split; [assumption|]. split; [assumption|].
        unfold unflagged_records in H3. cbn [filter] in H3.
        rewrite unflagged_spec, Eb in H3. cbn [negb andb] in H3. exact H3.
    + cbn [is_pending_scan negb andb].
      destruct ((Py.contains HELD (_get_flags (fst x))
                 || (po <=? Z.of_nat i)%Z)
                && N.eqb (st_ino (snd x)) message_id) eqn:Ec.
      * split; [intros _|reflexivity].
        apply andb_true_iff in Ec. destruct Ec as [Ec Ei].
        apply N.eqb_eq in Ei. exists [], x, v. split; [reflexivity|].
        split; [assumption|]. split; [assumption|].
        apply orb_true_iff in Ec. destruct Ec as [Ec|Ec]; [left; exact Ec|].
        right. apply Z.leb_le in Ec. cbn. lia.
      * rewrite IH. split.
        -- intros (before & r & after & -> & H1 & H2 & H3).
           exists (x :: before), r, after. split; [reflexivity|].
           split; [assumption|]. split; [assumption|].
           destruct H3 as [H3|H3]; [left; exact H3|right].
           unfold unflagged_records in *. cbn [filter].
           rewrite unflagged_spec, Eb. cbn [negb andb].
           try rewrite Eb in H3.
           destruct (Py.contains HELD (_get_flags (fst x)));
             cbn [negb andb List.length] in *; lia.
        -- intros (before & r & after & H & H1 & H2 & H3).
           destruct before as [|y before]; cbn [app] in H;
             injection H as <- ->.
           ++ exfalso. apply N.eqb_eq in H2. rewrite H2, andb_true_r in Ec.
              apply orb_false_iff in Ec. destruct Ec as [Eh Ei].
              apply Z.leb_gt in Ei. destruct H3 as [H3|H3]; [congruence|].
              cbn in H3. lia.
           ++ exists before, r, after. split; [reflexivity|].
              split; [assumption|]. split; [assumption|].
              destruct H3 as [H3|H3]; [left; exact H3|right].
              unfold unflagged_records in *. cbn [filter] in H3.
              rewrite unflagged_spec, Eb in H3. cbn [negb andb] in H3.
              try rewrite Eb.
              destruct (Py.contains HELD (_get_flags (fst x)));
                cbn [negb andb List.length] in *; lia.
Qed.

(** [is_pending] leaves the store as it is and answers [True] exactly when
    some record that is not BROKEN has the inode [message_id] and either is
    HELD or comes after [pending_offset] unflagged records at least: not
    for an identifier that no record has, and never for a BROKEN record. *)
Theorem is_pending_iff (message_id : N) (self : MessageStore) :
  wf_store self = true ->
  exists answer,
    is_pending message_id self = (self, inr answer)
    /\ (answer = true <->
        exists before r after,
          view (_directory self) = before ++ r :: after
          /\ Py.contains BROKEN (_get_flags (fst r)) = false
          /\ st_ino (snd r) = message_id
          /\ (Py.contains HELD (_get_flags (fst r)) = true
              \/ (get_pending_offset self <=
                  Z.of_nat (List.length (unflagged_records before)))%Z)).
Proof.
  intros Hwf. rewrite (is_pending_spec message_id self Hwf).
  eexists. split; [reflexivity|].
  rewrite is_pending_scan_iff. reflexivity.
Qed.

Lemma is_pending_iff_witness :
  is_pending 3%N Example.three_records = (Example.three_records, inr true).
Proof.
  destruct (is_pending_iff 3%N Example.three_records eq_refl)
    as (answer & H & Hiff).
  rewrite H. f_equal. f_equal. apply Hiff.
  exists [(("0", "0")%string, mkfile 1 "a"); (("0", "1")%string, mkfile 2 "b")],
    (("0", "2")%string, mkfile 3 "c"), [].
  split; [reflexivity|]. split; [reflexivity|]. split; [reflexivity|].
  right. cbn. lia.
Defined.

(** ** The record that [add] stores *)

Lemma last_shard_records fs before d dir :
  wf_fs fs = true -> sorted_entries (shards fs) = before ++ [(d, dir)] ->
  filter (fun r => String.eqb (fst (fst r)) d) (view fs) =
  records_of_shard (d, dir).
Proof.
  intros Hwf Hs.
  destruct (replace_last_shard fs before d dir dir Hwf Hs) as (_ & Hview & _).
  rewrite Hview, filter_app, filter_shard_self.
  rewrite filter_shard_other
    by (apply (records_before_last fs before d dir); assumption).
  reflexivity.
Qed.

Lemma chosen_bound size dir n :
  chosen size dir n -> (1 <= size)%Z ->
  (Z.of_nat (List.length (records_of_shard (n, dir))) < size)%Z.
Proof.
  unfold chosen, records_of_shard. rewrite length_map. cbn [snd].
  destruct (sorted_entries dir) as [|e s]; intros H Hs.
  - cbn. lia.
  - destruct H as [Hlt _]. apply Z.ltb_lt in Hlt. exact Hlt.
Qed.

Lemma records_of_shard_length d d' dir :
  List.length (records_of_shard (d, dir)) =
  List.length (records_of_shard (d', dir)).
Proof. unfold records_of_shard. rewrite !length_map. reflexivity. Qed.

Section AddRecord.

Context {imports : Imports}.

(** [add] on a message that its schema coerces: the record, where it goes
    and the flags it gets. *)
Lemma add_record message self s coerced :
  wf_store self = true ->
  lookup (msg_type message) (_schemas self) = Some s ->
  coerce s message = Some coerced ->
  exists self' p f,
    add message self = (self', inr (st_ino f))
    /\ content f = dumps (with_api coerced)
    /\ wf_store self' = true
    /\ view (_directory self') = view (_directory self) ++ [(p, f)]
    /\ _get_flags p = (if accepts self (msg_type coerced) then EmptyString
                       else flag HELD)
    /\ _persist self' = _persist self
    /\ _schemas self' = _schemas self
    /\ _directory_size self' = _directory_size self
    /\ ((1 <= _directory_size self)%Z ->
        (Z.of_nat
           (List.length
              (filter (fun r => String.eqb (fst (fst r)) (fst p))
                 (view (_directory self))))
         < _directory_size self)%Z).
Proof.
  intros Hwf Hl Hc. unfold add, bind, add_coerce. rewrite Hl, Hc.
  assert (Ht : msg_type (with_api coerced) = msg_type coerced).
  { unfold with_api. destruct (msg_api coerced); reflexivity. }
  pose proof Hwf as Hwf0. unfold wf_store in Hwf0.
  destruct (next_message_filename_spec (_directory_size self) _ Hwf0)
    as (fs1 & d & n & before & dir & k
        & Hn & Hwf1 & Hv1 & _ & Hs1 & Hk & Hlt & _ & _ & Hch).
  destruct (write_tmp_spec fs1 before d dir n k (dumps (with_api coerced))
              Hwf1 Hs1 Hk Hlt)
    as (fs2 & f & Hw & Hwf2 & Hv2 & Hcont & Htw & _).
  assert (Hwt : add_write_tmp (dumps (with_api coerced)) self =
                (mkstore (_directory_size self) (_schemas self)
                   (_persist self) fs2, inr (d, n))).
  { unfold add_write_tmp, on_directory, bind. rewrite Hn. cbn [fst snd].
    rewrite Hw. reflexivity. }
  rewrite Hwt.
  set (self1 := mkstore (_directory_size self) (_schemas self)
                  (_persist self) fs2).
  destruct (add_publish_spec (msg_type (with_api coerced)) (d, n) f self1
              Hwf2 Htw)
    as (self2 & Hpub & Hwf3 & Hv3 & _ & Hp & Hsc & Hsz).
  rewrite Ht in Hv3.
  change (accepts self1 (msg_type coerced))
    with (accepts self (msg_type coerced)) in Hv3.
  exists self2,
    (if accepts self (msg_type coerced) then (d, n)
     else add_flags_path (d, n) HELD), f.
  split; [exact Hpub|]. split; [exact Hcont|]. split; [exact Hwf3|].
  split; [rewrite Hv3; cbn [_directory self1]; congruence|].
  split; [|split; [exact Hp|split; [exact Hsc|split; [exact Hsz|]]]].
  - pose proof (plain_flags n k d Hk) as Hplain.
    destruct (accepts self (msg_type coerced)); [exact Hplain|].
    apply (add_flags_path_facts d n HELD (plain_record_name _ _ Hk)).
    + unfold unflagged. rewrite Hplain. reflexivity.
    + left. reflexivity.
  - intros Hsize.
    replace (fst (if accepts self (msg_type coerced) then (d, n)
                  else add_flags_path (d, n) HELD)) with d
      by (destruct (accepts self (msg_type coerced)); reflexivity).
    rewrite <- Hv1, (last_shard_records fs1 before d dir Hwf1 Hs1).
    rewrite (records_of_shard_length d n).
    apply chosen_bound; assumption.
Qed.

End AddRecord.

(** ** [add] and the queries *)

Lemma pending_app_one po (v : list (path * file)) x :
  (0 <= po <= Z.of_nat (List.length (unflagged_records v)))%Z ->
  pending po (v ++ [x]) =
  pending po v ++ (if unflagged (fst x) then [x] else []).
Proof.
  intros H. unfold pending, unflagged_records in *.
  rewrite filter_app, skipn_app. cbn [filter].
  replace (Z.to_nat po - List.length (filter (fun r => unflagged (fst r)) v))%nat
    with 0%nat by lia.
  destruct (unflagged (fst x)); reflexivity.
Qed.

Lemma deliveries_app {imports : Imports} accepted l1 l2 :
  deliveries accepted (l1 ++ l2) =
  deliveries accepted l1 ++ deliveries accepted l2.
Proof.
  induction l1 as [|r l1 IH]; [reflexivity|].
  cbn [app deliveries]. rewrite IH.
  destruct (deliverable accepted r); reflexivity.
Qed.

Lemma scan_messages_of {imports : Imports} max self :
  wf_store self = true ->
  snd (get_pending_messages max self) =
  inr (up_to max
         (deliveries (get_accepted_types self)
            (pending (get_pending_offset self) (view (_directory self))))).
Proof.
  intros Hwf. destruct (get_pending_messages_spec max self Hwf)
    as (self' & Hg & _).
  rewrite Hg. cbn [snd]. rewrite scan_messages. cbn [app List.length].
  destruct max; cbn [up_to]; rewrite ?Nat.sub_0_r; reflexivity.
Qed.

(** The identifier that [add] returns is pending right away: on a
    well-formed store whose pending offset is not beyond its unflagged
    records, [is_pending] answers [True] for it, whether the message was
    stored HELD or not. *)
Theorem add_then_is_pending {imports : Imports}
    (message : Message) (self : MessageStore) (s : schema)
    (coerced : Message) :
  wf_store self = true ->
  (get_pending_offset self <= count_unflagged self)%Z ->
  lookup (msg_type message) (_schemas self) = Some s ->
  coerce s message = Some coerced ->
  exists self' message_id,
    add message self = (self', inr message_id)
    /\ is_pending message_id self' = (self', inr true).
Proof.
  intros Hwf Hpo Hl Hc.
  destruct (add_record message self s coerced Hwf Hl Hc)
    as (self' & p & f & Ha & _ & Hwf' & Hv & Hfl & Hp & _).
  exists self', (st_ino f). split; [exact Ha|].
  rewrite (is_pending_spec _ self' Hwf'). f_equal. f_equal.
  apply is_pending_scan_iff.
  exists (view (_directory self)), (p, f), []. cbn [fst snd].
  split; [exact Hv|].
  assert (Ho : get_pending_offset self' = get_pending_offset self).
  { unfold get_pending_offset. rewrite Hp. reflexivity. }
  rewrite Hfl, Ho.
  destruct (accepts self (msg_type coerced)).
  - split; [reflexivity|]. split; [reflexivity|]. right. exact Hpo.
  - split; [reflexivity|]. split; [reflexivity|]. left. reflexivity.
Qed.

Lemma add_then_is_pending_witness :
  exists self' message_id,
    add (imports := Example.toy_imports) (mkmsg "a" None [])
      Example.three_records = (self', inr message_id)
    /\ is_pending message_id self' = (self', inr true).
Proof.
  apply (add_then_is_pending (imports := Example.toy_imports)
           (mkmsg "a" None []) Example.three_records
           (snd (Example.any_schema "a")) (mkmsg "a" None []) eq_refl).
  - unfold count_unflagged. cbn. lia.
  - reflexivity.
  - reflexivity.
Defined.

(** A message of an accepted type that [add] stores is one more pending
    message; one of a type that is not accepted is stored HELD, and
    [count_pending_messages] and [get_pending_messages] answer as they did
    before it was added. *)
Theorem add_then_count {imports : Imports}
    (message : Message) (self : MessageStore) (s : schema)
    (coerced : Message) :
  wf_store self = true -> offset_invariant self ->
  lookup (msg_type message) (_schemas self) = Some s ->
  coerce s message = Some coerced ->
  exists self' message_id count,
    add message self = (self', inr message_id)
    /\ count_pending_messages self = (self, inr count)
    /\ count_pending_messages self' =
       (self', inr (count + (if accepts self (msg_type coerced) then 1
                             else 0))%nat)
    /\ (accepts self (msg_type coerced) = false ->
        forall max,
          snd (get_pending_messages max self') =
          snd (get_pending_messages max self)).
Proof.
  intros Hwf Hinv Hl Hc.
  destruct (add_record message self s coerced Hwf Hl Hc)
    as (self' & p & f & Ha & _ & Hwf' & Hv & Hfl & Hp & _).
  assert (Ho : get_pending_offset self' = get_pending_offset self).
  { unfold get_pending_offset. rewrite Hp. reflexivity. }
  assert (Hacc : get_accepted_types self' = get_accepted_types self).
  { unfold get_accepted_types. rewrite Hp. reflexivity. }
  assert (Hu : unflagged p = accepts self (msg_type coerced)).
  { unfold unflagged. rewrite Hfl.
    destruct (accepts self (msg_type coerced)); reflexivity. }
  assert (Hpend : pending (get_pending_offset self')
                    (view (_directory self')) =
                  pending (get_pending_offset self) (view (_directory self))
                  ++ (if accepts self (msg_type coerced) then [(p, f)]
                      else [])).
  { rewrite Ho, Hv, pending_app_one by exact Hinv. cbn [fst].
    rewrite Hu. reflexivity. }
  exists self', (st_ino f),
    (List.length
       (pending (get_pending_offset self) (view (_directory self)))).
  split; [exact Ha|].
  split; [apply count_pending_messages_spec; exact Hwf|].
  split.
  - rewrite (count_pending_messages_spec self' Hwf'), Hpend, length_app.
    destruct (accepts self (msg_type coerced)); reflexivity.
  - intros Hno max. rewrite Hno in Hpend.
    rewrite !scan_messages_of by assumption.
    rewrite Hpend, Hacc, app_nil_r. reflexivity.
Qed.

Lemma add_then_count_witness :
  exists self' message_id count,
    add (imports := Example.toy_imports) (mkmsg "a" None [])
      Example.three_records = (self', inr message_id)
    /\ count_pending_messages Example.three_records =
       (Example.three_records, inr count)
    /\ count_pending_messages self' = (self', inr (count + 1)%nat).
Proof.
  destruct (add_then_count (imports := Example.toy_imports)
              (mkmsg "a" None []) Example.three_records
              (snd (Example.any_schema "a")) (mkmsg "a" None []) eq_refl)
    as (self' & message_id & count & H1 & H2 & H3 & _).
  - unfold offset_invariant, count_unflagged. cbn. lia.
  - reflexivity.
  - reflexivity.
  - exists self', message_id, count. auto.
Defined.

(** A message of an accepted type that [bpickle] reads back as it wrote it
    is the last message of the next unbounded [get_pending_messages], after
    those that were pending. *)
Theorem add_then_get_pending {imports : Imports}
    (message : Message) (self : MessageStore) (s : schema)
    (coerced : Message) :
  wf_store self = true -> offset_invariant self ->
  lookup (msg_type message) (_schemas self) = Some s ->
  coerce s message = Some coerced ->
  accepts self (msg_type coerced) = true ->
  loads (dumps (with_api coerced)) = Some (with_api coerced) ->
  exists self' message_id before,
    add message self = (self', inr message_id)
    /\ snd (get_pending_messages None self) = inr before
    /\ snd (get_pending_messages None self') =
       inr (before ++ [with_api coerced]).
Proof.
  intros Hwf Hinv Hl Hc Hacc Hrt.
  destruct (add_record message self s coerced Hwf Hl Hc)
    as (self' & p & f & Ha & Hcont & Hwf' & Hv & Hfl & Hp & _).
  assert (Ho : get_pending_offset self' = get_pending_offset self).
  { unfold get_pending_offset. rewrite Hp. reflexivity. }
  assert (Hat : get_accepted_types self' = get_accepted_types self).
  { unfold get_accepted_types. rewrite Hp. reflexivity. }
  rewrite Hacc in Hfl.
  exists self', (st_ino f),
    (deliveries (get_accepted_types self)
       (pending (get_pending_offset self) (view (_directory self)))).
  split; [exact Ha|].
  split; [apply (scan_messages_of None); exact Hwf|].
  rewrite (scan_messages_of None self' Hwf'). cbn [up_to].
  rewrite Ho, Hat, Hv, pending_app_one by exact Hinv. cbn [fst].
  replace (unflagged p) with true
    by (unfold unflagged; rewrite Hfl; reflexivity).
  rewrite deliveries_app. cbn [deliveries]. unfold deliverable. cbn [snd].
  rewrite Hcont, Hrt.
  replace (msg_type (with_api coerced)) with (msg_type coerced)
    by (unfold with_api; destruct (msg_api coerced); reflexivity).
  unfold accepts in Hacc. rewrite Hacc. reflexivity.
Qed.

Lemma add_then_get_pending_witness :
  exists self' message_id before,
    add (imports := Example.toy_imports) (mkmsg "a" None [])
      Example.three_records = (self', inr message_id)
    /\ snd (get_pending_messages (imports := Example.toy_imports) None
              self') = inr (before ++ [mkmsg "a" (Some "3.2"%string) []]).
Proof.
  destruct (add_then_get_pending (imports := Example.toy_imports)
              (mkmsg "a" None []) Example.three_records
              (snd (Example.any_schema "a")) (mkmsg "a" None []) eq_refl)
    as (self' & message_id & before & H1 & _ & H3).
  - unfold offset_invariant, count_unflagged. cbn. lia.
  - reflexivity.
  - reflexivity.
  - reflexivity.
  - reflexivity.
  - exists self', message_id, before. split; [exact H1|exact H3].
Defined.

(** ** The order of the walk *)

Lemma StronglySorted_strict {X : Type} (key : X -> N) (l : list X) :
  StronglySorted (fun a b => (key a <= key b)%N) l ->
  NoDup (map key l) ->
  StronglySorted (fun a b => (key a < key b)%N) l.
Proof.
  induction l as [|x l IH]; intros Hs Hnd; [constructor|].
  inversion Hs as [|? ? Hl Hx]; subst.
  inversion Hnd as [|? ? Hnx Hnl]; subst.
  constructor; [apply IH; assumption|].
  rewrite Forall_forall in *. intros y Hy. specialize (Hx y Hy).
  assert (key x <> key y).
  { intros E. apply Hnx. rewrite E. apply in_map. assumption. }
  lia.
Qed.

Lemma StronglySorted_app {X : Type} (R : X -> X -> Prop) l1 l2 :
  StronglySorted R l1 -> StronglySorted R l2 ->
  (forall x y, In x l1 -> In y l2 -> R x y) ->
  StronglySorted R (l1 ++ l2).
Proof.
  induction l1 as [|x l1 IH]; intros H1 H2 H; [assumption|].
  inversion H1 as [|? ? Hl Hx]; subst. cbn [app]. constructor.
  - apply IH; try assumption. intros; apply H; [right|]; assumption.
  - apply Forall_app. split; [assumption|].
    apply Forall_forall. intros y Hy. apply H; [left; reflexivity|assumption].
Qed.

Lemma StronglySorted_map {X Y : Type} (R : Y -> Y -> Prop) (g : X -> Y) l :
  StronglySorted (fun a b => R (g a) (g b)) l -> StronglySorted R (map g l).
Proof.
  induction 1 as [|x l Hl IH Hx]; cbn [map]; constructor; [assumption|].
  apply Forall_map. assumption.
Qed.

Lemma sorted_entries_strict {V : Type} (valid : string -> bool)
    (l : list (string * V)) :
  wf_names valid l = true ->
  StronglySorted (fun a b => (key_of (fst a) < key_of (fst b))%N)
    (sorted_entries l).
Proof.
  intros Hwf. apply wf_names_spec in Hwf. destruct Hwf as (_ & _ & Hk).
  apply (StronglySorted_strict (fun e : string * V => key_of (fst e))).
  - apply sorted_entries_sorted.
  - exact Hk.
Qed.

(** The records of a well-formed tree stand by increasing shard number,
    and in a shard by increasing record number. *)
Lemma view_sorted fs :
  wf_fs fs = true ->
  StronglySorted
    (fun p q : path =>
       (key_of (fst p) < key_of (fst q))%N
       \/ (fst p = fst q /\ (key_of (snd p) < key_of (snd q))%N))
    (map fst (view fs)).
Proof.
  intros Hwf. unfold view.
  pose proof (proj1 (wf_fs_spec fs) Hwf) as [Hws _].
  pose proof (sorted_entries_strict shard_name (shards fs) Hws) as Hs.
  assert (Hsh : forall d dir, In (d, dir) (sorted_entries (shards fs)) ->
                              wf_names record_name dir = true).
  { intros d dir Hin. apply sorted_entries_in in Hin.
    destruct Hin as [Hin Ht].
    pose proof (in_lookup _ _ _ (wf_fs_nodup _ Hwf) Hin) as Hl.
    apply (wf_fs_shard _ _ _ Hwf Hl Ht). }
  induction Hs as [|[d dir] L HL IH Hd]; [constructor|].
  cbn [flat_map]. rewrite map_app. apply StronglySorted_app.
  - unfold records_of_shard. cbn [fst snd]. rewrite map_map. cbn [fst].
    apply StronglySorted_map. cbn [fst snd].
    pose proof (sorted_entries_strict record_name dir
                  (Hsh d dir (or_introl eq_refl))) as Hr.
    eapply StronglySorted_ind with (l := sorted_entries dir);
      [constructor| |exact Hr].
    intros e l Hl IHl He. constructor; [assumption|].
    eapply Forall_impl; [|exact He]. cbn. intros; right. auto.
  - apply IH. intros; eapply Hsh; right; eassumption.
  - intros p q Hp Hq. left.
    apply in_map_iff in Hp. destruct Hp as (r & <- & Hr).
    unfold records_of_shard in Hr. apply in_map_iff in Hr.
    destruct Hr as (e & <- & _). cbn [fst snd].
    apply in_map_iff in Hq. destruct Hq as (r' & <- & Hr').
    apply in_flat_map in Hr'. destruct Hr' as ([d' dir'] & Hin & Hr').
    unfold records_of_shard in Hr'. apply in_map_iff in Hr'.
    destruct Hr' as (e' & <- & _). cbn [fst snd].
    rewrite Forall_forall in Hd. exact (Hd _ Hin).
Qed.

Lemma for_each_collect (l acc : list path) (fs : filesystem) :
  for_each l (fun p acc => ret (acc ++ [p], false)) acc fs =
  (fs, inr (acc ++ l, false)).
Proof.
  revert acc. induction l as [|p l IH]; intros acc; cbn [for_each].
  - unfold ret. rewrite app_nil_r. reflexivity.
  - unfold ret at 1. rewrite IH, <- app_assoc. reflexivity.
Qed.

(** On a well-formed tree [_walk_messages] yields the paths of the records
    without an excluded flag, and [_walk_pending_messages] those of the
    unflagged records after the first [pending_offset]; both leave the
    tree alone.  The paths come by increasing shard number and, within a
    shard, by increasing record number, and none ends in [.tmp]. *)
Theorem walk_messages_in_order (exclude : string) (pending_offset : Z)
    (fs : filesystem) :
  wf_fs fs = true ->
  _walk_messages exclude (fun p acc => ret (acc ++ [p], false)) [] fs =
  (fs, inr (filter (yielded exclude) (map fst (view fs)), false))
  /\ _walk_pending_messages pending_offset
       (fun p acc => ret (acc ++ [p], false)) [] fs =
     (fs, inr (map fst (pending pending_offset (view fs)), false))
  /\ StronglySorted
       (fun p q : path =>
          (key_of (fst p) < key_of (fst q))%N
          \/ (fst p = fst q /\ (key_of (snd p) < key_of (snd q))%N))
       (map fst (view fs))
  /\ (forall p, In p (map fst (view fs)) ->
        is_tmp (fst p) = false /\ is_tmp (snd p) = false).
Proof.
  intros Hwf. split; [|split; [|split]].
  - rewrite walk_static; [apply for_each_collect| |assumption].
    intros p acc fs0 d _. reflexivity.
  - rewrite walk_pending_static; [apply for_each_collect| |assumption].
    intros p acc d _. apply leaves_ret.
  - apply view_sorted. assumption.
  - intros [d n] Hp. apply in_map_iff in Hp.
    destruct Hp as ([[d' n'] f] & E & Hin). cbn [fst] in E.
    injection E as -> ->. apply view_in in Hin; [|assumption].
    destruct Hin as (dir & _ & Ht & _ & Ht'). auto.
Qed.

Lemma walk_messages_in_order_witness :
  _walk_pending_messages 1
    (fun p acc => ret (acc ++ [p], false)) []
    (_directory Example.three_records) =
  (_directory Example.three_records,
   inr ([("0", "1"); ("0", "2")]%string, false)).
Proof.
  exact (proj1 (proj2 (walk_messages_in_order EmptyString 1
                         (_directory Example.three_records) eq_refl))).
Defined.

(** ** [get_pending_messages], again *)

Lemma unflagged_records_flagged (p p' : path) (v : list (path * file)) :
  unflagged p' = false ->
  unflagged_records (map (rename_record p p') v) =
  filter (fun r => negb (path_eqb (fst r) p)) (unflagged_records v).
Proof.
  intros Hp'. unfold unflagged_records.
  induction v as [|x v IH]; [reflexivity|].
  cbn [map filter]. destruct (path_eqb (fst x) p) eqn:E.
  - replace (rename_record p p' x) with (p', snd x)
      by (unfold rename_record; rewrite E; reflexivity).
    cbn [fst]. rewrite Hp'.
    destruct (unflagged (fst x)); [|exact IH].
    cbn [filter]. rewrite E. exact IH.
  - replace (rename_record p p' x) with x
      by (unfold rename_record; rewrite E; reflexivity).
    destruct (unflagged (fst x)); [|exact IH].
    cbn [filter]. rewrite E. cbn [negb]. f_equal. exact IH.
Qed.

Lemma filter_out_middle (pre todo : list (path * file)) r :
  NoDup (map fst (pre ++ r :: todo)) ->
  filter (fun x => negb (path_eqb (fst x) (fst r))) (pre ++ r :: todo) =
  pre ++ todo.
Proof.
  intros Hnd. rewrite map_app in Hnd. cbn [map] in Hnd.
  pose proof (NoDup_remove_2 _ _ _ Hnd) as Hnot.
  rewrite filter_app. cbn [filter]. rewrite path_eqb_refl. cbn [negb].
  rewrite !filter_all; [reflexivity| |];
    intros x Hx; apply negb_true_iff, path_eqb_neq; intros E;
    apply Hnot, in_or_app; [right|left]; rewrite <- E; apply in_map;
    assumption.
Qed.

Section Twice.

Context {imports : Imports}.

Variables (max : option Z) (accepted : list string).

Lemma scan_unflagged todo : forall pre messages v,
  (forall t, In t todo -> record_name (snd (fst t)) = true) ->
  NoDup (map fst (pre ++ todo)) ->
  unflagged_records v = pre ++ todo ->
  unflagged_records (snd (scan_pending max accepted todo messages v)) =
  pre ++ still_pending max accepted todo messages.
Proof.
  induction todo as [|r todo IH]; intros pre messages v Hn Hnd Hv.
  - exact Hv.
  - cbn [scan_pending still_pending].
    destruct (reached max messages); [exact Hv|].
    assert (Hr : unflagged (fst r) = true).
    { assert (Hin : In r (unflagged_records v)).
      { rewrite Hv. apply in_or_app. right. left. reflexivity. }
      apply unflagged_records_in in Hin. tauto. }
    assert (Hflag : forall c, c = HELD \/ c = BROKEN ->
      unflagged_records
        (map (rename_record (fst r) (add_flags_path (fst r) c)) v) =
      pre ++ todo).
    { intros c Hc. destruct r as [[d n] f]. cbn [fst] in *.
      destruct (add_flags_path_facts d n c (Hn _ (or_introl eq_refl)) Hr Hc)
        as (_ & _ & _ & Hu).
      rewrite (unflagged_records_flagged _ _ _ Hu), Hv.
      apply (filter_out_middle pre todo ((d, n), f)). assumption. }
    assert (Hnd' : NoDup (map fst (pre ++ todo))).
    { rewrite map_app in *. cbn [map] in Hnd.
      exact (NoDup_remove_1 _ _ _ Hnd). }
    assert (Hn' : forall t, In t todo -> record_name (snd (fst t)) = true).
    { intros t Ht. apply Hn. right. assumption. }
    unfold deliverable.
    destruct (loads (content (snd r))) as [message|].
    + destruct (Py.mem (msg_type message) accepted); cbn [negb].
      * rewrite (IH (pre ++ [r]) _ v Hn').
        -- rewrite <- app_assoc. reflexivity.
        -- rewrite <- app_assoc. exact Hnd.
        -- rewrite <- app_assoc. exact Hv.
      * apply IH; auto.
    + apply IH; auto.
Qed.

Lemma scan_again todo : forall messages v v',
  scan_pending max accepted (still_pending max accepted todo messages)
    messages v' =
  (fst (scan_pending max accepted todo messages v), v').
Proof.
  induction todo as [|r todo IH]; intros messages v v'; [reflexivity|].
  cbn [still_pending scan_pending].
  destruct (reached max messages) eqn:Er.
  - cbn [scan_pending]. rewrite Er. reflexivity.
  - unfold deliverable.
    destruct (loads (content (snd r))) as [message|] eqn:El.
    + destruct (Py.mem (msg_type message) accepted) eqn:Em; cbn [negb].
      * cbn [scan_pending]. rewrite Er, El, Em. cbn [negb]. apply IH.
      * apply IH.
    + apply IH.
Qed.

Lemma still_pending_length todo : forall messages,
  (List.length (still_pending max accepted todo messages)
   <= List.length todo)%nat.
Proof.
  induction todo as [|r todo IH]; intros messages; [apply Nat.le_refl|].
  cbn [still_pending]. destruct (reached max messages); [apply Nat.le_refl|].
  destruct (deliverable accepted r); cbn [List.length].
  - apply le_n_S, IH.
  - apply Nat.le_trans with (List.length todo); [apply IH|apply Nat.le_succ_diag_r].
Qed.

End Twice.

Lemma still_pending_unbounded {imports : Imports} accepted todo :
  forall messages,
    List.length (still_pending None accepted todo messages) =
    List.length (deliveries accepted todo).
Proof.
  induction todo as [|r todo IH]; intros messages; [reflexivity|].
  cbn [still_pending reached deliveries].
  destruct (deliverable accepted r); cbn [List.length]; rewrite IH;
    reflexivity.
Qed.

Lemma deliveries_length {imports : Imports} accepted todo :
  (List.length (deliveries accepted todo) <= List.length todo)%nat.
Proof.
  induction todo as [|r todo IH]; [apply Nat.le_refl|].
  cbn [deliveries]. destruct (deliverable accepted r); cbn [List.length]; lia.
Qed.

Lemma skipn_old_pending (n : nat) (U still : list (path * file)) :
  (skipn n U = [] -> still = []) ->
  skipn n (firstn n U ++ still) = still.
Proof.
  intros H. rewrite skipn_app.
  rewrite (skipn_all2 (firstn n U)) by (rewrite length_firstn; lia).
  cbn [app]. rewrite length_firstn.
  destruct (Nat.le_gt_cases n (List.length U)) as [Hle|Hgt].
  - replace (n - Nat.min n (List.length U))%nat with 0%nat by lia.
    reflexivity.
  - rewrite H by (apply skipn_all2; lia). apply skipn_nil.
Qed.

Section Pending.

Context {imports : Imports}.

(** The pending records after [get_pending_messages]. *)
Lemma pending_after_scan max self once messages :
  wf_store self = true ->
  get_pending_messages max self = (once, inr messages) ->
  pending (get_pending_offset once) (view (_directory once)) =
  still_pending max (get_accepted_types self)
    (pending (get_pending_offset self) (view (_directory self))) []
  /\ wf_store once = true
  /\ _persist once = _persist self.
Proof.
  intros Hwf Hg.
  destruct (get_pending_messages_spec max self Hwf)
    as (once' & Hg' & Hwf1 & Hv1 & _ & Hp1 & _).
  rewrite Hg in Hg'. injection Hg' as <- _.
  split; [|split; assumption].
  assert (Ho : get_pending_offset once = get_pending_offset self).
  { unfold get_pending_offset. rewrite Hp1. reflexivity. }
  rewrite Ho. unfold pending at 1. rewrite Hv1.
  set (v := view (_directory self)).
  set (po := get_pending_offset self).
  rewrite (scan_unflagged max (get_accepted_types self) (pending po v)
             (old_records po v) [] v).
  - unfold old_records. apply skipn_old_pending.
    fold (pending po v). intros ->. reflexivity.
  - intros [[d n] f] Ht. apply pending_in in Ht.
    apply (view_record_name _ _ _ _ Hwf (proj1 Ht)).
  - rewrite <- pending_split. unfold unflagged_records.
    apply NoDup_map_filter. apply view_nodup. exact Hwf.
  - apply pending_split.
Qed.

End Pending.

Lemma scan_length {imports : Imports} max accepted todo :
  forall messages v,
    (List.length (fst (scan_pending max accepted todo messages v)) <=
     List.length messages
     + List.length (still_pending max accepted todo messages))%nat.
Proof.
  induction todo as [|r todo IH]; intros messages v.
  - cbn. lia.
  - cbn [scan_pending still_pending].
    destruct (reached max messages); [cbn; lia|].
    unfold deliverable.
    destruct (loads (content (snd r))) as [message|].
    + destruct (Py.mem (msg_type message) accepted); cbn [negb].
      * specialize (IH (messages ++ [message]) v).
        rewrite length_app in IH. cbn [List.length] in *. lia.
      * apply IH.
    + apply IH.
Qed.

(** A second [get_pending_messages] with the same bound returns the
    messages the first one returned and leaves the records as the first one
    left them: what the first call could not deliver before it reached its
    bound it has flagged, and the second call meets none of it. *)
Theorem get_pending_messages_twice {imports : Imports}
    (max : option Z) (self : MessageStore) :
  wf_store self = true ->
  exists once twice messages,
    get_pending_messages max self = (once, inr messages)
    /\ get_pending_messages max once = (twice, inr messages)
    /\ view (_directory twice) = view (_directory once)
    /\ _persist twice = _persist self.
Proof.
  intros Hwf.
  destruct (get_pending_messages_spec max self Hwf)
    as (once & Hg & _).
  destruct (pending_after_scan max self once _ Hwf Hg) as (Hpend & Hwf1 & Hp1).
  destruct (get_pending_messages_spec max once Hwf1)
    as (twice & Hg2 & _ & Hv2 & _ & Hp2 & _).
  assert (Hacc : get_accepted_types once = get_accepted_types self).
  { unfold get_accepted_types. rewrite Hp1. reflexivity. }
  rewrite Hpend, Hacc in Hg2, Hv2.
  rewrite (scan_again max (get_accepted_types self) _ []
             (view (_directory self)) (view (_directory once))) in Hg2, Hv2.
  cbn [fst snd] in Hg2, Hv2.
  eexists once, twice, _. split; [exact Hg|]. split; [exact Hg2|].
  split; [exact Hv2|congruence].
Qed.

Lemma get_pending_messages_twice_witness :
  exists once twice messages,
    get_pending_messages (imports := Example.toy_imports) None
      Example.one_corrupt = (once, inr messages)
    /\ get_pending_messages (imports := Example.toy_imports) None once =
       (twice, inr messages).
Proof.
  destruct (get_pending_messages_twice (imports := Example.toy_imports)
              None Example.one_corrupt eq_refl)
    as (once & twice & messages & H1 & H2 & _).
  exists once, twice, messages. split; [exact H1|exact H2].
Defined.

(** [get_pending_messages] returns no more messages than
    [count_pending_messages] counted, nor than it counts afterwards, nor
    than the bound; it never makes more messages pending; after a call
    without a bound the pending messages are the ones it returned; and
    with a bound of 0 or less it returns nothing and flags nothing. *)
Theorem get_pending_messages_count {imports : Imports}
    (max : option Z) (self : MessageStore) :
  wf_store self = true ->
  exists once messages before after,
    get_pending_messages max self = (once, inr messages)
    /\ count_pending_messages self = (self, inr before)
    /\ count_pending_messages once = (once, inr after)
    /\ (List.length messages <= after <= before)%nat
    /\ (max = None -> after = List.length messages)
    /\ (forall m, max = Some m ->
          (Z.of_nat (List.length messages) <= Z.max 0 m)%Z
          /\ ((m <= 0)%Z ->
              messages = []
              /\ view (_directory once) = view (_directory self))).
Proof.
  intros Hwf.
  destruct (get_pending_messages_spec max self Hwf)
    as (once & Hg & _ & Hv & _).
  destruct (pending_after_scan max self once _ Hwf Hg) as (Hpend & Hwf1 & Hp1).
  eexists once, _, _, _. split; [exact Hg|].
  split; [apply count_pending_messages_spec; exact Hwf|].
  split; [apply count_pending_messages_spec; exact Hwf1|].
  rewrite Hpend.
  set (todo := pending (get_pending_offset self) (view (_directory self))).
  set (accepted := get_accepted_types self).
  split; [split|split].
  - apply (scan_length max accepted todo [] (view (_directory self))).
  - apply still_pending_length.
  - intros ->. rewrite still_pending_unbounded, scan_messages.
    reflexivity.
  - intros m ->. split.
    + rewrite scan_messages. cbn [app List.length].
      rewrite length_firstn. lia.
    + intros Hm. rewrite Hv. fold todo accepted.
      destruct todo as [|r todo']; [split; reflexivity|].
      cbn [scan_pending reached List.length].
      replace (m <=? Z.of_nat 0)%Z with true
        by (symmetry; apply Z.leb_le; cbn; lia).
      split; reflexivity.
Qed.

Lemma get_pending_messages_count_witness :
  exists once messages after,
    get_pending_messages (imports := Example.toy_imports) None
      Example.three_records = (once, inr messages)
    /\ count_pending_messages once = (once, inr after)
    /\ after = List.length messages.
Proof.
  destruct (get_pending_messages_count (imports := Example.toy_imports)
              None Example.three_records eq_refl)
    as (once & messages & before & after & H1 & _ & H3 & _ & H5 & _).
  exists once, messages, after. split; [exact H1|]. split; [exact H3|].
  apply H5. reflexivity.
Defined.

(** ** What [set_accepted_types] does to the records *)

Lemma contains_discard c s : Py.contains c (Py.discard c s) = false.
Proof.
  induction s as [|c' s IH]; [reflexivity|]. cbn [Py.discard].
  destruct (Ascii.eqb c' c) eqn:E; [exact IH|].
  cbn [Py.contains]. rewrite E, IH. reflexivity.
Qed.

Lemma set_accepted_types_unfold {imports : Imports} types self :
  set_accepted_types types self =
  _reprocess_holding
    (set_persist self
       (mkpersist (Some (Py.sorted_set_str types))
          (sequence_key (_persist self))
          (server_sequence_key (_persist self))
          (server_uuid_key (_persist self))
          (exchange_token_key (_persist self))
          (pending_offset_key (_persist self)))).
Proof. reflexivity. Qed.

Lemma files_moved (v : list (path * file)) p q f :
  NoDup (map fst v) -> In (p, f) v ->
  Permutation.Permutation (map snd v)
    (map snd (filter (fun r => negb (path_eqb (fst r) p)) v ++ [(q, f)])).
Proof.
  induction v as [|x v IH]; intros Hnd Hin; [contradiction|].
  inversion Hnd as [|? ? Hx Hnd']; subst. cbn [filter].
  destruct (path_eqb (fst x) p) eqn:E; cbn [negb].
  - apply path_eqb_eq in E.
    assert (x = (p, f)).
    { destruct Hin as [Hin|Hin]; [assumption|]. exfalso. apply Hx.
      rewrite E. apply (in_map fst) in Hin. exact Hin. }
    subst x. cbn [fst] in *.
    rewrite filter_all.
    + rewrite map_app. cbn [map snd].
      apply Permutation.Permutation_cons_append.
    + intros r Hr. apply negb_true_iff, path_eqb_neq. intros Er.
      apply Hx. rewrite <- Er. apply in_map. assumption.
  - cbn [app map]. apply Permutation.perm_skip. apply IH; [assumption|].
    destruct Hin as [->|Hin]; [|assumption].
    cbn [fst] in E. rewrite path_eqb_refl in E. discriminate.
Qed.

Lemma files_renamed (v : list (path * file)) p p' :
  map snd (map (rename_record p p') v) = map snd v.
Proof.
  rewrite map_map. apply map_ext. intros r. unfold rename_record.
  destruct (path_eqb (fst r) p); reflexivity.
Qed.

Section Holding.

Context {imports : Imports}.

(** [_reprocess_holding] keeps the files of the records, and leaves no
    record HELD whose message is of an accepted type. *)
Lemma reprocess_holding_records self :
  wf_store self = true ->
  exists fs',
    _reprocess_holding self =
    (mkstore (_directory_size self) (_schemas self) (_persist self) fs',
     inr tt)
    /\ wf_fs fs' = true
    /\ Permutation.Permutation (map snd (view (_directory self)))
         (map snd (view fs'))
    /\ forall r message,
         In r (view fs') ->
         Py.contains HELD (_get_flags (fst r)) = true ->
         loads (content (snd r)) = Some message ->
         Py.mem (msg_type message) (get_accepted_types self) = false.
Proof.
  intros Hwf.
  destruct (reprocess_holding_inv
              (fun a _ fs =>
                 Permutation.Permutation (map snd (view (_directory self)))
                   (map snd (view fs))
                 /\ forall r message,
                      In r (view fs) -> a (fst r) = false ->
                      Py.contains HELD (_get_flags (fst r)) = true ->
                      loads (content (snd r)) = Some message ->
                      Py.mem (msg_type message) (get_accepted_types self)
                      = false)
              self Hwf) as (fs' & offset & Hr & Hwf' & Hperm & Hheld).
  - intros a a' offset fs Hext [H1 H2]. split; [exact H1|].
    intros r message Hin Ha. apply H2; [assumption|].
    rewrite (Hext r Hin). assumption.
  - intros a offset fs p f fs' offset' Hwfs [Hperm Hheld] Ha Hin Hb.
    destruct (reprocess_body_record (_directory_size self)
                (get_pending_offset self) (get_accepted_types self)
                fs p f offset Hwfs Hin)
      as (fs1 & offset1 & Hb1 & _ & _ & Hcase).
    rewrite Hb in Hb1. injection Hb1 as <- <-.
    assert (Hold : forall r message,
              In r (view fs) -> fst r <> p ->
              after_visit a p (fst r) = false ->
              Py.contains HELD (_get_flags (fst r)) = true ->
              loads (content (snd r)) = Some message ->
              Py.mem (msg_type message) (get_accepted_types self) = false).
    { intros r message Hr Hne Hav. apply Hheld; [assumption|].
      unfold after_visit in Hav. apply andb_false_iff in Hav.
      destruct Hav as [Hav|Hav]; [assumption|].
      apply negb_false_iff, path_eqb_eq in Hav. contradiction. }
    assert (Hsame : fs' = fs ->
              (forall message,
                  Py.contains HELD (_get_flags p) = true ->
                  loads (content f) = Some message ->
                  Py.mem (msg_type message) (get_accepted_types self)
                  = false) ->
              Permutation.Permutation (map snd (view (_directory self)))
                (map snd (view fs'))
              /\ forall r message,
                   In r (view fs') -> after_visit a p (fst r) = false ->
                   Py.contains HELD (_get_flags (fst r)) = true ->
                   loads (content (snd r)) = Some message ->
                   Py.mem (msg_type message) (get_accepted_types self)
                   = false).
    { intros -> Hp. split; [exact Hperm|].
      intros r message Hr Hav Hh Hl.
      destruct (path_eqb (fst r) p) eqn:E.
      - apply path_eqb_eq in E. destruct r as [p0 f0]. cbn [fst snd] in *.
        subst p0.
        assert (f0 = f) by (apply (view_same_path fs p); assumption).
        subst f0. apply Hp; assumption.
      - apply path_eqb_neq in E. apply (Hold r message); assumption. }
    destruct (loads (content f)) as [m|] eqn:El.
    2:{ destruct Hcase as [-> _]. apply Hsame; [reflexivity|].
        intros; discriminate. }
    destruct (Py.contains HELD (_get_flags p)) eqn:Eh;
      destruct Hcase as [_ Hcase].
    + destruct (Py.mem (msg_type m) (get_accepted_types self)) eqn:Em.
      * destruct Hcase as (q & Hv & Hq). split.
        -- eapply Permutation.perm_trans; [exact Hperm|]. rewrite Hv.
           apply files_moved; [apply view_nodup|]; assumption.
        -- intros r message Hr Hav Hh Hl. rewrite Hv in Hr.
           apply in_app_iff in Hr. destruct Hr as [Hr|[<-|[]]].
           ++ apply filter_In in Hr. destruct Hr as [Hr Hne].
              apply negb_true_iff, path_eqb_neq in Hne.
              apply (Hold r message); assumption.
           ++ cbn [fst] in Hh. rewrite Hq, contains_discard in Hh.
              discriminate.
      * apply Hsame; [assumption|]. intros message _ Hl.
        injection Hl as <-. exact Em.
    + destruct (negb (Py.mem (msg_type m) (get_accepted_types self))
                && (get_pending_offset self <=? offset)%Z) eqn:Ec.
      * split.
        -- rewrite Hcase, files_renamed. exact Hperm.
        -- intros r message Hr Hav Hh Hl. rewrite Hcase in Hr.
           apply in_map_iff in Hr. destruct Hr as (x & <- & Hx).
           unfold rename_record in *.
           destruct (path_eqb (fst x) p) eqn:E.
           ++ apply path_eqb_eq in E. destruct x as [p0 f0].
              cbn [fst snd] in *. subst p0.
              assert (f0 = f) by (apply (view_same_path fs p); assumption).
              subst f0. rewrite El in Hl. injection Hl as <-.
              apply andb_true_iff in Ec. destruct Ec as [Ec _].
              apply negb_true_iff in Ec. exact Ec.
           ++ apply path_eqb_neq in E. apply (Hold x message); assumption.
      * apply Hsame; [assumption|]. intros message Hh. congruence.
  - split; [apply Permutation.Permutation_refl|]. intros; discriminate.
  - exists fs'. split; [exact Hr|]. split; [exact Hwf'|].
    split; [exact Hperm|]. intros r message Hin. apply Hheld; auto.
Qed.

End Holding.

(** After [set_accepted_types] on a well-formed store no record is HELD
    whose content decodes to a message of one of the types given: the
    records that were HELD for such a type have lost the flag (or have
    only BROKEN left). *)
Theorem set_accepted_types_unholds {imports : Imports}
    (types : list string) (self : MessageStore) :
  wf_store self = true ->
  exists self',
    set_accepted_types types self = (self', inr tt)
    /\ wf_store self' = true
    /\ forall r message,
         In r (view (_directory self')) ->
         Py.contains HELD (_get_flags (fst r)) = true ->
         loads (content (snd r)) = Some message ->
         ~ In (msg_type message) types.
Proof.
  intros Hwf. rewrite set_accepted_types_unfold.
  match goal with
  | |- context [_reprocess_holding ?s] => set (self2 := s)
  end.
  destruct (reprocess_holding_records self2 Hwf)
    as (fs' & Hr & Hwf' & _ & Hheld).
  eexists. split; [exact Hr|]. split; [exact Hwf'|].
  intros r message Hin Hh Hl Hty.
  specialize (Hheld r message Hin Hh Hl).
  change (get_accepted_types self2) with (Py.sorted_set_str types) in Hheld.
  rewrite mem_sorted_set_str in Hheld.
  apply mem_In in Hty. congruence.
Qed.

Lemma set_accepted_types_unholds_witness :
  exists self',
    set_accepted_types (imports := Example.toy_imports) ["a"; "b"]%string
      Example.one_held = (self', inr tt)
    /\ wf_store self' = true.
Proof.
  destruct (set_accepted_types_unholds (imports := Example.toy_imports)
              ["a"; "b"]%string Example.one_held eq_refl)
    as (self' & H1 & H2 & _).
  exists self'. split; [exact H1|exact H2].
Defined.

(** [set_accepted_types] on a well-formed store neither loses nor
    duplicates a record: the files of the records afterwards, each with its
    inode (the identifier [add] returned) and its content, are those from
    before, in some order. *)
Theorem set_accepted_types_keeps_files {imports : Imports}
    (types : list string) (self : MessageStore) :
  wf_store self = true ->
  exists self',
    set_accepted_types types self = (self', inr tt)
    /\ Permutation.Permutation (map snd (view (_directory self)))
         (map snd (view (_directory self')))
    /\ List.length (view (_directory self')) =
       List.length (view (_directory self))
    /\ _schemas self' = _schemas self
    /\ _directory_size self' = _directory_size self.
Proof.
  intros Hwf. rewrite set_accepted_types_unfold.
  match goal with
  | |- context [_reprocess_holding ?s] => set (self2 := s)
  end.
  destruct (reprocess_holding_records self2 Hwf)
    as (fs' & Hr & _ & Hperm & _).
  eexists. split; [exact Hr|]. split; [exact Hperm|].
  split; [|split; reflexivity].
  cbn [_directory]. apply Permutation.Permutation_length in Hperm.
  rewrite !length_map in Hperm. symmetry. exact Hperm.
Qed.

Lemma set_accepted_types_keeps_files_witness :
  exists self',
    set_accepted_types (imports := Example.toy_imports) ["a"; "b"]%string
      Example.one_held = (self', inr tt)
    /\ List.length (view (_directory self')) = 2%nat.
Proof.
  destruct (set_accepted_types_keeps_files (imports := Example.toy_imports)
              ["a"; "b"]%string Example.one_held eq_refl)
    as (self' & H1 & _ & H2 & _).
  exists self'. split; [exact H1|exact H2].
Defined.

(** ** The size of the shards *)

Lemma shard_count_app d (v1 v2 : list (path * file)) :
  shard_count d (v1 ++ v2) = (shard_count d v1 + shard_count d v2)%nat.
Proof. unfold shard_count. rewrite filter_app, length_app. reflexivity. Qed.

Lemma shard_count_filter d (P : path * file -> bool) v :
  (shard_count d (filter P v) <= shard_count d v)%nat.
Proof.
  unfold shard_count. induction v as [|x v IH]; [apply Nat.le_refl|].
  cbn [filter]. destruct (P x); cbn [filter];
    destruct (String.eqb (fst (fst x)) d); cbn [List.length]; lia.
Qed.

Lemma shard_count_renamed d (p p' : path) v :
  fst p' = fst p ->
  shard_count d (map (rename_record p p') v) = shard_count d v.
Proof.
  intros Hp. unfold shard_count. induction v as [|x v IH]; [reflexivity|].
  cbn [map filter].
  replace (fst (fst (rename_record p p' x))) with (fst (fst x)).
  - destruct (String.eqb (fst (fst x)) d); cbn [List.length]; rewrite IH;
      reflexivity.
  - unfold rename_record. destruct (path_eqb (fst x) p) eqn:E; [|reflexivity].
    apply path_eqb_eq in E. cbn [fst]. rewrite Hp, E. reflexivity.
Qed.

Lemma shard_count_one d (q : path) (f : file) :
  shard_count d [(q, f)] = if String.eqb (fst q) d then 1%nat else 0%nat.
Proof.
  unfold shard_count. cbn [filter fst].
  destruct (String.eqb (fst q) d); reflexivity.
Qed.

(** One more record in a shard that is not full. *)
Lemma shard_count_added size (v v' : list (path * file)) q f :
  (forall d, (Z.of_nat (shard_count d v) <= size)%Z) ->
  (Z.of_nat (shard_count (fst q) v) < size)%Z ->
  (forall d, (shard_count d v' <= shard_count d v)%nat) ->
  forall d, (Z.of_nat (shard_count d (v' ++ [(q, f)])) <= size)%Z.
Proof.
  intros Hb Hq Hle d. rewrite shard_count_app, shard_count_one.
  specialize (Hb d). specialize (Hle d).
  destruct (String.eqb (fst q) d) eqn:E; [|lia].
  apply String.eqb_eq in E. subst d. lia.
Qed.

Section ShardSize.

Context {imports : Imports}.

(** The HELD record of an accepted type goes to a shard that is not
    full. *)
Lemma reprocess_body_moved size po acc fs p f offset m :
  wf_fs fs = true -> In (p, f) (view fs) ->
  loads (content f) = Some m ->
  Py.contains HELD (_get_flags p) = true ->
  Py.mem (msg_type m) acc = true ->
  exists fs' q,
    reprocess_body size po acc p offset fs = (fs', inr (offset, false))
    /\ view fs' =
       filter (fun r => negb (path_eqb (fst r) p)) (view fs) ++ [(q, f)]
    /\ ((1 <= size)%Z ->
        (Z.of_nat (shard_count (fst q) (view fs)) < size)%Z).
Proof.
  destruct p as [d0 n0]. intros Hwf Hin El Eh Ea.
  pose proof (view_record_name _ _ _ _ Hwf Hin) as Hrn.
  pose proof (record_name_flags n0 d0 Hrn) as Hflags.
  unfold reprocess_body. unfold bind at 1.
  rewrite (read_record _ _ _ Hwf Hin), El, Eh, Ea.
  destruct (next_message_filename_spec size fs Hwf)
    as (fs1 & d & n & before & dir & k & Hr1 & Hwf1 & Hv1 & _ & Hs1 & Hn
        & Hk & _ & _ & Hch).
  unfold bind at 1. rewrite Hr1.
  assert (Hin1 : In ((d0, n0), f) (view fs1)) by (rewrite Hv1; assumption).
  destruct (move_record fs1 (d0, n0) f before d dir n k Hwf1 Hin1 Hs1 Hn Hk)
    as (fs2 & Hr2 & Hwf2 & Hv2 & _).
  unfold bind at 1. rewrite Hr2.
  assert (Hin2 : In ((d, n), f) (view fs2)).
  { rewrite Hv2. apply in_or_app. right. left. reflexivity. }
  assert (HF : Py.discard HELD (_get_flags (d0, n0)) = EmptyString \/
               canonical_flags
                 (Py.sorted_set (Py.discard HELD (_get_flags (d0, n0))))
               = true).
  { destruct Hflags as [E|[E|[E|E]]]; rewrite E in *;
      try discriminate; [left|right]; reflexivity. }
  destruct (set_flags_record fs2 d n f _ Hwf2 Hin2 HF)
    as (fs3 & Hr3 & _ & Hv3 & _).
  unfold bind at 1. rewrite Hr3. unfold ret.
  exists fs3, (d, set_flags_name n (Py.discard HELD (_get_flags (d0, n0)))).
  split; [reflexivity|]. split.
  - pose proof (view_nodup _ Hwf2) as Hnd. rewrite Hv2, map_app in Hnd.
    apply NoDup_remove_2 in Hnd. rewrite app_nil_r in Hnd. cbn [fst] in Hnd.
    rewrite Hv3, Hv2, map_app, <- Hv1. f_equal.
    + apply map_all. intros r Hr. unfold rename_record.
      destruct (path_eqb (fst r) (d, n)) eqn:E; [|reflexivity].
      apply path_eqb_eq in E. exfalso. apply Hnd. rewrite <- E.
      apply in_map. assumption.
    + simpl. unfold rename_record. cbn [fst snd].
      rewrite path_eqb_refl. reflexivity.
  - intros Hsize. cbn [fst]. rewrite <- Hv1. unfold shard_count.
    rewrite (last_shard_records fs1 before d dir Hwf1 Hs1).
    rewrite (records_of_shard_length d n).
    apply chosen_bound; assumption.
Qed.

Lemma reprocess_body_bounded size po acc fs p f offset fs' offset' :
  wf_fs fs = true -> In (p, f) (view fs) -> (1 <= size)%Z ->
  reprocess_body size po acc p offset fs = (fs', inr (offset', false)) ->
  (forall d, (Z.of_nat (shard_count d (view fs)) <= size)%Z) ->
  forall d, (Z.of_nat (shard_count d (view fs')) <= size)%Z.
Proof.
  intros Hwf Hin Hsize Hb Hbound.
  destruct (reprocess_body_record size po acc fs p f offset Hwf Hin)
    as (fs1 & offset1 & Hb1 & _ & _ & Hcase).
  rewrite Hb in Hb1. injection Hb1 as <- <-.
  destruct (loads (content f)) as [m|] eqn:El;
    [|destruct Hcase as [-> _]; exact Hbound].
  destruct (Py.contains HELD (_get_flags p)) eqn:Eh;
    destruct Hcase as [_ Hcase].
  - destruct (Py.mem (msg_type m) acc) eqn:Em; [|subst; exact Hbound].
    destruct (reprocess_body_moved size po acc fs p f offset m Hwf Hin El Eh
                Em) as (fs2 & q & Hb2 & Hv & Hq).
    rewrite Hb in Hb2. injection Hb2 as <-. rewrite Hv.
    apply (shard_count_added size (view fs)); auto.
    intros d. apply shard_count_filter.
  - destruct (negb (Py.mem (msg_type m) acc) && (po <=? offset)%Z);
      [|subst; exact Hbound].
    intros d. rewrite Hcase, shard_count_renamed; [apply Hbound|reflexivity].
Qed.

Lemma reprocess_holding_bounded self :
  wf_store self = true -> (1 <= _directory_size self)%Z ->
  shards_bounded self ->
  exists fs',
    _reprocess_holding self =
    (mkstore (_directory_size self) (_schemas self) (_persist self) fs',
     inr tt)
    /\ wf_fs fs' = true
    /\ forall d, (Z.of_nat (shard_count d (view fs')) <= _directory_size self)%Z.
Proof.
  intros Hwf Hsize Hbound.
  destruct (reprocess_holding_inv
              (fun _ _ fs =>
                 forall d, (Z.of_nat (shard_count d (view fs))
                            <= _directory_size self)%Z)
              self Hwf) as (fs' & offset & Hr & Hwf' & Hb).
  - intros a a' offset fs _ H. exact H.
  - intros a offset fs p f fs' offset' Hwfs HI _ Hin Hb.
    exact (reprocess_body_bounded _ _ _ fs p f offset fs' offset' Hwfs Hin
             Hsize Hb HI).
  - exact Hbound.
  - exists fs'. auto.
Qed.

End ShardSize.

Lemma store_eta self :
  mkstore (_directory_size self) (_schemas self) (_persist self)
    (_directory self) = self.
Proof. destruct self; reflexivity. Qed.

Lemma reclassified_shard_count {imports : Imports} accepted todo d v v' :
  Forall2 (reclassified accepted todo) v v' ->
  shard_count d v' = shard_count d v.
Proof.
  unfold shard_count. induction 1 as [|r r' v v' Hr _ IH]; [reflexivity|].
  cbn [filter].
  assert (E : fst (fst r') = fst (fst r)).
  { destruct Hr as [_ [->|(t & _ & _ & [[_ ->]|(m & _ & _ & ->)])]];
      reflexivity. }
  rewrite E. destruct (String.eqb (fst (fst r)) d); cbn [List.length];
    rewrite IH; reflexivity.
Qed.

Section Perform.

Context {imports : Imports}.

(** A call on a well-formed store leaves a well-formed store; the only
    exceptions are those of [add] for a message without a schema or that
    its schema rejects, and the [ValueError] of [itertools.islice] in
    [delete_old_messages] under a pending offset that is negative or above
    [sys.maxsize], and the store is then as it was. *)
Lemma perform_total op self :
  wf_store self = true ->
  wf_store (fst (perform op self)) = true
  /\ _directory_size (fst (perform op self)) = _directory_size self
  /\ forall e,
       snd (perform op self) = Some e ->
       fst (perform op self) = self
       /\ ((exists message, op = Add message /\ SchemaError e)
           \/ (op = DeleteOldMessages /\ e = ValueError
               /\ ((get_pending_offset self < 0)%Z
                   \/ (sys.maxsize < get_pending_offset self)%Z))).
Proof.
  intros Hwf.
  assert (Hmeta : forall self' : MessageStore,
            _directory self' = _directory self ->
            _directory_size self' = _directory_size self ->
            wf_store (fst (self', @None exn)) = true
            /\ _directory_size (fst (self', @None exn)) = _directory_size self
            /\ forall e, snd (self', @None exn) = Some e ->
                 fst (self', @None exn) = self
                 /\ ((exists message, op = Add message /\ SchemaError e)
                     \/ (op = DeleteOldMessages /\ e = ValueError
                         /\ ((get_pending_offset self < 0)%Z
                             \/ (sys.maxsize < get_pending_offset self)%Z)))).
  { intros self' Hd Hs. cbn [fst snd]. unfold wf_store.
    rewrite Hd, Hs. repeat split; try assumption; discriminate. }
  destruct op; cbn [perform]; try (apply Hmeta; reflexivity).
  - (* add *)
    pose proof (add_spec message self Hwf) as Hs.
    destruct (lookup (msg_type message) (_schemas self)) as [s|] eqn:El.
    2:{ rewrite Hs. unfold outcome. cbn [fst snd].
        repeat split; try assumption.
        left. exists message. split; [reflexivity|].
        injection H as <-. left. reflexivity. }
    destruct (coerce s message) as [coerced|] eqn:Ec.
    2:{ rewrite Hs. unfold outcome. cbn [fst snd].
        repeat split; try assumption.
        left. exists message. split; [reflexivity|].
        injection H as <-. right. reflexivity. }
    destruct Hs as (self' & p & f & Ha & _ & Hwf' & _ & _ & _ & _ & Hsz).
    rewrite Ha. unfold outcome. cbn [fst snd].
    split; [exact Hwf'|]. split; [exact Hsz|discriminate].
  - (* get_pending_messages *)
    destruct (get_pending_messages_spec max self Hwf)
      as (self' & Hg & Hwf' & _ & _ & _ & _ & Hsz).
    rewrite Hg. unfold outcome. cbn [fst snd].
    split; [exact Hwf'|]. split; [exact Hsz|discriminate].
  - (* count_pending_messages *)
    rewrite (count_pending_messages_spec self Hwf). unfold outcome.
    cbn [fst snd]. repeat split; try assumption; discriminate.
  - (* is_pending *)
    rewrite (is_pending_spec message_id self Hwf). unfold outcome.
    cbn [fst snd]. repeat split; try assumption; discriminate.
  - (* delete_old_messages *)
    assert (Hcases : (0 <= get_pending_offset self <= sys.maxsize)%Z
                     \/ ((get_pending_offset self < 0)%Z
                         \/ (sys.maxsize < get_pending_offset self)%Z))
      by lia.
    destruct Hcases as [En|En].
    + destruct (delete_old_messages_spec self Hwf En)
        as (self' & Hd & Hwf' & _ & _ & _ & _ & Hsz).
      rewrite Hd. unfold outcome. cbn [fst snd].
      split; [exact Hwf'|]. split; [exact Hsz|discriminate].
    + rewrite (delete_old_messages_raises self En). unfold outcome.
      cbn [fst snd]. repeat split; try assumption. right.
      injection H as <-. auto.
  - (* delete_all_messages *)
    destruct (delete_all_messages_spec self Hwf)
      as (self' & Hd & Hwf' & _ & _ & _ & _ & Hsz).
    rewrite Hd. unfold outcome. cbn [fst snd].
    split; [exact Hwf'|]. split; [exact Hsz|discriminate].
  - (* set_accepted_types *)
    unfold set_accepted_types.
    match goal with
    | |- context [_reprocess_holding ?s] => set (self2 := s)
    end.
    destruct (reprocess_holding_undecodable self2 Hwf)
      as (fs' & Hr & Hwf' & _).
    rewrite Hr. unfold outcome. cbn [fst snd].
    split; [exact Hwf'|]. split; [reflexivity|discriminate].
Qed.

(** A call leaves no shard with more than [directory_size] records. *)
Lemma perform_bounded op self :
  wf_store self = true -> (1 <= _directory_size self)%Z ->
  shards_bounded self ->
  shards_bounded (fst (perform op self)).
Proof.
  intros Hwf Hsize Hbound.
  assert (Hmeta : forall self' : MessageStore,
            _directory self' = _directory self ->
            _directory_size self' = _directory_size self ->
            shards_bounded self').
  { intros self' Hd Hs. unfold shards_bounded. rewrite Hd, Hs.
    exact Hbound. }
  destruct op; cbn [perform]; try (apply Hmeta; reflexivity).
  - (* add *)
    pose proof (add_spec message self Hwf) as Hs.
    destruct (lookup (msg_type message) (_schemas self)) as [s|] eqn:El;
      [|rewrite Hs; exact Hbound].
    destruct (coerce s message) as [coerced|] eqn:Ec;
      [|rewrite Hs; exact Hbound].
    destruct (add_record message self s coerced Hwf El Ec)
      as (self' & p & f & Ha & _ & _ & Hv & _ & _ & _ & Hsz & Hfree).
    rewrite Ha. unfold outcome. cbn [fst snd].
    unfold shards_bounded. rewrite Hv, Hsz.
    apply (shard_count_added _ (view (_directory self))); auto.
  - (* get_pending_messages *)
    destruct (get_pending_messages_spec max self Hwf)
      as (self' & Hg & _ & Hv & _ & _ & _ & Hsz).
    rewrite Hg. unfold outcome. cbn [fst snd].
    intros d. rewrite Hsz, Hv.
    rewrite (reclassified_shard_count (get_accepted_types self)
               (pending (get_pending_offset self) (view (_directory self)))
               d (view (_directory self))).
    + apply Hbound.
    + apply scan_records. intros [[d' n] f] Ht. apply pending_in in Ht.
      destruct Ht as [Hin Hu]. split; [assumption|].
      apply (view_record_name _ _ _ _ Hwf Hin).
  - (* count_pending_messages *)
    rewrite (count_pending_messages_spec self Hwf). exact Hbound.
  - (* is_pending *)
    rewrite (is_pending_spec message_id self Hwf). exact Hbound.
  - (* delete_old_messages *)
    unfold outcome. cbn [fst snd].
    assert (Hcases : (0 <= get_pending_offset self <= sys.maxsize)%Z
                     \/ ((get_pending_offset self < 0)%Z
                         \/ (sys.maxsize < get_pending_offset self)%Z))
      by lia.
    destruct Hcases as [En|En];
      [|rewrite (delete_old_messages_raises self En); exact Hbound].
    + destruct (delete_old_messages_spec self Hwf En)
        as (self' & Hd & _ & Hv & _ & _ & _ & Hsz).
      rewrite Hd. cbn [fst].
      intros d. rewrite Hsz, Hv. unfold without_old.
      pose proof (shard_count_filter d
                    (fun r => negb (path_in (fst r)
                                      (old_records (get_pending_offset self)
                                         (view (_directory self)))))
                    (view (_directory self))).
      specialize (Hbound d). lia.
  - (* delete_all_messages *)
    destruct (delete_all_messages_spec self Hwf)
      as (self' & Hd & _ & Hv & _ & _ & _ & Hsz).
    rewrite Hd. unfold outcome. cbn [fst snd].
    intros d. rewrite Hsz, Hv. cbn. lia.
  - (* set_accepted_types *)
    unfold set_accepted_types.
    match goal with
    | |- context [_reprocess_holding ?s] => set (self2 := s)
    end.
    destruct (reprocess_holding_bounded self2 Hwf Hsize Hbound)
      as (fs' & Hr & _ & Hb).
    rewrite Hr. unfold outcome. cbn [fst snd]. exact Hb.
Qed.

Lemma perform_all_keeps ops : forall self,
  wf_store self = true -> (1 <= _directory_size self)%Z ->
  shards_bounded self ->
  wf_store (perform_all ops self) = true
  /\ shards_bounded (perform_all ops self)
  /\ _directory_size (perform_all ops self) = _directory_size self.
Proof.
  induction ops as [|op ops IH]; intros self Hwf Hsize Hbound;
    cbn [perform_all]; [auto|].
  destruct (perform_total op self Hwf) as (Hwf' & Hsz & _).
  pose proof (perform_bounded op self Hwf Hsize Hbound) as Hb'.
  destruct (IH (fst (perform op self)) Hwf') as (H1 & H2 & H3);
    [rewrite Hsz; assumption|assumption|].
  split; [exact H1|]. split; [exact H2|]. congruence.
Qed.

Lemma perform_all_wf ops : forall self,
  wf_store self = true -> wf_store (perform_all ops self) = true.
Proof.
  induction ops as [|op ops IH]; intros self Hwf; cbn [perform_all];
    [assumption|].
  apply IH. apply (perform_total op self Hwf).
Qed.

End Perform.

(** Whatever calls were made on a store that started on an empty
    directory, the store is well formed and the next call returns, with
    two exceptions that leave the store as it is: [add] raises for a message
    without a schema or that its schema rejects, and [delete_old_messages]
    raises [ValueError] when the pending offset has been set below 0 or
    above [sys.maxsize], the arguments [itertools.islice] rejects.  In
    particular no call raises [OSError], and no walk meets a name it
    cannot sort. *)
Theorem operations_never_break {imports : Imports}
    (directory_size : Z) (schemas : list (string * schema)) (p : persist)
    (first_ino : N) (ops : list operation) (op : operation) :
  let self :=
    perform_all ops (new_store directory_size schemas p first_ino) in
  wf_store self = true
  /\ wf_store (fst (perform op self)) = true
  /\ forall e,
       snd (perform op self) = Some e ->
       fst (perform op self) = self
       /\ ((exists message, op = Add message /\ SchemaError e)
           \/ (op = DeleteOldMessages /\ e = ValueError
               /\ ((get_pending_offset self < 0)%Z
                   \/ (sys.maxsize < get_pending_offset self)%Z))).
Proof.
  intros self.
  assert (Hwf : wf_store self = true).
  { apply perform_all_wf. reflexivity. }
  split; [exact Hwf|].
  destruct (perform_total op self Hwf) as (H1 & _ & H2). auto.
Qed.

(** With [directory_size] at least 1, no shard of a store that started on
    an empty directory ever holds more than [directory_size] records,
    whatever calls were made. *)
Theorem shard_size_bound {imports : Imports}
    (directory_size : Z) (schemas : list (string * schema)) (p : persist)
    (first_ino : N) (ops : list operation) :
  (1 <= directory_size)%Z ->
  shards_bounded
    (perform_all ops (new_store directory_size schemas p first_ino)).
Proof.
  intros Hsize.
  apply perform_all_keeps; [reflexivity|exact Hsize|].
  intros d. cbn. lia.
Qed.

Lemma shard_size_bound_witness :
  shards_bounded
    (perform_all (imports := Example.toy_imports)
       [AddSchema (snd (Example.any_schema "a"));
        Add (mkmsg "a" None []); Add (mkmsg "a" None [])]
       (new_store 1 [] (Example.metadata ["a"%string] 0) 1)).
Proof.
  apply (shard_size_bound (imports := Example.toy_imports)). lia.
Defined.

(** ** [is_pending] across [get_pending_messages] *)

Lemma unflagged_records_split (b a : list (path * file)) r :
  unflagged_records (b ++ r :: a) =
  unflagged_records b ++ (if unflagged (fst r) then [r] else [])
  ++ unflagged_records a.
Proof.
  unfold unflagged_records. rewrite filter_app. cbn [filter].
  destruct (unflagged (fst r)); reflexivity.
Qed.

(** A pending record has [pending_offset] unflagged records before it. *)
Lemma pending_position po (b a : list (path * file)) r :
  NoDup (map fst (b ++ r :: a)) ->
  In r (pending po (b ++ r :: a)) ->
  (po <= Z.of_nat (List.length (unflagged_records b)))%Z.
Proof.
  intros Hnd Hin.
  destruct (Z_le_gt_dec po (Z.of_nat (List.length (unflagged_records b))))
    as [Hle|Hgt]; [exact Hle|exfalso].
  pose proof (pending_in _ _ _ Hin) as [_ Hu].
  unfold pending in Hin. rewrite unflagged_records_split, Hu in Hin.
  rewrite skipn_app in Hin.
  rewrite (skipn_all2 (unflagged_records b)) in Hin by lia.
  cbn [app] in Hin.
  remember (Z.to_nat po - List.length (unflagged_records b))%nat as k eqn:Ek.
  destruct k as [|k]; [lia|]. cbn [app skipn] in Hin.
  apply in_skipn in Hin. apply unflagged_records_in in Hin.
  destruct Hin as [Hin _].
  rewrite map_app in Hnd. cbn [map] in Hnd.
  apply NoDup_remove_2 in Hnd. apply Hnd. apply in_or_app. right.
  apply in_map. assumption.
Qed.

Section Kept.

Context {imports : Imports}.

Variables (accepted : list string) (po : Z) (fs : filesystem).

Hypothesis Hwf : wf_fs fs = true.

Let v := view fs.
Let todo := pending po v.

Lemma todo_record t :
  In t todo ->
  In t v /\ unflagged (fst t) = true /\ record_name (snd (fst t)) = true.
Proof.
  intros Ht. apply pending_in in Ht. destruct Ht as [Hin Hu].
  split; [assumption|]. split; [assumption|].
  destruct t as [[d n] f]. apply (view_record_name _ _ _ _ Hwf Hin).
Qed.

(** What a record is after the loop of [get_pending_messages], for
    [is_pending]. *)
Lemma reclassified_cases r r' :
  In r v -> reclassified accepted todo r r' ->
  snd r' = snd r
  /\ ((fst r' = fst r)
      \/ (In r todo /\ loads (content (snd r)) = None
          /\ Py.contains BROKEN (_get_flags (fst r')) = true)
      \/ (In r todo
          /\ Py.contains BROKEN (_get_flags (fst r')) = false
          /\ Py.contains HELD (_get_flags (fst r')) = true)).
Proof.
  intros Hin [Hs Hp]. split; [exact Hs|].
  destruct Hp as [Hp|(t & Ht & Et & Hcase)]; [left; exact Hp|].
  destruct (todo_record t Ht) as (Htv & Hu & Hn).
  assert (t = r).
  { destruct t as [p f], r as [q g]. cbn [fst] in Et. subst q.
    f_equal. apply (view_same_path fs p); assumption. }
  subst t. destruct r as [[d n] f]. cbn [fst snd] in *.
  destruct Hcase as [[Hl ->]|(m & Hl & Hm & ->)]; right.
  - left. split; [assumption|]. split; [assumption|].
    destruct (add_flags_path_facts d n BROKEN Hn Hu (or_intror eq_refl))
      as (_ & _ & -> & _). reflexivity.
  - right. split; [assumption|].
    destruct (add_flags_path_facts d n HELD Hn Hu (or_introl eq_refl))
      as (_ & _ & -> & _). split; reflexivity.
Qed.

Lemma unflagged_after b b' :
  (forall x, In x b -> In x v) ->
  Forall2 (reclassified accepted todo) b b' ->
  (List.length (unflagged_records b') <= List.length (unflagged_records b))%nat.
Proof.
  intros Hb HF. induction HF as [|x x' b b' Hx _ IH]; [apply Nat.le_refl|].
  assert (IH' := IH (fun y Hy => Hb y (or_intror Hy))).
  destruct (reclassified_cases x x' (Hb x (or_introl eq_refl)) Hx)
    as (_ & [Hp|[(Ht & _ & Hbr)|(Ht & _ & Hh)]]);
    unfold unflagged_records in *; cbn [filter].
  - rewrite Hp. destruct (unflagged (fst x)); cbn [List.length]; lia.
  - rewrite (unflagged_spec (fst x')), Hbr. cbn [negb andb].
    destruct (unflagged (fst x)); cbn [List.length]; lia.
  - rewrite (unflagged_spec (fst x')), Hh, andb_false_r.
    destruct (unflagged (fst x)); cbn [List.length]; lia.
Qed.

Lemma old_prefix_kept b r a b' :
  v = b ++ r :: a ->
  Forall2 (reclassified accepted todo) b b' ->
  (po <= Z.of_nat (List.length (unflagged_records b)))%Z ->
  (po <= Z.of_nat (List.length (unflagged_records b')))%Z.
Proof.
  intros Hv HF Hpo.
  pose proof (view_nodup _ Hwf) as Hnd. fold v in Hnd.
  assert (Hndb : NoDup (map fst b)).
  { rewrite Hv, map_app in Hnd. exact (NoDup_app_remove_r _ _ Hnd). }
  assert (Hold : old_records po v = firstn (Z.to_nat po) (unflagged_records b)).
  { unfold old_records. rewrite Hv, unflagged_records_split, firstn_app.
    replace (Z.to_nat po - List.length (unflagged_records b))%nat
      with 0%nat by lia.
    cbn [firstn]. apply app_nil_r. }
  pose proof (Forall2_count _
                (fun x => path_in (fst x) (old_records po v))
                (fun x => unflagged (fst x)) _ _ HF) as Hc.
  assert (Hlen : List.length
                   (filter (fun x => path_in (fst x) (old_records po v)) b)
                 = Z.to_nat po).
  { rewrite Hold. unfold unflagged_records.
    rewrite (filter_path_in_firstn (fun x => unflagged (fst x)))
      by assumption.
    rewrite length_firstn. fold (unflagged_records b). lia. }
  rewrite Hlen in Hc.
  enough (Z.to_nat po <= List.length (unflagged_records b'))%nat by lia.
  apply Hc. intros x x' (Hs & Hx) Hq.
  pose proof Hq as Hq'. apply path_in_true in Hq. apply in_map_iff in Hq.
  destruct Hq as (y & Ey & Hy).
  destruct Hx as [Hx|(t & Ht & Et & _)].
  - rewrite Hx, <- Ey. apply old_records_in in Hy. tauto.
  - exfalso. pose proof (pending_in _ _ _ Ht) as [Htv _].
    pose proof (not_old po v t Hnd Htv (or_intror Ht)) as Hno.
    rewrite Et in Hno. congruence.
Qed.

End Kept.

Lemma Forall2_split_l {X Y : Type} (R : X -> Y -> Prop) b r a l' :
  Forall2 R (b ++ r :: a) l' ->
  exists b' r' a',
    l' = b' ++ r' :: a' /\ Forall2 R b b' /\ R r r' /\ Forall2 R a a'.
Proof.
  intros H. apply Forall2_app_inv_l in H.
  destruct H as (b' & l2 & Hb & H2 & ->).
  inversion H2 as [|? r' ? a' Hr Ha]; subst.
  exists b', r', a'. auto.
Qed.

Lemma Forall2_split_r {X Y : Type} (R : X -> Y -> Prop) l b' r' a' :
  Forall2 R l (b' ++ r' :: a') ->
  exists b r a,
    l = b ++ r :: a /\ Forall2 R b b' /\ R r r' /\ Forall2 R a a'.
Proof.
  intros H. apply Forall2_app_inv_r in H.
  destruct H as (b & l2 & Hb & H2 & ->).
  inversion H2 as [|r ? a ? Hr Ha]; subst.
  exists b, r, a. auto.
Qed.

(** [get_pending_messages] changes no answer of [is_pending], but for the
    records it flags BROKEN: for an identifier that no pending record
    with an undecodable content has, [is_pending] answers the same before
    and after the call. *)
Theorem get_pending_keeps_is_pending {imports : Imports}
    (max : option Z) (self : MessageStore) (message_id : N) :
  wf_store self = true ->
  (forall r,
      In r (pending (get_pending_offset self) (view (_directory self))) ->
      loads (content (snd r)) = None -> st_ino (snd r) <> message_id) ->
  exists once messages answer,
    get_pending_messages max self = (once, inr messages)
    /\ is_pending message_id self = (self, inr answer)
    /\ is_pending message_id once = (once, inr answer).
Proof.
  intros Hwf Hid.
  destruct (get_pending_messages_spec max self Hwf)
    as (once & Hg & Hwf1 & Hv & _ & Hp & _).
  assert (Ho : get_pending_offset once = get_pending_offset self).
  { unfold get_pending_offset. rewrite Hp. reflexivity. }
  set (po := get_pending_offset self) in *.
  set (v := view (_directory self)) in *.
  set (accepted := get_accepted_types self) in *.
  assert (HF : Forall2 (reclassified accepted (pending po v)) v
                 (view (_directory once))).
  { rewrite Hv. apply scan_records. intros t Ht.
    destruct (todo_record po (_directory self) Hwf t Ht) as (_ & H1 & H2).
    auto. }
  eexists once, _, _. split; [exact Hg|].
  split; [apply is_pending_spec; exact Hwf|].
  rewrite (is_pending_spec message_id once Hwf1), Ho. f_equal. f_equal.
  apply eq_true_iff_eq. rewrite !is_pending_scan_iff. fold v.
  cbn [Nat.add].
  pose proof (reclassified_cases accepted po (_directory self) Hwf) as Hcases.
  pose proof (unflagged_after accepted po (_directory self) Hwf) as Hafter.
  pose proof (old_prefix_kept accepted po (_directory self) Hwf) as Hkept.
  fold v in Hcases, Hafter, Hkept.
  set (R := reclassified accepted (pending po v)) in *.
  split.
  - intros (b' & r' & a' & Hsplit & Hb & Hi & Hpend).
    rewrite Hsplit in HF.
    destruct (Forall2_split_r R v b' r' a' HF)
      as (b & r & a & Hvs & HFb & Hr & _).
    assert (Hrv : In r v).
    { rewrite Hvs. apply in_or_app. right. left. reflexivity. }
    destruct (Hcases r r' Hrv Hr)
      as (Hs & [Hpath|[(_ & _ & Hbr)|(Ht & _ & _)]]).
    + exists b, r, a. split; [exact Hvs|]. rewrite <- Hpath, <- Hs.
      split; [exact Hb|]. split; [exact Hi|].
      destruct Hpend as [Hh|Hle]; [left; exact Hh|right].
      assert (Hb_in : forall x, In x b -> In x v).
      { intros x Hx. rewrite Hvs. apply in_or_app. left. assumption. }
      pose proof (Hafter b b' Hb_in HFb). lia.
    + congruence.
    + exists b, r, a. split; [exact Hvs|].
      pose proof (pending_in _ _ _ Ht) as [_ Hu].
      rewrite unflagged_spec in Hu. apply andb_true_iff in Hu.
      destruct Hu as [Hu _]. apply negb_true_iff in Hu.
      split; [exact Hu|]. split; [congruence|]. right.
      apply (pending_position po b a r).
      * rewrite <- Hvs. apply view_nodup. exact Hwf.
      * rewrite <- Hvs. exact Ht.
  - intros (b & r & a & Hsplit & Hb & Hi & Hpend).
    assert (HF' : Forall2 R (b ++ r :: a) (view (_directory once))).
    { rewrite <- Hsplit. exact HF. }
    destruct (Forall2_split_l R b r a _ HF')
      as (b' & r' & a' & Hvs & HFb & Hr & _).
    assert (Hrv : In r v).
    { rewrite Hsplit. apply in_or_app. right. left. reflexivity. }
    destruct (Hcases r r' Hrv Hr)
      as (Hs & [Hpath|[(Ht & Hl & _)|(_ & Hnb & Hh)]]).
    + exists b', r', a'. split; [exact Hvs|]. rewrite Hpath, Hs.
      split; [exact Hb|]. split; [exact Hi|].
      destruct Hpend as [Hh|Hle]; [left; exact Hh|right].
      exact (Hkept b r a b' Hsplit HFb Hle).
    + exfalso. exact (Hid r Ht Hl Hi).
    + exists b', r', a'. split; [exact Hvs|]. split; [exact Hnb|].
      split; [congruence|]. left. exact Hh.
Qed.

Lemma get_pending_keeps_is_pending_witness :
  exists once messages answer,
    get_pending_messages (imports := Example.toy_imports) None
      Example.three_records = (once, inr messages)
    /\ is_pending 3%N once = (once, inr answer).
Proof.
  destruct (get_pending_keeps_is_pending (imports := Example.toy_imports)
              None Example.three_records 3%N eq_refl)
    as (once & messages & answer & H1 & _ & H3).
  - intros r Hr Hl. cbn in Hr.
    destruct Hr as [<-|[<-|[]]]; discriminate Hl.
  - exists once, messages, answer. split; [exact H1|exact H3].
Defined.

(** ** The inodes of the tree *)

Lemma NoDup_replace_middle {X : Type} (A I I' B : list X) :
  NoDup (A ++ I ++ B) -> NoDup I' ->
  (forall x, In x I' -> In x I \/ ~ In x (A ++ I ++ B)) ->
  NoDup (A ++ I' ++ B).
Proof.
  intros Hnd HI' Hx.
  assert (HA : NoDup A) by (apply NoDup_app_remove_r in Hnd; exact Hnd).
  assert (HB : NoDup B).
  { apply NoDup_app_remove_l in Hnd. apply NoDup_app_remove_l in Hnd.
    exact Hnd. }
  assert (Hdis : forall x, In x A -> In x (I ++ B) -> False).
  { intros x H1 H2. revert Hnd H1 H2. clear. induction A as [|a A IH];
      intros Hnd H1 H2; [contradiction|].
    cbn [app] in Hnd. inversion Hnd as [|? ? Ha Hnd']; subst.
    destruct H1 as [->|H1]; [apply Ha; apply in_or_app; auto|].
    exact (IH Hnd' H1 H2). }
  assert (HIB : forall x, In x I -> In x B -> False).
  { intros x H1 H2. apply NoDup_app_remove_l in Hnd.
    revert Hnd H1 H2. clear. induction I as [|a I IH];
      intros Hnd H1 H2; [contradiction|].
    cbn [app] in Hnd. inversion Hnd as [|? ? Ha Hnd']; subst.
    destruct H1 as [->|H1]; [apply Ha; apply in_or_app; auto|].
    exact (IH Hnd' H1 H2). }
  assert (Hout : forall x, In x I' -> ~ In x A /\ ~ In x B).
  { intros x Hin. destruct (Hx x Hin) as [HI|Hno].
    - split; intros H.
      + apply (Hdis x H). apply in_or_app. auto.
      + exact (HIB x HI H).
    - split; intros H; apply Hno; apply in_or_app; [auto|right].
      apply in_or_app. auto. }
  assert (HI'B : NoDup (I' ++ B)).
  { clear -HI' HB Hout. induction I' as [|a I' IH]; [exact HB|].
    inversion HI' as [|? ? Ha HI'']; subst. cbn [app]. constructor.
    - intros H. apply in_app_iff in H. destruct H as [H|H]; [auto|].
      apply (proj2 (Hout a (or_introl eq_refl))). exact H.
    - apply IH; [assumption|]. intros x Hx. apply Hout. right. exact Hx. }
  clear -HA HI'B Hout Hdis. induction A as [|a A IH]; [exact HI'B|].
  inversion HA as [|? ? Ha HA']; subst. cbn [app]. constructor.
  - intros H. apply in_app_iff in H. destruct H as [H|H]; [auto|].
    apply in_app_iff in H. destruct H as [H|H].
    + apply (proj1 (Hout a H)). left. reflexivity.
    + apply (Hdis a); [left; reflexivity|]. apply in_or_app. auto.
  - apply IH; [assumption| |].
    + intros x H1 H2. apply (Hdis x); [right|]; assumption.
    + intros x Hx. destruct (Hout x Hx) as [H1 H2]. split; [|exact H2].
      intros H. apply H1. right. exact H.
Qed.

Lemma entries_app fs l1 l2 :
  shards fs = l1 ++ l2 ->
  entries fs = flat_map shard_entries l1 ++ flat_map shard_entries l2.
Proof. intros H. unfold entries. rewrite H. apply flat_map_app. Qed.

Lemma shard_entries_inodes d (dir : directory) :
  map inode (shard_entries (d, dir)) = map st_ino (map snd dir).
Proof. unfold shard_entries. rewrite !map_map. reflexivity. Qed.

Lemma in_entries (fs : filesystem) d dir n f :
  In (d, dir) (shards fs) -> In (n, f) dir -> In ((d, n), f) (entries fs).
Proof.
  intros Hd Hn. unfold entries. apply in_flat_map. exists (d, dir).
  split; [assumption|]. unfold shard_entries. apply in_map_iff.
  exists (n, f). auto.
Qed.

Lemma in_entries_inv (fs : filesystem) e :
  In e (entries fs) ->
  exists dir, In (fst (fst e), dir) (shards fs)
              /\ In (snd (fst e), snd e) dir.
Proof.
  unfold entries. intros H. apply in_flat_map in H.
  destruct H as ([d dir] & Hd & He). unfold shard_entries in He.
  apply in_map_iff in He. destruct He as ([n f] & <- & Hn).
  exists dir. auto.
Qed.

(** One directory of the tree replaced by another. *)
Lemma fs_ok_replace fs d dir dir' ni :
  fs_ok fs -> lookup d (shards fs) = Some dir ->
  NoDup (map fst dir') ->
  NoDup (map st_ino (map snd dir')) ->
  (forall f, In f (map snd dir') ->
     (exists g, In g (map snd dir) /\ st_ino g = st_ino f)
     \/ ~ In (st_ino f) (map inode (entries fs))) ->
  (forall f, In f (map snd dir') -> (st_ino f < ni)%N) ->
  (next_ino fs <= ni)%N ->
  fs_ok (mkfs (replace_val d dir' (shards fs)) ni).
Proof.
  intros (Hn & Hd & Hi & Hb) Hl Hn' Hi' Hsub Hb' Hni.
  destruct (lookup_split _ _ _ Hl) as (l1 & l2 & Hs & Hl1).
  pose proof Hn as Hn0. rewrite Hs in Hn0.
  apply nodup_split_r in Hn0. destruct Hn0 as (_ & Hl2 & _).
  assert (Hs' : replace_val d dir' (shards fs) = l1 ++ (d, dir') :: l2).
  { rewrite Hs. apply replace_val_split; assumption. }
  assert (He : entries fs =
               flat_map shard_entries l1 ++ shard_entries (d, dir)
               ++ flat_map shard_entries l2).
  { unfold entries. rewrite Hs, flat_map_app. reflexivity. }
  assert (He' : entries (mkfs (replace_val d dir' (shards fs)) ni) =
                flat_map shard_entries l1 ++ shard_entries (d, dir')
                ++ flat_map shard_entries l2).
  { unfold entries. cbn [shards]. rewrite Hs', flat_map_app. reflexivity. }
  unfold fs_ok. cbn [shards next_ino]. split; [|split; [|split]].
  - rewrite map_fst_replace_val. exact Hn.
  - intros d0 dir0 Hin. rewrite Hs' in Hin. apply in_app_iff in Hin.
    destruct Hin as [Hin|[Hin|Hin]].
    + apply (Hd d0). rewrite Hs. apply in_or_app. auto.
    + injection Hin as <- <-. exact Hn'.
    + apply (Hd d0). rewrite Hs. apply in_or_app. right. right. exact Hin.
  - rewrite He'. rewrite He in Hi. rewrite !map_app in *.
    rewrite shard_entries_inodes in *.
    apply (NoDup_replace_middle _ (map st_ino (map snd dir))); try assumption.
    intros x Hx. apply in_map_iff in Hx. destruct Hx as (f & <- & Hf).
    destruct (Hsub f Hf) as [(g & Hg & <-)|Hno].
    + left. apply in_map. exact Hg.
    + right. rewrite He, !map_app, shard_entries_inodes in Hno. exact Hno.
  - intros e Hin. rewrite He' in Hin. apply in_app_iff in Hin.
    assert (Hold : In e (entries fs) -> (inode e < ni)%N).
    { intros H. specialize (Hb e H). lia. }
    destruct Hin as [Hin|Hin]; [apply Hold; rewrite He; apply in_or_app; auto|].
    apply in_app_iff in Hin. destruct Hin as [Hin|Hin].
    + unfold shard_entries in Hin. apply in_map_iff in Hin.
      destruct Hin as (e0 & <- & Hin). unfold inode. cbn [snd].
      apply Hb'. apply in_map. exact Hin.
    + apply Hold. rewrite He. apply in_or_app. right. apply in_or_app. auto.
Qed.

Lemma fs_ok_dir fs d dir :
  fs_ok fs -> lookup d (shards fs) = Some dir ->
  NoDup (map fst dir) /\ NoDup (map st_ino (map snd dir))
  /\ (forall f, In f (map snd dir) ->
        In (st_ino f) (map inode (entries fs))
        /\ (st_ino f < next_ino fs)%N).
Proof.
  intros (Hn & Hd & Hi & Hb) Hl. pose proof (lookup_in _ _ _ Hl) as Hin.
  split; [exact (Hd _ _ Hin)|].
  destruct (lookup_split _ _ _ Hl) as (l1 & l2 & Hs & _).
  assert (He : entries fs =
               flat_map shard_entries l1 ++ shard_entries (d, dir)
               ++ flat_map shard_entries l2).
  { unfold entries. rewrite Hs, flat_map_app. reflexivity. }
  split.
  - rewrite He, !map_app, shard_entries_inodes in Hi.
    apply NoDup_app_remove_l in Hi. apply NoDup_app_remove_r in Hi.
    exact Hi.
  - intros f Hf. apply in_map_iff in Hf. destruct Hf as ([n g] & <- & Hg).
    pose proof (in_entries fs d dir n g Hin Hg) as Hen.
    split; [|exact (Hb _ Hen)].
    apply (in_map inode) in Hen. exact Hen.
Qed.

(** A directory that loses files, or has some renamed or rewritten. *)
Lemma fs_ok_shrink fs d dir dir' :
  fs_ok fs -> lookup d (shards fs) = Some dir ->
  NoDup (map fst dir') ->
  NoDup (map st_ino (map snd dir')) ->
  (forall f, In f (map snd dir') ->
     exists g, In g (map snd dir) /\ st_ino g = st_ino f) ->
  fs_ok (os.set_shards fs (replace_val d dir' (shards fs))).
Proof.
  intros Hok Hl Hn Hi Hsub. unfold os.set_shards.
  destruct (fs_ok_dir _ _ _ Hok Hl) as (_ & _ & Hb).
  apply (fs_ok_replace fs d dir); try assumption.
  - intros f Hf. left. apply Hsub. exact Hf.
  - intros f Hf. destruct (Hsub f Hf) as (g & Hg & <-). apply Hb. exact Hg.
  - lia.
Qed.

Lemma remove_not_in {V : Type} k (l : list (string * V)) :
  ~ In k (map fst (remove k l)).
Proof.
  unfold remove. intros H. apply in_map_iff in H.
  destruct H as (e & <- & He). apply filter_In in He. destruct He as [_ He].
  rewrite String.eqb_refl in He. discriminate.
Qed.

Lemma remove_nodup {V : Type} k (l : list (string * V)) :
  NoDup (map fst l) -> NoDup (map fst (remove k l)).
Proof. unfold remove. apply NoDup_map_filter. Qed.

Lemma remove_inodes k (l : directory) :
  NoDup (map st_ino (map snd l)) ->
  NoDup (map st_ino (map snd (remove k l))).
Proof.
  rewrite !map_map. unfold remove. apply NoDup_map_filter.
Qed.

Lemma remove_files {V : Type} k (l : list (string * V)) f :
  In f (map snd (remove k l)) -> In f (map snd l).
Proof.
  unfold remove. intros H. apply in_map_iff in H.
  destruct H as (e & <- & He). apply filter_In in He. apply in_map. tauto.
Qed.

Lemma rename_key_files {V : Type} k k' (l : list (string * V)) :
  map snd (rename_key k k' l) = map snd l.
Proof.
  unfold rename_key. rewrite map_map. apply map_ext. intros e.
  destruct (String.eqb (fst e) k); reflexivity.
Qed.

Lemma fs_ok_unlink p : keeps fs_ok (os.unlink p).
Proof.
  intros fs Hok. unfold os.unlink.
  destruct (lookup (fst p) (shards fs)) as [d|] eqn:Hd; [|exact Hok].
  destruct (lookup (snd p) d) as [f|] eqn:Hf; [|exact Hok].
  cbn [fst]. destruct (fs_ok_dir _ _ _ Hok Hd) as (Hn & Hi & _).
  apply (fs_ok_shrink fs (fst p) d); try assumption.
  - apply remove_nodup. exact Hn.
  - apply remove_inodes. exact Hi.
  - intros g Hg. exists g. split; [|reflexivity].
    apply (remove_files (snd p)). exact Hg.
Qed.

Lemma fs_ok_rmdir dir : keeps fs_ok (os.rmdir dir).
Proof.
  intros fs Hok. unfold os.rmdir.
  destruct (lookup dir (shards fs)) as [[|e d]|] eqn:Hd; try exact Hok.
  cbn [fst]. destruct Hok as (Hn & Hdirs & Hi & Hb).
  destruct (lookup_split _ _ _ Hd) as (l1 & l2 & Hs & Hl1).
  pose proof Hn as Hn0. rewrite Hs in Hn0.
  apply nodup_split_r in Hn0. destruct Hn0 as (_ & Hl2 & Hn').
  assert (Hr : remove dir (shards fs) = l1 ++ l2).
  { rewrite Hs. apply remove_split; assumption. }
  assert (He : entries (os.set_shards fs (remove dir (shards fs)))
               = entries fs).
  { unfold entries, os.set_shards. cbn [shards]. rewrite Hr, Hs.
    rewrite !flat_map_app. reflexivity. }
  unfold fs_ok. rewrite He. unfold os.set_shards. cbn [shards next_ino].
  rewrite Hr. split; [exact Hn'|]. split; [|split; assumption].
  intros d0 dir0 Hin. apply (Hdirs d0). rewrite Hs.
  apply in_app_iff in Hin. apply in_or_app. destruct Hin; [left|right; right];
    assumption.
Qed.

Lemma fs_ok_makedirs dir : keeps fs_ok (os.makedirs dir).
Proof.
  intros fs Hok. unfold os.makedirs.
  destruct (lookup dir (shards fs)) as [d|] eqn:Hd; [exact Hok|].
  cbn [fst]. destruct Hok as (Hn & Hdirs & Hi & Hb).
  assert (He : entries (os.set_shards fs (shards fs ++ [(dir, [])]))
               = entries fs).
  { unfold entries, os.set_shards. cbn [shards].
    rewrite flat_map_app. cbn. apply app_nil_r. }
  unfold fs_ok. rewrite He. unfold os.set_shards. cbn [shards next_ino].
  split; [|split; [|split; assumption]].
  - rewrite map_app. cbn [map fst]. apply lookup_none in Hd.
    apply NoDup_app; [exact Hn|repeat constructor; intros []|].
    intros x Hx [<-|[]]. exact (Hd Hx).
  - intros d0 dir0 Hin. apply in_app_iff in Hin. destruct Hin as [Hin|[Hin|[]]].
    + exact (Hdirs _ _ Hin).
    + injection Hin as <- <-. constructor.
Qed.

Lemma replace_val_inodes n f data (d : directory) :
  NoDup (map fst d) -> lookup n d = Some f ->
  map st_ino (map snd (replace_val n (mkfile (st_ino f) data) d))
  = map st_ino (map snd d).
Proof.
  intros Hn Hl. destruct (lookup_split _ _ _ Hl) as (l1 & l2 & -> & Hl1).
  apply nodup_split_r in Hn. destruct Hn as (_ & Hl2 & _).
  rewrite replace_val_split by assumption.
  rewrite !map_app. reflexivity.
Qed.

Lemma fs_ok_write p data : keeps fs_ok (os.write p data).
Proof.
  intros fs Hok. unfold os.write.
  destruct (lookup (fst p) (shards fs)) as [d|] eqn:Hd; [|exact Hok].
  destruct (fs_ok_dir _ _ _ Hok Hd) as (Hn & Hi & Hb).
  destruct (lookup (snd p) d) as [f|] eqn:Hf; cbn [fst].
  - apply (fs_ok_shrink fs (fst p) d); try assumption.
    + rewrite map_fst_replace_val. exact Hn.
    + rewrite replace_val_inodes by assumption. exact Hi.
    + intros g Hg.
      assert (Hg' : In (st_ino g) (map st_ino (map snd d))).
      { rewrite <- (replace_val_inodes (snd p) f data) by assumption.
        apply in_map. exact Hg. }
      apply in_map_iff in Hg'. destruct Hg' as (g' & Heq & Hg').
      exists g'. auto.
  - assert (Hnew : ~ In (next_ino fs) (map inode (entries fs))).
    { intros H. apply in_map_iff in H. destruct H as (e & He & Hin).
      destruct Hok as (_ & _ & _ & Hbound). specialize (Hbound e Hin). lia. }
    apply (fs_ok_replace fs (fst p) d); try assumption.
    + rewrite map_app. cbn [map fst]. apply lookup_none in Hf.
      apply NoDup_app; [exact Hn|repeat constructor; intros []|].
      intros x Hx [<-|[]]. exact (Hf Hx).
    + rewrite !map_app. cbn [map snd st_ino].
      apply NoDup_app; [exact Hi|repeat constructor; intros []|].
      intros x Hx [<-|[]]. apply in_map_iff in Hx.
      destruct Hx as (g & Heq & Hg). destruct (Hb g Hg) as [_ Hlt]. lia.
    + intros g Hg. rewrite map_app in Hg. apply in_app_iff in Hg.
      destruct Hg as [Hg|[<-|[]]].
      * left. exists g. auto.
      * right. exact Hnew.
    + intros g Hg. rewrite map_app in Hg. apply in_app_iff in Hg.
      destruct Hg as [Hg|[<-|[]]].
      * destruct (Hb g Hg) as [_ Hlt]. lia.
      * cbn [snd st_ino]. lia.
    + lia.
Qed.

(** The inode of an unlinked file is nowhere left in the tree. *)
Lemma unlink_inode_gone fs d dir n f :
  fs_ok fs -> lookup d (shards fs) = Some dir -> lookup n dir = Some f ->
  ~ In (st_ino f)
      (map inode
         (entries (os.set_shards fs
                     (replace_val d (remove n dir) (shards fs))))).
Proof.
  intros Hok Hd Hf. pose proof Hok as (Hn & Hdirs & Hi & _).
  destruct (lookup_split _ _ _ Hd) as (l1 & l2 & Hs & Hl1).
  pose proof Hn as Hn0. rewrite Hs in Hn0.
  apply nodup_split_r in Hn0. destruct Hn0 as (_ & Hl2 & _).
  pose proof (Hdirs _ _ (lookup_in _ _ _ Hd)) as Hnd.
  destruct (lookup_split _ _ _ Hf) as (m1 & m2 & Hm & Hm1).
  pose proof Hnd as Hnd0. rewrite Hm in Hnd0.
  apply nodup_split_r in Hnd0. destruct Hnd0 as (_ & Hm2 & _).
  assert (Hr : remove n dir = m1 ++ m2).
  { rewrite Hm. apply remove_split; assumption. }
  unfold entries, os.set_shards in *. cbn [shards].
  rewrite Hs in Hi. rewrite Hs, replace_val_split by assumption.
  rewrite flat_map_app in *. cbn [flat_map] in *.
  rewrite !map_app, shard_entries_inodes in *.
  rewrite Hr. rewrite Hm in Hi. rewrite !map_app in *. cbn [map snd] in Hi.
  rewrite <- !app_assoc in Hi. rewrite app_assoc in Hi.
  apply NoDup_remove_2 in Hi. intros H. apply Hi.
  rewrite <- !app_assoc in H. rewrite <- app_assoc. exact H.
Qed.

Lemma fs_ok_rename src dst : keeps fs_ok (os.rename src dst).
Proof.
  intros fs Hok. unfold os.rename.
  destruct (lookup (fst src) (shards fs)) as [sdir|] eqn:Hs; [|exact Hok].
  destruct (lookup (snd src) sdir) as [f|] eqn:Hf; [|exact Hok].
  destruct (path_eqb src dst) eqn:Hp; [exact Hok|].
  destruct (fs_ok_dir _ _ _ Hok Hs) as (Hn & Hi & Hb).
  destruct (String.eqb (fst src) (fst dst)) eqn:Hd; cbn [fst].
  - assert (Hne : snd src <> snd dst).
    { intros H. unfold path_eqb in Hp. rewrite Hd, H, String.eqb_refl in Hp.
      discriminate. }
    apply (fs_ok_shrink fs (fst src) sdir); try assumption.
    + assert (Hl : lookup (snd src) (remove (snd dst) sdir) = Some f).
      { rewrite lookup_remove_other by assumption. exact Hf. }
      pose proof (remove_nodup (snd dst) sdir Hn) as Hn'.
      pose proof (remove_not_in (snd dst) sdir) as Hno.
      destruct (lookup_split _ _ _ Hl) as (m1 & m2 & Hm & Hm1).
      rewrite Hm in Hn', Hno |- *.
      pose proof Hn' as Hn0. apply nodup_split_r in Hn0.
      destruct Hn0 as (_ & Hm2 & Hn0).
      rewrite rename_key_split by assumption.
      rewrite map_app in *. cbn [map fst] in *.
      apply NoDup_middle; [exact Hn0|].
      intros H. apply Hno. apply in_app_iff in H. apply in_or_app.
      destruct H; [left|right; right]; assumption.
    + rewrite rename_key_files. apply remove_inodes. exact Hi.
    + intros g Hg. rewrite rename_key_files in Hg. exists g.
      split; [|reflexivity]. apply (remove_files (snd dst)). exact Hg.
  - destruct (lookup (fst dst) (shards fs)) as [ddir|] eqn:Hdd; [|exact Hok].
    cbn [fst]. apply String.eqb_neq in Hd.
    set (fs1 := os.set_shards fs
                  (replace_val (fst src) (remove (snd src) sdir) (shards fs))).
    assert (Hok1 : fs_ok fs1).
    { pose proof (fs_ok_unlink src fs Hok) as H. unfold os.unlink in H.
      rewrite Hs, Hf in H. exact H. }
    assert (Hgone : ~ In (st_ino f) (map inode (entries fs1))).
    { apply unlink_inode_gone; assumption. }
    assert (Hdd1 : lookup (fst dst) (shards fs1) = Some ddir).
    { unfold fs1, os.set_shards. cbn [shards].
      rewrite lookup_replace_val_other by congruence. exact Hdd. }
    destruct (fs_ok_dir _ _ _ Hok1 Hdd1) as (Hdn & Hdi & Hdb).
    change (fs_ok (mkfs (replace_val (fst dst)
                           (remove (snd dst) ddir ++ [(snd dst, f)])
                           (shards fs1)) (next_ino fs1))).
    apply (fs_ok_replace fs1 (fst dst) ddir); try assumption.
    + rewrite map_app. cbn [map fst].
      apply NoDup_app; [apply remove_nodup; exact Hdn
                       |repeat constructor; intros []|].
      intros x Hx [<-|[]]. exact (remove_not_in _ _ Hx).
    + rewrite !map_app. cbn [map snd].
      apply NoDup_app; [apply remove_inodes; exact Hdi
                       |repeat constructor; intros []|].
      intros x Hx [<-|[]]. apply in_map_iff in Hx.
      destruct Hx as (g & Heq & Hg). apply remove_files in Hg.
      apply Hgone. rewrite <- Heq. apply (Hdb g Hg).
    + intros g Hg. rewrite map_app in Hg. apply in_app_iff in Hg.
      destruct Hg as [Hg|[<-|[]]].
      * left. exists g. split; [|reflexivity].
        apply (remove_files (snd dst)). exact Hg.
      * right. exact Hgone.
    + intros g Hg. rewrite map_app in Hg. apply in_app_iff in Hg.
      destruct Hg as [Hg|[<-|[]]].
      * apply remove_files in Hg. apply (Hdb g Hg).
      * apply (Hb f). apply in_map_iff. exists (snd src, f).
        split; [reflexivity|]. apply lookup_in. exact Hf.
    + lia.
Qed.

(** ** The methods keep the inodes apart *)

Section Keeps.

Variable Q : filesystem -> Prop.

Lemma keeps_ret {A : Type} (a : A) : keeps Q (ret a).
Proof. intros fs H. exact H. Qed.

Lemma keeps_raise {A : Type} (e : exn) : keeps Q (@raise filesystem A e).
Proof. intros fs H. exact H. Qed.

Lemma keeps_bind {A B : Type} (c : M filesystem A) (k : A -> M filesystem B) :
  keeps Q c -> (forall a, keeps Q (k a)) -> keeps Q (bind c k).
Proof.
  intros Hc Hk fs H. unfold bind. specialize (Hc fs H).
  destruct (c fs) as [fs' [e|a]]; cbn [fst] in *; [exact Hc|].
  apply Hk. exact Hc.
Qed.

Lemma keeps_for_each {X A : Type} (xs : list X)
    (body : X -> A -> M filesystem (A * bool)) :
  (forall x acc, keeps Q (body x acc)) ->
  forall acc, keeps Q (for_each xs body acc).
Proof.
  intros Hb. induction xs as [|x xs IH]; intros acc fs H; cbn [for_each].
  - exact H.
  - specialize (Hb x acc fs H).
    destruct (body x acc fs) as [fs' [e|[acc' [|]]]]; cbn [fst] in *;
      try exact Hb.
    apply IH. exact Hb.
Qed.

Lemma keeps_unchanged {A : Type} (c : M filesystem A) :
  (forall fs, fst (c fs) = fs) -> keeps Q c.
Proof. intros Hc fs H. rewrite Hc. exact H. Qed.

Lemma keeps_listdir dir : keeps Q (os.listdir dir).
Proof.
  apply keeps_unchanged. intros fs. unfold os.listdir.
  destruct (String.eqb dir EmptyString); [reflexivity|].
  destruct (lookup dir (shards fs)); reflexivity.
Qed.

Lemma keeps_stat_ino p : keeps Q (os.stat_ino p).
Proof.
  apply keeps_unchanged. intros fs. unfold os.stat_ino.
  destruct (os.find p fs); reflexivity.
Qed.

Lemma keeps_read p : keeps Q (os.read p).
Proof.
  apply keeps_unchanged. intros fs. unfold os.read.
  destruct (os.find p fs); reflexivity.
Qed.

Lemma keeps_get_sorted_filenames dir : keeps Q (_get_sorted_filenames dir).
Proof.
  unfold _get_sorted_filenames. apply keeps_bind; [apply keeps_listdir|].
  intros names. destruct (Py.keys_of _ _); [apply keeps_ret|apply keeps_raise].
Qed.

Hypothesis Q_unlink : forall p, keeps Q (os.unlink p).
Hypothesis Q_rmdir : forall dir, keeps Q (os.rmdir dir).
Hypothesis Q_makedirs : forall dir, keeps Q (os.makedirs dir).
Hypothesis Q_write : forall p data, keeps Q (os.write p data).
Hypothesis Q_rename : forall src dst, keeps Q (os.rename src dst).

Lemma keeps_set_flags p flags : keeps Q (_set_flags p flags).
Proof.
  unfold _set_flags. destruct p as [dirname basename].
  apply keeps_bind; [apply Q_rename|]. intros _. apply keeps_ret.
Qed.

Lemma keeps_add_flags p flags : keeps Q (_add_flags p flags).
Proof.
  unfold _add_flags. apply keeps_bind; [apply keeps_set_flags|].
  intros _. apply keeps_ret.
Qed.

Lemma keeps_get_next_message_filename directory_size :
  keeps Q (_get_next_message_filename directory_size).
Proof.
  unfold _get_next_message_filename.
  apply keeps_bind; [apply keeps_get_sorted_filenames|]. intros message_dirs.
  apply keeps_bind.
  { destruct message_dirs; [|apply keeps_ret].
    apply keeps_bind; [apply Q_makedirs|]. intros _. apply keeps_ret. }
  intros newest_dir.
  apply keeps_bind; [apply keeps_get_sorted_filenames|].
  intros message_filenames.
  destruct message_filenames as [|x l]; [apply keeps_ret|].
  destruct (_ <? _)%Z.
  - destruct (sort_key _); [apply keeps_ret|apply keeps_raise].
  - destruct (Py.int newest_dir); [|apply keeps_raise].
    apply keeps_bind; [apply Q_makedirs|]. intros _. apply keeps_ret.
Qed.

Lemma keeps_walk_messages {A : Type} exclude
    (body : path -> A -> M filesystem (A * bool)) acc :
  (forall p a, keeps Q (body p a)) ->
  keeps Q (_walk_messages exclude body acc).
Proof.
  intros Hb. unfold _walk_messages.
  apply keeps_bind; [apply keeps_get_sorted_filenames|]. intros message_dirs.
  apply keeps_for_each. intros message_dir a.
  apply keeps_bind; [apply keeps_get_sorted_filenames|]. intros filenames.
  apply keeps_for_each. intros filename a'.
  destruct (negb _); [apply Hb|apply keeps_ret].
Qed.

Lemma keeps_walk_pending_messages {A : Type} pending_offset
    (body : path -> A -> M filesystem (A * bool)) acc :
  (forall p a, keeps Q (body p a)) ->
  keeps Q (_walk_pending_messages pending_offset body acc).
Proof.
  intros Hb. unfold _walk_pending_messages.
  apply keeps_bind; [|intros r; apply keeps_ret].
  apply keeps_walk_messages. intros p [i a].
  destruct (_ <=? _)%Z; [|apply keeps_ret].
  apply keeps_bind; [apply Hb|]. intros r. apply keeps_ret.
Qed.

Lemma keeps_islice_loop stop gen body :
  (forall b acc, (forall p a, keeps Q (b p a)) -> keeps Q (gen b acc)) ->
  (forall p, keeps Q (body p)) ->
  keeps Q (islice_loop stop gen body).
Proof.
  intros Hg Hb. unfold islice_loop.
  destruct ((stop <? 0)%Z || (sys.maxsize <? stop)%Z); [apply keeps_raise|].
  destruct (stop =? 0)%Z; [apply keeps_ret|].
  apply keeps_bind; [|intros _; apply keeps_ret].
  apply Hg. intros p a. apply keeps_bind; [apply Hb|].
  intros _. apply keeps_ret.
Qed.

Lemma keeps_delete_old_body fn : keeps Q (delete_old_body fn).
Proof.
  unfold delete_old_body. apply keeps_bind; [apply Q_unlink|]. intros _.
  apply keeps_bind; [apply keeps_listdir|]. intros names.
  destruct names; [apply Q_rmdir|apply keeps_ret].
Qed.

Lemma keeps_is_pending_body message_id pending_offset filename acc :
  keeps Q (is_pending_body message_id pending_offset filename acc).
Proof.
  unfold is_pending_body. destruct acc as [i b].
  apply keeps_bind.
  - destruct (_ || _).
    + apply keeps_bind; [apply keeps_stat_ino|]. intros ino. apply keeps_ret.
    + apply keeps_ret.
  - intros found. destruct found; [apply keeps_ret|].
    destruct (_ && _); apply keeps_ret.
Qed.

Context {imports : Imports}.

Lemma keeps_get_pending_body max accepted_types filename messages :
  keeps Q (get_pending_body max accepted_types filename messages).
Proof.
  unfold get_pending_body.
  destruct (match max with Some m => _ | None => false end);
    [apply keeps_ret|].
  apply keeps_bind; [apply keeps_read|]. intros data.
  destruct (loads data) as [message|].
  - destruct (negb _); [|apply keeps_ret].
    apply keeps_bind; [apply keeps_add_flags|]. intros _. apply keeps_ret.
  - apply keeps_bind; [apply keeps_add_flags|]. intros _. apply keeps_ret.
Qed.

Lemma keeps_reprocess_body directory_size pending_offset accepted_types
    old_filename offset :
  keeps Q (reprocess_body directory_size pending_offset accepted_types
             old_filename offset).
Proof.
  unfold reprocess_body. apply keeps_bind; [apply keeps_read|]. intros data.
  destruct (loads data) as [message|].
  - destruct (Py.contains HELD _).
    + destruct (Py.mem _ _); [|apply keeps_ret].
      apply keeps_bind; [apply keeps_get_next_message_filename|].
      intros new_filename. apply keeps_bind; [apply Q_rename|]. intros _.
      apply keeps_bind; [apply keeps_set_flags|]. intros _. apply keeps_ret.
    + apply keeps_bind; [|intros _; apply keeps_ret].
      destruct (_ && _); [|apply keeps_ret].
      apply keeps_bind; [apply keeps_set_flags|]. intros _. apply keeps_ret.
  - destruct (negb _); apply keeps_ret.
Qed.

Lemma on_directory_keeps {A : Type} (c : M filesystem A) self :
  keeps Q c -> Q (_directory self) ->
  Q (_directory (fst (on_directory c self))).
Proof.
  intros Hc H. unfold on_directory. specialize (Hc _ H).
  destruct (c (_directory self)) as [fs r]. exact Hc.
Qed.

(** Every call of the store keeps what the [os] calls keep. *)
Lemma perform_keeps op self :
  Q (_directory self) -> Q (_directory (fst (perform op self))).
Proof.
  intros H. destruct op; cbn [perform outcome fst]; try exact H.
  - (* add *)
    unfold add, bind, add_coerce.
    destruct (lookup (msg_type message) (_schemas self)) as [s|]; [|exact H].
    destruct (coerce s message) as [coerced|]; [|exact H].
    unfold add_write_tmp.
    match goal with
    | |- context [on_directory ?c self] =>
        pose proof (on_directory_keeps c self) as H1;
        destruct (on_directory c self) as [self1 [e|filename]]
    end; cbn [fst] in H1.
    + apply H1; [|exact H].
      apply keeps_bind; [apply keeps_get_next_message_filename|].
      intros filename. apply keeps_bind; [apply Q_write|]. intros _.
      apply keeps_ret.
    + unfold add_publish. apply on_directory_keeps.
      * apply keeps_bind; [apply Q_rename|]. intros _.
        apply keeps_bind; [|intros p; apply keeps_stat_ino].
        destruct (negb _); [apply keeps_set_flags|apply keeps_ret].
      * apply H1; [|exact H].
        apply keeps_bind; [apply keeps_get_next_message_filename|].
        intros filename'. apply keeps_bind; [apply Q_write|]. intros _.
        apply keeps_ret.
  - unfold get_pending_messages. apply on_directory_keeps; [|exact H].
    apply keeps_bind; [|intros r; apply keeps_ret].
    apply keeps_walk_pending_messages. intros p a.
    apply keeps_get_pending_body.
  - unfold count_pending_messages. apply on_directory_keeps; [|exact H].
    apply keeps_bind; [|intros r; apply keeps_ret].
    apply keeps_walk_pending_messages. intros p a. apply keeps_ret.
  - unfold is_pending. apply on_directory_keeps; [|exact H].
    apply keeps_bind; [|intros r; apply keeps_ret].
    apply keeps_walk_messages. intros p a. apply keeps_is_pending_body.
  - unfold delete_old_messages. apply on_directory_keeps; [|exact H].
    apply keeps_islice_loop.
    + intros b acc Hb. apply keeps_walk_messages. exact Hb.
    + apply keeps_delete_old_body.
  - unfold delete_all_messages. apply on_directory_keeps; [|exact H].
    apply keeps_bind; [|intros r; apply keeps_ret].
    apply keeps_walk_messages. intros p a.
    apply keeps_bind; [apply Q_unlink|]. intros _. apply keeps_ret.
  - unfold set_accepted_types, _reprocess_holding.
    apply on_directory_keeps; [|exact H].
    apply keeps_bind; [|intros r; apply keeps_ret].
    apply keeps_walk_messages. intros p a. apply keeps_reprocess_body.
Qed.

Lemma perform_all_keeps_tree ops : forall self,
  Q (_directory self) -> Q (_directory (perform_all ops self)).
Proof.
  induction ops as [|op ops IH]; intros self H; cbn [perform_all];
    [exact H|].
  apply IH. apply perform_keeps. exact H.
Qed.

End Keeps.

Lemma fs_ok_empty first_ino : fs_ok (mkfs [] first_ino).
Proof.
  unfold fs_ok, entries. cbn. repeat split; try constructor; intros; tauto.
Qed.

(** Whatever calls were made, no two files of the tree share an inode. *)
Lemma perform_all_fs_ok {imports : Imports} directory_size schemas p
    first_ino ops :
  fs_ok (_directory
           (perform_all ops (new_store directory_size schemas p first_ino))).
Proof.
  apply (perform_all_keeps_tree fs_ok fs_ok_unlink fs_ok_rmdir fs_ok_makedirs
           fs_ok_write fs_ok_rename).
  apply fs_ok_empty.
Qed.

Lemma view_entries fs r : In r (view fs) -> In r (entries fs).
Proof.
  unfold view, entries. rewrite !in_flat_map.
  intros ([d dir] & Hd & Hr). apply sorted_entries_in in Hd.
  exists (d, dir). split; [tauto|].
  unfold records_of_shard in Hr. unfold shard_entries.
  apply in_map_iff in Hr. destruct Hr as (e & <- & He).
  apply sorted_entries_in in He. apply in_map_iff. exists e. tauto.
Qed.

Lemma NoDup_map_of_inj {X Y : Type} (g : X -> Y) (l : list X) :
  NoDup l -> (forall x y, In x l -> In y l -> g x = g y -> x = y) ->
  NoDup (map g l).
Proof.
  induction l as [|x l IH]; cbn [map]; intros Hnd Hinj; [constructor|].
  inversion Hnd as [|? ? Hx Hl]; subst. constructor.
  - intros H. apply in_map_iff in H. destruct H as (y & Heq & Hy).
    apply Hx. rewrite (Hinj x y); [exact Hy|left; reflexivity|right; exact Hy
                                  |symmetry; exact Heq].
  - apply IH; [exact Hl|]. intros y z Hy Hz. apply Hinj; right; assumption.
Qed.

Lemma view_inodes fs :
  wf_fs fs = true -> fs_ok fs -> NoDup (map inode (view fs)).
Proof.
  intros Hwf (_ & _ & Hi & _). apply NoDup_map_of_inj.
  - apply (NoDup_map_inv fst). apply view_nodup. exact Hwf.
  - intros x y Hx Hy Heq.
    apply (NoDup_map_inj inode (entries fs)); try assumption;
      apply view_entries; assumption.
Qed.

(** The identifier a successful [add] returns is the inode of the record
    it appends, and no record that was in the store before has it. *)
Theorem add_returns_new_id {imports : Imports}
    (directory_size : Z) (schemas : list (string * schema)) (p : persist)
    (first_ino : N) (ops : list operation) (message : Message)
    (self' : MessageStore) (message_id : N) :
  let self :=
    perform_all ops (new_store directory_size schemas p first_ino) in
  add message self = (self', inr message_id) ->
  exists r,
    view (_directory self') = view (_directory self) ++ [r]
    /\ inode r = message_id
    /\ forall r', In r' (view (_directory self)) -> inode r' <> message_id.
Proof.
  intros self Hadd.
  assert (Hwf : wf_store self = true).
  { apply (perform_all_wf ops). reflexivity. }
  assert (Hok : fs_ok (_directory self)) by apply perform_all_fs_ok.
  assert (Hok' : fs_ok (_directory self')).
  { pose proof (perform_keeps fs_ok fs_ok_unlink fs_ok_rmdir fs_ok_makedirs
                  fs_ok_write fs_ok_rename (Add message) self Hok) as H.
    cbn [perform outcome fst] in H. rewrite Hadd in H. exact H. }
  destruct (lookup (msg_type message) (_schemas self)) as [s|] eqn:Hl.
  2:{ unfold add, bind, add_coerce in Hadd. rewrite Hl in Hadd.
      discriminate. }
  destruct (coerce s message) as [coerced|] eqn:Hc.
  2:{ unfold add, bind, add_coerce in Hadd. rewrite Hl, Hc in Hadd.
      discriminate. }
  destruct (add_record message self s coerced Hwf Hl Hc)
    as (self1 & q & f & Hadd1 & _ & Hwf1 & Hv & _).
  rewrite Hadd in Hadd1. injection Hadd1 as <- ->.
  exists (q, f). split; [exact Hv|]. split; [reflexivity|].
  pose proof (view_inodes _ Hwf1 Hok') as Hnd. rewrite Hv, map_app in Hnd.
  intros r' Hr' Heq.
  apply (NoDup_app_disjoint _ _ (st_ino f) Hnd).
  - rewrite <- Heq. apply in_map. exact Hr'.
  - left. reflexivity.
Qed.

Lemma add_returns_new_id_witness :
  let self :=
    perform_all (imports := Example.toy_imports) [Add (mkmsg "a" None [])]
      (new_store 2 [Example.any_schema "a"] (Example.metadata ["a"%string] 0)
         1) in
  exists r,
    view (_directory
            (fst (add (imports := Example.toy_imports) (mkmsg "a" None [])
                    self)))
    = view (_directory self) ++ [r]
    /\ inode r = 2%N
    /\ forall r', In r' (view (_directory self)) -> inode r' <> 2%N.
Proof.
  intros self.
  apply (add_returns_new_id (imports := Example.toy_imports) 2
           [Example.any_schema "a"] (Example.metadata ["a"%string] 0) 1
           [Add (mkmsg "a" None [])] (mkmsg "a" None [])).
  vm_compute. reflexivity.
Defined.

(** ** The enumeration does not depend on the order of the listings *)

Lemma Permutation_filter {X : Type} (P : X -> bool) (l l' : list X) :
  Permutation.Permutation l l' ->
  Permutation.Permutation (filter P l) (filter P l').
Proof.
  induction 1 as [|x l l' H IH|x y l|l l' l'' H1 IH1 H2 IH2]; cbn [filter].
  - constructor.
  - destruct (P x); [constructor|]; assumption.
  - destruct (P x), (P y); try apply Permutation.Permutation_refl.
    apply Permutation.perm_swap.
  - eapply Permutation.perm_trans; eassumption.
Qed.

(** Two listings of the same elements by strictly increasing key are the
    same listing. *)
Lemma sorted_permutation_unique {X : Type} (key : X -> N) (l : list X) :
  forall l',
    StronglySorted (fun a b => (key a < key b)%N) l ->
    StronglySorted (fun a b => (key a < key b)%N) l' ->
    Permutation.Permutation l l' -> l = l'.
Proof.
  induction l as [|x l IH]; intros l' Hs Hs' Hp.
  - symmetry. apply Permutation.Permutation_nil. exact Hp.
  - destruct l' as [|y l'].
    + apply Permutation.Permutation_sym, Permutation.Permutation_nil in Hp.
      discriminate.
    + inversion Hs as [|? ? Hl Hx]; subst.
      inversion Hs' as [|? ? Hl' Hy]; subst.
      rewrite Forall_forall in Hx, Hy.
      assert (E : x = y).
      { assert (Hin : In x (y :: l')).
        { apply (Permutation.Permutation_in _ Hp). left. reflexivity. }
        assert (Hin' : In y (x :: l)).
        { apply (Permutation.Permutation_in _
                   (Permutation.Permutation_sym Hp)). left. reflexivity. }
        destruct Hin as [->|Hin]; [reflexivity|].
        destruct Hin' as [->|Hin']; [reflexivity|].
        specialize (Hx y Hin'). specialize (Hy x Hin). lia. }
      subst y. f_equal. apply IH; try assumption.
      apply (Permutation.Permutation_cons_inv Hp).
Qed.

Lemma sort_by_permuted {X : Type} (key : X -> N) (l l' : list X) :
  Permutation.Permutation l l' -> NoDup (map key l) ->
  Py.sort_by key l' = Py.sort_by key l.
Proof.
  intros Hp Hnd.
  assert (Hnd' : NoDup (map key l')).
  { apply (Permutation.Permutation_NoDup
             (Permutation.Permutation_map key Hp)). exact Hnd. }
  apply (sorted_permutation_unique key).
  - apply StronglySorted_strict; [apply (sort_by_sorted key)|].
    apply (Permutation.Permutation_NoDup
             (Permutation.Permutation_map key
                (Permutation.Permutation_sym (sort_by_permutation key l')))).
    exact Hnd'.
  - apply StronglySorted_strict; [apply (sort_by_sorted key)|].
    apply (Permutation.Permutation_NoDup
             (Permutation.Permutation_map key
                (Permutation.Permutation_sym (sort_by_permutation key l)))).
    exact Hnd.
  - eapply Permutation.perm_trans; [apply sort_by_permutation|].
    eapply Permutation.perm_trans; [apply Permutation.Permutation_sym, Hp|].
    apply Permutation.Permutation_sym, sort_by_permutation.
Qed.

(** A directory listed in another order is visited in the same order. *)
Lemma sorted_entries_permuted {V : Type} (l l' : list (string * V)) :
  Permutation.Permutation l l' ->
  NoDup (map (fun e => key_of (fst e)) (sorted_entries l)) ->
  sorted_entries l' = sorted_entries l.
Proof.
  intros Hp Hnd. unfold sorted_entries in *.
  apply sort_by_permuted.
  - apply Permutation_filter. exact Hp.
  - apply (Permutation.Permutation_NoDup
             (Permutation.Permutation_map
                (fun e : string * V => key_of (fst e))
                (sort_by_permutation (fun e : string * V => key_of (fst e))
                   (filter (fun e => negb (is_tmp (fst e))) l)))).
    exact Hnd.
Qed.

Lemma wf_names_permuted {V : Type} (valid : string -> bool)
    (l l' : list (string * V)) :
  Permutation.Permutation l l' -> wf_names valid l = true ->
  wf_names valid l' = true /\ sorted_entries l' = sorted_entries l.
Proof.
  intros Hp Hwf. apply wf_names_spec in Hwf. destruct Hwf as (H1 & H2 & H3).
  pose proof (sorted_entries_permuted l l' Hp H3) as Hs.
  split; [|exact Hs]. apply wf_names_spec. split; [|split].
  - apply (Permutation.Permutation_NoDup
             (Permutation.Permutation_map fst Hp)). exact H1.
  - intros e He. apply H2.
    apply (Permutation.Permutation_in _ (Permutation.Permutation_sym Hp)).
    exact He.
  - rewrite Hs. exact H3.
Qed.

Section SameNames.

Context {V W : Type} (R : V -> W -> Prop).

Lemma filter_same (P : string -> bool) (l : list (string * V))
    (l' : list (string * W)) :
  Forall2 (fun a b => fst a = fst b /\ R (snd a) (snd b)) l l' ->
  Forall2 (fun a b => fst a = fst b /\ R (snd a) (snd b))
    (filter (fun e => P (fst e)) l) (filter (fun e => P (fst e)) l').
Proof.
  induction 1 as [|a b l l' Hab H IH]; cbn [filter]; [constructor|].
  destruct Hab as [E Hr]. rewrite <- E.
  destruct (P (fst a)); [constructor; [split|]|]; assumption.
Qed.

Lemma insert_by_same (key : string -> N) (a : string * V) (b : string * W)
    l l' :
  fst a = fst b -> R (snd a) (snd b) ->
  Forall2 (fun a b => fst a = fst b /\ R (snd a) (snd b)) l l' ->
  Forall2 (fun a b => fst a = fst b /\ R (snd a) (snd b))
    (Py.insert_by (fun e => key (fst e)) a l)
    (Py.insert_by (fun e => key (fst e)) b l').
Proof.
  intros E Hr. induction 1 as [|c d l l' Hcd H IH]; cbn [Py.insert_by].
  - constructor; [split; assumption|constructor].
  - destruct Hcd as [E' Hr']. rewrite <- E, <- E'.
    destruct (key (fst a) <=? key (fst c))%N.
    + constructor; [split; assumption|].
      constructor; [split; assumption|assumption].
    + constructor; [split; assumption|]. apply IH.
Qed.

Lemma sort_by_same (key : string -> N) (l : list (string * V))
    (l' : list (string * W)) :
  Forall2 (fun a b => fst a = fst b /\ R (snd a) (snd b)) l l' ->
  Forall2 (fun a b => fst a = fst b /\ R (snd a) (snd b))
    (Py.sort_by (fun e => key (fst e)) l)
    (Py.sort_by (fun e => key (fst e)) l').
Proof.
  induction 1 as [|a b l l' [E Hr] H IH]; cbn [Py.sort_by]; [constructor|].
  apply insert_by_same; assumption.
Qed.

Lemma sorted_entries_same (l : list (string * V)) (l' : list (string * W)) :
  Forall2 (fun a b => fst a = fst b /\ R (snd a) (snd b)) l l' ->
  Forall2 (fun a b => fst a = fst b /\ R (snd a) (snd b))
    (sorted_entries l) (sorted_entries l').
Proof.
  intros H. unfold sorted_entries. apply (sort_by_same key_of).
  apply (filter_same (fun x => negb (is_tmp x))). exact H.
Qed.

Lemma same_names (l : list (string * V)) (l' : list (string * W)) :
  Forall2 (fun a b => fst a = fst b /\ R (snd a) (snd b)) l l' ->
  map fst l = map fst l'.
Proof.
  induction 1 as [|a b l l' [E _] H IH]; cbn [map]; [reflexivity|].
  rewrite E, IH. reflexivity.
Qed.

End SameNames.

(** A well-formed tree listed in another order is well formed and holds
    the same records, in the same order of enumeration. *)
Lemma relisted_view fs fs' :
  wf_fs fs = true -> relisted fs fs' ->
  wf_fs fs' = true /\ view fs' = view fs.
Proof.
  intros Hwf (_ & sh & Hp & Hsame).
  pose proof Hwf as Hwf0. apply wf_fs_spec in Hwf0.
  destruct Hwf0 as [Hnames Hdirs].
  destruct (wf_names_permuted shard_name _ _ Hp Hnames) as [Hsh Hse].
  assert (Hsh' : wf_names shard_name (shards fs') = true).
  { rewrite <- (wf_names_names shard_name sh (shards fs')); [exact Hsh|].
    apply (same_names _ _ _ Hsame). }
  assert (Hin : forall a b,
            In a sh -> fst a = fst b ->
            Permutation.Permutation (snd a) (snd b) ->
            is_tmp (fst b) = true
            \/ (wf_names record_name (snd b) = true
                /\ sorted_entries (snd b) = sorted_entries (snd a))).
  { intros [d dir] [d' dir'] Ha E Hperm. cbn [fst snd] in *. subst d'.
    apply (Permutation.Permutation_in _ (Permutation.Permutation_sym Hp))
      in Ha.
    destruct (Hdirs d dir Ha) as [Ht|Hw]; [left; exact Ht|right].
    apply (wf_names_permuted record_name dir dir' Hperm Hw). }
  split.
  - apply wf_fs_spec. split; [exact Hsh'|].
    intros d dir' Hd.
    assert (Hex : exists a, In a sh /\ fst a = d
                            /\ Permutation.Permutation (snd a) dir').
    { clear -Hsame Hd. induction Hsame as [|a b l l' [E Hr] H IH];
        [contradiction|].
      destruct Hd as [->|Hd].
      - exists a. split; [left; reflexivity|]. auto.
      - destruct (IH Hd) as (a' & Ha' & H'). exists a'.
        split; [right; exact Ha'|exact H']. }
    destruct Hex as (a & Ha & E & Hperm).
    destruct (Hin a (d, dir') Ha E Hperm) as [Ht|[Hw _]]; auto.
  - unfold view. rewrite <- Hse.
    pose proof (sorted_entries_same _ _ _ Hsame) as Hs.
    assert (Hall : forall a, In a (sorted_entries sh) -> In a sh).
    { intros a Ha. apply sorted_entries_in in Ha. tauto. }
    assert (Hnt : forall b, In b (sorted_entries (shards fs')) ->
                            is_tmp (fst b) = false).
    { intros b Hb. apply sorted_entries_in in Hb. tauto. }
    revert Hs Hall Hnt.
    generalize (sorted_entries sh) (sorted_entries (shards fs')).
    intros l l' Hs. induction Hs as [|a b l l' [E Hr] H IH];
      intros Hall Hnt; cbn [flat_map]; [reflexivity|].
    rewrite IH;
      [|intros; apply Hall; right; assumption
       |intros; apply Hnt; right; assumption].
    f_equal.
    destruct (Hin a b (Hall a (or_introl eq_refl)) E Hr) as [Ht|[_ Hse']].
    + rewrite (Hnt b (or_introl eq_refl)) in Ht. discriminate.
    + unfold records_of_shard. rewrite Hse', E. reflexivity.
Qed.

(** ** [get_pending_messages] after a sequence of [add] calls *)

Section Built.

Context {imports : Imports}.

Lemma stored_messages_app schemas (l l' : list Message) :
  stored_messages schemas (l ++ l') =
  stored_messages schemas l ++ stored_messages schemas l'.
Proof.
  induction l as [|message l IH]; cbn [app stored_messages]; [reflexivity|].
  destruct (lookup (msg_type message) schemas) as [s|]; [|exact IH].
  destruct (coerce s message); [|exact IH].
  rewrite IH. reflexivity.
Qed.

(** The records of a store built by [add] calls hold the stored messages
    in the order of the calls, whatever the listings and the interrupted
    calls in between. *)
Lemma built_by_spec directory_size schemas p first_ino messages self :
  built_by directory_size schemas p first_ino messages self ->
  wf_store self = true
  /\ map (fun r => content (snd r)) (view (_directory self)) =
     map dumps (stored_messages schemas messages)
  /\ _persist self = p
  /\ _schemas self = schemas.
Proof.
  induction 1 as [|messages self message Hb (Hwf & Hc & Hp & Hs)
                  |messages self fs' Hb (Hwf & Hc & Hp & Hs) Hr
                  |messages self message Hb (Hwf & Hc & Hp & Hs)].
  - repeat split.
  - pose proof (add_spec message self Hwf) as H.
    rewrite stored_messages_app, map_app. cbn [stored_messages].
    rewrite Hs in H.
    destruct (lookup (msg_type message) schemas) as [s|].
    + destruct (coerce s message) as [coerced|].
      * destruct H as (self' & q & f & Ha & Hf & Hwf' & Hv & _ & Hp' & Hs' & _).
        rewrite Ha. cbn [fst].
        repeat split; try assumption; try congruence.
        rewrite Hv, map_app, Hc. cbn [map snd]. rewrite Hf. reflexivity.
      * rewrite H. cbn [fst map]. rewrite app_nil_r. auto.
    + rewrite H. cbn [fst map]. rewrite app_nil_r. auto.
  - unfold wf_store in *. cbn [_directory _persist _schemas].
    destruct (relisted_view _ _ Hwf Hr) as [Hwf' Hv].
    rewrite Hv. auto.
  - destruct (add_until_crash_spec message self Hwf)
      as (Hwf' & Hv & Hp' & Hs' & _).
    rewrite Hv. repeat split; try assumption; congruence.
Qed.

End Built.

(** C3: whatever sequence of [add] calls built the store, in whatever
    order the file system lists the directories and whatever calls were
    interrupted before their rename, its records stand in the enumeration
    in the order of the calls, and [get_pending_messages max] returns at
    most [max] messages: the deliveries of the earliest unflagged records
    at or after the pending offset that decode and have an accepted type,
    taken from records at strictly increasing positions.  Flagged records
    are not among the pending ones, and a record that does not decode or
    has a type that is not accepted delivers nothing, so that it takes no
    place under the bound. *)
Theorem get_pending_messages_in_order {imports : Imports}
    (directory_size : Z) (schemas : list (string * schema)) (p : persist)
    (first_ino : N) (messages : list Message) (self : MessageStore)
    (max : option Z) :
  built_by directory_size schemas p first_ino messages self ->
  let records := view (_directory self) in
  let accepted := get_accepted_types self in
  let offset := get_pending_offset self in
  map (fun r => content (snd r)) records =
  map dumps (stored_messages schemas messages)
  /\ exists self' returned ordinals,
       get_pending_messages max self = (self', inr returned)
       /\ returned = up_to max (deliveries accepted (pending offset records))
       /\ match max with
          | Some m => (Z.of_nat (List.length returned) <= Z.max 0 m)%Z
          | None => True
          end
       /\ StronglySorted lt ordinals
       /\ Forall2
            (fun i message =>
               exists r, nth_error records i = Some r
                         /\ unflagged (fst r) = true
                         /\ deliverable accepted r = Some message
                         /\ In r (pending offset records))
            ordinals returned.
Proof.
  intros Hbuilt records accepted offset.
  destruct (built_by_spec _ _ _ _ _ _ Hbuilt) as (Hwf & Hc & _ & _).
  split; [exact Hc|].
  destruct (get_pending_messages_spec max self Hwf) as (self' & Hg & _).
  rewrite scan_messages in Hg. cbn [app List.length] in Hg.
  fold records accepted offset in Hg.
  destruct (deliveries_ordinals accepted (fun r => unflagged (fst r))
              records 0 (Z.to_nat offset)) as (ords & Hs & _ & H2).
  fold (unflagged_records records) in H2. fold (pending offset records) in H2.
  assert (H2' : Forall2
            (fun i message =>
               exists r, nth_error records i = Some r
                         /\ unflagged (fst r) = true
                         /\ deliverable accepted r = Some message
                         /\ In r (pending offset records))
            ords (deliveries accepted (pending offset records))).
  { eapply Forall2_impl; [|exact H2]. intros i m (r & Hn & H).
    exists r. rewrite Nat.sub_0_r in Hn. auto. }
  destruct max as [m|].
  - rewrite Nat.sub_0_r in Hg.
    exists self', (firstn (Z.to_nat m)
                     (deliveries accepted (pending offset records))),
      (firstn (Z.to_nat m) ords).
    split; [exact Hg|]. split; [reflexivity|]. split; [|split].
    + rewrite length_firstn. lia.
    + apply StronglySorted_firstn. assumption.
    + apply Forall2_firstn. assumption.
  - exists self', (deliveries accepted (pending offset records)), ords.
    split; [exact Hg|]. auto.
Qed.

Lemma get_pending_messages_in_order_witness :
  let schemas := [Example.any_schema "a"; Example.any_schema "b"] in
  let p := Example.metadata ["a"; "b"]%string 0 in
  let self :=
    mkstore 2 schemas p
      (mkfs [("0"%string,
              [Example.record "1" "b" 2; Example.record "0" "a" 1])] 3) in
  built_by (imports := Example.toy_imports) 2 schemas p 1
    [mkmsg "a" None []; mkmsg "b" None []] self
  /\ map (fun r => content (snd r)) (view (_directory self)) =
     map (dumps (Imports := Example.toy_imports))
       (stored_messages (imports := Example.toy_imports) schemas
          [mkmsg "a" None []; mkmsg "b" None []]).
Proof.
  intros schemas p self.
  assert (Hb : built_by (imports := Example.toy_imports) 2 schemas p 1
                 [mkmsg "a" None []; mkmsg "b" None []] self).
  { pose (once := fst (add (imports := Example.toy_imports)
                         (mkmsg "a" None []) (new_store 2 schemas p 1))).
    pose (twice := fst (add (imports := Example.toy_imports)
                          (mkmsg "b" None []) once)).
    change (built_by (imports := Example.toy_imports) 2 schemas p 1
              (([] ++ [mkmsg "a" None []]) ++ [mkmsg "b" None []])
              (mkstore (_directory_size twice) (_schemas twice)
                 (_persist twice) (_directory self))).
    apply built_relisted; [apply built_add, built_add, built_new|].
    split; [reflexivity|].
    exists (shards (_directory twice)).
    split; [apply Permutation.Permutation_refl|].
    vm_compute. constructor; [|constructor].
    split; [reflexivity|]. apply Permutation.perm_swap. }
  split; [exact Hb|].
  exact (proj1 (get_pending_messages_in_order
                  (imports := Example.toy_imports) 2 schemas p 1
                  [mkmsg "a" None []; mkmsg "b" None []] self None Hb)).
Defined.

(** ** The answers of the store do not depend on the order of the listings *)

(** On a well-formed store the order in which [os.listdir] reports the
    shards and the files of a shard is of no consequence: with the
    directories listed in any other order the store is well formed, it
    enumerates the same records in the same order, and
    [get_pending_messages], [count_pending_messages], [is_pending],
    [delete_old_messages] and [delete_all_messages] return what they
    return on the store as it is and leave the same records. *)
Theorem listing_order_irrelevant {imports : Imports} (self : MessageStore)
    (fs' : filesystem) :
  wf_store self = true -> relisted (_directory self) fs' ->
  let other :=
    mkstore (_directory_size self) (_schemas self) (_persist self) fs' in
  wf_store other = true
  /\ view (_directory other) = view (_directory self)
  /\ (forall max,
         snd (get_pending_messages max other) =
         snd (get_pending_messages max self)
         /\ view (_directory (fst (get_pending_messages max other))) =
            view (_directory (fst (get_pending_messages max self))))
  /\ snd (count_pending_messages other) = snd (count_pending_messages self)
  /\ (forall message_id,
         snd (is_pending message_id other) = snd (is_pending message_id self))
  /\ (snd (delete_old_messages other) = snd (delete_old_messages self)
      /\ view (_directory (fst (delete_old_messages other))) =
         view (_directory (fst (delete_old_messages self))))
  /\ (snd (delete_all_messages other) = snd (delete_all_messages self)
      /\ view (_directory (fst (delete_all_messages other))) =
         view (_directory (fst (delete_all_messages self)))).
Proof.
  intros Hwf Hr other.
  destruct (relisted_view _ _ Hwf Hr) as [Hwf' Hv].
  assert (Hwfo : wf_store other = true) by exact Hwf'.
  assert (Hvo : view (_directory other) = view (_directory self))
    by exact Hv.
  split; [exact Hwfo|]. split; [exact Hvo|].
  apply (same_records_same_answers other self Hwfo Hwf Hvo). reflexivity.
Qed.

Lemma listing_order_irrelevant_witness :
  let fs' :=
    mkfs [("0"%string,
           [Example.record "2" "c" 3; Example.record "0" "a" 1;
            Example.record "1" "b" 2])] 4 in
  let other :=
    mkstore (_directory_size Example.three_records)
      (_schemas Example.three_records) (_persist Example.three_records)
      fs' in
  wf_store Example.three_records = true
  /\ relisted (_directory Example.three_records) fs'
  /\ snd (get_pending_messages (imports := Example.toy_imports) None other) =
     snd (get_pending_messages (imports := Example.toy_imports) None
            Example.three_records).
Proof.
  intros fs' other.
  assert (Hr : relisted (_directory Example.three_records) fs').
  { split; [reflexivity|].
    exists (shards (_directory Example.three_records)).
    split; [apply Permutation.Permutation_refl|].
    constructor; [|constructor]. split; [reflexivity|].
    cbn [snd Example.three_records _directory shards].
    apply Permutation.Permutation_sym.
    apply (Permutation.Permutation_cons_app
             [Example.record "0" "a" 1; Example.record "1" "b" 2] []).
    apply Permutation.Permutation_refl. }
  split; [reflexivity|]. split; [exact Hr|].
  destruct (listing_order_irrelevant (imports := Example.toy_imports)
              Example.three_records fs' eq_refl Hr)
    as (_ & _ & H & _).
  exact (proj1 (H None)).
Defined.
